(* ===== verification/_CoqProject ===== *)
-Q . S2P
Prelude.v
GoStrings.v
Regexp.v
GoTime.v
Sha256.v
Json.v
Utf8.v
JsonDecode.v
JsonRoundTrip.v
JsonStruct.v
Api.v
K8s.v
K8sClient.v
Cluster.v
Diagnostics.v
StatusSummary.v
Resources.v
Rbac.v
NetPol.v
Observability.v
Controller.v
ControllerSpec.v
Fixtures.v
Validation.v
ObjectWitnesses.v
ControllerProps.v
Watches.v
Auth.v
AuthProps.v
Lifecycle.v
LifecycleProps.v
Permissions.v
DeepCopy.v
System.v
KeepAlive.v
FirstLogin.v
GoFloat.v
RateLimit.v
Proxy.v
ProxyProps.v
SessionRecording.v
SessionRecordingProps.v
Session.v
SessionProps.v
SessionRecords.v
SessionWitnesses.v
RecordFiles.v
RecordAudit.v
AuditLog.v
GatewayHttp.v
GatewayConfig.v
ResponseBodies.v
GatewayHttpProps.v
GatewayAnswers.v
GatewayWitnesses.v
FirstTerminal.v
Metrics.v
GatewayMain.v
GatewayProcess.v
OperatorMain.v
