(* ===== verification/Prelude.v ===== *)
(** * DevPlane: a verification development

    DevPlane gives every user of a cluster a browser terminal in a workspace pod
    of their own.  Two programs share one custom resource, the Workspace:

    - the operator ([main.go], [controllers/], [pkg/workspace], [pkg/security],
      [pkg/observability]) reconciles a Workspace: it validates it, keeps its
      ServiceAccount, Role, RoleBinding, NetworkPolicies, volume, Pod and
      Service, stops it when it is idle, and reports its phase;
    - the gateway ([cmd/gateway], [pkg/gateway]) authenticates users with OIDC
      tokens, creates or wakes their Workspace, and proxies the browser and the
      terminal's WebSocket to the pod, with rate limits, audit lines and an
      optional hash-chained recording.

    They only interact through the Kubernetes API: the gateway creates
    Workspaces, clears the phase of stopped ones and stamps the last access;
    the operator writes everything else.

    ** Method

    Pure code is a function.  Code that talks to its environment is a [prog] (in
    this file): a tree of typed requests, with what the code does for every
    answer.  [exec p tr a] is a run with the answers in the trace [tr]; [post]
    and [safe] speak about all runs, in every environment; [run] executes the
    code against a given environment and evaluates the witnesses.  [embed] makes
    one component's program a part of a larger one.  Go errors are their text
    and the marks that [errors.Is] and the [apierrors] predicates look for;
    strings are byte strings; integers whose width matters carry their wrap or
    range check.  Goroutines that share state are a step relation over programs
    cut at their requests or critical sections.

    ** Files

    Standard library:
    - [GoStrings] ([strings], [strconv], UTF-8), [Regexp] (the two patterns),
      [GoTime] ([time], [ParseDuration] with its binary64 fractions), [GoFloat]
      ([ParseFloat]), [Sha256], [Json] (the encoder's text), [Utf8],
      [JsonDecode] (the decoder's grammar), [JsonRoundTrip] (what is encoded is
      decoded), [JsonStruct] (structs of scalars, lines, indentation).  Unicode
      tables are the class [UnicodeTables].

    Kubernetes:
    - [Api] (the Workspace type, [api/v1alpha1]), [DeepCopy] (the generated copies,
      over a heap), [K8s] (the objects the builders
      fill, and the class [K8sLib] of the library functions used), [K8sClient]
      (the requests [apiE]), [Cluster] (a fault-free cluster: the server stores
      instants in whole seconds and merges status patches field by field, the
      operator's reads come from its cache).

    Operator:
    - [Resources], [Rbac], [NetPol]: the builders and [ValidateSpec]
      ([pkg/workspace/resources.go], [pkg/security]), with the authorizer's and
      the NetworkPolicy API's semantics as references; [Validation]: what
      [ValidateSpec] accepts, in terms of what the operator does with it;
    - [Diagnostics], [StatusSummary], [Observability]: error details, status
      summaries, transition lines;
    - [Controller]: [Reconcile], cut at its comments into the functions it
      names; [ControllerSpec]: what each request of a run is justified by;
      [ControllerProps]: the theorems; [Watches]: [SetupWithManager] and the
      requests an event queues; [OperatorMain]: configuration and start;
    - [Permissions]: the roles both programs run with (Helm chart, generated
      role) against the requests they make, with the escalation check of a
      written Role (a Role that is left as it is is not checked).

    Gateway:
    - [Auth], [AuthProps]: user ids, the token cache with its critical sections,
      [Validate], error answers;
    - [Lifecycle], [LifecycleProps]: [EnsureExists], [EnsureWorkspace],
      [TouchLastAccessed];
    - [RateLimit]: the endpoint limiter over a token bucket (class
      [TokenBucket]), concurrent requests interleaved at its atomic asks;
    - [Proxy], [ProxyProps]: backend URLs, the copying goroutines, the tunnel;
    - [SessionRecording], [SessionRecordingProps]: the recorder;
    - [Session]: a WebSocket session, the two goroutines with their callbacks over
      the shared [lastTouch], Workspace and recorder, statement by statement, and
      the handler that closes the recorder; [SessionProps] (it runs the tunnel, the
      stamps and the recorder together), [SessionRecords] (what is recorded), [SessionWitnesses];
    - [RecordFiles]: the record file byte for byte, with writes that fail part way;
      [RecordAudit]: the manifest on disk and an audit of the two files;
    - [AuditLog], [GatewayHttp]: audit lines and the HTTP handlers, against the
      interface [tokenValidator] with its two instances;
      [GatewayHttpProps], [GatewayAnswers]: their theorems;
    - [GatewayConfig]: the environment and the provider list; [GatewayMain]: the
      mux and the handler each request reaches; [GatewayProcess]: start-up, serving,
      signals and shutdown, on one clock with the sessions; [ResponseBodies]: the bytes of the answers, with the
      loading page's template and its escaping.

    Both: [Metrics] (the Prometheus counters); [System] runs any number of
    operator and gateway requests interleaved over one cluster, with refusals of
    the server and a cache that may lag; [KeepAlive] adds the stamps of open
    sessions and time that counts; [FirstLogin] lets the operator work while the
    gateway waits, [FirstTerminal] follows the WebSocket request over it, in any
    world whose limiter, probe, upgrade and dial answer as its hypotheses say.  [Fixtures], [ObjectWitnesses] and
    [GatewayWitnesses] hold the concrete inputs.

    ** What the theorems show

    - Isolation and hardening: a Pod is created only after RBAC and network
      policies are in place; the policies open exactly the intended traffic; the
      Pod is hardened; the Role is read-only.
    - Truthful status and progress: Running, Stopped and deletions only for
      cause; a new Workspace converges, and a first request ends in an open terminal;
      a workspace in use is never stopped; every run ends, asks to be called again
      or is settled, and what it made wakes it; the metrics say what happened;
      the roles allow what is asked for.
    - Authentication: claims come from a token the verifier accepted; a cached token
      is accepted for five minutes, if it is not evicted for room, and no longer;
      the cache stays coherent under concurrency.
    - Authorisation end to end: once started from its environment, on whatever
      path, the gateway does not touch the API server, the backend or the
      recorder before the request's own token was validated and, where limited,
      admitted; and then only the caller's own Workspace.
    - Contracts: the Workspaces the gateway creates are those the operator
      accepts; the provider list is read back as it was written; a deep copy is
      a snapshot.
    - The login flow, the answers (exactly one for every request, but for one panic), the rate
      limiter's refinement of independent buckets, the tunnel's transparency,
      the recording's hash chain, all under every interleaving; its files, read
      back from their bytes, replay the session and show tampering; the loading
      page shows user-chosen text and runs none of it; how the process ends.
    - Where the code does not do what it says: [System] (a stale workspace never
      runs again), [AuthProps] (user ids collide; concurrent misses leave an
      orphan), [ProxyProps] (swapped directions), [GatewayAnswers] (missing end
      event; a panic on an endpoint that is no URL), [GatewayConfig] (quantities that
      nobody checks), [Validation] (provider names need not be unique), [RateLimit]
      (a global rate without burst), [RecordAudit] (a manifest lost without notice,
      payloads outside the hash chain), [SessionWitnesses] (one
      failed write ends the recording, a frame lost at the close, two stamps at
      once, a stamp that writes the phase), [Permissions] (the generated role is not enough),
      [GatewayProcess] (sessions are cut at shutdown).

    ** Fuel and bounds

    [waitLoop] has fuel: 31 rounds are enough for its sixty-second deadline and
    two-second polls ([EnsureWorkspace_ends]); [make_room] is given the
    length of the list it shortens; the item loop of [ParseDuration] and the
    blocks of SHA-256 are given the length of their input; the JSON parser gets
    more than twice the length of the text, beyond which fuel makes no
    difference ([parse_fuel]).  Time in [KeepAlive] is bounded by three parameters:
    a stamp lands at least every [S], a goroutine takes at most [D] between waits,
    the operator's cache is at most [L] behind.  The loop of a
    copying goroutine does not end by itself and has no fuel: it is a step
    relation.

    ** What is not modelled

    Libraries: the OIDC verifier, the token bucket, controller-runtime's manager
    (its watches are modelled as documented), exposition of the metrics, the
    WebSocket and HTTP implementations, the library part of a deep copy.  Scheme
    registration.  Of the programs: log lines that are not audit lines.  The
    template parser knows the actions the loading page uses (fields), and the
    browser of [ResponseBodies] knows tags, quotes and the page's character
    references.  In [FirstLogin] a run of the operator is one step on a current
    cache; interleaved requests and stale reads are the subject of [System] and
    [KeepAlive].  Where goroutines race ([Session]), an assignment such as
    [lastTouch = time.Now()] and the arrival of an answer in the shared Workspace are
    one step each.  Nil and empty slices are not told apart ([Resources], [DeepCopy]).
    The process of [GatewayProcess] takes signals from when it serves.

    ** Plan

    Next: the interval [S] of [KeepAlive] from the frames of a session; interleaved
    requests of the operator in [FirstLogin]. *)
From stdpp Require Export base strings pretty list gmap.
From Stdlib Require Export Ascii.

Create HintDb devplane.
Create Rewrite HintDb devplane.
Declare Scope go_scope.
Delimit Scope go_scope with go.
Open Scope go_scope.

(** ** Go strings

    A Go string is a sequence of bytes: a [string] of the standard library
    (one [ascii] per byte).  Functions that scan it work on the list of its
    bytes. *)
Abbreviation bytes := (list ascii).

Definition bytes_of (s : string) : bytes := String.list_ascii_of_string s.
Definition of_bytes (b : bytes) : string := String.string_of_list_ascii b.

(** [len(s)]. *)
Definition len (s : string) : nat := String.length s.

Lemma of_bytes_of s : of_bytes (bytes_of s) = s.
Proof. apply String.string_of_list_ascii_of_string. Qed.

Lemma bytes_of_of b : bytes_of (of_bytes b) = b.
Proof. apply String.list_ascii_of_string_of_list_ascii. Qed.

Lemma bytes_of_app s t : bytes_of (s +:+ t) = bytes_of s ++ bytes_of t.
Proof.
  induction s as [|c s IH]; [done|].
  change (c :: bytes_of (s +:+ t) = c :: bytes_of s ++ bytes_of t). by rewrite IH.
Qed.

Lemma of_bytes_app a b : of_bytes (a ++ b) = of_bytes a +:+ of_bytes b.
Proof. unfold of_bytes. induction a as [|c a IH]; cbn; [done|by rewrite IH]. Qed.

Lemma bytes_of_inj s t : bytes_of s = bytes_of t → s = t.
Proof. intros H. by rewrite <- (of_bytes_of s), H, of_bytes_of. Qed.

Lemma len_bytes s : len s = length (bytes_of s).
Proof. unfold len, bytes_of. induction s; cbn; auto. Qed.

Lemma len_of_bytes b : len (of_bytes b) = length b.
Proof. by rewrite len_bytes, bytes_of_of. Qed.

Lemma len_app s t : len (s +:+ t) = len s + len t.
Proof. by rewrite !len_bytes, bytes_of_app, length_app. Qed.

Lemma bytes_of_nil s : bytes_of s = [] ↔ s = "".
Proof. by destruct s. Qed.

#[export] Hint Rewrite of_bytes_of bytes_of_of bytes_of_app len_of_bytes len_app
  length_app : devplane.

(** ** Errors

    A Go [error] is what the code can observe of it: its text ([Error()]) and
    the marks that [errors.Is], [errors.As] and the [apierrors] predicates find
    in its chain of wrapped errors. *)
Inductive errmark :=
  (** the [Reason] of an API status error *)
  | ReasonNotFoundMark | ReasonForbiddenMark | ReasonTimeoutMark
  | ReasonServiceUnavailableMark
  (** [context.DeadlineExceeded], [context.Canceled] *)
  | DeadlineExceeded | Canceled
  (** the gateway's sentinel errors *)
  | ErrUnauthorized | ErrForbidden | ErrTokenExpired
  (** go-oidc's [*TokenExpiredError] *)
  | TokenExpiredError.

#[export] Instance errmark_eq_dec : EqDecision errmark.
Proof. solve_decision. Defined.

Record error := MkError { Error : string; chain : list errmark }.
#[export] Instance error_eq_dec : EqDecision error.
Proof. solve_decision. Defined.

(** [errors.New]. *)
Definition errors_new (msg : string) : error := MkError msg [].

(** [fmt.Errorf("<prefix>%w", e)]: the chain of [e] stays reachable. *)
Definition errorf_w (prefix : string) (e : error) : error :=
  MkError (prefix +:+ Error e) (chain e).

Definition err_has (m : errmark) (e : error) : bool := bool_decide (m ∈ chain e).

Definition IsNotFound : error → bool := err_has ReasonNotFoundMark.
Definition IsForbidden : error → bool := err_has ReasonForbiddenMark.
Definition IsTimeout : error → bool := err_has ReasonTimeoutMark.
Definition IsServiceUnavailable : error → bool := err_has ReasonServiceUnavailableMark.

Lemma err_has_wrap m p e : err_has m (errorf_w p e) = err_has m e.
Proof. done. Qed.

Inductive result (A : Type) := Ok (a : A) | Err (e : error).
Arguments Ok {A} a.
Arguments Err {A} e.

#[export] Instance result_ret : MRet result := λ A a, Ok a.
#[export] Instance result_bind : MBind result := λ A B f m,
  match m with Ok a => f a | Err e => Err e end.

Definition is_ok {A} (r : result A) : bool :=
  match r with Ok _ => true | Err _ => false end.
Definition err_of {A} (r : result A) : option error :=
  match r with Ok _ => None | Err e => Some e end.

Lemma result_bind_ok {A B} (f : A → result B) m b :
  (m ≫= f) = Ok b ↔ ∃ a, m = Ok a ∧ f a = Ok b.
Proof.
  destruct m as [a|e]; cbn; split; intros Hm; [eauto| |done|];
    by destruct Hm as (? & [= <-] & ?).
Qed.

(** ** Growing histories *)

Lemma sub_snoc {A} (h tr : list A) : h ⊆ h ++ tr.
Proof. intros x Hx. apply elem_of_app. by left. Qed.
Lemma in_snoc {A} (h : list A) c : c ∈ h ++ [c].
Proof. apply elem_of_app. right. by left. Qed.
Lemma in_app_l {A} (x : A) h tr : x ∈ h → x ∈ h ++ tr.
Proof. intros. apply elem_of_app. by left. Qed.
#[export] Hint Resolve sub_snoc in_snoc in_app_l : devplane.

(** ** Effectful code

    Code that talks to its environment (the Kubernetes API, the clock, a
    socket) is a tree of requests: a node is a request of type [E X] with what
    the code does for each answer of type [X].  The environment is arbitrary;
    the code between two requests is pure. *)
Inductive prog (E : Type → Type) (A : Type) : Type :=
  | Return (a : A)
  | Request (X : Type) (e : E X) (k : X → prog E A).
Arguments Return {E A} a.
Arguments Request {E A X} _ _.

Fixpoint prog_bind {E A B} (f : A → prog E B) (p : prog E A) : prog E B :=
  match p with
  | Return a => f a
  | Request e k => Request e (λ x, prog_bind f (k x))
  end.

#[export] Instance prog_mret {E} : MRet (prog E) := λ A a, Return a.
#[export] Instance prog_mbind {E} : MBind (prog E) := λ A B f p, prog_bind f p.

Definition request {E X} (e : E X) : prog E X := Request e Return.

(** One request with its answer; a run of the code leaves a list of them. *)
Inductive call (E : Type → Type) : Type :=
  | Call (X : Type) (e : E X) (x : X).
Arguments Call {E X} _ _.

(** [exec p tr a]: in some environment [p] makes the requests of [tr], gets the
    answers recorded there, and returns [a]. *)
Fixpoint exec {E A} (p : prog E A) (tr : list (call E)) (a : A) : Prop :=
  match p with
  | Return b => tr = [] ∧ a = b
  | Request e k => ∃ x tr', tr = Call e x :: tr' ∧ exec (k x) tr' a
  end.

(** [post p Q]: whatever the environment answers, the requests made and the
    value returned satisfy [Q]. *)
Fixpoint post {E A} (p : prog E A) (Q : list (call E) → A → Prop) : Prop :=
  match p with
  | Return a => Q [] a
  | Request e k => ∀ x, post (k x) (λ tr a, Q (Call e x :: tr) a)
  end.

(** Running the code in an environment that keeps a state [S]. *)
Fixpoint run {E S A} (h : ∀ X, E X → S → X * S) (p : prog E A) (s : S) : A * S :=
  match p with
  | Return a => (a, s)
  | Request e k => let '(x, s') := h _ e s in run h (k x) s'
  end.

(** The requests made by that run. *)
Fixpoint run_trace {E S A} (h : ∀ X, E X → S → X * S) (p : prog E A) (s : S) :
    list (call E) :=
  match p with
  | Return _ => []
  | Request e k => let '(x, s') := h _ e s in Call e x :: run_trace h (k x) s'
  end.

Section prog_lemmas.
Context {E : Type → Type}.

Lemma post_exec {A} (p : prog E A) Q :
  post p Q ↔ ∀ tr a, exec p tr a → Q tr a.
Proof.
  revert Q. induction p as [b|X e k IH]; intros Q; cbn.
  - split; [by intros ? ? ? [-> ->] | eauto].
  - split.
    + intros H tr a (x & tr' & -> & Hx). exact (proj1 (IH x _) (H x) _ _ Hx).
    + intros H x. apply IH. eauto.
Qed.

Lemma exec_post {A} (p : prog E A) Q tr a : exec p tr a → post p Q → Q tr a.
Proof. intros Ha Hp. by apply (proj1 (post_exec p Q)). Qed.

Lemma exec_request {X A} (e : E X) (f : X → prog E A) tr a :
  exec (request e ≫= f) tr a ↔ ∃ x tr', tr = Call e x :: tr' ∧ exec (f x) tr' a.
Proof. done. Qed.

Lemma exec_bind {A B} (p : prog E A) (f : A → prog E B) tr b :
  exec (p ≫= f) tr b ↔ ∃ tr1 a tr2, tr = tr1 ++ tr2 ∧ exec p tr1 a ∧ exec (f a) tr2 b.
Proof.
  revert tr. induction p as [c|X e k IH]; intros tr; cbn.
  - split; [intros; by exists [], c, tr|by intros (? & ? & ? & -> & [-> ->] & ?)].
  - split.
    + intros (x & tr' & -> & (tr1 & a & tr2 & -> & Hk & Hf)%IH).
      exists (Call e x :: tr1), a, tr2. eauto 10.
    + intros (tr1 & a & tr2 & -> & (x & tr' & -> & Hk) & Hf).
      exists x, (tr' ++ tr2). split; [done|]. apply IH. eauto 10.
Qed.

Lemma run_exec {S A} h (p : prog E A) (s : S) :
  exec p (run_trace h p s) (run h p s).1.
Proof.
  revert s. induction p as [b|X e k IH]; intros s; cbn; [done|].
  destruct (h X e s) as [x s'] eqn:Hh. eauto.
Qed.

Lemma run_bind {S A B} h (p : prog E A) (f : A → prog E B) (s : S) :
  run h (p ≫= f) s = let '(a, s') := run h p s in run h (f a) s'.
Proof.
  revert s. induction p as [b|X e k IH]; intros s; cbn; [done|].
  destruct (h X e s) as [x s']. apply IH.
Qed.

Lemma run_next {S X A} (h : ∀ X, E X → S → X * S) (e : E X) (f : X → prog E A) s x s' :
  h X e s = (x, s') → run h (request e ≫= f) s = run h (f x) s'.
Proof. intros Hs. rewrite run_bind. cbn. by rewrite Hs. Qed.

Lemma post_mono {A} (p : prog E A) (Q Q' : list (call E) → A → Prop) :
  post p Q → (∀ tr a, Q tr a → Q' tr a) → post p Q'.
Proof. rewrite !post_exec. eauto. Qed.

Lemma post_bind {A B} (p : prog E A) (f : A → prog E B) Q :
  post (p ≫= f) Q ↔ post p (λ tr a, post (f a) (λ tr' b, Q (tr ++ tr') b)).
Proof.
  revert Q. induction p as [b|X e k IH]; intros Q; cbn; [done|].
  split; intros H x; apply (IH x (λ tr b, Q (Call e x :: tr) b)), H.
Qed.

Lemma post_request {X} (e : E X) Q : post (request e) Q ↔ ∀ x, Q [Call e x] x.
Proof. done. Qed.

(** Every request of every run satisfies [P]. *)
Definition always {A} (P : call E → Prop) (p : prog E A) : Prop :=
  post p (λ tr _, Forall P tr).

Lemma always_return {A} P (a : A) : always P (Return a).
Proof. constructor. Qed.

Lemma always_request {A X} (P : call E → Prop) (e : E X) (k : X → prog E A) :
  (∀ x, P (Call e x)) → (∀ x, always P (k x)) → always P (Request e k).
Proof.
  unfold always. intros H1 H2 x. eapply post_mono; [apply H2|].
  intros; cbn; constructor; eauto.
Qed.

Lemma always_bind {A B} P (p : prog E A) (f : A → prog E B) :
  always P p → (∀ a, always P (f a)) → always P (p ≫= f).
Proof.
  unfold always. intros H1 H2. apply post_bind. eapply post_mono; [apply H1|].
  intros tr a Htr. eapply post_mono; [apply H2|].
  intros tr' b Htr'. by apply Forall_app.
Qed.

(** [safe P h p]: after the requests of [h], every request of every run of [p]
    satisfies [P], which is given what was requested and answered before. *)
Fixpoint safe {A} (P : list (call E) → call E → Prop) (h : list (call E)) (p : prog E A) : Prop :=
  match p with
  | Return _ => True
  | Request e k => ∀ x, P h (Call e x) ∧ safe P (h ++ [Call e x]) (k x)
  end.

Lemma safe_bind {A B} P h (p : prog E A) (f : A → prog E B) :
  safe P h p → (∀ tr a, exec p tr a → safe P (h ++ tr) (f a)) → safe P h (p ≫= f).
Proof.
  revert h. induction p as [b|X e k IH]; intros h Hp Hf.
  - cbn. rewrite <- (app_nil_r h). by apply Hf.
  - cbn. intros x. destruct (Hp x) as [HP Hk]. split; [done|]. apply IH; [done|].
    intros tr a Ha. rewrite <- app_assoc. apply Hf. exists x, tr. done.
Qed.

Lemma safe_request {A X} P h (e : E X) (f : X → prog E A) :
  (∀ x, P h (Call e x)) → (∀ x, safe P (h ++ [Call e x]) (f x)) →
  safe P h (request e ≫= f).
Proof. intros HP Hf x. split; [apply HP | apply Hf]. Qed.

Lemma safe_elim {A} P h (p : prog E A) tr a tr1 c tr2 :
  safe P h p → exec p tr a → tr = tr1 ++ c :: tr2 → P (h ++ tr1) c.
Proof.
  revert h tr tr1. induction p as [b|X e k IH]; intros h tr tr1 Hs Hex Htr.
  - destruct Hex as [-> _]. by destruct tr1.
  - destruct Hex as (x & tr' & -> & Hex). destruct (Hs x) as [HP Hk].
    destruct tr1 as [|c1 tr1]; injection Htr as <- ->.
    + by rewrite app_nil_r.
    + specialize (IH x _ _ tr1 Hk Hex eq_refl). by rewrite <- app_assoc in IH.
Qed.

(** [asks p h c]: some run of [p] makes the call [c] right after those of [h]. *)
Definition asks {A} (p : prog E A) (h : list (call E)) (c : call E) : Prop :=
  ∃ tr a, exec p (h ++ c :: tr) a.

Lemma safe_asks {A} P (p : prog E A) h c : safe P [] p → asks p h c → P h c.
Proof. intros Hs (tr & a & Ha). exact (safe_elim _ _ _ _ _ _ _ _ Hs Ha eq_refl). Qed.

Lemma run_asks {S A} (f : ∀ X, E X → S → X * S) (p : prog E A) s n c :
  run_trace f p s !! n = Some c → asks p (take n (run_trace f p s)) c.
Proof.
  intros Hn. exists (drop (Datatypes.S n) (run_trace f p s)), (run f p s).1.
  rewrite (take_drop_middle _ _ _ Hn). apply run_exec.
Qed.
End prog_lemmas.

(** ** Components as parts of a larger program *)

Section embedding.
Context {E F : Type → Type} (emb : ∀ X, E X → F X).

(** The requests of one component, as requests of the whole. *)
Fixpoint embed {A} (p : prog E A) : prog F A :=
  match p with
  | Return a => Return a
  | Request e k => Request (emb _ e) (λ x, embed (k x))
  end.

Definition embed_call (c : call E) : call F := match c with Call e x => Call (emb _ e) x end.

Lemma exec_embed {A} (p : prog E A) tr a :
  exec (embed p) tr a ↔ ∃ tr0, tr = map embed_call tr0 ∧ exec p tr0 a.
Proof.
  revert tr. induction p as [b|X e k IH]; intros tr; cbn.
  - split; [intros [-> ->]; by exists []|by intros (? & -> & -> & ->)].
  - split.
    + intros (x & tr' & -> & (tr0 & -> & H0)%IH). exists (Call e x :: tr0). eauto.
    + intros (tr0 & -> & x & tr' & -> & H0). exists x, (map embed_call tr'). split; [done|].
      apply IH. eauto.
Qed.

Lemma safe_embed {A} (P : list (call E) → call E → Prop) (Q : list (call F) → call F → Prop)
    h0 h (p : prog E A) :
  safe P h0 p → (∀ t c, P (h0 ++ t) c → Q (h ++ map embed_call t) (embed_call c)) → safe Q h (embed p).
Proof.
  revert h0 h. induction p as [b|X e k IH]; intros h0 h Hp Hq; [done|]. cbn. intros x.
  destruct (Hp x) as [H1 H2]. split.
  - specialize (Hq [] (Call e x)). rewrite !app_nil_r in Hq. by apply Hq.
  - apply (IH x (h0 ++ [Call e x])); [done|]. intros t c Hc. rewrite <- app_assoc in *. by apply (Hq (Call e x :: t)).
Qed.
End embedding.

(** Requests carried out by programs of another interface. *)
Fixpoint interp {E F A} (h : ∀ X, E X → prog F X) (p : prog E A) : prog F A :=
  match p with
  | Return a => Return a
  | Request e k => prog_bind (λ x, interp h (k x)) (h _ e)
  end.

Lemma safe_mono {E A} (P Q : list (call E) → call E → Prop) h (p : prog E A) :
  safe P h p → (∀ h c, P h c → Q h c) → safe Q h p.
Proof.
  intros Hp HQ. revert h Hp. induction p as [b|X e k IH]; intros h Hp; [done|]. cbn in *.
  intros x. destruct (Hp x). auto.
Qed.

Lemma safe_true {E A} h (p : prog E A) : safe (λ _ _, True) h p.
Proof. revert h. induction p as [b|X e k IH]; intros h; [done|]. by intros x. Qed.
