(* ===== verification/GoStrings.v ===== *)
(** * The Go standard library's string functions

    [strings], [unicode/utf8], [strconv] and [regexp] as the repository uses
    them, on byte strings.  The two Unicode tables that matter ([unicode.ToLower]
    and [strconv.IsPrint] above U+007F) are parameters, [UnicodeTables]: no
    theorem depends on their contents. *)
From S2P Require Import Prelude.
From Stdlib Require Import ZArith Lia.

(** ** Bytes *)

Definition bval (c : ascii) : Z := Z.of_N (N_of_ascii c).
Definition byte_of (z : Z) : ascii := ascii_of_N (Z.to_N (z mod 256)).

Lemma byte_of_bval c : byte_of (bval c) = c.
Proof. destruct c as [[] [] [] [] [] [] [] []]; reflexivity. Qed.

Lemma bval_range c : (0 <= bval c < 256)%Z.
Proof. destruct c as [[] [] [] [] [] [] [] []]; vm_compute; split; congruence. Qed.

Definition in_range (lo hi : Z) (c : ascii) : bool := (lo <=? bval c)%Z && (bval c <=? hi)%Z.
Definition is_lower : ascii → bool := in_range 97 122.
Definition is_upper : ascii → bool := in_range 65 90.
Definition is_digit : ascii → bool := in_range 48 57.
Definition is_alnum (c : ascii) : bool := is_lower c || is_digit c.
Definition is_ascii : ascii → bool := in_range 0 127.

Definition dash : ascii := "-".

Lemma is_alnum_dash : is_alnum dash = false.
Proof. done. Qed.

(** ** Trimming a list at its ends *)

Fixpoint drop_while {A} (P : A → bool) (l : list A) : list A :=
  match l with
  | [] => []
  | x :: l' => if P x then drop_while P l' else l
  end.

Definition drop_while_end {A} (P : A → bool) (l : list A) : list A :=
  reverse (drop_while P (reverse l)).

Section drop_while.
Context {A : Type} (P : A → bool).

Lemma drop_while_suffix l : ∃ pre, l = pre ++ drop_while P l ∧ Forall (λ x, P x = true) pre.
Proof.
  induction l as [|x l (pre & E & F)]; [by exists []|]. cbn.
  destruct (P x) eqn:Px; [|by exists []].
  exists (x :: pre). split; [by rewrite E at 1 | by constructor].
Qed.

Lemma drop_while_head l x l' : drop_while P l = x :: l' → P x = false.
Proof.
  induction l as [|y l IH]; cbn; [done|]. destruct (P y) eqn:Py; [done|].
  by intros [= -> ->].
Qed.

Lemma drop_while_id l : (∀ x l', l = x :: l' → P x = false) → drop_while P l = l.
Proof. destruct l as [|x l]; cbn; [done|]. intros H. by rewrite (H x l). Qed.

Lemma drop_while_end_prefix l : ∃ post, l = drop_while_end P l ++ post ∧ Forall (λ x, P x = true) post.
Proof.
  destruct (drop_while_suffix (reverse l)) as (pre & E & F).
  exists (reverse pre). split; [|by apply Forall_reverse].
  unfold drop_while_end. by rewrite <- reverse_app, <- E, reverse_involutive.
Qed.

Lemma drop_while_end_last l l' x : drop_while_end P l = l' ++ [x] → P x = false.
Proof.
  unfold drop_while_end. intros H%(f_equal reverse).
  rewrite reverse_involutive, reverse_snoc in H. by eapply drop_while_head.
Qed.

Lemma drop_while_end_id l : (∀ x l', l = l' ++ [x] → P x = false) → drop_while_end P l = l.
Proof.
  intros H. unfold drop_while_end. rewrite drop_while_id; [apply reverse_involutive|].
  intros x l' E%(f_equal reverse). rewrite reverse_involutive, reverse_cons in E. eauto.
Qed.

Lemma drop_while_Forall (Q : A → Prop) l : Forall Q l → Forall Q (drop_while P l).
Proof.
  intros H. destruct (drop_while_suffix l) as (pre & E & _).
  rewrite E in H. by apply Forall_app in H as [_ ?].
Qed.

Lemma drop_while_end_Forall (Q : A → Prop) l : Forall Q l → Forall Q (drop_while_end P l).
Proof. intros. by apply Forall_reverse, drop_while_Forall, Forall_reverse. Qed.

Lemma length_drop_while_end l : length (drop_while_end P l) ≤ length l.
Proof.
  destruct (drop_while_end_prefix l) as (post & E & _).
  rewrite E at 2. rewrite length_app. lia.
Qed.

(** Trimming the end keeps the first element when that element stays. *)
Lemma drop_while_end_cons x l : P x = false → ∃ l', drop_while_end P (x :: l) = x :: l'.
Proof.
  intros Px. destruct (drop_while_end_prefix (x :: l)) as (post & E & F).
  destruct (drop_while_end P (x :: l)) as [|y l']; cbn in E.
  - subst post. inversion F. congruence.
  - injection E as <- _. eauto.
Qed.
End drop_while.

(** ** UTF-8

    [decode_runes] splits a byte string the way [range s] does: each element is
    a rune with the bytes it came from; an invalid byte is [RuneError] of
    width 1. *)
Definition RuneError : Z := 65533.

Definition cont (c : ascii) : bool := in_range 128 191 c.
Definition cont6 (c : ascii) : Z := Z.land (bval c) 63.

Definition ok2 (b0 b1 : ascii) : bool := in_range 194 223 b0 && cont b1.
Definition ok3 (b0 b1 b2 : ascii) : bool :=
  let v := bval b0 in
  (if (v =? 224)%Z then in_range 160 191 b1
   else if (v =? 237)%Z then in_range 128 159 b1
   else in_range 225 239 b0 && cont b1) && cont b2.
Definition ok4 (b0 b1 b2 b3 : ascii) : bool :=
  let v := bval b0 in
  (if (v =? 240)%Z then in_range 144 191 b1
   else if (v =? 244)%Z then in_range 128 143 b1
   else in_range 241 243 b0 && cont b1) && cont b2 && cont b3.

Definition rune2 (b0 b1 : ascii) : Z := Z.lor (Z.shiftl (Z.land (bval b0) 31) 6) (cont6 b1).
Definition rune3 (b0 b1 b2 : ascii) : Z :=
  Z.lor (Z.shiftl (Z.land (bval b0) 15) 12) (Z.lor (Z.shiftl (cont6 b1) 6) (cont6 b2)).
Definition rune4 (b0 b1 b2 b3 : ascii) : Z :=
  Z.lor (Z.shiftl (Z.land (bval b0) 7) 18)
    (Z.lor (Z.shiftl (cont6 b1) 12) (Z.lor (Z.shiftl (cont6 b2) 6) (cont6 b3))).

Fixpoint decode_runes (s : bytes) : list (Z * bytes) :=
  match s with
  | [] => []
  | b0 :: s0 =>
    if is_ascii b0 then (bval b0, [b0]) :: decode_runes s0 else
    match s0 with
    | [] => [(RuneError, [b0])]
    | b1 :: s1 =>
      if ok2 b0 b1 then (rune2 b0 b1, [b0; b1]) :: decode_runes s1 else
      match s1 with
      | [] => (RuneError, [b0]) :: decode_runes s0
      | b2 :: s2 =>
        if ok3 b0 b1 b2 then (rune3 b0 b1 b2, [b0; b1; b2]) :: decode_runes s2 else
        match s2 with
        | [] => (RuneError, [b0]) :: decode_runes s0
        | b3 :: s3 =>
          if ok4 b0 b1 b2 b3 then (rune4 b0 b1 b2 b3, [b0; b1; b2; b3]) :: decode_runes s3
          else (RuneError, [b0]) :: decode_runes s0
        end
      end
    end
  end.

(** [utf8.AppendRune]. *)
Definition encode_rune (r0 : Z) : bytes :=
  let r := if (r0 <? 0)%Z || (1114111 <? r0)%Z || ((55296 <=? r0)%Z && (r0 <=? 57343)%Z)
           then RuneError else r0 in
  let low k := Z.lor 128 (Z.land (Z.shiftr r k) 63) in
  if (r <? 128)%Z then [byte_of r]
  else if (r <? 2048)%Z then [byte_of (Z.lor 192 (Z.shiftr r 6)); byte_of (low 0%Z)]
  else if (r <? 65536)%Z then
    [byte_of (Z.lor 224 (Z.shiftr r 12)); byte_of (low 6%Z); byte_of (low 0%Z)]
  else [byte_of (Z.lor 240 (Z.shiftr r 18)); byte_of (low 12%Z); byte_of (low 6%Z);
        byte_of (low 0%Z)].

(** The pieces [decode_runes] cuts are the whole string, in order. *)
Lemma decode_runes_concat s : concat (decode_runes s).*2 = s.
Proof.
  induction s as [s IH] using (induction_ltof1 _ (@length ascii)). unfold ltof in IH.
  destruct s as [|b0 s0]; [done|]. cbn.
  destruct (is_ascii b0); [cbn; by rewrite IH by (cbn; lia)|].
  destruct s0 as [|b1 s1]; [done|].
  destruct (ok2 b0 b1); [cbn; by rewrite IH by (cbn; lia)|].
  destruct s1 as [|b2 s2]; [cbn -[decode_runes]; by rewrite IH by (cbn; lia)|].
  destruct (ok3 b0 b1 b2); [cbn; by rewrite IH by (cbn; lia)|].
  destruct s2 as [|b3 s3]; [cbn -[decode_runes]; by rewrite IH by (cbn; lia)|].
  destruct (ok4 b0 b1 b2 b3); cbn -[decode_runes]; by rewrite IH by (cbn; lia).
Qed.

Class UnicodeTables := {
  (** [unicode.ToLower] on runes above U+007F. *)
  uni_to_lower : Z → Z;
  (** [strconv.IsPrint] on runes above U+007F. *)
  uni_is_print : Z → bool;
}.

(** Tables that are right on ASCII, for evaluation. *)
Definition ascii_tables : UnicodeTables := {|
  uni_to_lower r := r;
  uni_is_print r := false;
|}.

(** ** Package [strings] *)

Definition lower_byte (c : ascii) : ascii :=
  if is_upper c then byte_of (bval c + 32) else c.

(** [strings.ToLower]: bytewise on an ASCII string, rune by rune otherwise. *)
Definition ToLower `{UnicodeTables} (s : string) : string :=
  let b := bytes_of s in
  if forallb is_ascii b then of_bytes (map lower_byte b)
  else of_bytes (concat (map (λ '(r, piece),
         if (r <? 128)%Z then map lower_byte piece else encode_rune (uni_to_lower r))
       (decode_runes b))).

(** [unicode.IsSpace]. *)
Definition is_space (r : Z) : bool :=
  existsb (Z.eqb r) [9; 10; 11; 12; 13; 32; 133; 160; 5760; 8232; 8233; 8239; 8287; 12288]%Z
  || ((8192 <=? r) && (r <=? 8202))%Z.

(** [strings.TrimSpace]. *)
Definition TrimSpace (s : string) : string :=
  let P (p : Z * bytes) := is_space p.1 in
  of_bytes (concat (drop_while_end P (drop_while P (decode_runes (bytes_of s)))).*2).

(** [strings.Trim] and [strings.TrimRight] with a one-byte cutset. *)
Definition Trim (s : string) (c : ascii) : string :=
  of_bytes (drop_while_end (Ascii.eqb c) (drop_while (Ascii.eqb c) (bytes_of s))).
Definition TrimRight (s : string) (c : ascii) : string :=
  of_bytes (drop_while_end (Ascii.eqb c) (bytes_of s)).

(** [strings.HasPrefix], [strings.TrimPrefix], [strings.Contains]. *)
Fixpoint bytes_prefix (p s : bytes) : bool :=
  match p, s with
  | [], _ => true
  | a :: p', b :: s' => Ascii.eqb a b && bytes_prefix p' s'
  | _, _ => false
  end.
Fixpoint bytes_contains (s p : bytes) : bool :=
  bytes_prefix p s || match s with [] => false | _ :: s' => bytes_contains s' p end.

Definition HasPrefix (s p : string) : bool := bytes_prefix (bytes_of p) (bytes_of s).
Definition TrimPrefix (s p : string) : string :=
  if HasPrefix s p then of_bytes (drop (len p) (bytes_of s)) else s.
Definition Contains (s sub : string) : bool := bytes_contains (bytes_of s) (bytes_of sub).

(** [strings.Split(s, sep)] for a one-byte separator: never empty. *)
Fixpoint bytes_split (sep : ascii) (s : bytes) : list bytes :=
  match s with
  | [] => [[]]
  | c :: s' =>
    if Ascii.eqb sep c then [] :: bytes_split sep s'
    else match bytes_split sep s' with
         | [] => [[c]]
         | w :: ws => (c :: w) :: ws
         end
  end.
Definition Split (s : string) (sep : ascii) : list string :=
  map of_bytes (bytes_split sep (bytes_of s)).

(** Fields joined by a separator they do not contain split again. *)
Fixpoint bytes_join (sep : ascii) (fs : list bytes) : bytes :=
  match fs with
  | [] => []
  | [f] => f
  | f :: fs' => f ++ sep :: bytes_join sep fs'
  end.

Lemma split_app_sep sep f rest :
  Forall (λ c, c ≠ sep) f → bytes_split sep (f ++ sep :: rest) = f :: bytes_split sep rest.
Proof.
  induction 1 as [|c f Hc _ IH]; cbn; [by rewrite Ascii.eqb_refl|].
  rewrite (proj2 (Ascii.eqb_neq sep c)) by congruence. by rewrite IH.
Qed.

Lemma split_sep_free sep f : Forall (λ c, c ≠ sep) f → bytes_split sep f = [f].
Proof.
  induction 1 as [|c f Hc _ IH]; [done|]. cbn.
  rewrite (proj2 (Ascii.eqb_neq sep c)) by congruence. by rewrite IH.
Qed.

Lemma split_join sep fs :
  fs ≠ [] → Forall (Forall (λ c, c ≠ sep)) fs → bytes_split sep (bytes_join sep fs) = fs.
Proof.
  induction fs as [|f fs IH]; [done|]. intros _ Hfs. inversion Hfs as [|? ? Hf Hr]. subst.
  destruct fs as [|g fs]; [by apply split_sep_free|].
  change (bytes_join sep (f :: g :: fs)) with (f ++ sep :: bytes_join sep (g :: fs)).
  rewrite split_app_sep by done. by rewrite IH.
Qed.

(** ** Package [strconv] *)

Definition hex_digit (n : Z) : ascii := byte_of (if (n <? 10)%Z then 48 + n else 87 + n).
Definition hex_byte (c : ascii) : bytes :=
  [hex_digit (Z.shiftr (bval c) 4); hex_digit (Z.land (bval c) 15)].

(** [hex.EncodeToString]. *)
Definition EncodeToString (b : bytes) : string := of_bytes (concat (map hex_byte b)).

(** [n] hexadecimal digits of [r], most significant first. *)
Fixpoint hex_digits (n : nat) (r : Z) : bytes :=
  match n with
  | O => []
  | S m => hex_digit (Z.land (Z.shiftr r (4 * Z.of_nat m)) 15) :: hex_digits m r
  end.

Definition quote_rune `{UnicodeTables} (p : Z * bytes) : bytes :=
  let '(r, piece) := p in
  let bs := "\"%char in
  let esc c : bytes := [bs; c] in
  if (r =? RuneError)%Z && (length piece =? 1)%nat then
    esc "x"%char ++ concat (map hex_byte piece)
  else if (r =? 34)%Z || (r =? 92)%Z then bs :: piece
  else if (if (r <? 128)%Z then (32 <=? r)%Z && (r <? 127)%Z else uni_is_print r) then piece
  else if (r =? 7)%Z then esc "a"%char
  else if (r =? 8)%Z then esc "b"%char
  else if (r =? 12)%Z then esc "f"%char
  else if (r =? 10)%Z then esc "n"%char
  else if (r =? 13)%Z then esc "r"%char
  else if (r =? 9)%Z then esc "t"%char
  else if (r =? 11)%Z then esc "v"%char
  else if (r <? 32)%Z || (r =? 127)%Z then esc "x"%char ++ hex_digits 2 r
  else if (r <? 65536)%Z then esc "u"%char ++ hex_digits 4 r
  else esc "U"%char ++ hex_digits 8 r.

(** [strconv.Quote], the [%q] verb. *)
Definition Quote `{UnicodeTables} (s : string) : string :=
  let q := ascii_of_nat 34 in
  of_bytes (q :: concat (map quote_rune (decode_runes (bytes_of s))) ++ [q]).

(** A run of decimal digits; [None] on an empty run or another byte. *)
Fixpoint digits_val (acc : Z) (s : bytes) : option Z :=
  match s with
  | [] => Some acc
  | c :: s' => if is_digit c then digits_val (acc * 10 + (bval c - 48)) s' else None
  end.

(** [strconv.ParseInt(s, 10, bits)]: the value, or [None] for a syntax or range
    error (the callers only test for an error). *)
Definition ParseInt (s : string) (bits : Z) : option Z :=
  let '(neg, ds) :=
    match bytes_of s with
    | c :: s' => if Ascii.eqb c "-" then (true, s') else if Ascii.eqb c "+" then (false, s')
                 else (false, c :: s')
    | [] => (false, [])
    end in
  match ds with
  | [] => None
  | _ =>
    match digits_val 0 ds with
    | None => None
    | Some n =>
      let z := if (neg : bool) then (- n)%Z else n in
      if (- 2 ^ (bits - 1) <=? z)%Z && (z <? 2 ^ (bits - 1))%Z then Some z else None
    end
  end.

(** [strconv.Atoi] on a 64-bit platform. *)
Definition Atoi (s : string) : option Z := ParseInt s 64.

Lemma ParseInt_bounds s bits z :
  ParseInt s bits = Some z → (- 2 ^ (bits - 1) <= z < 2 ^ (bits - 1))%Z.
Proof.
  unfold ParseInt. repeat case_match; intros [= <-]; lia.
Qed.
