(* ===== verification/Regexp.v ===== *)
(** * Regular expressions over byte classes

    The part of package [regexp] the repository uses: an anchored match
    ([^...$], decided with derivatives and proved equal to the language of the
    expression) and [ReplaceAllString] for a pattern [[class]+].  The classes
    hold ASCII bytes only, so matching bytes and matching runes agree. *)
From S2P Require Import Prelude GoStrings.
From Stdlib Require Import Lia.

Inductive re :=
  | Nothing
  | Empty
  | Class_ (P : ascii → bool)
  | Cat (a b : re)
  | Alt (a b : re)
  | Star (a : re).

(** The language of an expression. *)
Inductive matches : re → bytes → Prop :=
  | m_empty : matches Empty []
  | m_class P c : P c = true → matches (Class_ P) [c]
  | m_cat a b s t : matches a s → matches b t → matches (Cat a b) (s ++ t)
  | m_alt_l a b s : matches a s → matches (Alt a b) s
  | m_alt_r a b s : matches b s → matches (Alt a b) s
  | m_star_nil a : matches (Star a) []
  | m_star_app a s t : matches a s → matches (Star a) t → matches (Star a) (s ++ t).
#[export] Hint Constructors matches : devplane.

Fixpoint nullable (r : re) : bool :=
  match r with
  | Nothing | Class_ _ => false
  | Empty | Star _ => true
  | Cat a b => nullable a && nullable b
  | Alt a b => nullable a || nullable b
  end.

Fixpoint deriv (c : ascii) (r : re) : re :=
  match r with
  | Nothing | Empty => Nothing
  | Class_ P => if P c then Empty else Nothing
  | Cat a b =>
    if nullable a then Alt (Cat (deriv c a) b) (deriv c b) else Cat (deriv c a) b
  | Alt a b => Alt (deriv c a) (deriv c b)
  | Star a => Cat (deriv c a) (Star a)
  end.

Fixpoint full_match (r : re) (s : bytes) : bool :=
  match s with
  | [] => nullable r
  | c :: s' => full_match (deriv c r) s'
  end.

Lemma nullable_matches r : nullable r = true ↔ matches r [].
Proof.
  split.
  - induction r; cbn; intros H; try done; eauto with devplane.
    + apply andb_true_iff in H as [? ?]. apply (m_cat _ _ [] []); auto.
    + apply orb_true_iff in H as [?|?]; eauto with devplane.
  - remember [] as s eqn:Es. induction 1; cbn; try done; subst.
    + apply app_eq_nil in Es as [-> ->]. by rewrite IHmatches1, IHmatches2.
    + by rewrite IHmatches.
    + rewrite IHmatches by done. apply orb_true_r.
Qed.

Lemma star_cons_inv a c s :
  matches (Star a) (c :: s) → ∃ s1 s2, s = s1 ++ s2 ∧ matches a (c :: s1) ∧ matches (Star a) s2.
Proof.
  remember (Star a) as r eqn:Er. remember (c :: s) as w eqn:Ew.
  intros H. revert a c s Er Ew. induction H; intros; simplify_eq/=.
  destruct s as [|d s1]; cbn in *; [eauto|]. simplify_eq. eauto 10.
Qed.

Lemma deriv_matches r c s : matches (deriv c r) s ↔ matches r (c :: s).
Proof.
  revert s. induction r as [| |P|a IHa b IHb|a IHa b IHb|a IHa]; intros s; cbn.
  - split; intros H; inversion H.
  - split; intros H; inversion H.
  - destruct (P c) eqn:Pc; split; intros H; inversion H; subst;
      first [congruence | eauto with devplane].
  - assert (Hcat : matches (Cat (deriv c a) b) s ↔
      ∃ s1 s2, s = s1 ++ s2 ∧ matches a (c :: s1) ∧ matches b s2).
    { split.
      - intros H; inversion H; subst. rewrite IHa in *. eauto.
      - intros (s1 & s2 & -> & H1 & H2). apply m_cat; [by apply IHa|done]. }
    assert (Hinv : matches (Cat a b) (c :: s) ↔
      (matches a [] ∧ matches b (c :: s)) ∨
      ∃ s1 s2, s = s1 ++ s2 ∧ matches a (c :: s1) ∧ matches b s2).
    { split.
      - inversion 1 as [| |? ? s1 s2 H1 H2 [Ea Eb] Es| | | |]; subst.
        destruct s1 as [|d s1]; cbn in Es; simplify_eq; [by left|right; eauto].
      - intros [[H1 H2]|(s1 & s2 & -> & H1 & H2)].
        + by apply (m_cat _ _ []).
        + by apply (m_cat _ _ (c :: s1)). }
    rewrite Hinv. destruct (nullable a) eqn:Na.
    + apply nullable_matches in Na. split.
      * inversion 1; subst; [right; by apply Hcat|left; split; [done|by apply IHb]].
      * intros [[_ H]|H]; [apply m_alt_r; by apply IHb|apply m_alt_l; by apply Hcat].
    + rewrite Hcat. split; [by right|]. intros [[H _]|H]; [|done].
      apply nullable_matches in H. congruence.
  - split; inversion 1; subst; (apply m_alt_l + apply m_alt_r); by (apply IHa + apply IHb).
  - split.
    + inversion 1; subst. rewrite IHa in *. by apply (m_star_app _ (c :: _)).
    + intros (s1 & s2 & -> & H1 & H2)%star_cons_inv. apply m_cat; [by apply IHa|done].
Qed.

(** The matcher decides the language. *)
Lemma full_match_spec r s : full_match r s = true ↔ matches r s.
Proof.
  revert r. induction s as [|c s IH]; intros r; cbn.
  - apply nullable_matches.
  - rewrite IH. apply deriv_matches.
Qed.

Lemma matches_cat r1 r2 s :
  matches (Cat r1 r2) s ↔ ∃ s1 s2, s = s1 ++ s2 ∧ matches r1 s1 ∧ matches r2 s2.
Proof. split; [inversion 1; subst; eauto | intros (?&?&->&?&?); by constructor]. Qed.

Lemma matches_alt r1 r2 s : matches (Alt r1 r2) s ↔ matches r1 s ∨ matches r2 s.
Proof. split; [inversion 1; subst; eauto | intros [?|?]; eauto with devplane]. Qed.

Lemma matches_class P s : matches (Class_ P) s ↔ ∃ c, s = [c] ∧ P c = true.
Proof. split; [inversion 1; subst; eauto | intros (?&->&?); by constructor]. Qed.

Lemma matches_star_class P s : matches (Star (Class_ P)) s ↔ Forall (λ c, P c = true) s.
Proof.
  split.
  - remember (Star (Class_ P)) as r. induction 1; simplify_eq; [constructor|].
    apply matches_class in H as (c & -> & ?). constructor; auto.
  - induction 1; [constructor|]. apply (m_star_app _ [_]); [by constructor|done].
Qed.

(** [ReplaceAllString] of [[class]+] by one byte: each maximal run of bytes of
    the class becomes [repl].  [in_run] says that the previous byte was in the
    class. *)
Fixpoint replace_runs (P : ascii → bool) (repl : ascii) (in_run : bool) (s : bytes) : bytes :=
  match s with
  | [] => []
  | c :: s' =>
    if P c then (if in_run then [] else [repl]) ++ replace_runs P repl true s'
    else c :: replace_runs P repl false s'
  end.

Lemma replace_runs_Forall P repl b s :
  Forall (λ c, P c = false ∨ c = repl) (replace_runs P repl b s).
Proof.
  revert b. induction s as [|c s IH]; intros b; cbn; [constructor|].
  destruct (P c) eqn:Pc; [|constructor; auto].
  destruct b; cbn; [|constructor]; auto.
Qed.

Lemma replace_runs_id P repl s :
  Forall (λ c, P c = false) s → replace_runs P repl false s = s.
Proof. induction 1 as [|c s Hc _ IH]; cbn; [done|]. by rewrite Hc, IH. Qed.
