(* ===== verification/GoTime.v ===== *)
(** * Package [time]

    Durations are 64-bit nanosecond counts, instants are nanoseconds since the
    Unix epoch.  [ParseDuration] follows the library's code, with its unsigned
    64-bit accumulator and its [float64] treatment of fractions (IEEE binary64
    from [SpecFloat]). *)
From S2P Require Import Prelude GoStrings.
From Stdlib Require Import ZArith Lia.
From Stdlib Require Import SpecFloat.
#[local] Open Scope Z_scope.

Definition Duration := Z.
Definition min_int64 : Z := - 2 ^ 63.
Definition max_int64 : Z := 2 ^ 63 - 1.

Definition Nanosecond : Duration := 1.
Definition Microsecond : Duration := 1000 * Nanosecond.
Definition Millisecond : Duration := 1000 * Microsecond.
Definition Second : Duration := 1000 * Millisecond.
Definition Minute : Duration := 60 * Second.
Definition Hour : Duration := 60 * Minute.

Definition Time := Z.

(** The zero [time.Time], 1 January of year 1. *)
Definition zeroTime : Time := - 62135596800 * Second.
Definition IsZero (t : Time) : bool := t =? zeroTime.

(** [t.Sub(u)] saturates at the ends of the 64-bit range. *)
Definition Sub (t u : Time) : Duration :=
  Z.max min_int64 (Z.min max_int64 (t - u)).

(** An instant on the wire: [metav1.Time] is written as RFC 3339, whole seconds. *)
Definition wire_time (t : Time) : Time := t - t mod Second.

Lemma wire_time_bounds t : t - Second < wire_time t <= t.
Proof. unfold wire_time. pose proof (Z.mod_pos_bound t Second eq_refl). lia. Qed.

Lemma wire_time_mono t u : t <= u → wire_time t <= wire_time u.
Proof.
  intros Hle. unfold wire_time. rewrite !Z.mod_eq by done.
  pose proof (Z.div_le_mono t u Second eq_refl Hle). change Second with 1000000000 in *. lia.
Qed.

(** ** Fractions: binary64 arithmetic *)

Definition f64_of_Z (z : Z) : spec_float := binary_normalize 53 1024 z 0 false.
Definition f64_mul : spec_float → spec_float → spec_float := SFmul 53 1024.
Definition f64_div : spec_float → spec_float → spec_float := SFdiv 53 1024.

(** [uint64(f)] for a non-negative [f] in range: truncation. *)
Definition uint64_of_f64 (f : spec_float) : Z :=
  match f with
  | S754_finite false m e =>
    if 0 <=? e then Z.shiftl (Zpos m) e else Z.shiftr (Zpos m) (- e)
  | _ => 0
  end.

(** ** [ParseDuration] *)

Definition two63 : Z := 2 ^ 63.

(** [leadingInt]: [None] on overflow. *)
Fixpoint leadingInt (x : Z) (s : bytes) : option (Z * bytes) :=
  match s with
  | c :: s' =>
    if is_digit c then
      if two63 / 10 <? x then None
      else let x' := x * 10 + (bval c - 48) in
           if two63 <? x' then None else leadingInt x' s'
    else Some (x, s)
  | [] => Some (x, [])
  end.

(** [leadingFraction]: digits that no longer fit are dropped. *)
Fixpoint leadingFraction (x : Z) (scale : spec_float) (overflow : bool) (s : bytes) :
    Z * spec_float * bytes :=
  match s with
  | c :: s' =>
    if is_digit c then
      if overflow then leadingFraction x scale true s'
      else if (two63 - 1) / 10 <? x then leadingFraction x scale true s'
      else let y := x * 10 + (bval c - 48) in
           if two63 <? y then leadingFraction x scale true s'
           else leadingFraction y (f64_mul scale (f64_of_Z 10)) false s'
    else (x, scale, s)
  | [] => (x, scale, [])
  end.

(** The bytes before the next digit or period, and the rest. *)
Fixpoint span_unit (s : bytes) : bytes * bytes :=
  match s with
  | c :: s' =>
    if Ascii.eqb c "." || is_digit c then ([], s)
    else let '(u, r) := span_unit s' in (c :: u, r)
  | [] => ([], [])
  end.

(** [unitMap]; the two micro signs are U+00B5 and U+03BC. *)
Definition unitMap (u : bytes) : option Z :=
  let eq_to (s : string) := bool_decide (u = bytes_of s) in
  let micro (b0 b1 : Z) := bool_decide (u = [byte_of b0; byte_of b1; "s"%char]) in
  if eq_to "ns" then Some Nanosecond
  else if eq_to "us" || micro 194 181 || micro 206 188 then Some Microsecond
  else if eq_to "ms" then Some Millisecond
  else if eq_to "s" then Some Second
  else if eq_to "m" then Some Minute
  else if eq_to "h" then Some Hour
  else None.

(** [time.quote]. *)
Definition time_quote (s : bytes) : string :=
  let q := ascii_of_nat 34 in
  of_bytes (q :: concat (map (λ c,
      if is_ascii c && (32 <=? bval c) then
        if Ascii.eqb c q || Ascii.eqb c "\" then ["\"%char; c] else [c]
      else "\"%char :: "x"%char :: hex_byte c) s) ++ [q]).

Definition invalid_duration (orig : bytes) : error :=
  errors_new ("time: invalid duration " +:+ time_quote orig).
Definition missing_unit (orig : bytes) : error :=
  errors_new ("time: missing unit in duration " +:+ time_quote orig).
Definition unknown_unit (u orig : bytes) : error :=
  errors_new ("time: unknown unit " +:+ time_quote u +:+ " in duration " +:+ time_quote orig).

(** The optional [.digits] after the integer part: fraction, scale, rest, and
    whether there was a digit. *)
Definition fraction_part (s1 : bytes) : Z * spec_float * bytes * bool :=
  match s1 with
  | c1 :: s1' =>
    if Ascii.eqb c1 "." then
      let '(f, scale, s2) := leadingFraction 0 (f64_of_Z 1) false s1' in
      (f, scale, s2, negb (length s1' =? length s2)%nat)
    else (0, f64_of_Z 1, s1, false)
  | [] => (0, f64_of_Z 1, s1, false)
  end.

(** One turn of the loop: a number with its unit; the new accumulator and what
    is left of the string. *)
Definition duration_item (orig : bytes) (d : Z) (s : bytes) : result (Z * bytes) :=
  match s with
  | [] => Err (invalid_duration orig)
  | c :: _ =>
    if negb (Ascii.eqb c "." || is_digit c) then Err (invalid_duration orig) else
    match leadingInt 0 s with
    | None => Err (invalid_duration orig)
    | Some (v, s1) =>
      let pre := negb (length s =? length s1)%nat in
      let '(f, scale, s2, post) := fraction_part s1 in
      if negb pre && negb post then Err (invalid_duration orig) else
      let '(u, s3) := span_unit s2 in
      match u with
      | [] => Err (missing_unit orig)
      | _ =>
        match unitMap u with
        | None => Err (unknown_unit u orig)
        | Some unit =>
          if two63 / unit <? v then Err (invalid_duration orig) else
          let v1 := v * unit in
          let v2 := if 0 <? f
                    then v1 + uint64_of_f64 (f64_mul (f64_of_Z f) (f64_div (f64_of_Z unit) scale))
                    else v1 in
          if (0 <? f) && (two63 <? v2) then Err (invalid_duration orig) else
          let d' := (d + v2) mod 2 ^ 64 in
          if two63 <? d' then Err (invalid_duration orig) else Ok (d', s3)
        end
      end
    end
  end.

(** The loop; [fuel] bounds the number of turns and the length of the string is
    always enough ([duration_loop_fuel]). *)
Fixpoint duration_loop (fuel : nat) (orig : bytes) (d : Z) (s : bytes) : result Z :=
  match s, fuel with
  | [], _ => Ok d
  | _, O => Err (invalid_duration orig)
  | _, S n =>
    match duration_item orig d s with
    | Err e => Err e
    | Ok (d', s') => duration_loop n orig d' s'
    end
  end.

(** The optional sign. *)
Definition split_sign (s : bytes) : bool * bytes :=
  match s with
  | c :: s' => if Ascii.eqb c "-" || Ascii.eqb c "+" then (Ascii.eqb c "-", s') else (false, s)
  | [] => (false, [])
  end.

Definition ParseDuration (str : string) : result Duration :=
  let orig := bytes_of str in
  let '(neg, s) := split_sign orig in
  match s with
  | [] => Err (invalid_duration orig)
  | _ =>
    if bool_decide (s = ["0"%char]) then Ok 0 else
    match duration_loop (length s) orig 0 s with
    | Err e => Err e
    | Ok d =>
      if (neg : bool) then Ok (- d)
      else if two63 - 1 <? d then Err (invalid_duration orig) else Ok d
    end
  end.

(** ** The loop terminates and stays in range *)

Lemma leadingInt_length x s v s' : leadingInt x s = Some (v, s') → (length s' ≤ length s)%nat.
Proof.
  revert x. induction s as [|c s IH]; intros x; cbn -[two63]; [by intros [= _ <-]|].
  repeat case_match; intros Hs; simplify_eq/=; auto. apply IH in Hs. lia.
Qed.

Lemma leadingFraction_length x sc o s f sc' s' :
  leadingFraction x sc o s = (f, sc', s') → (length s' ≤ length s)%nat.
Proof.
  revert x sc o. induction s as [|c s IH]; intros x sc o; cbn -[two63]; [by intros [= _ _ <-]|].
  repeat case_match; intros Hs; simplify_eq/=; auto; apply IH in Hs; lia.
Qed.

Lemma fraction_part_length s f sc s' post :
  fraction_part s = (f, sc, s', post) → (length s' ≤ length s)%nat.
Proof.
  unfold fraction_part. destruct s as [|c s]; [by intros [= _ _ <- _]|].
  case_match; [|by intros [= _ _ <- _]].
  destruct (leadingFraction _ _ _ _) as [[? ?] ?] eqn:E. apply leadingFraction_length in E.
  intros [= _ _ <- _]. cbn. lia.
Qed.

Lemma span_unit_length s u r : span_unit s = (u, r) → length s = (length u + length r)%nat.
Proof.
  revert u r. induction s as [|c s IH]; intros u r; cbn; [by intros [= <- <-]|].
  case_match; [by intros [= <- <-]|]. destruct (span_unit s) as [u' r'] eqn:E.
  intros [= <- <-]. cbn. by rewrite (IH _ _ eq_refl).
Qed.

Lemma duration_item_spec orig d s d' s' :
  duration_item orig d s = Ok (d', s') →
  0 <= d' <= two63 ∧ (length s' < length s)%nat.
Proof.
  unfold duration_item. destruct s as [|c s]; [done|].
  case_match; [done|]. destruct (leadingInt 0 (c :: s)) as [[v s1]|] eqn:E1; [|done].
  apply leadingInt_length in E1.
  destruct (fraction_part s1) as [[[f sc] s2] post] eqn:E2. apply fraction_part_length in E2.
  case_match; [done|]. destruct (span_unit s2) as [u s3] eqn:E3.
  apply span_unit_length in E3. destruct u as [|c0 u]; [done|].
  destruct (unitMap _) as [unit|]; [|done]. destruct (two63 / unit <? v); [done|].
  set (v2 := if 0 <? f then _ else _). destruct ((0 <? f) && (two63 <? v2)); [done|].
  destruct (two63 <? (d + v2) mod 2 ^ 64) eqn:Hd; [done|].
  intros [= <- <-]. cbn in E3. split; [|lia].
  apply Z.ltb_ge in Hd. split; [apply Z.mod_pos_bound; lia | exact Hd].
Qed.

Lemma duration_loop_fuel orig n1 n2 d s :
  (length s ≤ n1)%nat → (length s ≤ n2)%nat →
  duration_loop n1 orig d s = duration_loop n2 orig d s.
Proof.
  revert n2 d s. induction n1 as [|n1 IH]; intros n2 d [|c s] H1 H2; cbn in H1; try lia;
    destruct n2 as [|n2]; cbn in H2; try lia; try done.
  cbn [duration_loop]. destruct (duration_item orig d (c :: s)) as [[d' s']|] eqn:E; [|done].
  apply duration_item_spec in E as [_ E]. cbn in E. apply IH; lia.
Qed.

Lemma duration_loop_bounds orig n d s r :
  0 <= d <= two63 → duration_loop n orig d s = Ok r → 0 <= r <= two63.
Proof.
  revert d s. induction n as [|n IH]; intros d [|c s] Hd; cbn [duration_loop];
    try (by intros [= <-]); try done.
  destruct (duration_item orig d (c :: s)) as [[d' s']|] eqn:E; [|done].
  apply duration_item_spec in E as [E _]. eauto.
Qed.

Lemma ParseDuration_bounds s d : ParseDuration s = Ok d → min_int64 <= d <= max_int64.
Proof.
  unfold ParseDuration, min_int64, max_int64.
  destruct (split_sign (bytes_of s)) as [neg r].
  destruct r as [|c r]; [done|]. case_match; [intros [= <-]; lia|].
  destruct (duration_loop _ _ _ _) as [v|] eqn:E; [|done].
  apply duration_loop_bounds in E; [|unfold two63; lia]. unfold two63 in *.
  destruct neg; [intros [= <-]; lia|]. destruct (_ <? v) eqn:H2; [done|]. intros [= <-].
  apply Z.ltb_ge in H2. lia.
Qed.

(** ** Decimal numbers *)

Lemma digit_char_val (x : N) : (x < 10)%N →
  is_digit (pretty_N_char x) = true ∧ bval (pretty_N_char x) - 48 = Z.of_N x.
Proof.
  intros H. destruct x as [|p]; [done|].
  do 4 try (destruct p as [p|p|]); first [done | lia].
Qed.

Lemma pretty_go_leadingInt (x : N) (s : string) :
  Z.of_N x <= two63 →
  leadingInt 0 (bytes_of (pretty_N_go x s)) = leadingInt (Z.of_N x) (bytes_of s).
Proof.
  revert s. induction (N.lt_wf_0 x) as [x _ IH]; intros s Hx.
  destruct (decide (0 < x)%N) as [Hp|Hp].
  - rewrite pretty_N_go_step by done.
    destruct (digit_char_val (x `mod` 10)) as [Hd Hv]; [apply N.mod_lt; lia|].
    assert (Hdiv : (x `div` 10 < x)%N) by (apply N.div_lt; lia).
    assert (Hqr := N.div_mod x 10 ltac:(done)).
    assert (Hm : (x `mod` 10 < 10)%N) by (apply N.mod_lt; lia).
    rewrite IH by (unfold two63 in *; lia).
    change (bytes_of (String ?a ?b)) with (a :: bytes_of b). cbn [leadingInt].
    rewrite Hd, Hv.
    assert (E : Z.of_N (x `div` 10) * 10 + Z.of_N (x `mod` 10) = Z.of_N x) by lia.
    rewrite E, (proj2 (Z.ltb_ge two63 (Z.of_N x))) by done.
    rewrite (proj2 (Z.ltb_ge (two63 / 10) _)); [done|].
    apply Z.div_le_lower_bound; [done|]. pose proof (N2Z.is_nonneg (x `mod` 10)).
    generalize dependent two63. intros. lia.
  - assert (x = 0%N) as -> by lia. by rewrite pretty_N_go_0.
Qed.

Lemma pretty_N_go_app (x : N) (s : string) : pretty_N_go x s = pretty_N_go x "" +:+ s.
Proof.
  revert s. induction (N.lt_wf_0 x) as [x _ IH]; intros s.
  destruct (decide (0 < x)%N) as [Hp|Hp].
  - assert (Hdiv : (x `div` 10 < x)%N) by (apply N.div_lt; lia).
    rewrite (pretty_N_go_step x s), (pretty_N_go_step x "") by exact Hp.
    rewrite 2!(IH _ Hdiv (String _ _)).
    apply bytes_of_inj. rewrite !bytes_of_app, <- app_assoc. done.
  - assert (x = 0%N) as -> by lia. by rewrite !pretty_N_go_0.
Qed.

Lemma pretty_leadingInt (x : N) (rest : bytes) :
  Z.of_N x <= two63 → (∀ c r, rest = c :: r → is_digit c = false) →
  leadingInt 0 (bytes_of (pretty x) ++ rest) = Some (Z.of_N x, rest).
Proof.
  intros Hx Hrest.
  assert (Hstop : leadingInt (Z.of_N x) rest = Some (Z.of_N x, rest)).
  { destruct rest as [|c r]; [done|]. cbn. by rewrite (Hrest c r). }
  unfold pretty, pretty_N. destruct (decide (x = 0%N)) as [->|Hx0].
  - exact Hstop.
  - rewrite <- Hstop. pose proof (pretty_go_leadingInt x (of_bytes rest) Hx) as H.
    rewrite bytes_of_of in H. rewrite <- H.
    by rewrite (pretty_N_go_app x (of_bytes rest)), bytes_of_app, bytes_of_of.
Qed.

Lemma pretty_digits (x : N) :
  Forall (λ c, is_digit c = true) (bytes_of (pretty x)) ∧ bytes_of (pretty x) ≠ [].
Proof.
  assert (Hgo : ∀ s, Forall (λ c, is_digit c = true) (bytes_of s) →
    Forall (λ c, is_digit c = true) (bytes_of (pretty_N_go x s))).
  { induction (N.lt_wf_0 x) as [y _ IH]; intros s Hs.
    destruct (decide (0 < y)%N) as [Hp|Hp].
    - rewrite pretty_N_go_step by exact Hp. apply IH; [apply N.div_lt; lia|].
      constructor; [apply digit_char_val, N.mod_lt; lia|done].
    - assert (y = 0%N) as -> by lia. by rewrite pretty_N_go_0. }
  unfold pretty, pretty_N. destruct (decide (x = 0%N)) as [->|Hx0]; [by repeat constructor|].
  split; [apply Hgo; constructor|]. rewrite pretty_N_go_step by lia.
  rewrite pretty_N_go_app, bytes_of_app. by intros [_ ?]%app_eq_nil.
Qed.

Lemma span_unit_all u :
  Forall (λ c, (Ascii.eqb c "." || is_digit c) = false) u → span_unit u = (u, []).
Proof. induction 1 as [|c u Hc _ IH]; cbn; [done|]. by rewrite Hc, IH. Qed.

(** A whole number of a unit, written in decimal, parses to that number. *)
Lemma ParseDuration_pretty (n : N) (u : string) (unit : Z) :
  unitMap (bytes_of u) = Some unit → 0 < unit →
  Forall (λ c, (Ascii.eqb c "." || is_digit c) = false) (bytes_of u) →
  Z.of_N n * unit <= max_int64 →
  ParseDuration (pretty n +:+ u) = Ok (Z.of_N n * unit).
Proof.
  intros Hu Hpos Hspan Hn. unfold ParseDuration. rewrite bytes_of_app.
  destruct (pretty_digits n) as [Hall Hne].
  destruct (bytes_of u) as [|uc ur] eqn:Eu; [done|].
  assert (Huc := Forall_inv Hspan). cbn in Huc. apply orb_false_iff in Huc as [Hdot Hdig].
  assert (Hli : leadingInt 0 (bytes_of (pretty n) ++ uc :: ur) = Some (Z.of_N n, uc :: ur)).
  { apply pretty_leadingInt; [unfold max_int64, two63 in *; nia|]. by intros c r [= <- _]. }
  destruct (bytes_of (pretty n)) as [|c r] eqn:Ep; [done|]. cbn [app] in *.
  assert (Hc := Forall_inv Hall). cbn in Hc.
  assert (Hsign : Ascii.eqb c "-" = false ∧ Ascii.eqb c "+" = false ∧ Ascii.eqb c "." = false).
  { clear -Hc. by destruct c as [[] [] [] [] [] [] [] []]. }
  destruct Hsign as (H1 & H2 & H3). unfold split_sign. rewrite H1, H2. cbn [orb].
  rewrite bool_decide_false by (destruct r; discriminate). cbn [length].
  cbn [duration_loop]. unfold duration_item. rewrite Hc, orb_true_r. cbn [negb].
  rewrite Hli. unfold fraction_part. rewrite Hdot, (span_unit_all _ Hspan), Hu.
  replace (length (c :: r ++ uc :: ur) =? length (uc :: ur))%nat with false
    by (symmetry; apply Nat.eqb_neq; cbn; rewrite length_app; cbn; lia).
  cbn [negb andb]. rewrite (proj2 (Z.ltb_ge _ _)) by
    (apply Z.div_le_lower_bound; unfold two63, max_int64 in *; lia).
  cbn -[Z.modulo Z.mul two63 duration_loop]. unfold max_int64, two63 in *.
  rewrite Z.mod_small by nia.
  rewrite (proj2 (Z.ltb_ge (2 ^ 63) _)) by lia.
  destruct (length (r ++ uc :: ur)); cbn [duration_loop];
    rewrite (proj2 (Z.ltb_ge (2 ^ 63 - 1) _)) by lia; done.
Qed.
