(* ===== verification/Sha256.v ===== *)
(** * SHA-256 ([crypto/sha256])

    The hash of FIPS 180-4 on byte strings, executable, and [hashToken]'s
    hexadecimal form.  Theorems that need the hash to tell inputs apart conclude
    "equal, or this pair is a collision" instead of assuming there is none. *)
From S2P Require Import Prelude GoStrings.
From Stdlib Require Import ZArith Lia.
#[local] Open Scope Z_scope.

Definition w32 (z : Z) : Z := Z.land z 4294967295.
Definition add32 (a b : Z) : Z := w32 (a + b).
Definition rotr (n x : Z) : Z := Z.lor (Z.shiftr x n) (w32 (Z.shiftl x (32 - n))).
Definition not32 (x : Z) : Z := Z.lxor x 4294967295.

Definition Ch (x y z : Z) : Z := Z.lxor (Z.land x y) (Z.land (not32 x) z).
Definition Maj (x y z : Z) : Z := Z.lxor (Z.land x y) (Z.lxor (Z.land x z) (Z.land y z)).
Definition Sigma0 (x : Z) : Z := Z.lxor (rotr 2 x) (Z.lxor (rotr 13 x) (rotr 22 x)).
Definition Sigma1 (x : Z) : Z := Z.lxor (rotr 6 x) (Z.lxor (rotr 11 x) (rotr 25 x)).
Definition sigma0 (x : Z) : Z := Z.lxor (rotr 7 x) (Z.lxor (rotr 18 x) (Z.shiftr x 3)).
Definition sigma1 (x : Z) : Z := Z.lxor (rotr 17 x) (Z.lxor (rotr 19 x) (Z.shiftr x 10)).

(** The constants are the first 32 bits of the fractional parts of the cube
    roots of the first 64 primes and of the square roots of the first 8. *)
Definition is_prime (n : Z) : bool :=
  forallb (λ d, negb (n mod (2 + Z.of_nat d) =? 0)) (seq 0 (Z.to_nat (Z.sqrt n) - 1)).

(** [primes fuel k n]: the [k] first primes from [n] on. *)
Fixpoint primes (fuel k : nat) (n : Z) : list Z :=
  match fuel, k with
  | S f, S k' => if is_prime n then n :: primes f k' (n + 1) else primes f k (n + 1)
  | _, _ => []
  end.

(** The largest [c] with [c * c * c <= n], bit by bit from bit [b - 1]. *)
Fixpoint icbrt (b : nat) (c n : Z) : Z :=
  match b with
  | O => c
  | S m => let c' := c + Z.shiftl 1 (Z.of_nat m) in
           icbrt m (if c' * c' * c' <=? n then c' else c) n
  end.

Definition K256 : list Z :=
  Eval vm_compute in map (λ p, w32 (icbrt 36 0 (Z.shiftl p 96))) (primes 400 64 2).

Definition H256 : list Z :=
  Eval vm_compute in map (λ p, w32 (Z.sqrt (Z.shiftl p 64))) (primes 400 8 2).

(** ** Padding *)

(** [n] bytes of [z], most significant first. *)
Fixpoint be_bytes (n : nat) (z : Z) : bytes :=
  match n with
  | O => []
  | S m => byte_of (Z.shiftr z (8 * Z.of_nat m)) :: be_bytes m z
  end.

Definition pad (m : bytes) : bytes :=
  let l := Z.of_nat (length m) in
  m ++ byte_of 128 :: replicate (Z.to_nat ((55 - l) mod 64)) (byte_of 0) ++ be_bytes 8 (8 * l).

Fixpoint words (b : bytes) : list Z :=
  match b with
  | b0 :: b1 :: b2 :: b3 :: b' =>
    Z.lor (Z.shiftl (bval b0) 24) (Z.lor (Z.shiftl (bval b1) 16) (Z.lor (Z.shiftl (bval b2) 8) (bval b3)))
      :: words b'
  | _ => []
  end.

(** ** The compression function *)

(** The message schedule, kept as the last sixteen words, newest first. *)
Fixpoint schedule (n : nat) (recent : list Z) : list Z :=
  match n with
  | O => []
  | S m =>
    let w i := default 0 (recent !! i) in
    let x := add32 (add32 (sigma1 (w 1%nat)) (w 6%nat)) (add32 (sigma0 (w 14%nat)) (w 15%nat)) in
    x :: schedule m (x :: take 15 recent)
  end.

Definition round (s : list Z) (kw : Z * Z) : list Z :=
  match s with
  | [a; b; c; d; e; f; g; h] =>
    let t1 := add32 (add32 h (Sigma1 e)) (add32 (Ch e f g) (add32 kw.1 kw.2)) in
    let t2 := add32 (Sigma0 a) (Maj a b c) in
    [add32 t1 t2; a; b; c; add32 d t1; e; f; g]
  | _ => s
  end.

Definition compress (st block : list Z) : list Z :=
  let ws := block ++ schedule 48 (reverse block) in
  zip_with add32 st (foldl round st (zip K256 ws)).

Fixpoint blocks (fuel : nat) (ws : list Z) (st : list Z) : list Z :=
  match fuel, ws with
  | S n, _ :: _ => blocks n (drop 16 ws) (compress st (take 16 ws))
  | _, _ => st
  end.

(** [sha256.Sum256]. *)
Definition Sum256 (m : bytes) : bytes :=
  let ws := words (pad m) in
  concat (map (be_bytes 4) (blocks (length ws) ws H256)).

(** [hex.EncodeToString(sum[:])]. *)
Definition sha256_hex (m : bytes) : string := EncodeToString (Sum256 m).

(** ** Facts *)

Example sha256_empty :
  sha256_hex [] = "e3b0c44298fc1c149afbf4c8996fb92427ae41e4649b934ca495991b7852b855".
Proof. vm_compute. reflexivity. Qed.

Example sha256_abc :
  sha256_hex (bytes_of "abc") = "ba7816bf8f01cfea414140de5dae2223b00361a396177a9cb410ff61f20015ad".
Proof. vm_compute. reflexivity. Qed.

(** Two blocks. *)
Example sha256_two_blocks :
  sha256_hex (bytes_of "abcdbcdecdefdefgefghfghighijhijkijkljklmklmnlmnomnopnopq")
  = "248d6a61d20638b8e5c026930c3e6039a33ce45964ff2167f6ecedd419db06c1".
Proof. vm_compute. reflexivity. Qed.

Lemma length_be_bytes n z : length (be_bytes n z) = n.
Proof. induction n; cbn; auto. Qed.

Lemma length_pad m : (64 | Z.of_nat (length (pad m))).
Proof.
  unfold pad. rewrite length_app. cbn [length]. rewrite length_app, length_replicate, length_be_bytes.
  set (l := length m). pose proof (Z.mod_pos_bound (55 - Z.of_nat l) 64 ltac:(lia)).
  pose proof (Z.div_mod (55 - Z.of_nat l) 64 ltac:(lia)).
  exists (1 - (55 - Z.of_nat l) / 64). lia.
Qed.

Lemma compress_length st block : length st = 8%nat → length (compress st block) = 8%nat.
Proof.
  intros Hst. unfold compress. rewrite length_zip_with.
  assert (Hf : ∀ kws s, length s = 8%nat → length (foldl round s kws) = 8%nat).
  { induction kws as [|kw kws IH]; intros s Hs; [done|]. cbn. apply IH.
    destruct s as [|? [|? [|? [|? [|? [|? [|? [|? [|]]]]]]]]]; try done. }
  rewrite Hf by done. lia.
Qed.

Lemma blocks_length fuel ws st : length st = 8%nat → length (blocks fuel ws st) = 8%nat.
Proof.
  revert ws st. induction fuel as [|n IH]; intros ws st Hst; [done|].
  destruct ws; [done|]. cbn -[compress]. by apply IH, compress_length.
Qed.

(** A digest has 32 bytes. *)
Lemma length_Sum256 m : length (Sum256 m) = 32%nat.
Proof.
  unfold Sum256. set (st := blocks _ _ _).
  assert (Hl : length st = 8%nat) by (by apply blocks_length).
  clearbody st. destruct st as [|? [|? [|? [|? [|? [|? [|? [|? [|]]]]]]]]]; done.
Qed.

(** ** Hexadecimal is injective *)

Definition unhex (c : ascii) : Z := if is_digit c then bval c - 48 else bval c - 87.
Definition unhex_byte (hi lo : ascii) : ascii := byte_of (16 * unhex hi + unhex lo).

Lemma unhex_hex_byte c :
  match hex_byte c with [hi; lo] => unhex_byte hi lo = c | _ => False end.
Proof. destruct c as [[] [] [] [] [] [] [] []]; vm_compute; reflexivity. Qed.

Lemma hex_byte_inj c d : hex_byte c = hex_byte d → c = d.
Proof.
  intros E. pose proof (unhex_hex_byte c) as Hc. pose proof (unhex_hex_byte d) as Hd.
  unfold hex_byte in *. injection E as E1 E2. by rewrite <- Hc, <- Hd, E1, E2.
Qed.

Lemma EncodeToString_inj a b : EncodeToString a = EncodeToString b → a = b.
Proof.
  unfold EncodeToString. intros E%(f_equal bytes_of). rewrite !bytes_of_of in E.
  revert b E. induction a as [|x a IH]; intros [|y b] E; [done|done|done|].
  cbn [map concat] in E. apply app_inj_1 in E as [E1%hex_byte_inj E2]; [|done].
  by rewrite E1, (IH b).
Qed.

Lemma hex_byte_nodash c x : x ∈ hex_byte c → is_digit x || is_lower x = true.
Proof.
  intros Hx. unfold hex_byte in Hx.
  destruct c as [[] [] [] [] [] [] [] []]; vm_compute in Hx;
    repeat (apply elem_of_cons in Hx as [-> | Hx]; [reflexivity|]); by apply elem_of_nil in Hx.
Qed.

Lemma len_EncodeToString b : len (EncodeToString b) = (2 * length b)%nat.
Proof. unfold EncodeToString. rewrite len_of_bytes. induction b; cbn in *; lia. Qed.

(** Two distinct inputs with the same digest. *)
Definition collision (a b : bytes) : Prop := a ≠ b ∧ Sum256 a = Sum256 b.

Lemma sha256_hex_eq a b : sha256_hex a = sha256_hex b → a = b ∨ collision a b.
Proof.
  intros E%EncodeToString_inj. destruct (decide (a = b)); [by left|right]. by split.
Qed.

Lemma len_sha256_hex m : len (sha256_hex m) = 64%nat.
Proof. unfold sha256_hex. by rewrite len_EncodeToString, length_Sum256. Qed.
