(* ===== verification/Json.v ===== *)
(** * Package [encoding/json]: what [json.Marshal] writes

    Strings with the default HTML escaping, string arrays and objects with a
    fixed list of fields. *)
From S2P Require Import Prelude GoStrings.
From Stdlib Require Import ZArith.

(** One rune of a string: the escapes of [appendString]. *)
Definition json_rune (p : Z * bytes) : bytes :=
  let '(r, piece) := p in
  let bs := "\"%char in
  if (r =? RuneError)%Z && (length piece =? 1)%nat then bytes_of "\ufffd"
  else if (r =? 34)%Z || (r =? 92)%Z then bs :: piece
  else if (r =? 8)%Z then bytes_of "\b"
  else if (r =? 12)%Z then bytes_of "\f"
  else if (r =? 10)%Z then bytes_of "\n"
  else if (r =? 13)%Z then bytes_of "\r"
  else if (r =? 9)%Z then bytes_of "\t"
  else if (r <? 32)%Z || (r =? 60)%Z || (r =? 62)%Z || (r =? 38)%Z
          || (r =? 8232)%Z || (r =? 8233)%Z then bytes_of "\u" ++ hex_digits 4 r
  else piece.

Definition quote_mark : ascii := ascii_of_nat 34.

Definition json_string (s : string) : string :=
  of_bytes (quote_mark :: concat (map json_rune (decode_runes (bytes_of s))) ++ [quote_mark]).

(** A slice; [null] is the nil slice, which the empty list stands for. *)
Definition json_array (items : list string) : string :=
  match items with
  | [] => "null"
  | _ => "[" +:+ String.concat "," items +:+ "]"
  end.

Definition json_field (kv : string * string) : string := json_string kv.1 +:+ ":" +:+ kv.2.

Definition json_object (fields : list (string * string)) : string :=
  "{" +:+ String.concat "," (map json_field fields) +:+ "}".

(** A JSON text with its quotation marks written as apostrophes. *)
Definition quoted (s : string) : string :=
  of_bytes (map (λ c, if Ascii.eqb c "'" then quote_mark else c) (bytes_of s)).
