(* ===== verification/Utf8.v ===== *)
(** * UTF-8: encoding inverts decoding

    A rune decoded from a byte string without an error encodes to the bytes it
    came from, and such pieces decode on their own. *)
From S2P Require Import Prelude GoStrings.
From Stdlib Require Import ZArith Lia.
#[local] Open Scope Z_scope.

(** ** Bit fields as arithmetic *)

Lemma lor_field a b k : 0 <= k → 0 <= b < 2 ^ k → Z.lor (a * 2 ^ k) b = a * 2 ^ k + b.
Proof.
  intros Hk Hb. assert (H0 : Z.land (a * 2 ^ k) b = 0).
  { apply Z.bits_inj'. intros i Hi. rewrite Z.land_spec, Z.bits_0. destruct (Z.lt_ge_cases i k) as [Hlt|Hge].
    - rewrite Z.mul_pow2_bits_low by lia. done.
    - destruct (decide (b = 0)) as [->|Hb0]; [by rewrite Z.bits_0, andb_false_r|].
      rewrite (Z.bits_above_log2 b i); [apply andb_false_r|lia|]. apply Z.log2_lt_pow2; [lia|].
      apply Z.lt_le_trans with (2 ^ k); [lia|]. apply Z.pow_le_mono_r; lia. }
  pose proof (Z.add_lor_land (a * 2 ^ k) b). lia.
Qed.

Lemma land_field a k : 0 <= k → Z.land a (Z.ones k) = a mod 2 ^ k.
Proof. apply Z.land_ones. Qed.

Lemma cont6_mod c : cont6 c = bval c mod 64.
Proof. apply (land_field _ 6). lia. Qed.

Lemma shiftl_field a b k : 0 <= k → 0 <= b < 2 ^ k → Z.lor (Z.shiftl a k) b = a * 2 ^ k + b.
Proof. intros Hk Hb. rewrite Z.shiftl_mul_pow2 by done. by apply lor_field. Qed.

(** The value of a decoded rune. *)
Lemma rune2_val b0 b1 : rune2 b0 b1 = (bval b0 mod 32) * 64 + bval b1 mod 64.
Proof.
  unfold rune2. rewrite cont6_mod, (land_field _ 5) by lia. rewrite shiftl_field; [done|lia|].
  apply (Z.mod_pos_bound _ 64). lia.
Qed.
Lemma rune3_val b0 b1 b2 :
  rune3 b0 b1 b2 = (bval b0 mod 16) * 4096 + ((bval b1 mod 64) * 64 + bval b2 mod 64).
Proof.
  pose proof (Z.mod_pos_bound (bval b1) 64 ltac:(lia)). pose proof (Z.mod_pos_bound (bval b2) 64 ltac:(lia)).
  unfold rune3. rewrite !cont6_mod, (land_field _ 4) by lia.
  rewrite (shiftl_field (bval b1 mod 64)), shiftl_field by (cbn; lia). done.
Qed.
Lemma rune4_val b0 b1 b2 b3 :
  rune4 b0 b1 b2 b3 =
    (bval b0 mod 8) * 262144 + ((bval b1 mod 64) * 4096 + ((bval b2 mod 64) * 64 + bval b3 mod 64)).
Proof.
  pose proof (Z.mod_pos_bound (bval b1) 64 ltac:(lia)). pose proof (Z.mod_pos_bound (bval b2) 64 ltac:(lia)).
  pose proof (Z.mod_pos_bound (bval b3) 64 ltac:(lia)).
  unfold rune4. rewrite !cont6_mod, (land_field _ 3) by lia.
  rewrite (shiftl_field (bval b2 mod 64)), (shiftl_field (bval b1 mod 64)), shiftl_field by (cbn; lia). done.
Qed.

(** The bytes of an encoded rune. *)
Lemma low_val r k : 0 <= k → Z.lor 128 (Z.land (Z.shiftr r k) 63) = 128 + (r / 2 ^ k) mod 64.
Proof.
  intros Hk. rewrite (land_field _ 6), Z.shiftr_div_pow2 by lia. apply (lor_field 1 _ 7); [lia|].
  pose proof (Z.mod_pos_bound (r / 2 ^ k) 64 ltac:(lia)). change (2 ^ 7) with 128. change (2 ^ 6) with 64. lia.
Qed.
Lemma lead_val h m r k n :
  h = m * 2 ^ n → 0 <= k → 0 <= n → 0 <= r / 2 ^ k < 2 ^ n → Z.lor h (Z.shiftr r k) = h + r / 2 ^ k.
Proof. intros -> Hk Hn Hr. rewrite Z.shiftr_div_pow2 by lia. by apply lor_field. Qed.

Lemma in_range_spec lo hi c : in_range lo hi c = true → lo <= bval c <= hi.
Proof. unfold in_range. intros [?%Z.leb_le ?%Z.leb_le]%andb_true_iff. lia. Qed.

(** A rune that is no surrogate, by its length. *)
Lemma encode_rune_2 r : 128 <= r < 2048 → encode_rune r = [byte_of (192 + r / 64); byte_of (128 + r mod 64)].
Proof.
  intros Hr. unfold encode_rune. replace (_ || _ || _) with false by lia.
  replace (r <? 128) with false by lia. replace (r <? 2048) with true by lia.
  rewrite low_val by lia. rewrite (lead_val 192 6 r 6 5) by (cbn; Z.to_euclidean_division_equations; lia). rewrite Z.pow_0_r, Z.div_1_r. done.
Qed.
Lemma encode_rune_3 r : 2048 <= r < 65536 → ¬ (55296 <= r <= 57343) →
  encode_rune r = [byte_of (224 + r / 4096); byte_of (128 + (r / 64) mod 64); byte_of (128 + r mod 64)].
Proof.
  intros Hr Hs. unfold encode_rune. replace (_ || _ || _) with false by lia.
  replace (r <? 128) with false by lia. replace (r <? 2048) with false by lia.
  replace (r <? 65536) with true by lia.
  rewrite !low_val by lia. rewrite (lead_val 224 14 r 12 4) by (cbn; Z.to_euclidean_division_equations; lia). rewrite Z.pow_0_r, Z.div_1_r. done.
Qed.
Lemma encode_rune_4 r : 65536 <= r <= 1114111 →
  encode_rune r = [byte_of (240 + r / 262144); byte_of (128 + (r / 4096) mod 64);
                   byte_of (128 + (r / 64) mod 64); byte_of (128 + r mod 64)].
Proof.
  intros Hr. unfold encode_rune. replace (_ || _ || _) with false by lia.
  replace (r <? 128) with false by lia. replace (r <? 2048) with false by lia.
  replace (r <? 65536) with false by lia.
  rewrite !low_val by lia. rewrite (lead_val 240 30 r 18 3) by (cbn; Z.to_euclidean_division_equations; lia). rewrite Z.pow_0_r, Z.div_1_r. done.
Qed.

Lemma byte_of_eq z c : z = bval c → byte_of z = c.
Proof. intros ->. apply byte_of_bval. Qed.

Lemma encode_ascii c : is_ascii c = true → encode_rune (bval c) = [c].
Proof.
  intros Hc%in_range_spec. unfold encode_rune. replace (_ || _ || _) with false by lia.
  replace (bval c <? 128) with true by lia. by rewrite byte_of_bval.
Qed.
Lemma encode_rune2 b0 b1 : ok2 b0 b1 = true → encode_rune (rune2 b0 b1) = [b0; b1].
Proof.
  intros [H0%in_range_spec H1%in_range_spec]%andb_true_iff. rewrite rune2_val.
  rewrite encode_rune_2 by (Z.to_euclidean_division_equations; lia).
  f_equal; [|f_equal]; apply byte_of_eq; Z.to_euclidean_division_equations; lia.
Qed.
Lemma encode_rune3 b0 b1 b2 : ok3 b0 b1 b2 = true → encode_rune (rune3 b0 b1 b2) = [b0; b1; b2].
Proof.
  unfold ok3. intros [H1 H2%in_range_spec]%andb_true_iff.
  assert (Hb : 224 <= bval b0 <= 239 ∧ 128 <= bval b1 <= 191 ∧ (bval b0 = 224 → 160 <= bval b1) ∧
    (bval b0 = 237 → bval b1 <= 159)).
  { destruct (Z.eqb_spec (bval b0) 224); [apply in_range_spec in H1; lia|].
    destruct (Z.eqb_spec (bval b0) 237); [apply in_range_spec in H1; lia|].
    apply andb_true_iff in H1 as [H0%in_range_spec H1%in_range_spec]. lia. }
  clear H1. rewrite rune3_val. rewrite encode_rune_3 by (Z.to_euclidean_division_equations; lia).
  f_equal; [|f_equal; [|f_equal]]; apply byte_of_eq; Z.to_euclidean_division_equations; lia.
Qed.
Lemma encode_rune4 b0 b1 b2 b3 : ok4 b0 b1 b2 b3 = true → encode_rune (rune4 b0 b1 b2 b3) = [b0; b1; b2; b3].
Proof.
  unfold ok4. intros [[H1 H2%in_range_spec]%andb_true_iff H3%in_range_spec]%andb_true_iff.
  assert (Hb : 240 <= bval b0 <= 244 ∧ 128 <= bval b1 <= 191 ∧ (bval b0 = 240 → 144 <= bval b1) ∧
    (bval b0 = 244 → bval b1 <= 143)).
  { destruct (Z.eqb_spec (bval b0) 240); [apply in_range_spec in H1; lia|].
    destruct (Z.eqb_spec (bval b0) 244); [apply in_range_spec in H1; lia|].
    apply andb_true_iff in H1 as [H0%in_range_spec H1%in_range_spec]. lia. }
  clear H1. rewrite rune4_val. rewrite encode_rune_4 by (Z.to_euclidean_division_equations; lia).
  f_equal; [|f_equal; [|f_equal; [|f_equal]]]; apply byte_of_eq; Z.to_euclidean_division_equations; lia.
Qed.

(** ** Pieces *)

(** [utf8.ValidString]. *)
Definition invalid_piece (p : Z * bytes) : bool := (p.1 =? RuneError) && (length p.2 =? 1)%nat.
Definition utf8_ValidString (s : string) : bool :=
  forallb (λ p, negb (invalid_piece p)) (decode_runes (bytes_of s)).

(** A piece that encodes its rune and decodes on its own, whatever follows. *)
Record sound_piece (p : Z * bytes) : Prop := {
  piece_encodes : encode_rune p.1 = p.2;
  piece_decodes t : decode_runes (p.2 ++ t) = p :: decode_runes t;
}.

Lemma sound_ascii c : is_ascii c = true → sound_piece (bval c, [c]).
Proof. intros Hc. constructor; [by apply encode_ascii|]. intros t. cbn. by rewrite Hc. Qed.

Lemma decode_pieces s : Forall (λ p, invalid_piece p = true ∨ sound_piece p) (decode_runes s).
Proof.
  induction s as [s IH] using (induction_ltof1 _ (@length ascii)). unfold ltof in IH.
  destruct s as [|b0 s0]; [constructor|]. cbn -[ok2 ok3 ok4].
  destruct (is_ascii b0) eqn:E0; [constructor; [right; by apply sound_ascii|apply IH; cbn; lia]|].
  destruct s0 as [|b1 s1]; [by repeat constructor|].
  destruct (ok2 b0 b1) eqn:E2.
  { constructor; [right|apply IH; cbn; lia]. constructor; [by apply encode_rune2|]. intros t.
    cbn -[ok2]. by rewrite E0, E2. }
  destruct s1 as [|b2 s2]; [constructor; [by left|apply IH; cbn; lia]|].
  destruct (ok3 b0 b1 b2) eqn:E3.
  { constructor; [right|apply IH; cbn; lia]. constructor; [by apply encode_rune3|]. intros t.
    cbn -[ok2 ok3]. by rewrite E0, E2, E3. }
  destruct s2 as [|b3 s3]; [constructor; [by left|apply IH; cbn; lia]|].
  destruct (ok4 b0 b1 b2 b3) eqn:E4; (constructor; [|apply IH; cbn; lia]); [right|by left].
  constructor; [by apply encode_rune4|]. intros t. cbn -[ok2 ok3 ok4]. by rewrite E0, E2, E3, E4.
Qed.

Lemma valid_pieces s : utf8_ValidString s = true → Forall sound_piece (decode_runes (bytes_of s)).
Proof.
  unfold utf8_ValidString. rewrite forallb_forall. intros Hv. pose proof (decode_pieces (bytes_of s)) as Hp.
  rewrite Forall_forall in *. intros p Hin. destruct (Hp p Hin) as [Hi|]; [|done].
  apply list_elem_of_In in Hin. apply Hv in Hin. by rewrite Hi in Hin.
Qed.
