(* ===== verification/JsonDecode.v ===== *)
(** * Package [encoding/json]: [json.Unmarshal]

    The syntax [checkValid] accepts, with the nesting limit and the decoding of
    string escapes, as a parser from runes to values.  A number keeps its literal,
    as [json.Number] does; [int_literal] reads it as an integer. *)
From S2P Require Import Prelude GoStrings Utf8 Json.
From Stdlib Require Import ZArith Lia.
#[local] Open Scope Z_scope.

#[local] Set Warnings "-register-all".

Inductive json :=
  | JNull
  | JBool (b : bool)
  | JNumber (literal : list Z)
  | JString (s : list Z)
  | JArray (l : list json)
  | JObject (l : list (list Z * json)).

(** The runes of a byte string; an invalid byte is [RuneError]. *)
Definition runes (s : bytes) : list Z := (decode_runes s).*1.
(** Decoded runes as a Go string. *)
Definition of_runes (rs : list Z) : string := of_bytes (concat (map encode_rune rs)).

(** ** Strings *)

Definition hex_val (r : Z) : option Z :=
  if (48 <=? r) && (r <=? 57) then Some (r - 48)
  else if (97 <=? r) && (r <=? 102) then Some (r - 87)
  else if (65 <=? r) && (r <=? 70) then Some (r - 55)
  else None.

Definition hex4 (a b c d : Z) : option Z :=
  match hex_val a, hex_val b, hex_val c, hex_val d with
  | Some a, Some b, Some c, Some d => Some (a * 4096 + b * 256 + c * 16 + d)
  | _, _, _, _ => None
  end.

(** Backslash and one character. *)
Definition simple_escape (e : Z) : option Z :=
  if (e =? 34) || (e =? 92) || (e =? 47) then Some e
  else if e =? 98 then Some 8
  else if e =? 102 then Some 12
  else if e =? 110 then Some 10
  else if e =? 114 then Some 13
  else if e =? 116 then Some 9
  else None.

(** [utf16.IsSurrogate] and [utf16.DecodeRune]. *)
Definition is_surrogate (u : Z) : bool := (55296 <=? u) && (u <? 57344).
Definition utf16_DecodeRune (u v : Z) : option Z :=
  if (55296 <=? u) && (u <? 56320) && (56320 <=? v) && (v <? 57344)
  then Some ((u - 55296) * 1024 + (v - 56320) + 65536) else None.

Definition emit (r : Z) (o : option (list Z * list Z)) : option (list Z * list Z) :=
  match o with Some (s, rest) => Some (r :: s, rest) | None => None end.

(** After the opening quote: the decoded runes and what follows the closing one. *)
Fixpoint scan_string (rs : list Z) : option (list Z * list Z) :=
  match rs with
  | [] => None
  | c :: rs1 =>
    if c =? 34 then Some ([], rs1)
    else if c =? 92 then
      match rs1 with
      | [] => None
      | e :: rs2 =>
        if e =? 117 then
          match rs2 with
          | h1 :: h2 :: h3 :: h4 :: rs3 =>
            match hex4 h1 h2 h3 h4 with
            | None => None
            | Some u =>
              if is_surrogate u then
                match rs3 with
                | b :: v :: g1 :: g2 :: g3 :: g4 :: rs4 =>
                  match (if (b =? 92) && (v =? 117) then hex4 g1 g2 g3 g4 else None) with
                  | Some w =>
                    match utf16_DecodeRune u w with
                    | Some r => emit r (scan_string rs4)
                    | None => emit RuneError (scan_string rs3)
                    end
                  | None => emit RuneError (scan_string rs3)
                  end
                | _ => emit RuneError (scan_string rs3)
                end
              else emit u (scan_string rs3)
            end
          | _ => None
          end
        else match simple_escape e with Some r => emit r (scan_string rs2) | None => None end
      end
    else if c <? 32 then None
    else emit c (scan_string rs1)
  end.

(** ** Numbers and literals *)

Definition digit (r : Z) : bool := (48 <=? r) && (r <=? 57).

(** One digit or more. *)
Definition scan_digits (rs : list Z) : option (list Z) :=
  match rs with r :: rs' => if digit r then Some (drop_while digit rs') else None | [] => None end.

Definition scan_exponent (rs : list Z) : option (list Z) :=
  match rs with
  | r :: rs' =>
    if (r =? 101) || (r =? 69) then
      match rs' with
      | s :: rs'' => if (s =? 43) || (s =? 45) then scan_digits rs'' else scan_digits rs'
      | [] => None
      end
    else Some rs
  | [] => Some rs
  end.

Definition scan_number (rs : list Z) : option (list Z) :=
  let rs := match rs with r :: rs' => if r =? 45 then rs' else rs | [] => rs end in
  int ← match rs with
        | r :: rs' => if r =? 48 then Some rs' else scan_digits rs
        | [] => None
        end;
  frac ← match int with
         | r :: rs' => if r =? 46 then scan_digits rs' else Some int
         | [] => Some int
         end;
  scan_exponent frac.

(** The integer of a literal; [None] when it has a fraction or an exponent. *)
Fixpoint digits_value (acc : Z) (ds : list Z) : option Z :=
  match ds with
  | [] => Some acc
  | d :: ds' => if digit d then digits_value (acc * 10 + (d - 48)) ds' else None
  end.
Definition int_literal (lit : list Z) : option Z :=
  match lit with
  | 45 :: ds => Z.opp <$> digits_value 0 ds
  | _ => digits_value 0 lit
  end.

Fixpoint scan_literal (lit : list Z) (rs : list Z) : option (list Z) :=
  match lit, rs with
  | [], _ => Some rs
  | l :: lit', r :: rs' => if l =? r then scan_literal lit' rs' else None
  | _ :: _, [] => None
  end.

Definition is_ws (r : Z) : bool := (r =? 32) || (r =? 9) || (r =? 13) || (r =? 10).
Definition skip_ws : list Z → list Z := drop_while is_ws.

(** ** Values *)

Definition maxNestingDepth : Z := 10000.

(** A value; the elements of an array after [\[]; the members of an object after
    [{].  [depth] containers are open; [n] is the fuel. *)
Fixpoint parse_value (n : nat) (depth : Z) (rs : list Z) : option (json * list Z) :=
  match n, skip_ws rs with
  | S n', c :: rs1 =>
    if c =? 34 then '(s, rest) ← scan_string rs1; Some (JString s, rest)
    else if c =? 91 then
      if maxNestingDepth <=? depth then None
      else match skip_ws rs1 with
           | r :: rest => if r =? 93 then Some (JArray [], rest)
                          else '(l, rest) ← parse_elements n' (depth + 1) rs1; Some (JArray l, rest)
           | [] => None
           end
    else if c =? 123 then
      if maxNestingDepth <=? depth then None
      else match skip_ws rs1 with
           | r :: rest => if r =? 125 then Some (JObject [], rest)
                          else '(l, rest) ← parse_members n' (depth + 1) rs1; Some (JObject l, rest)
           | [] => None
           end
    else if c =? 116 then rest ← scan_literal [114; 117; 101] rs1; Some (JBool true, rest)
    else if c =? 102 then rest ← scan_literal [97; 108; 115; 101] rs1; Some (JBool false, rest)
    else if c =? 110 then rest ← scan_literal [117; 108; 108] rs1; Some (JNull, rest)
    else rest ← scan_number (c :: rs1);
         Some (JNumber (take (length (c :: rs1) - length rest) (c :: rs1)), rest)
  | _, _ => None
  end
with parse_elements (n : nat) (depth : Z) (rs : list Z) : option (list json * list Z) :=
  match n with
  | O => None
  | S n' =>
    '(v, rest) ← parse_value n' depth rs;
    match skip_ws rest with
    | r :: rest' =>
      if r =? 44 then '(l, rest'') ← parse_elements n' depth rest'; Some (v :: l, rest'')
      else if r =? 93 then Some ([v], rest') else None
    | [] => None
    end
  end
with parse_members (n : nat) (depth : Z) (rs : list Z) : option (list (list Z * json) * list Z) :=
  match n, skip_ws rs with
  | S n', q :: rs1 =>
    if q =? 34 then
      '(key, rest) ← scan_string rs1;
      match skip_ws rest with
      | r :: rest' =>
        if r =? 58 then
          '(v, rest'') ← parse_value n' depth rest';
          match skip_ws rest'' with
          | r :: rest3 =>
            if r =? 44 then '(l, rest4) ← parse_members n' depth rest3; Some ((key, v) :: l, rest4)
            else if r =? 125 then Some ([(key, v)], rest3) else None
          | [] => None
          end
        else None
      | [] => None
      end
    else None
  | _, _ => None
  end.

(** A whole document.  The fuel is enough (see [parse_fuel]). *)
Definition parse_document (s : string) : option json :=
  let rs := runes (bytes_of s) in
  match parse_value (2 * length rs + 1) 0 rs with
  | Some (v, rest) => if bool_decide (skip_ws rest = []) then Some v else None
  | None => None
  end.

(** ** Enough fuel *)

(** What a scanner leaves is no longer than what it was given. *)
Lemma drop_while_length {A} (P : A → bool) l : (length (drop_while P l) <= length l)%nat.
Proof. induction l as [|a l IH]; [done|]. cbn. destruct (P a); cbn; lia. Qed.

Lemma emit_Some r o s rest : emit r o = Some (s, rest) → ∃ s', o = Some (s', rest) ∧ s = r :: s'.
Proof. destruct o as [[s' rest']|]; [|done]. intros [= <- <-]. eauto. Qed.

Lemma scan_string_shorter rs s rest : scan_string rs = Some (s, rest) → (length rest < length rs)%nat.
Proof.
  revert s rest. induction rs as [rs IH] using (induction_ltof1 _ (@length Z)). unfold ltof in IH.
  intros s rest. destruct rs as [|c rs1]; [done|]. cbn.
  assert (Hrec : ∀ rs' r s, (length rs' <= length rs1)%nat → emit r (scan_string rs') = Some (s, rest) →
    (length rest < S (length rs1))%nat).
  { intros rs' r s' Hl (s'' & Hs & _)%emit_Some. apply IH in Hs; cbn; lia. }
  destruct (c =? 34); [intros [= _ <-]; lia|]. destruct (c =? 92).
  - destruct rs1 as [|e rs2]; [done|]. destruct (e =? 117).
    + destruct rs2 as [|h1 [|h2 [|h3 [|h4 rs3]]]]; try done. destruct (hex4 h1 h2 h3 h4) as [u|]; [|done].
      destruct (is_surrogate u); [|apply Hrec; cbn; lia].
      repeat case_match; intros Hs; (eapply Hrec; [|exact Hs]; cbn; lia).
    + destruct (simple_escape e); [|done]. apply Hrec. cbn. lia.
  - destruct (c <? 32); [done|]. by apply Hrec.
Qed.

Lemma scan_digits_shorter rs rest : scan_digits rs = Some rest → (length rest < length rs)%nat.
Proof.
  destruct rs as [|r rs]; [done|]. cbn. destruct (digit r); [|done]. intros [= <-].
  pose proof (drop_while_length digit rs). lia.
Qed.

Lemma scan_exponent_shorter rs rest : scan_exponent rs = Some rest → (length rest <= length rs)%nat.
Proof.
  unfold scan_exponent. destruct rs as [|r rs]; [by intros [= <-]|]. destruct (_ || _); [|by intros [= <-]].
  destruct rs as [|s rs]; [done|]. destruct (_ || _); intros Hd%scan_digits_shorter; cbn in *; lia.
Qed.

Lemma scan_number_shorter rs rest : scan_number rs = Some rest → (length rest < length rs)%nat.
Proof.
  unfold scan_number. set (rs0 := match rs with r :: rs' => if r =? 45 then rs' else rs | [] => rs end).
  assert (H0 : (length rs0 <= length rs)%nat) by (subst rs0; destruct rs; [done|]; case_match; cbn; lia).
  clearbody rs0. intros (int & Hi & (frac & Hf & He%scan_exponent_shorter)%bind_Some)%bind_Some.
  assert (H1 : (length int < length rs0)%nat).
  { destruct rs0 as [|r rs0]; [done|]. destruct (r =? 48); [injection Hi as <-; cbn; lia|].
    by apply scan_digits_shorter. }
  assert (H2 : (length frac <= length int)%nat).
  { destruct int as [|r int]; [by injection Hf as <-|]. destruct (r =? 46); [|by injection Hf as <-].
    apply scan_digits_shorter in Hf. cbn. lia. }
  lia.
Qed.

Lemma scan_literal_shorter lit rs rest : scan_literal lit rs = Some rest → (length rest <= length rs)%nat.
Proof.
  revert rs. induction lit as [|l lit IH]; intros rs; cbn; [by intros [= <-]|].
  destruct rs as [|r rs]; [done|]. destruct (l =? r); [|done]. intros Hr%IH. cbn. lia.
Qed.

Lemma skip_ws_shorter rs c rest : skip_ws rs = c :: rest → (length rest < length rs)%nat.
Proof. intros Hs. pose proof (drop_while_length is_ws rs) as Hl. unfold skip_ws in Hs. rewrite Hs in Hl. cbn in Hl. lia. Qed.

Lemma parse_shorter n :
  (∀ d rs v rest, parse_value n d rs = Some (v, rest) → (length rest < length rs)%nat) ∧
  (∀ d rs v rest, parse_elements n d rs = Some (v, rest) → (length rest < length rs)%nat) ∧
  (∀ d rs v rest, parse_members n d rs = Some (v, rest) → (length rest < length rs)%nat).
Proof.
  induction n as [|n (IHv & IHe & IHm)]; [done|]. split; [|split]; intros d rs v rest; cbn [parse_value parse_elements parse_members].
  - destruct (skip_ws rs) as [|c rs1] eqn:Hs; [done|]. apply skip_ws_shorter in Hs.
    destruct (c =? 34); [intros ([s r] & Hr%scan_string_shorter & [= _ <-])%bind_Some; lia|].
    destruct (c =? 91).
    { destruct (maxNestingDepth <=? d); [done|]. destruct (skip_ws rs1) as [|r rs2] eqn:Hs1; [done|].
      apply skip_ws_shorter in Hs1. destruct (r =? 93); [intros [= _ <-]; lia|].
      intros ([l r'] & Hr%IHe & [= _ <-])%bind_Some. lia. }
    destruct (c =? 123).
    { destruct (maxNestingDepth <=? d); [done|]. destruct (skip_ws rs1) as [|r rs2] eqn:Hs1; [done|].
      apply skip_ws_shorter in Hs1. destruct (r =? 125); [intros [= _ <-]; lia|].
      intros ([l r'] & Hr%IHm & [= _ <-])%bind_Some. lia. }
    destruct (c =? 116); [intros (r & Hr%scan_literal_shorter & [= _ <-])%bind_Some; lia|].
    destruct (c =? 102); [intros (r & Hr%scan_literal_shorter & [= _ <-])%bind_Some; lia|].
    destruct (c =? 110); [intros (r & Hr%scan_literal_shorter & [= _ <-])%bind_Some; lia|].
    intros (r & Hr%scan_number_shorter & [= _ <-])%bind_Some. cbn in Hr. lia.
  - intros ([v1 r1] & H1%IHv & H2)%bind_Some. destruct (skip_ws r1) as [|r rs1] eqn:Hs; [done|].
    apply skip_ws_shorter in Hs. destruct (r =? 44).
    + apply bind_Some in H2 as ([l r'] & Hr%IHe & [= _ <-]). lia.
    + destruct (r =? 93); [|done]. injection H2 as _ <-. lia.
  - destruct (skip_ws rs) as [|q rs1] eqn:Hs; [done|]. apply skip_ws_shorter in Hs.
    destruct (q =? 34); [|done]. intros ([key r1] & H1%scan_string_shorter & H2)%bind_Some.
    destruct (skip_ws r1) as [|r rs2] eqn:Hs1; [done|]. apply skip_ws_shorter in Hs1. destruct (r =? 58); [|done].
    apply bind_Some in H2 as ([v1 r2] & H2%IHv & H3). destruct (skip_ws r2) as [|r' rs3] eqn:Hs2; [done|].
    apply skip_ws_shorter in Hs2. destruct (r' =? 44).
    + apply bind_Some in H3 as ([l r3] & Hr%IHm & [= _ <-]). lia.
    + destruct (r' =? 125); [|done]. injection H3 as _ <-. lia.
Qed.

Lemma option_bind_ext {A B} (f g : A → option B) (o o' : option A) :
  o = o' → (∀ a, o = Some a → f a = g a) → o ≫= f = o' ≫= g.
Proof. intros <- Hf. destruct o; [by apply Hf|done]. Qed.

(** Above twice the length of the text, fuel makes no difference. *)
Lemma parse_fuel n :
  (∀ m d rs, (2 * length rs + 1 <= n)%nat → (n <= m)%nat → parse_value m d rs = parse_value n d rs) ∧
  (∀ m d rs, (2 * length rs + 2 <= n)%nat → (n <= m)%nat → parse_elements m d rs = parse_elements n d rs) ∧
  (∀ m d rs, (2 * length rs + 2 <= n)%nat → (n <= m)%nat → parse_members m d rs = parse_members n d rs).
Proof.
  induction n as [|n (IHv & IHe & IHm)]; [split_and!; intros; lia|].
  destruct (parse_shorter n) as (Hv & He & Hm).
  split; [|split]; intros [|m] d rs Hn Hm'; try lia; cbn [parse_value parse_elements parse_members].
  - destruct (skip_ws rs) as [|c rs1] eqn:Hs; [done|]. apply skip_ws_shorter in Hs.
    destruct (c =? 34); [done|]. destruct (c =? 91); [|destruct (c =? 123); [|done]];
      (destruct (maxNestingDepth <=? d); [done|]); (destruct (skip_ws rs1) as [|r rs2] eqn:Hs1; [done|]);
      apply skip_ws_shorter in Hs1; case_match; try done; apply option_bind_ext; try done;
      [apply IHe|apply IHm]; lia.
  - assert (Ev : parse_value m d rs = parse_value n d rs) by (apply IHv; lia). rewrite Ev.
    apply option_bind_ext; [done|]. intros [v r1] Hr%Hv. destruct (skip_ws r1) as [|r rs1] eqn:Hs; [done|].
    apply skip_ws_shorter in Hs. destruct (r =? 44); [|done]. apply option_bind_ext; [apply IHe; lia|done].
  - destruct (skip_ws rs) as [|q rs1] eqn:Hs; [done|]. apply skip_ws_shorter in Hs. destruct (q =? 34); [|done].
    apply option_bind_ext; [done|]. intros [key r1] Hr%scan_string_shorter.
    destruct (skip_ws r1) as [|r rs2] eqn:Hs1; [done|]. apply skip_ws_shorter in Hs1. destruct (r =? 58); [|done].
    assert (Ev : parse_value m d rs2 = parse_value n d rs2) by (apply IHv; lia). rewrite Ev.
    apply option_bind_ext; [done|]. intros [v r2] Hr2%Hv. destruct (skip_ws r2) as [|r' rs3] eqn:Hs2; [done|].
    apply skip_ws_shorter in Hs2. destruct (r' =? 44); [|done]. apply option_bind_ext; [apply IHm; lia|done].
Qed.
