(* ===== verification/JsonRoundTrip.v ===== *)
(** * What [json.Marshal] writes, [json.Unmarshal] reads

    The texts of [Json] parse, with [JsonDecode]'s parser, to the values they
    were made from, provided the strings are valid UTF-8. *)
From S2P Require Import Prelude GoStrings Utf8 Json JsonDecode.
From Stdlib Require Import ZArith Lia.
#[local] Open Scope Z_scope.

(** ** Text that decodes on its own *)

Definition clean (t : bytes) (rs : list Z) : Prop := ∀ u, runes (t ++ u) = rs ++ runes u.

Lemma clean_nil : clean [] [].
Proof. done. Qed.
Lemma clean_app t1 t2 rs1 rs2 : clean t1 rs1 → clean t2 rs2 → clean (t1 ++ t2) (rs1 ++ rs2).
Proof. intros H1 H2 u. by rewrite <- app_assoc, H1, H2, app_assoc. Qed.
Lemma clean_piece p : sound_piece p → clean p.2 [p.1].
Proof. intros Hp u. unfold runes. by rewrite (piece_decodes _ Hp). Qed.
Lemma clean_ascii t : forallb is_ascii t = true → clean t (map bval t).
Proof.
  induction t as [|c t IH]; [done|]. cbn. intros [Hc Ht]%andb_true_iff.
  apply (clean_app [c] t [bval c]); [|by apply IH]. apply (clean_piece (bval c, [c])), sound_ascii, Hc.
Qed.
Lemma clean_runes t rs : clean t rs → runes t = rs.
Proof. intros Ht. specialize (Ht []). by rewrite !app_nil_r in Ht. Qed.

(** ** Hexadecimal digits *)

Lemma hex_digit_val n : 0 <= n < 16 → is_ascii (hex_digit n) = true ∧ hex_val (bval (hex_digit n)) = Some n.
Proof.
  intros Hn. assert (Hall : forallb (λ n, is_ascii (hex_digit n) && bool_decide (hex_val (bval (hex_digit n)) = Some n))
    (map Z.of_nat (seq 0 16)) = true) by (vm_compute; reflexivity).
  rewrite forallb_forall in Hall. assert (Hin : In n (map Z.of_nat (seq 0 16))).
  { apply in_map_iff. exists (Z.to_nat n). split; [lia|]. apply in_seq. lia. }
  apply Hall, andb_true_iff in Hin as [? ?%bool_decide_eq_true]. done.
Qed.

Lemma nibble r k : 0 <= k → 0 <= Z.land (Z.shiftr r k) 15 < 16 ∧ Z.land (Z.shiftr r k) 15 = (r / 2 ^ k) mod 16.
Proof.
  intros Hk. rewrite (land_field _ 4), Z.shiftr_div_pow2 by lia. split; [|done].
  apply (Z.mod_pos_bound _ 16). lia.
Qed.

Lemma hex4_digits r : 0 <= r < 65536 →
  clean (hex_digits 4 r) (map bval (hex_digits 4 r)) ∧
  match map bval (hex_digits 4 r) with [a; b; c; d] => hex4 a b c d = Some r | _ => False end.
Proof.
  intros Hr. unfold hex_digits.
  change (4 * Z.of_nat 3) with 12. change (4 * Z.of_nat 2) with 8. change (4 * Z.of_nat 1) with 4.
  change (4 * Z.of_nat 0) with 0.
  destruct (nibble r 12 ltac:(lia)) as [A1 A2], (nibble r 8 ltac:(lia)) as [B1 B2],
    (nibble r 4 ltac:(lia)) as [C1 C2], (nibble r 0 ltac:(lia)) as [D1 D2].
  destruct (hex_digit_val _ A1) as [A3 A4], (hex_digit_val _ B1) as [B3 B4], (hex_digit_val _ C1) as [C3 C4],
    (hex_digit_val _ D1) as [D3 D4].
  split; [apply clean_ascii; cbn [forallb]; by rewrite A3, B3, C3, D3|].
  cbn [map]. unfold hex4. rewrite A4, B4, C4, D4. f_equal. rewrite A2, B2, C2, D2.
  change (2 ^ 12) with 4096. change (2 ^ 8) with 256. change (2 ^ 4) with 16. change (2 ^ 0) with 1.
  Z.to_euclidean_division_equations. lia.
Qed.

(** ** Strings *)

Lemma sound_nonneg p : sound_piece p → 0 <= p.1.
Proof.
  intros [He Hd]. destruct (Z.lt_ge_cases p.1 0) as [Hlt|]; [|done].
  assert (E : encode_rune p.1 = encode_rune RuneError).
  { unfold encode_rune. replace (p.1 <? 0) with true by lia. done. }
  specialize (Hd []). rewrite app_nil_r, <- He, E in Hd. vm_compute in Hd. destruct p as [r pc].
  injection Hd as <- _. cbn in Hlt. lia.
Qed.

Lemma sound_not_invalid p : sound_piece p → invalid_piece p = false.
Proof.
  intros [He _]. unfold invalid_piece. destruct (Z.eqb_spec p.1 RuneError) as [E|]; [|done].
  rewrite <- He, E. reflexivity.
Qed.

Lemma of_runes_valid s : utf8_ValidString s = true → of_runes (runes (bytes_of s)) = s.
Proof.
  intros Hv%valid_pieces. unfold of_runes, runes. rewrite <- (of_bytes_of s) at 2. f_equal.
  rewrite <- (decode_runes_concat (bytes_of s)) at 2. f_equal.
  induction Hv as [|p ps Hp _ IH]; [done|]. cbn. by rewrite (piece_encodes _ Hp), IH.
Qed.

(** A scanner's view of a text: these runes emit [r]. *)
Definition scans (t : bytes) (r : Z) : Prop :=
  ∃ rs, clean t rs ∧ ∀ rest, scan_string (rs ++ rest) = emit r (scan_string rest).

Lemma scans_simple e r :
  is_ascii e = true → simple_escape (bval e) = Some r → (bval e =? 117) = false → scans ["\"%char; e] r.
Proof.
  intros He Hs Hu. exists [92; bval e]. split.
  - apply (clean_ascii ["\"%char; e]). cbn. by rewrite He.
  - intros rest. cbn. by rewrite Hu, Hs.
Qed.

Lemma scans_hex r : 0 <= r < 55296 → scans (bytes_of "\u" ++ hex_digits 4 r) r.
Proof.
  intros Hr. destruct (hex4_digits r ltac:(lia)) as [Hc Hh].
  exists ([92; 117] ++ map bval (hex_digits 4 r)). split; [apply clean_app; [by apply clean_ascii|done]|].
  destruct (map bval (hex_digits 4 r)) as [|a [|b [|c [|d [|]]]]]; try done. intros rest. cbn. rewrite Hh.
  replace (is_surrogate r) with false; [done|]. unfold is_surrogate. lia.
Qed.

(** Every rune of a valid string is written so that it reads back. *)
Lemma scans_rune p : sound_piece p → scans (json_rune p) p.1.
Proof.
  intros Hp. pose proof (sound_nonneg p Hp) as H0. pose proof (sound_not_invalid p Hp) as Hi.
  destruct p as [r piece]. cbn in H0 |- *. unfold invalid_piece in Hi. cbn in Hi. unfold json_rune. rewrite Hi.
  assert (Hasc : r < 128 → piece = [byte_of r]).
  { intros Hr. pose proof (piece_encodes _ Hp) as He. cbn in He. rewrite <- He. unfold encode_rune.
    replace (_ || _ || _) with false by lia. by replace (r <? 128) with true by lia. }
  destruct (Z.eqb_spec r 34) as [->|N34]; [rewrite Hasc by lia; by apply scans_simple|].
  destruct (Z.eqb_spec r 92) as [->|N92]; [rewrite Hasc by lia; by apply scans_simple|]. cbn [orb].
  destruct (Z.eqb_spec r 8) as [->|_]; [by apply (scans_simple "b")|].
  destruct (Z.eqb_spec r 12) as [->|_]; [by apply (scans_simple "f")|].
  destruct (Z.eqb_spec r 10) as [->|_]; [by apply (scans_simple "n")|].
  destruct (Z.eqb_spec r 13) as [->|_]; [by apply (scans_simple "r")|].
  destruct (Z.eqb_spec r 9) as [->|_]; [by apply (scans_simple "t")|].
  destruct (_ || _ || _) eqn:Hesc; [apply scans_hex; lia|].
  exists [r]. split; [exact (clean_piece _ Hp)|]. intros rest. cbn.
  replace (r =? 34) with false by lia. replace (r =? 92) with false by lia.
  by replace (r <? 32) with false by lia.
Qed.

Lemma scan_runes ps :
  Forall sound_piece ps →
  ∃ rs, clean (concat (map json_rune ps)) rs ∧ ∀ rest, scan_string (rs ++ 34 :: rest) = Some (ps.*1, rest).
Proof.
  induction 1 as [|p ps Hp _ (rs & Hc & Hs)]; [by exists []|].
  destruct (scans_rune p Hp) as (rs1 & Hc1 & Hs1). exists (rs1 ++ rs). split; [by apply clean_app|].
  intros rest. by rewrite <- app_assoc, Hs1, Hs.
Qed.

(** ** Values *)

(** What may follow a value: the end of the text, a comma, a closing bracket or
    space. *)
Definition delimited (rest : list Z) : Prop :=
  match rest with [] => True | c :: _ => (c = 44 ∨ c = 93 ∨ c = 125) ∨ is_ws c = true end.

(** A text that parses to a value inside at most [maxNestingDepth - k] containers,
    with any delimiter after it, and starts with neither space nor a closing
    bracket. *)
Definition parses (k : Z) (t : bytes) (v : json) : Prop :=
  ∃ c rs N, clean t (c :: rs) ∧ (is_ws c = false ∧ c ≠ 93) ∧
    ∀ n d rest, (N <= n)%nat → d + k <= maxNestingDepth → delimited rest → parse_value n d ((c :: rs) ++ rest) = Some (v, rest).

Lemma quote_clean : clean [quote_mark] [34].
Proof. by apply clean_ascii. Qed.

(** A string literal, also as the key of an object. *)
Lemma string_literal s :
  utf8_ValidString s = true →
  ∃ rs, clean (bytes_of (json_string s)) (34 :: rs) ∧
    ∀ rest, scan_string (rs ++ rest) = Some (runes (bytes_of s), rest).
Proof.
  intros Hv%valid_pieces. destruct (scan_runes _ Hv) as (rs & Hc & Hs).
  exists (rs ++ [34]). split.
  - unfold json_string. rewrite bytes_of_of. apply (clean_app [quote_mark] _ [34] (rs ++ [34])); [apply quote_clean|].
    apply clean_app; [done|apply quote_clean].
  - intros rest. rewrite <- app_assoc. apply Hs.
Qed.

Lemma parses_string s : utf8_ValidString s = true → parses 0 (bytes_of (json_string s)) (JString (runes (bytes_of s))).
Proof.
  intros Hv. destruct (string_literal s Hv) as (rs & Hc & Hs). exists 34, rs, 1%nat.
  split; [done|]. split; [done|]. intros [|n] d rest Hn _ _; [lia|]. cbn. by rewrite Hs.
Qed.

Lemma parses_null k : parses k (bytes_of "null") JNull.
Proof.
  exists 110, [117; 108; 108], 1%nat. split; [by apply (clean_ascii (bytes_of "null"))|].
  split; [done|]. intros [|n] d rest Hn _ _; [lia|done].
Qed.

Lemma skip_ws_stop c rs : is_ws c = false → skip_ws (c :: rs) = c :: rs.
Proof. intros Hc. unfold skip_ws. cbn. by rewrite Hc. Qed.

Lemma bytes_concat_cons x y (l : list string) :
  bytes_of (String.concat "," (x :: y :: l)) = bytes_of x ++ ","%char :: bytes_of (String.concat "," (y :: l)).
Proof. change (String.concat "," (x :: y :: l)) with (x +:+ "," +:+ String.concat "," (y :: l)). by rewrite !bytes_of_app. Qed.

Lemma app_after (c : Z) rs l rest : (c :: rs ++ l) ++ rest = (c :: rs) ++ l ++ rest.
Proof. cbn. by rewrite <- app_assoc. Qed.

(** The items of an array or object with what follows them: [items] parse, one
    after the other, to [vs]; [close] ends the list. *)
Lemma parses_elements k (ts : list string) vs :
  Forall2 (λ t, parses k (bytes_of t)) ts vs → ts ≠ [] →
  ∃ c rs N, clean (bytes_of (String.concat "," ts) ++ ["]"%char]) (c :: rs) ∧ (is_ws c = false ∧ c ≠ 93) ∧
    ∀ n d rest, (N <= n)%nat → d + k <= maxNestingDepth → parse_elements n d ((c :: rs) ++ rest) = Some (vs, rest).
Proof.
  induction 1 as [|t v ts vs (c & rs & N & Hc & Hw & Hp) Hall IH]; [done|]. intros _.
  destruct ts as [|t' ts].
  - apply Forall2_nil_inv_l in Hall as ->. exists c, (rs ++ [93]), (S N). split; [|split; [done|]].
    + apply (clean_app _ _ (c :: rs)); [done|]. by apply (clean_ascii ["]"%char]).
    + intros [|n] d rest Hn Hd; [lia|]. cbn [parse_elements].
      rewrite app_after, (Hp n d ([93] ++ rest)) by (cbn; lia). done.
  - destruct (IH ltac:(done)) as (c2 & rs2 & N2 & Hc2 & Hw2 & Hp2).
    exists c, (rs ++ 44 :: c2 :: rs2), (S (N + N2)). split; [|split; [done|]].
    + rewrite bytes_concat_cons, <- app_assoc. apply (clean_app _ _ (c :: rs)); [done|].
      apply (clean_app [","%char] _ [44]); [by apply clean_ascii|done].
    + intros [|n] d rest Hn Hd; [lia|]. cbn [parse_elements].
      rewrite app_after, (Hp n d) by (cbn; lia). cbn [mbind option_bind].
      change ((44 :: c2 :: rs2) ++ rest) with (44 :: ((c2 :: rs2) ++ rest)).
      rewrite skip_ws_stop by done. cbn [Z.eqb Pos.eqb]. by rewrite (Hp2 n d) by lia.
Qed.

Lemma parses_array k (ts : list string) vs :
  0 <= k → Forall2 (λ t, parses k (bytes_of t)) ts vs → ts ≠ [] →
  parses (k + 1) (bytes_of (json_array ts)) (JArray vs).
Proof.
  intros Hk Hall Hne. destruct (parses_elements k ts vs Hall Hne) as (c & rs & N & Hc & [Hw Hc93] & Hp).
  exists 91, (c :: rs), (S N). split; [|split; [done|]].
  - unfold json_array. destruct ts as [|t ts]; [done|]. rewrite !bytes_of_app.
    apply (clean_app ["["%char] _ [91]); [by apply clean_ascii|done].
  - intros [|n] d rest Hn Hd _; [lia|]. cbn [parse_value app]. rewrite skip_ws_stop by done.
    cbn [Z.eqb Pos.eqb]. replace (maxNestingDepth <=? d) with false by lia.
    rewrite skip_ws_stop by done. replace (c =? 93) with false by lia.
    change (c :: rs ++ rest) with ((c :: rs) ++ rest). by rewrite (Hp n (d + 1) rest) by lia.
Qed.

(** *** Objects *)

Definition field_parses (k : Z) (kv : string * string) (m : list Z * json) : Prop :=
  utf8_ValidString kv.1 = true ∧ m.1 = runes (bytes_of kv.1) ∧ parses k (bytes_of kv.2) m.2.

(** Space between the tokens: none in what [json.Marshal] writes, line breaks and
    indentation in what an encoder with [SetIndent] writes. *)
Definition white (w : string) : Prop := forallb (λ c, is_ws (bval c)) (bytes_of w) = true.

Lemma skip_white w rs : white w → skip_ws (map bval (bytes_of w) ++ rs) = skip_ws rs.
Proof.
  unfold white. induction (bytes_of w) as [|c l IH]; [done|]. cbn. intros [Hc Hl]%andb_true_iff.
  unfold skip_ws in *. cbn. rewrite Hc. by apply IH.
Qed.

Lemma white_clean w : white w → clean (bytes_of w) (map bval (bytes_of w)).
Proof.
  intros Hw. apply clean_ascii. unfold white in Hw. rewrite forallb_forall in *. intros c Hc%Hw.
  unfold is_ws in Hc. unfold is_ascii, in_range. lia.
Qed.

Lemma parse_value_white w n d rs : white w → parse_value n d (map bval (bytes_of w) ++ rs) = parse_value n d rs.
Proof. intros Hw. destruct n; cbn [parse_value]; [done|]. by rewrite skip_white. Qed.

Lemma delimited_white w c rs : white w → delimited (c :: rs) → delimited (map bval (bytes_of w) ++ c :: rs).
Proof.
  unfold white. destruct (bytes_of w) as [|x l]; [done|]. cbn. intros [Hx _]%andb_true_iff _. by right.
Qed.

Definition member_text (w1 w2 : string) (kv : string * string) : string :=
  w1 +:+ json_string kv.1 +:+ ":" +:+ w2 +:+ kv.2.
Definition object_text (w1 w2 w3 : string) (fs : list (string * string)) : string :=
  "{" +:+ String.concat "," (map (member_text w1 w2) fs) +:+ w3 +:+ "}".

Lemma json_object_text fs : json_object fs = object_text "" "" "" fs.
Proof. reflexivity. Qed.

Section objects.
Context (k : Z) (w1 w2 w3 : string) (Hw1 : white w1) (Hw2 : white w2) (Hw3 : white w3).

(** A member up to its value. *)
Lemma parses_field kv m :
  field_parses k kv m →
  ∃ rs N, clean (bytes_of (member_text w1 w2 kv)) rs ∧
    ∀ n d rest, (N <= n)%nat → d + k <= maxNestingDepth → delimited rest →
      ∃ rs1 rest1 rest2, skip_ws (rs ++ rest) = 34 :: rs1 ∧ scan_string rs1 = Some (m.1, rest1) ∧
        skip_ws rest1 = 58 :: rest2 ∧ parse_value n d rest2 = Some (m.2, rest).
Proof using Hw1 Hw2.
  intros (Hv & Hm & (c & rs & N & Hc & [Hw _] & Hp)). destruct (string_literal kv.1 Hv) as (rk & Hck & Hsk).
  exists (map bval (bytes_of w1) ++ (34 :: rk) ++ 58 :: map bval (bytes_of w2) ++ c :: rs), N. split.
  - unfold member_text. rewrite !bytes_of_app. apply clean_app; [by apply white_clean|].
    apply clean_app; [done|]. apply (clean_app [":"%char] _ [58]); [by apply clean_ascii|].
    apply clean_app; [by apply white_clean|done].
  - intros n d rest Hn Hd Hrest.
    exists (rk ++ 58 :: map bval (bytes_of w2) ++ (c :: rs) ++ rest),
      (58 :: map bval (bytes_of w2) ++ (c :: rs) ++ rest), (map bval (bytes_of w2) ++ (c :: rs) ++ rest).
    split; [|split; [by rewrite Hsk, Hm|split; [by apply skip_ws_stop|]]].
    + rewrite <- app_assoc, skip_white by done. cbn [app]. rewrite skip_ws_stop by done. f_equal.
      rewrite <- !app_assoc. cbn [app]. by rewrite <- app_assoc.
    + rewrite parse_value_white by done. by apply Hp.
Qed.

Lemma parses_members (fs : list (string * string)) ms :
  Forall2 (field_parses k) fs ms → fs ≠ [] →
  ∃ rs N, clean (bytes_of (String.concat "," (map (member_text w1 w2) fs)) ++ bytes_of w3 ++ ["}"%char]) rs ∧
    (∀ rest, ∃ rs1, skip_ws (rs ++ rest) = 34 :: rs1) ∧
    ∀ n d rest, (N <= n)%nat → d + k <= maxNestingDepth → parse_members n d (rs ++ rest) = Some (ms, rest).
Proof using Hw1 Hw2 Hw3.
  induction 1 as [|kv m fs ms Hf Hall IH]; [done|]. intros _.
  destruct (parses_field kv m Hf) as (rs & N & Hc & Hp). destruct m as [key v]. cbn [fst snd] in Hp.
  assert (Hhead : ∀ l rest, l ≠ [] → delimited l → ∃ rs1, skip_ws ((rs ++ l) ++ rest) = 34 :: rs1).
  { intros [|c l] rest Hl Hd; [done|].
    destruct (Hp N (- k) (c :: l ++ rest) ltac:(lia) ltac:(unfold maxNestingDepth; lia) Hd) as (rs1 & _ & _ & E & _).
    exists rs1. rewrite <- app_assoc. exact E. }
  destruct fs as [|kv' fs].
  - apply Forall2_nil_inv_l in Hall as ->. exists (rs ++ map bval (bytes_of w3) ++ [125]), (S N). split; [|split].
    + cbn [map String.concat]. apply clean_app; [done|]. apply clean_app; [by apply white_clean|].
      by apply (clean_ascii ["}"%char]).
    + intros rest. apply Hhead; [by destruct (bytes_of w3)|]. apply delimited_white; [done|cbn; lia].
    + intros [|n] d rest Hn Hd; [lia|].
      destruct (Hp n d (map bval (bytes_of w3) ++ 125 :: rest) ltac:(lia) Hd
        ltac:(apply delimited_white; [done|cbn; lia])) as (rs1 & r1 & r2 & E0 & E1 & E2 & E3).
      cbn [parse_members]. rewrite <- !app_assoc. cbn [app]. rewrite E0. cbn [Z.eqb Pos.eqb].
      rewrite E1. cbn [mbind option_bind]. rewrite E2. cbn [Z.eqb Pos.eqb].
      rewrite E3. cbn [mbind option_bind]. rewrite skip_white by done. by rewrite skip_ws_stop by done.
  - destruct (IH ltac:(done)) as (rs2 & N2 & Hc2 & _ & Hp2). exists (rs ++ 44 :: rs2), (S (N + N2)). split; [|split].
    + cbn [map]. rewrite bytes_concat_cons, <- app_assoc. apply clean_app; [done|].
      apply (clean_app [","%char] _ [44]); [by apply clean_ascii|done].
    + intros rest. apply Hhead; [done|cbn; lia].
    + intros [|n] d rest Hn Hd; [lia|].
      destruct (Hp n d (44 :: rs2 ++ rest) ltac:(lia) Hd ltac:(cbn; lia)) as (rs1 & r1 & r2 & E0 & E1 & E2 & E3).
      cbn [parse_members]. rewrite <- app_assoc. cbn [app]. rewrite E0. cbn [Z.eqb Pos.eqb].
      rewrite E1. cbn [mbind option_bind]. rewrite E2. cbn [Z.eqb Pos.eqb].
      rewrite E3. cbn [mbind option_bind]. rewrite skip_ws_stop by done. cbn [Z.eqb Pos.eqb].
      by rewrite (Hp2 n d rest) by lia.
Qed.

Lemma parses_object_text (fs : list (string * string)) ms :
  0 <= k → Forall2 (field_parses k) fs ms → fs ≠ [] →
  parses (k + 1) (bytes_of (object_text w1 w2 w3 fs)) (JObject ms).
Proof using Hw1 Hw2 Hw3.
  intros Hk Hall Hne. destruct (parses_members fs ms Hall Hne) as (rs & N & Hc & Hh & Hp).
  exists 123, rs, (S N). split; [|split; [done|]].
  - unfold object_text. rewrite !bytes_of_app. apply (clean_app ["{"%char] _ [123]); [by apply clean_ascii|done].
  - intros [|n] d rest Hn Hd _; [lia|]. cbn [parse_value app]. rewrite skip_ws_stop by done.
    cbn [Z.eqb Pos.eqb]. replace (maxNestingDepth <=? d) with false by lia.
    destruct (Hh rest) as (rs1 & E). rewrite E. cbn [Z.eqb Pos.eqb]. by rewrite (Hp n (d + 1) rest) by lia.
Qed.
End objects.

Lemma parses_object k (fs : list (string * string)) ms :
  0 <= k → Forall2 (field_parses k) fs ms → fs ≠ [] →
  parses (k + 1) (bytes_of (json_object fs)) (JObject ms).
Proof. rewrite json_object_text. by apply parses_object_text. Qed.

(** A document of one such value, with space after it. *)
Lemma parse_document_white k s w v :
  k <= maxNestingDepth → parses k (bytes_of s) v → white w → parse_document (s +:+ w) = Some v.
Proof.
  intros Hk (c & rs & N & Hc & _ & Hp) Hw. unfold parse_document. rewrite bytes_of_app, Hc, (clean_runes _ _ (white_clean _ Hw)).
  set (ws := map bval (bytes_of w)). set (n := (2 * length ((c :: rs) ++ ws) + 1)%nat).
  destruct (parse_fuel n) as (Hf & _ & _). rewrite <- (Hf (n + N)%nat 0 ((c :: rs) ++ ws)) by (unfold n; lia).
  assert (Hd : delimited ws).
  { unfold ws, white in *. destruct (bytes_of w) as [|x l]; [done|]. cbn in *. apply andb_true_iff in Hw as [? _]. by right. }
  rewrite (Hp (n + N)%nat 0 ws ltac:(lia) ltac:(lia) Hd). pose proof (skip_white w [] Hw) as E.
  rewrite app_nil_r in E. unfold ws. by rewrite E.
Qed.

Lemma parse_document_ok k s v :
  k <= maxNestingDepth → parses k (bytes_of s) v → parse_document s = Some v.
Proof.
  intros Hk Hp. rewrite <- (parse_document_white k s "" v Hk Hp eq_refl). f_equal.
  apply bytes_of_inj. by rewrite bytes_of_app, app_nil_r.
Qed.

Lemma parses_mono k k' t v : k <= k' → parses k t v → parses k' t v.
Proof.
  intros Hk (c & rs & N & Hc & Hw & Hp). exists c, rs, N. split; [done|]. split; [done|].
  intros n d rest Hn Hd. apply Hp; [done|lia].
Qed.
