(* ===== verification/JsonStruct.v ===== *)
(** * Package [encoding/json]: structs of scalar fields

    What [json.Encoder] writes for a struct whose fields are strings, integers and
    booleans, and that reading the text gives the fields back: the text parses to
    one object with the fields in order, and it holds no newline, so that texts
    written one after the other are the lines of a file. *)
From S2P Require Import Prelude GoStrings GoTime Utf8 Json JsonDecode JsonRoundTrip.
From Stdlib Require Import ZArith Lia.
#[local] Open Scope Z_scope.

(** ** Lines *)

Definition newline : ascii := ascii_of_nat 10.
Definition one_line (t : bytes) : Prop := Forall (λ c, c ≠ newline) t.

Lemma one_line_app t u : one_line (t ++ u) ↔ one_line t ∧ one_line u.
Proof. apply Forall_app. Qed.

(** ** Integers *)

Lemma pretty_go_value (x : N) (s : string) :
  digits_value 0 (map bval (bytes_of (pretty_N_go x s))) = digits_value (Z.of_N x) (map bval (bytes_of s)).
Proof.
  revert s. induction (N.lt_wf_0 x) as [x _ IH]; intros s. destruct (decide (0 < x)%N) as [Hp|Hp].
  - rewrite pretty_N_go_step by done. rewrite IH by (apply N.div_lt; lia).
    destruct (digit_char_val (x `mod` 10)) as [Hd Hv]; [apply N.mod_lt; lia|].
    change (bytes_of (String ?a ?b)) with (a :: bytes_of b). cbn [map digits_value].
    change (digit (bval ?c)) with (is_digit c). rewrite Hd, Hv. f_equal.
    pose proof (N.div_mod x 10 ltac:(done)). lia.
  - assert (x = 0%N) as -> by lia. by rewrite pretty_N_go_0.
Qed.

Lemma pretty_go_head (x : N) (s : string) :
  (0 < x)%N → ∃ c l, bytes_of (pretty_N_go x s) = c :: l ∧ is_digit c = true ∧ bval c ≠ 48.
Proof.
  revert s. induction (N.lt_wf_0 x) as [x _ IH]; intros s Hx. rewrite pretty_N_go_step by done.
  destruct (decide (0 < x `div` 10)%N) as [Hq|Hq]; [apply IH; [apply N.div_lt; lia|done]|].
  pose proof (N.div_mod x 10 ltac:(done)). assert (E0 : (x `div` 10 = 0)%N) by (by apply N.le_0_r, N.nlt_ge). rewrite E0 in *.
  rewrite pretty_N_go_0. destruct (digit_char_val (x `mod` 10)) as [Hd Hv]; [apply N.mod_lt; lia|].
  change (bytes_of (String ?a ?b)) with (a :: bytes_of b). eexists _, _. split; [reflexivity|]. split; [done|]. lia.
Qed.

(** Decimal notation: digits, none before the number's own. *)
Record decimal (n : Z) (t : bytes) : Prop := {
  decimal_digits : Forall (λ c, is_digit c = true) t;
  decimal_value : digits_value 0 (map bval t) = Some n;
  decimal_head : ∃ c l, t = c :: l ∧ (bval c = 48 → l = []);
}.

Lemma pretty_decimal (x : N) : decimal (Z.of_N x) (bytes_of (pretty x)).
Proof.
  constructor; [apply pretty_digits| |]; unfold pretty, pretty_N; destruct (decide (x = 0%N)) as [->|Hx].
  - done.
  - rewrite pretty_go_value. done.
  - by exists "0"%char, [].
  - destruct (pretty_go_head x "" ltac:(lia)) as (c & l & E & _ & H). exists c, l. done.
Qed.

Lemma delimited_not_number r rest :
  delimited (r :: rest) → (digit r = false ∧ (r =? 46) = false ∧ ((r =? 101) || (r =? 69)) = false).
Proof.
  intros [[->|[-> | ->]]|Hw]; [done..|]. unfold is_ws, digit in *. lia.
Qed.

Lemma scan_digits_all t rest :
  Forall (λ c, is_digit c = true) t → t ≠ [] → delimited rest → scan_digits (map bval t ++ rest) = Some rest.
Proof.
  intros Ht Hne Hrest. destruct t as [|c t]; [done|]. apply Forall_cons in Ht as [Hc Ht]. cbn. change (digit (bval c)) with (is_digit c).
  rewrite Hc. f_equal. clear Hne. induction Ht as [|d t Hd _ IH]; cbn.
  - destruct rest as [|r rest]; [done|]. cbn. destruct (delimited_not_number _ _ Hrest) as [-> _]. done.
  - change (digit (bval d)) with (is_digit d). by rewrite Hd.
Qed.

Lemma scan_exponent_stop rest : delimited rest → scan_exponent rest = Some rest.
Proof. destruct rest as [|r rest]; [done|]. intros (_ & _ & E)%delimited_not_number. cbn. by rewrite E. Qed.

(** The integer part, and nothing after it. *)
Lemma scan_decimal n t rest :
  decimal n t → delimited rest →
  (int ← match map bval t ++ rest with
         | r :: rs' => if r =? 48 then Some rs' else scan_digits (map bval t ++ rest)
         | [] => None
         end;
   frac ← match int with
          | r :: rs' => if r =? 46 then scan_digits rs' else Some int
          | [] => Some int
          end;
   scan_exponent frac) = Some rest.
Proof.
  intros [Hd _ (c & l & -> & Hl)] Hrest.
  assert (Hint : (if bval c =? 48 then Some (map bval l ++ rest) else scan_digits (bval c :: map bval l ++ rest)) = Some rest).
  { destruct (Z.eqb_spec (bval c) 48) as [E|_]; [by rewrite (Hl E)|]. by apply (scan_digits_all (c :: l)). }
  cbn [map app]. rewrite Hint. cbn [mbind option_bind].
  assert (Hf : match rest with r :: rs' => if r =? 46 then scan_digits rs' else Some rest | [] => Some rest end = Some rest).
  { destruct rest as [|r rest]; [done|]. by destruct (delimited_not_number _ _ Hrest) as (_ & -> & _). }
  rewrite Hf. cbn [mbind option_bind]. by apply scan_exponent_stop.
Qed.

Lemma is_digit_range c : is_digit c = true → 48 <= bval c <= 57.
Proof. apply in_range_spec. Qed.

Lemma digits_ascii t : Forall (λ c, is_digit c = true) t → forallb is_ascii t = true.
Proof.
  induction 1 as [|c t Hc _ IH]; [done|]. cbn. rewrite IH, andb_true_r. apply is_digit_range in Hc.
  unfold is_ascii, in_range. lia.
Qed.

Lemma digits_one_line t : Forall (λ c, is_digit c = true) t → one_line t.
Proof. intros Ht. eapply Forall_impl; [exact Ht|]. by intros c Hc ->. Qed.

(** The literal of an integer: its sign and its digits. *)
Definition int_text (z : Z) (t : bytes) : Prop :=
  ∃ c rs, t = c :: rs ∧ forallb is_ascii (c :: rs) = true ∧ one_line (c :: rs) ∧ (bval c = 45 ∨ 48 <= bval c <= 57) ∧
    int_literal (map bval (c :: rs)) = Some z ∧
    ∀ rest, delimited rest → scan_number (map bval (c :: rs) ++ rest) = Some rest.

Lemma decimal_int_text n t : decimal n t → int_text n t.
Proof.
  intros Hdec. pose proof Hdec as [Hd Hv (c & l & -> & _)].
  pose proof (is_digit_range c ltac:(by inversion Hd)) as Hc.
  exists c, l. split; [done|]. split; [by apply digits_ascii|]. split; [by apply digits_one_line|]. split; [lia|]. split.
  - cbn [map] in *. unfold int_literal. destruct (bval c) as [|p|p] eqn:Ep; [lia| |lia].
    do 6 (destruct p as [p|p|]; try (exact Hv)). lia.
  - intros rest Hrest. unfold scan_number. cbn [map app]. replace (bval c =? 45) with false by lia.
    exact (scan_decimal n (c :: l) rest Hdec Hrest).
Qed.

Lemma pretty_int_text z : int_text z (bytes_of (pretty z)).
Proof.
  destruct z as [|p|p]; [apply (decimal_int_text 0), (pretty_decimal 0)|
    apply (decimal_int_text (Zpos p)), (pretty_decimal (Npos p))|].
  pose proof (pretty_decimal (Npos p)) as Hdec. pose proof Hdec as [Hd Hv _].
  exists "-"%char, (bytes_of (pretty (Npos p))). split; [done|]. split; [cbn; by apply digits_ascii|].
  split; [constructor; [done|by apply digits_one_line]|]. split; [by left|].
  split; [cbn -[digits_value]; change (bval "-") with 45; cbn -[digits_value]; by rewrite Hv|].
  intros rest Hrest. unfold scan_number. cbn [map app]. change (bval "-" =? 45) with true. cbn iota.
  exact (scan_decimal _ _ rest Hdec Hrest).
Qed.

Definition int_value (z : Z) : list Z := map bval (bytes_of (pretty z)).

Lemma int_value_literal z : int_literal (int_value z) = Some z.
Proof. unfold int_value. by destruct (pretty_int_text z) as (c & t & -> & _ & _ & _ & Hi & _). Qed.

Lemma parses_number k z : parses k (bytes_of (pretty z)) (JNumber (int_value z)).
Proof.
  unfold int_value. destruct (pretty_int_text z) as (c & t & -> & Ha & _ & Hc & _ & Hs).
  exists (bval c), (map bval t), 1%nat. split; [by apply (clean_ascii (c :: t))|].
  split; [unfold is_ws; lia|]. intros [|n] d rest Hn _ Hrest; [lia|]. cbn [parse_value].
  change ((bval c :: map bval t) ++ rest) with (map bval (c :: t) ++ rest).
  assert (Hw : skip_ws (map bval (c :: t) ++ rest) = bval c :: map bval t ++ rest).
  { cbn [map app]. apply skip_ws_stop. unfold is_ws. lia. }
  rewrite Hw. replace (bval c =? 34) with false by lia. replace (bval c =? 91) with false by lia.
  replace (bval c =? 123) with false by lia. replace (bval c =? 116) with false by lia.
  replace (bval c =? 102) with false by lia. replace (bval c =? 110) with false by lia.
  change (bval c :: map bval t ++ rest) with (map bval (c :: t) ++ rest).
  rewrite Hs by done. cbn [mbind option_bind]. do 2 f_equal. f_equal.
  rewrite length_app, Nat.add_sub. apply take_app_length.
Qed.

(** ** Scalars and structs *)

Inductive scalar := SString (s : string) | SInt (z : Z) | SBool (b : bool).

Definition scalar_text (v : scalar) : string :=
  match v with
  | SString s => json_string s
  | SInt z => pretty z
  | SBool b => if b then "true" else "false"
  end.
Definition scalar_value (v : scalar) : json :=
  match v with
  | SString s => JString (runes (bytes_of s))
  | SInt z => JNumber (int_value z)
  | SBool b => JBool b
  end.

(** A string field tagged [omitempty]. *)
Definition omitempty (name s : string) : list (string * scalar) :=
  if bool_decide (s = "") then [] else [(name, SString s)].

Definition json_struct (fs : list (string * scalar)) : string :=
  json_object (map (λ f, (f.1, scalar_text f.2)) fs).
Definition struct_members (fs : list (string * scalar)) : list (list Z * json) :=
  map (λ f, (runes (bytes_of f.1), scalar_value f.2)) fs.

(** Field names and string values are UTF-8. *)
Definition valid_scalar (v : scalar) : Prop :=
  match v with SString s => utf8_ValidString s = true | _ => True end.
Definition valid_field (f : string * scalar) : Prop := utf8_ValidString f.1 = true ∧ valid_scalar f.2.

Lemma parses_bool k (b : bool) : parses k (bytes_of (if b then "true" else "false")) (JBool b).
Proof.
  destruct b; [exists 116, [114; 117; 101], 1%nat|exists 102, [97; 108; 115; 101], 1%nat];
    (split; [by apply clean_ascii|split; [done|intros [|n] d rest Hn _ _; [lia|done]]]).
Qed.

Lemma parses_scalar v : valid_scalar v → parses 0 (bytes_of (scalar_text v)) (scalar_value v).
Proof. destruct v; [apply parses_string|intros _; apply parses_number|intros _; apply parses_bool]. Qed.

Lemma parse_struct fs :
  Forall valid_field fs → fs ≠ [] → parse_document (json_struct fs) = Some (JObject (struct_members fs)).
Proof.
  intros Hv Hne. apply (parse_document_ok 1); [done|]. apply (parses_object 0); [done| |by destruct fs].
  clear Hne. induction Hv as [|f fs [Hk Hf] _ IH]; cbn; constructor; [|done].
  split_and!; [done|done|by apply parses_scalar].
Qed.

(** ** No newline *)

Lemma bval_byte z : bval (byte_of z) = z mod 256.
Proof.
  unfold byte_of, bval. pose proof (Z.mod_pos_bound z 256 ltac:(lia)). rewrite N_ascii_embedding; lia.
Qed.

Lemma byte_not_newline z : z mod 256 ≠ 10 → byte_of z ≠ newline.
Proof. intros Hz E%(f_equal bval). rewrite bval_byte in E. done. Qed.

Lemma encode_rune_one_line r : 0 <= r → r ≠ 10 → one_line (encode_rune r).
Proof.
  intros H0 H10. destruct (Z.lt_ge_cases r 128) as [Hlt|Hge].
  { unfold encode_rune. replace (_ || _ || _) with false by lia. replace (r <? 128) with true by lia.
    constructor; [|constructor]. apply byte_not_newline. by rewrite Z.mod_small by lia. }
  destruct (decide (1114111 < r ∨ 55296 <= r <= 57343)) as [Hbad|Hok].
  { assert (E : encode_rune r = encode_rune RuneError).
    { unfold encode_rune. replace ((r <? 0) || (1114111 <? r) || ((55296 <=? r) && (r <=? 57343))) with true by lia. done. }
    rewrite E. apply (bool_decide_unpack _). vm_compute. exact I. }
  destruct (Z.lt_ge_cases r 2048); [rewrite encode_rune_2 by lia|
    destruct (Z.lt_ge_cases r 65536); [rewrite encode_rune_3 by lia|rewrite encode_rune_4 by lia]];
    repeat constructor; apply byte_not_newline; Z.to_euclidean_division_equations; lia.
Qed.

Lemma hex_digits_one_line k r : one_line (hex_digits k r).
Proof.
  unfold hex_digits. induction k as [|k IH]; cbn; [constructor|]. constructor; [|done].
  destruct (nibble r (4 * Z.of_nat k) ltac:(lia)) as [Hn _]. destruct (hex_digit_val _ Hn) as [_ Hv].
  intros E. rewrite E in Hv. done.
Qed.

Lemma json_rune_one_line p : sound_piece p → one_line (json_rune p).
Proof.
  intros Hp. pose proof (sound_nonneg p Hp) as H0. pose proof (sound_not_invalid p Hp) as Hi.
  destruct p as [r piece]. cbn in H0. unfold invalid_piece in Hi. cbn in Hi. unfold json_rune. rewrite Hi.
  pose proof (piece_encodes _ Hp) as He. cbn in He. subst piece.
  assert (Hconst : ∀ t, forallb (λ c, negb (Ascii.eqb c newline)) t = true → one_line t).
  { intros t Ht. apply Forall_forall. intros c Hc%list_elem_of_In ->. rewrite forallb_forall in Ht.
    apply Ht in Hc. done. }
  destruct (Z.eqb_spec r 10) as [->|H10]; [by apply Hconst|].
  pose proof (encode_rune_one_line r H0 H10) as Hl.
  repeat case_match; try (by apply Hconst); try done; [by constructor|].
  apply one_line_app. split; [by apply Hconst|apply hex_digits_one_line].
Qed.

Lemma json_string_one_line s : utf8_ValidString s = true → one_line (bytes_of (json_string s)).
Proof.
  intros Hv%valid_pieces. unfold json_string. rewrite bytes_of_of. constructor; [done|].
  apply one_line_app. split; [|by repeat constructor]. apply Forall_concat, Forall_fmap.
  eapply Forall_impl; [exact Hv|]. intros p. apply json_rune_one_line.
Qed.

Lemma scalar_one_line v : valid_scalar v → one_line (bytes_of (scalar_text v)).
Proof.
  destruct v as [s|z|[]]; [apply json_string_one_line| |intros _; by repeat constructor..].
  intros _. cbn [scalar_text]. by destruct (pretty_int_text z) as (c & rs & -> & _ & Hl & _).
Qed.

Lemma join_one_line ts : Forall (λ t, one_line (bytes_of t)) ts → one_line (bytes_of (String.concat "," ts)).
Proof.
  induction 1 as [|t ts Ht Hts IH]; [constructor|]. destruct ts as [|t' ts]; [done|].
  rewrite bytes_concat_cons. apply one_line_app. split; [done|]. by constructor.
Qed.

Lemma struct_one_line fs : Forall valid_field fs → one_line (bytes_of (json_struct fs)).
Proof.
  intros Hv. unfold json_struct, json_object. rewrite !bytes_of_app, !one_line_app.
  split_and!; [by repeat constructor| |by repeat constructor]. apply join_one_line. rewrite map_map.
  apply Forall_fmap. eapply Forall_impl; [exact Hv|]. intros [k v] [Hk Hf]. cbn in *. unfold json_field.
  rewrite !bytes_of_app, !one_line_app. split_and!; [by apply json_string_one_line|by repeat constructor|].
  by apply scalar_one_line.
Qed.

(** ** Splitting a file *)

(** The complete lines of a file and what follows the last newline. *)
Fixpoint lines_of (s : bytes) : list bytes * bytes :=
  match s with
  | [] => ([], [])
  | c :: s' =>
    let '(ls, rest) := lines_of s' in
    if Ascii.eqb c newline then ([] :: ls, rest)
    else match ls with
         | [] => ([], c :: rest)
         | l :: ls' => ((c :: l) :: ls', rest)
         end
  end.

Lemma lines_of_line l s : one_line l → lines_of (l ++ newline :: s) = (l :: (lines_of s).1, (lines_of s).2).
Proof.
  induction 1 as [|c l Hc _ IH]; [cbn; by destruct (lines_of s)|]. cbn [app lines_of]. rewrite IH.
  by rewrite (proj2 (Ascii.eqb_neq c newline)).
Qed.

Lemma lines_of_rest l : one_line l → lines_of l = ([], l).
Proof. induction 1 as [|c l Hc _ IH]; [done|]. cbn. by rewrite IH, (proj2 (Ascii.eqb_neq c newline)). Qed.

(** ** Reading a struct back *)

(** The last member of a name; a missing member, like [null], leaves the zero value. *)
Definition member (ms : list (list Z * json)) (name : string) : json :=
  default JNull (snd <$> last (filter (λ m, m.1 = runes (bytes_of name)) ms)).

Definition string_member (ms : list (list Z * json)) (name : string) : option string :=
  match member ms name with JString s => Some (of_runes s) | JNull => Some "" | _ => None end.
Definition int_member (ms : list (list Z * json)) (name : string) : option Z :=
  match member ms name with JNumber lit => int_literal lit | JNull => Some 0 | _ => None end.
Definition bool_member (ms : list (list Z * json)) (name : string) : option bool :=
  match member ms name with JBool b => Some b | JNull => Some false | _ => None end.

Definition field_at {A} (fs : list (string * A)) (name : string) : option A :=
  snd <$> last (filter (λ f, f.1 = name) fs).

(** Members by the names of their fields. *)
Definition named (vs : list (string * json)) : list (list Z * json) := map (λ f, (runes (bytes_of f.1), f.2)) vs.
Definition utf8_names {A} (fs : list (string * A)) : Prop := Forall (λ f, utf8_ValidString f.1 = true) fs.

Lemma member_named vs name :
  utf8_names vs → utf8_ValidString name = true → member (named vs) name = default JNull (field_at vs name).
Proof.
  intros Hv Hn. unfold member, field_at.
  assert (E : filter (λ m, m.1 = runes (bytes_of name)) (named vs) = named (filter (λ f, f.1 = name) vs)).
  { induction Hv as [|f fs Hk _ IH]; [done|].
    change (named (f :: fs)) with ((runes (bytes_of f.1), f.2) :: named fs).
    rewrite !filter_cons, IH. cbn [fst]. destruct (decide (f.1 = name)) as [E|N].
    - rewrite decide_True by (by rewrite E). done.
    - rewrite decide_False; [done|]. intros Hr%(f_equal of_runes). by rewrite !of_runes_valid in Hr. }
  rewrite E. unfold named. rewrite fmap_last. by destruct (last _).
Qed.

(** Reading values of any kind. *)
Section values.
Context (vs : list (string * json)) (Hvs : utf8_names vs).

Lemma string_value name s :
  utf8_ValidString name = true → utf8_ValidString s = true → field_at vs name = Some (JString (runes (bytes_of s))) →
  string_member (named vs) name = Some s.
Proof using Hvs.
  intros Hn Hs Hf. unfold string_member. rewrite member_named, Hf by done. cbn. by rewrite of_runes_valid.
Qed.
Lemma absent_value name :
  utf8_ValidString name = true → field_at vs name = None → string_member (named vs) name = Some "".
Proof using Hvs. intros Hn Hf. unfold string_member. by rewrite member_named, Hf. Qed.
Lemma int_value_at name z :
  utf8_ValidString name = true → field_at vs name = Some (JNumber (int_value z)) → int_member (named vs) name = Some z.
Proof using Hvs. intros Hn Hf. unfold int_member. rewrite member_named, Hf by done. apply int_value_literal. Qed.
End values.

Definition scalar_values (fs : list (string * scalar)) : list (string * json) := map (λ f, (f.1, scalar_value f.2)) fs.

Lemma struct_members_named fs : struct_members fs = named (scalar_values fs).
Proof. unfold struct_members, named, scalar_values. by rewrite map_map. Qed.

Lemma valid_names fs : Forall valid_field fs → utf8_names (scalar_values fs).
Proof. intros Hv. apply Forall_fmap. eapply Forall_impl; [exact Hv|]. by intros f [? _]. Qed.

Lemma scalar_values_at fs name : field_at (scalar_values fs) name = scalar_value <$> field_at fs name.
Proof.
  unfold field_at, scalar_values.
  assert (E : filter (λ f, f.1 = name) (map (λ f, (f.1, scalar_value f.2)) fs) =
    map (λ f, (f.1, scalar_value f.2)) (filter (λ f, f.1 = name) fs)).
  { induction fs as [|f fs IH]; [done|]. cbn [map]. rewrite !filter_cons, IH. cbn [fst]. by case_decide. }
  rewrite E, fmap_last. by destruct (last _).
Qed.

Section readers.
Context (fs : list (string * scalar)) (Hfs : Forall valid_field fs).

Lemma string_member_ok name s :
  utf8_ValidString name = true → field_at fs name = Some (SString s) →
  string_member (struct_members fs) name = Some s.
Proof using Hfs.
  intros Hn Hf. rewrite struct_members_named. apply string_value; [by apply valid_names|done| |].
  - unfold field_at in Hf. destruct (last _) as [[k v]|] eqn:El; [|done]. injection Hf as ->.
    apply last_Some_elem_of, list_elem_of_filter in El as [_ El]. rewrite Forall_forall in Hfs. by apply Hfs in El as [_ ?].
  - by rewrite scalar_values_at, Hf.
Qed.
Lemma absent_string name :
  utf8_ValidString name = true → field_at fs name = None → string_member (struct_members fs) name = Some "".
Proof using Hfs.
  intros Hn Hf. rewrite struct_members_named. apply absent_value; [by apply valid_names|done|]. by rewrite scalar_values_at, Hf.
Qed.
Lemma int_member_ok name z :
  utf8_ValidString name = true → field_at fs name = Some (SInt z) → int_member (struct_members fs) name = Some z.
Proof using Hfs.
  intros Hn Hf. rewrite struct_members_named. apply int_value_at; [by apply valid_names|done|]. by rewrite scalar_values_at, Hf.
Qed.
Lemma bool_member_ok name b :
  utf8_ValidString name = true → field_at fs name = Some (SBool b) → bool_member (struct_members fs) name = Some b.
Proof using Hfs.
  intros Hn Hf. unfold bool_member. rewrite struct_members_named, member_named by (done || by apply valid_names).
  by rewrite scalar_values_at, Hf.
Qed.
End readers.

(** *** Fields that may be left out *)

Lemma field_at_app {A} (l1 l2 : list (string * A)) name :
  field_at (l1 ++ l2) name = match field_at l2 name with Some v => Some v | None => field_at l1 name end.
Proof. unfold field_at. rewrite filter_app, last_app. by destruct (last (filter _ l2)). Qed.

Lemma omitempty_other n s name : n ≠ name → field_at (omitempty n s) name = None.
Proof. intros Hn. unfold omitempty, field_at. case_bool_decide; [done|]. by rewrite filter_cons, decide_False. Qed.

(** The field is there, or it is empty and left out. *)
Definition reads (fs : list (string * scalar)) (name s : string) : Prop :=
  field_at fs name = Some (SString s) ∨ s = "" ∧ field_at fs name = None.

Lemma reads_omitempty name s : reads (omitempty name s) name s.
Proof.
  unfold reads, omitempty, field_at. case_bool_decide; [by right|left]. by rewrite filter_cons, decide_True.
Qed.
Lemma reads_l l1 l2 name s : field_at l2 name = None → reads l1 name s → reads (l1 ++ l2) name s.
Proof. unfold reads. by rewrite field_at_app; intros ->. Qed.
Lemma reads_r l1 l2 name s : field_at l1 name = None → reads l2 name s → reads (l1 ++ l2) name s.
Proof. unfold reads. rewrite field_at_app. intros Hn [-> |[-> ->]]; [by left|by right]. Qed.

Lemma string_member_reads fs name s :
  Forall valid_field fs → utf8_ValidString name = true → reads fs name s →
  string_member (struct_members fs) name = Some s.
Proof. intros Hv Hn [Hf|[-> Hf]]; [by apply string_member_ok|by apply absent_string]. Qed.

Lemma omitempty_valid name s :
  utf8_ValidString name = true → utf8_ValidString s = true → Forall valid_field (omitempty name s).
Proof. intros Hn Hs. unfold omitempty. case_bool_decide; by repeat constructor. Qed.

(** Finding a field in a list of fields and optional fields. *)
Ltac find_field := rewrite ?field_at_app, ?omitempty_other by done; reflexivity.
Ltac solve_reads :=
  first [left; reflexivity | apply reads_omitempty | apply reads_l; [find_field|solve_reads]
        | apply reads_r; [find_field|solve_reads]].
(** Reading the members of a struct one after the other. *)
Ltac read_members Hv :=
  repeat (first [erewrite (string_member_reads _ _ _ Hv) by first [reflexivity|solve_reads]
                |erewrite (int_member_ok _ Hv) by first [reflexivity|find_field]
                |erewrite (bool_member_ok _ Hv) by first [reflexivity|find_field]]; cbn [mbind option_bind]).

(** ** Indented output ([SetIndent("", "  ")]) *)

Definition line_break (depth : nat) : string := of_bytes (newline :: repeat " "%char (2 * depth)).

Definition indent_object (depth : nat) (fs : list (string * string)) : string :=
  object_text (line_break (S depth)) " " (line_break depth) fs.

Lemma line_break_white depth : white (line_break depth).
Proof.
  unfold white, line_break. rewrite bytes_of_of. cbn [forallb]. generalize (2 * depth)%nat. intros n. by induction n.
Qed.

Lemma parses_indented k depth fs ms :
  0 <= k → Forall2 (field_parses k) fs ms → fs ≠ [] →
  parses (k + 1) (bytes_of (indent_object depth fs)) (JObject ms).
Proof. apply parses_object_text; [apply line_break_white|done|apply line_break_white]. Qed.

Definition scalar_texts (fs : list (string * scalar)) : list (string * string) := map (λ f, (f.1, scalar_text f.2)) fs.

Lemma field_parses_scalar k f :
  0 <= k → valid_field f → field_parses k (f.1, scalar_text f.2) (runes (bytes_of f.1), scalar_value f.2).
Proof. intros Hk [Hn Hv]. split_and!; [done|done|]. apply (parses_mono 0); [done|]. by apply parses_scalar. Qed.

Lemma fields_parse k fs :
  0 <= k → Forall valid_field fs → Forall2 (field_parses k) (scalar_texts fs) (named (scalar_values fs)).
Proof. intros Hk Hv. induction Hv as [|f fs Hf _ IH]; cbn; constructor; [by apply field_parses_scalar|done]. Qed.
