(* ===== verification/Api.v ===== *)
(** * The Workspace API ([api/v1alpha1])

    The custom resource's types, field for field, with the part of
    [metav1.ObjectMeta] and [metav1.Condition] the code reads or writes. *)
From S2P Require Import Prelude GoTime.
From Stdlib Require Import ZArith.

(** ** [metav1] *)

Record OwnerReference := MkOwnerReference {
  Owner_Kind : string;
  Owner_Name : string;
  Owner_UID : string;
  Owner_Controller : bool;
}.

Record ObjectMeta := MkObjectMeta {
  Name : string;
  Namespace : string;
  Labels : gmap string string;
  UID : string;
  Generation : Z;
  DeletionTimestamp : option Time;
  Finalizers : list string;
  OwnerReferences : list OwnerReference;
}.

(** [metav1.ObjectMeta{Name: n, Namespace: ns, Labels: l}]: the rest is zero. *)
Definition object_meta (n ns : string) (l : gmap string string) : ObjectMeta :=
  MkObjectMeta n ns l "" 0 None [] [].

Definition set_Labels (l : gmap string string) (m : ObjectMeta) : ObjectMeta :=
  MkObjectMeta (Name m) (Namespace m) l (UID m) (Generation m) (DeletionTimestamp m)
    (Finalizers m) (OwnerReferences m).

Record Condition := MkCondition {
  Cond_Type : string;
  Cond_Status : string;
  Cond_ObservedGeneration : Z;
  Cond_LastTransitionTime : Time;
  Cond_Reason : string;
  Cond_Message : string;
}.

Definition ConditionTrue : string := "True".
Definition ConditionFalse : string := "False".

Record NamespacedName := MkNamespacedName { NN_Namespace : string; NN_Name : string }.

#[export] Instance NamespacedName_eq_dec : EqDecision NamespacedName.
Proof. solve_decision. Defined.

(** ** [WorkspaceSpec] *)

Record UserInfo := MkUserInfo { User_ID : string; User_Email : string }.

Record ResourceRequirements := MkResourceRequirements {
  Res_CPU : string;
  Res_Memory : string;
  Res_Storage : string;
}.

Record AIProvider := MkAIProvider {
  Provider_Name : string;
  Provider_Endpoint : string;
  Provider_Models : list string;
}.

(** [EgressPorts] holds [int32] values. *)
Record AIConfiguration := MkAIConfiguration {
  AI_Providers : list AIProvider;
  AI_EgressNamespaces : list string;
  AI_EgressPorts : list Z;
}.

Record CABundleRef := MkCABundleRef { CABundle_Name : string }.
Record TLSConfig := MkTLSConfig { CustomCABundle : option CABundleRef }.
Record PersistenceConfig := MkPersistenceConfig { StorageClass : string }.
Record WorkspaceLifecycleSpec := MkWorkspaceLifecycleSpec { Spec_IdleTimeout : string }.

Record WorkspaceSpec := MkWorkspaceSpec {
  Spec_User : UserInfo;
  Spec_Resources : ResourceRequirements;
  Spec_AIConfig : AIConfiguration;
  Spec_Persistence : PersistenceConfig;
  Spec_TLS : TLSConfig;
  Spec_Lifecycle : WorkspaceLifecycleSpec;
}.

(** ** [WorkspaceStatus] *)

(** [type WorkspacePhase string]: any string can be stored, five are named. *)
Definition WorkspacePhase := string.
Definition WorkspacePhasePending : WorkspacePhase := "Pending".
Definition WorkspacePhaseCreating : WorkspacePhase := "Creating".
Definition WorkspacePhaseRunning : WorkspacePhase := "Running".
Definition WorkspacePhaseFailed : WorkspacePhase := "Failed".
Definition WorkspacePhaseStopped : WorkspacePhase := "Stopped".

Record WorkspaceStatus := MkWorkspaceStatus {
  Status_Phase : WorkspacePhase;
  Status_PodName : string;
  Status_ServiceEndpoint : string;
  Status_Message : string;
  Status_RemediationHint : string;
  Status_Conditions : list Condition;
  Status_LastAccessed : Time;
}.

Definition zero_status : WorkspaceStatus := MkWorkspaceStatus "" "" "" "" "" [] zeroTime.

Record Workspace := MkWorkspace {
  WS_Meta : ObjectMeta;
  WS_Spec : WorkspaceSpec;
  WS_Status : WorkspaceStatus;
}.

Definition set_status (st : WorkspaceStatus) (ws : Workspace) : Workspace :=
  MkWorkspace (WS_Meta ws) (WS_Spec ws) st.
Definition set_meta (m : ObjectMeta) (ws : Workspace) : Workspace :=
  MkWorkspace m (WS_Spec ws) (WS_Status ws).

(** [ws.Status.LastAccessed = t]. *)
Definition set_LastAccessed (t : Time) (ws : Workspace) : Workspace :=
  let s := WS_Status ws in
  set_status (MkWorkspaceStatus (Status_Phase s) (Status_PodName s) (Status_ServiceEndpoint s)
    (Status_Message s) (Status_RemediationHint s) (Status_Conditions s) t) ws.

(** The user a workspace belongs to. *)
Definition userID (ws : Workspace) : string := User_ID (Spec_User (WS_Spec ws)).
Definition phase (ws : Workspace) : WorkspacePhase := Status_Phase (WS_Status ws).
Definition lastAccessed (ws : Workspace) : Time := Status_LastAccessed (WS_Status ws).

Definition key_of (m : ObjectMeta) : NamespacedName :=
  MkNamespacedName (Namespace m) (Name m).
