(* ===== verification/K8s.v ===== *)
(** * Kubernetes objects and libraries

    The typed objects the operator writes, with every field it sets and the
    security-relevant fields it leaves at their zero value, and the interface
    [K8sLib] to the library functions the code calls ([apimachinery] and
    [controller-runtime] are not part of the repository).  [K8sLaws] states
    their documented behaviour; [RefLib] is an instance, used by witnesses. *)
From S2P Require Import Prelude GoTime Api.
From Stdlib Require Import ZArith.

(** ** Library interface *)

Class K8sLib := {
  Quantity : Type;
  (** [resource.ParseQuantity]. *)
  ParseQuantity : string → result Quantity;
  (** [controllerutil.SetControllerReference(owner, controlled, scheme)], on the
      metadata it reads and writes. *)
  SetControllerReference : ObjectMeta → ObjectMeta → result ObjectMeta;
  (** [meta.SetStatusCondition]; the first argument is the clock. *)
  SetStatusCondition : Time → list Condition → Condition → list Condition;
  (** [controllerutil.ContainsFinalizer], [AddFinalizer], [RemoveFinalizer]. *)
  ContainsFinalizer : ObjectMeta → string → bool;
  AddFinalizer : ObjectMeta → string → ObjectMeta;
  RemoveFinalizer : ObjectMeta → string → ObjectMeta;
  (** [client.IgnoreNotFound]. *)
  IgnoreNotFound : error → option error;
}.

Definition find_condition (t : string) (cs : list Condition) : option Condition :=
  List.find (λ c, bool_decide (Cond_Type c = t)) cs.

(** Two objects' metadata differ at most in the owner references. *)
Definition same_but_owners (m m' : ObjectMeta) : Prop :=
  Name m' = Name m ∧ Namespace m' = Namespace m ∧ Labels m' = Labels m ∧ UID m' = UID m ∧
  Generation m' = Generation m ∧ DeletionTimestamp m' = DeletionTimestamp m ∧
  Finalizers m' = Finalizers m.

(** Two objects' metadata differ at most in the finalizers. *)
Definition same_but_finalizers (m m' : ObjectMeta) : Prop :=
  Name m' = Name m ∧ Namespace m' = Namespace m ∧ Labels m' = Labels m ∧ UID m' = UID m ∧
  Generation m' = Generation m ∧ DeletionTimestamp m' = DeletionTimestamp m ∧
  OwnerReferences m' = OwnerReferences m.

(** [metav1.GetControllerOf]. *)
Definition GetControllerOf (m : ObjectMeta) : option OwnerReference :=
  List.find Owner_Controller (OwnerReferences m).

(** [m] is controlled by the Workspace with metadata [owner]. *)
Definition controlled_by (owner m : ObjectMeta) : Prop :=
  ∃ r, GetControllerOf m = Some r ∧ Owner_Kind r = "Workspace" ∧
       Owner_UID r = UID owner ∧ Owner_Name r = Name owner.

Class K8sLaws `{K8sLib} : Prop := {
  (** "sets owner as a Controller OwnerReference on controlled" *)
  SetControllerReference_ok owner m m' :
    SetControllerReference owner m = Ok m' → same_but_owners m m' ∧ controlled_by owner m';
  (** it fails only if another owner already controls the object, or across
      namespaces *)
  SetControllerReference_fresh owner m :
    OwnerReferences m = [] → Namespace m = Namespace owner →
    ∃ m', SetControllerReference owner m = Ok m';
  (** "sets the corresponding condition in conditions to newCondition" *)
  SetStatusCondition_same now cs c :
    ∃ c', find_condition (Cond_Type c) (SetStatusCondition now cs c) = Some c' ∧
      Cond_Status c' = Cond_Status c ∧ Cond_Reason c' = Cond_Reason c ∧
      Cond_Message c' = Cond_Message c ∧ Cond_ObservedGeneration c' = Cond_ObservedGeneration c;
  SetStatusCondition_other now cs c t :
    t ≠ Cond_Type c →
    find_condition t (SetStatusCondition now cs c) = find_condition t cs;
  ContainsFinalizer_spec m f : ContainsFinalizer m f = true ↔ f ∈ Finalizers m;
  AddFinalizer_spec m f :
    same_but_finalizers m (AddFinalizer m f) ∧
    (∀ g, g ∈ Finalizers (AddFinalizer m f) ↔ g ∈ Finalizers m ∨ g = f);
  RemoveFinalizer_spec m f :
    same_but_finalizers m (RemoveFinalizer m f) ∧
    (∀ g, g ∈ Finalizers (RemoveFinalizer m f) ↔ g ∈ Finalizers m ∧ g ≠ f);
  IgnoreNotFound_spec e :
    IgnoreNotFound e = if IsNotFound e then None else Some e;
}.

(** ** Objects of [core/v1], [rbac/v1] and [networking/v1] *)

Section objects.
Context `{K8sLib}.

Record PersistentVolumeClaim := MkPVC {
  PVC_Meta : ObjectMeta;
  PVC_AccessModes : list string;
  PVC_Requests : gmap string Quantity;
  PVC_StorageClassName : option string;
  PVC_Phase : string;
}.

Record EnvVar := MkEnvVar { Env_Name : string; Env_Value : string }.
Record VolumeMount := MkVolumeMount {
  Mount_Name : string; Mount_Path : string; Mount_ReadOnly : bool }.
Inductive VolumeSource :=
  | PersistentVolumeClaimSource (ClaimName : string)
  | EmptyDirSource
  | ConfigMapSource (ConfigMapName : string).
Record Volume := MkVolume { Volume_Name : string; Volume_Source : VolumeSource }.
Record ContainerPort := MkContainerPort {
  CP_Name : string; CP_ContainerPort : Z; CP_Protocol : string }.
Record Probe := MkProbe {
  Probe_TCPPort : Z; Probe_InitialDelaySeconds : Z; Probe_PeriodSeconds : Z }.
Record SecurityContext := MkSecurityContext {
  SC_Privileged : option bool;
  SC_ReadOnlyRootFilesystem : option bool;
  SC_AllowPrivilegeEscalation : option bool;
  SC_CapabilitiesAdd : list string;
  SC_CapabilitiesDrop : list string;
}.
Record Container := MkContainer {
  Container_Name : string;
  Image : string;
  Container_SecurityContext : option SecurityContext;
  Requests : gmap string Quantity;
  Limits : gmap string Quantity;
  Container_Ports : list ContainerPort;
  ReadinessProbe : option Probe;
  VolumeMounts : list VolumeMount;
  Env : list EnvVar;
}.
Record PodSecurityContext := MkPodSecurityContext {
  RunAsNonRoot : option bool;
  RunAsUser : option Z;
  FSGroup : option Z;
  FSGroupChangePolicy : option string;
  SeccompProfile : option string;
}.
Record PodSpec := MkPodSpec {
  ServiceAccountName_ : string;
  HostNetwork : bool;
  HostPID : bool;
  HostIPC : bool;
  Pod_SecurityContext : option PodSecurityContext;
  Containers : list Container;
  Volumes : list Volume;
}.
Record PodCondition := MkPodCondition { PodCond_Type : string; PodCond_Status : string }.
(** [State.Waiting]: reason and message when the container waits. *)
Record ContainerStatus := MkContainerStatus { Waiting : option (string * string) }.
Record PodStatus := MkPodStatus {
  PodStatus_Phase : string;
  PodStatus_Reason : string;
  PodStatus_Message : string;
  PodStatus_Conditions : list PodCondition;
  ContainerStatuses : list ContainerStatus;
}.
Record Pod := MkPod { Pod_Meta : ObjectMeta; Pod_Spec : PodSpec; Pod_Status : PodStatus }.

Record ServicePort := MkServicePort { SP_Name : string; SP_Port : Z; SP_Protocol : string }.
Record Service := MkService {
  Service_Meta : ObjectMeta;
  ClusterIP : string;
  Selector : gmap string string;
  Service_Ports : list ServicePort;
}.

Record ServiceAccount := MkServiceAccount { SA_Meta : ObjectMeta }.
Record PolicyRule := MkPolicyRule {
  APIGroups : list string; Resources : list string; Verbs : list string }.
Record Role := MkRole { Role_Meta : ObjectMeta; Rules : list PolicyRule }.
Record Subject := MkSubject {
  Subject_Kind : string; Subject_Name : string; Subject_Namespace : string }.
Record RoleRef := MkRoleRef {
  RoleRef_APIGroup : string; RoleRef_Kind : string; RoleRef_Name : string }.
Record RoleBinding := MkRoleBinding {
  RB_Meta : ObjectMeta; Subjects : list Subject; RB_RoleRef : RoleRef }.

Inductive IntOrString := FromInt (z : Z) | FromString (s : string).
Record LabelSelector := MkLabelSelector { MatchLabels : gmap string string }.
Record IPBlock := MkIPBlock { CIDR : string; Except : list string }.
Record NetworkPolicyPort := MkNPPort {
  NPP_Protocol : option string; NPP_Port : option IntOrString }.
Record NetworkPolicyPeer := MkNPPeer {
  Peer_PodSelector : option LabelSelector;
  Peer_NamespaceSelector : option LabelSelector;
  Peer_IPBlock : option IPBlock;
}.
(** An ingress rule ([Ports], [From]) or an egress rule ([Ports], [To]). *)
Record NetworkPolicyRule := MkNPRule {
  Rule_Ports : list NetworkPolicyPort; Rule_Peers : list NetworkPolicyPeer }.
Inductive PolicyType := PolicyTypeIngress | PolicyTypeEgress.
Record NetworkPolicySpec := MkNPSpec {
  NP_PodSelector : LabelSelector;
  NP_PolicyTypes : list PolicyType;
  NP_Ingress : list NetworkPolicyRule;
  NP_Egress : list NetworkPolicyRule;
}.
Record NetworkPolicy := MkNetworkPolicy { NP_Meta : ObjectMeta; NP_Spec : NetworkPolicySpec }.

#[global] Instance PolicyType_eq_dec : EqDecision PolicyType.
Proof. solve_decision. Defined.

(** The zero value of an object that [CreateOrUpdate] is called with. *)
Definition empty_np_spec : NetworkPolicySpec := MkNPSpec (MkLabelSelector ∅) [] [] [].
Definition zero_pod_status : PodStatus := MkPodStatus "" "" "" [] [].
End objects.

(** ** An instance of the interface

    Quantities are their source text, accepted when it is not empty and starts
    with a digit; the other functions do what their documentation says. *)
Definition ref_set_controller_reference (owner m : ObjectMeta) : result ObjectMeta :=
  if bool_decide (Namespace m = Namespace owner) then
    if existsb (λ r, Owner_Controller r && negb (bool_decide (Owner_UID r = UID owner)))
         (OwnerReferences m)
    then Err (errors_new "already owned by another controller")
    else Ok (MkObjectMeta (Name m) (Namespace m) (Labels m) (UID m) (Generation m)
           (DeletionTimestamp m) (Finalizers m)
           (MkOwnerReference "Workspace" (Name owner) (UID owner) true ::
            List.filter (λ r, negb (bool_decide (Owner_UID r = UID owner))) (OwnerReferences m)))
  else Err (errors_new "cross-namespace owner references are disallowed").

Fixpoint ref_set_status_condition (now : Time) (cs : list Condition) (c : Condition) :
    list Condition :=
  match cs with
  | [] => [MkCondition (Cond_Type c) (Cond_Status c) (Cond_ObservedGeneration c) now
             (Cond_Reason c) (Cond_Message c)]
  | o :: cs' =>
    if bool_decide (Cond_Type o = Cond_Type c) then
      MkCondition (Cond_Type c) (Cond_Status c) (Cond_ObservedGeneration c)
        (if bool_decide (Cond_Status o = Cond_Status c) then Cond_LastTransitionTime o else now)
        (Cond_Reason c) (Cond_Message c) :: cs'
    else o :: ref_set_status_condition now cs' c
  end.

Definition set_Finalizers (fs : list string) (m : ObjectMeta) : ObjectMeta :=
  MkObjectMeta (Name m) (Namespace m) (Labels m) (UID m) (Generation m) (DeletionTimestamp m)
    fs (OwnerReferences m).

Definition RefLib : K8sLib := {|
  Quantity := string;
  ParseQuantity s :=
    match s with
    | String c _ => if (48 <=? N_of_ascii c)%N && (N_of_ascii c <=? 57)%N then Ok s
                    else Err (errors_new "quantities must match the regular expression")
    | EmptyString => Err (errors_new "quantities must match the regular expression")
    end;
  SetControllerReference := ref_set_controller_reference;
  SetStatusCondition := ref_set_status_condition;
  ContainsFinalizer m f := bool_decide (f ∈ Finalizers m);
  AddFinalizer m f :=
    if bool_decide (f ∈ Finalizers m) then m else set_Finalizers (Finalizers m ++ [f]) m;
  RemoveFinalizer m f := set_Finalizers (filter (λ g, g ≠ f) (Finalizers m)) m;
  IgnoreNotFound e := if IsNotFound e then None else Some e;
|}.

Lemma RefLib_laws : @K8sLaws RefLib.
Proof.
  split; cbn.
  - intros owner m m'. unfold ref_set_controller_reference.
    do 2 (case_match; [|try done]); try done. intros [= <-]. split; [done|].
    eexists. done.
  - intros owner m Hm Hns. unfold ref_set_controller_reference.
    rewrite bool_decide_true by done. rewrite Hm. cbn. eauto.
  - intros now cs c. induction cs as [|o cs IH]; cbn.
    + rewrite bool_decide_true by done. naive_solver.
    + case_bool_decide as Ho; cbn.
      * rewrite bool_decide_true by done. eauto 10.
      * by rewrite bool_decide_false.
  - intros now cs c t Ht. induction cs as [|o cs IH]; cbn.
    + by rewrite bool_decide_false.
    + case_bool_decide as Ho; cbn; [|by rewrite IH].
      by rewrite !bool_decide_false by congruence.
  - intros m f. apply bool_decide_eq_true.
  - intros m f. case_bool_decide; [split; [done|naive_solver]|].
    split; [done|]. intros g. cbn. set_solver.
  - intros m f. split; [done|]. intros g. cbn. rewrite list_elem_of_filter. naive_solver.
  - done.
Qed.
