(* ===== verification/K8sClient.v ===== *)
(** * Requests to the environment

    What the operator and the gateway ask of the Kubernetes API server, the
    clock, the metrics registry, the event recorder and the audit log.  A
    mutation passed to [controllerutil.CreateOrUpdate] is part of the request:
    the library applies it to the stored object, or to the given one when none
    is stored. *)
From S2P Require Import Prelude GoTime Api K8s.

Section client.
Context `{K8sLib}.

(** The kinds kept with [CreateOrUpdate]. *)
Inductive kind : Type → Type :=
  | KServiceAccount : kind ServiceAccount
  | KRole : kind Role
  | KRoleBinding : kind RoleBinding
  | KNetworkPolicy : kind NetworkPolicy
  | KService : kind Service.

Inductive apiE : Type → Type :=
  | GetWorkspace (key : NamespacedName) : apiE (result Workspace)
  | GetPVC (key : NamespacedName) : apiE (result PersistentVolumeClaim)
  | GetPod (key : NamespacedName) : apiE (result Pod)
  | CreateWorkspace (ws : Workspace) : apiE (result Workspace)
  | CreatePVC (pvc : PersistentVolumeClaim) : apiE (result unit)
  | CreatePod (pod : Pod) : apiE (result unit)
  | DeletePod (pod : Pod) : apiE (result unit)
  | UpdateWorkspace (ws : Workspace) : apiE (result Workspace)
  (** [Status().Patch(ctx, new, client.MergeFrom(base))]: the answer is the
      object the server returns. *)
  | PatchStatus (base new : Workspace) : apiE (result Workspace)
  | CreateOrUpdate (T : Type) (k : kind T) (obj : T) (mutate : T → result T) : apiE (result unit)
  | Now : apiE Time
  (** [select { case <-ctx.Done(): ...; case <-time.After(d): }]: [Some e] when
      the context ended first, with [e] its error. *)
  | WaitOrDone (d : Duration) : apiE (option error)
  | IncStatusPatchFailures : apiE unit
  | IncPhaseTransitions (from_phase to_phase : string) : apiE unit
  | Eventf (reason note : string) : apiE unit
  | LogAuditLine (msg : string) (fields : list (string * string)) : apiE unit.

(** The metadata of an object kept with [CreateOrUpdate]. *)
Definition kept_meta {T} (k : kind T) : T → ObjectMeta :=
  match k with
  | KServiceAccount => SA_Meta
  | KRole => Role_Meta
  | KRoleBinding => RB_Meta
  | KNetworkPolicy => NP_Meta
  | KService => Service_Meta
  end.
End client.

Arguments CreateOrUpdate {_} {T} k obj mutate.
