(* ===== verification/Cluster.v ===== *)
(** * A fault-free cluster

    An executable API server for one Workspace, its PVC and its Pod, a clock, the operator's cached reads,
    and the kubelet's one action the operator waits for.  The theorems about
    single runs quantify over every answer of the environment and do not use
    it; it states the convergence theorems, which need an environment that
    stores what it is given, and evaluates the witnesses. *)
From S2P Require Import Prelude GoTime Api K8s K8sClient.
From Stdlib Require Import ZArith.
#[local] Open Scope Z_scope.

Section cluster.
Context `{K8sLib}.

Record cluster := MkCluster {
  cl_ws : option Workspace;
  cl_pvc : option PersistentVolumeClaim;
  cl_pod : option Pod;
  cl_now : Time;
}.

Definition not_found : error := MkError "not found" [ReasonNotFoundMark].
Definition already_exists : error := errors_new "already exists".

Definition get_by {T} (meta : T → ObjectMeta) (o : option T) (key : NamespacedName) : result T :=
  match o with
  | Some x => if bool_decide (key_of (meta x) = key) then Ok x else Err not_found
  | None => Err not_found
  end.

(** A merge patch writes the fields in which [new] differs from [base]. *)
Definition merge_field {T} `{EqDecision T} (base new stored : T) : T :=
  if decide (base = new) then stored else new.

#[global] Instance Condition_eq_dec : EqDecision Condition.
Proof. solve_decision. Defined.

(** A status as it is sent: its instants have whole seconds. *)
Definition wire_condition (c : Condition) : Condition :=
  MkCondition (Cond_Type c) (Cond_Status c) (Cond_ObservedGeneration c)
    (wire_time (Cond_LastTransitionTime c)) (Cond_Reason c) (Cond_Message c).
Definition wire_status (s : WorkspaceStatus) : WorkspaceStatus :=
  MkWorkspaceStatus (Status_Phase s) (Status_PodName s) (Status_ServiceEndpoint s) (Status_Message s)
    (Status_RemediationHint s) (wire_condition <$> Status_Conditions s) (wire_time (Status_LastAccessed s)).

(** The patch is computed from the texts of [base] and [new]. *)
Definition merge_status (base new stored : WorkspaceStatus) : WorkspaceStatus :=
  let m {T} `{EqDecision T} (f : WorkspaceStatus → T) :=
    merge_field (f (wire_status base)) (f (wire_status new)) (f stored) in
  MkWorkspaceStatus (m Status_Phase) (m Status_PodName) (m Status_ServiceEndpoint)
    (m Status_Message) (m Status_RemediationHint) (m Status_Conditions) (m Status_LastAccessed).

Lemma merge_field_base {T} `{EqDecision T} (base new : T) : merge_field base new base = new.
Proof. unfold merge_field. by case_decide. Qed.

(** The Workspace [stored] after the patch from [base] to [new]. *)
Definition patched (base new stored : Workspace) : Workspace :=
  set_status (merge_status (WS_Status base) (WS_Status new) (WS_Status stored)) stored.

Lemma patched_phase base new stored :
  phase (patched base new stored) = merge_field (phase base) (phase new) (phase stored).
Proof. done. Qed.

Lemma patched_accessed base new stored :
  lastAccessed (patched base new stored) =
  merge_field (wire_time (lastAccessed base)) (wire_time (lastAccessed new)) (lastAccessed stored).
Proof. done. Qed.

(** A patch that leaves the last access of its base alone leaves the stored one. *)
Lemma patched_untouched base new stored :
  lastAccessed new = lastAccessed base → lastAccessed (patched base new stored) = lastAccessed stored.
Proof. intros E. rewrite patched_accessed, E. unfold merge_field. by rewrite decide_True. Qed.

(** Over the Workspace that is stored, the fields without instants are the new ones. *)
Lemma patched_base base new :
  phase (patched base new base) = phase new ∧
  Status_ServiceEndpoint (WS_Status (patched base new base)) = Status_ServiceEndpoint (WS_Status new).
Proof. by split; apply merge_field_base. Qed.

Definition set_ws (o : option Workspace) (c : cluster) : cluster :=
  MkCluster o (cl_pvc c) (cl_pod c) (cl_now c).
Definition set_pvc (o : option PersistentVolumeClaim) (c : cluster) : cluster :=
  MkCluster (cl_ws c) o (cl_pod c) (cl_now c).
Definition set_pod (o : option Pod) (c : cluster) : cluster :=
  MkCluster (cl_ws c) (cl_pvc c) o (cl_now c).
Definition set_now (t : Time) (c : cluster) : cluster :=
  MkCluster (cl_ws c) (cl_pvc c) (cl_pod c) t.

Definition serve (X : Type) (e : apiE X) (c : cluster) : X * cluster :=
  match e in apiE Y return Y * cluster with
  | GetWorkspace key => (get_by WS_Meta (cl_ws c) key, c)
  | GetPVC key => (get_by PVC_Meta (cl_pvc c) key, c)
  | GetPod key => (get_by Pod_Meta (cl_pod c) key, c)
  | CreateWorkspace ws =>
    match cl_ws c with
    | Some _ => (Err already_exists, c)
    | None => (Ok (set_status zero_status ws), set_ws (Some (set_status zero_status ws)) c)
    end
  | CreatePVC pvc =>
    match cl_pvc c with
    | Some _ => (Err already_exists, c)
    | None => (Ok (), set_pvc (Some pvc) c)
    end
  | CreatePod pod =>
    match cl_pod c with
    | Some _ => (Err already_exists, c)
    | None => (Ok (), set_pod (Some pod) c)
    end
  | DeletePod pod =>
    match cl_pod c with
    | Some _ => (Ok (), set_pod None c)
    | None => (Err not_found, c)
    end
  | UpdateWorkspace ws =>
    match cl_ws c with
    | Some stored =>
      let ws' := set_status (WS_Status stored) ws in
      (Ok ws', set_ws (if bool_decide (DeletionTimestamp (WS_Meta ws) ≠ None ∧
                                       Finalizers (WS_Meta ws) = [])
                       then None else Some ws') c)
    | None => (Err not_found, c)
    end
  | PatchStatus base new =>
    match cl_ws c with
    | Some stored =>
      (Ok (patched base new stored), set_ws (Some (patched base new stored)) c)
    | None => (Err not_found, c)
    end
  | CreateOrUpdate k obj f => (o ← f obj; Ok (), c)
  | Now => (cl_now c, c)
  | WaitOrDone d => (None, set_now (cl_now c + d) c)
  | IncStatusPatchFailures => ((), c)
  | IncPhaseTransitions _ _ => ((), c)
  | Eventf _ _ => ((), c)
  | LogAuditLine _ _ => ((), c)
  end.

(** The operator's client reads Workspaces, PVCs and Pods from the caches of its
    informers, which lag behind the server; everything else goes to the server. *)
Definition serve_cached (X : Type) (e : apiE X) (cache c : cluster) : X * cluster :=
  match e in apiE Y return Y * cluster with
  | GetWorkspace key => (get_by WS_Meta (cl_ws cache) key, c)
  | GetPVC key => (get_by PVC_Meta (cl_pvc cache) key, c)
  | GetPod key => (get_by Pod_Meta (cl_pod cache) key, c)
  | e' => serve _ e' c
  end.

(** An informer catches up with the server [c]. *)
Inductive synced (c cache : cluster) : cluster → Prop :=
  | synced_ws : synced c cache (set_ws (cl_ws c) cache)
  | synced_pvc : synced c cache (set_pvc (cl_pvc c) cache)
  | synced_pod : synced c cache (set_pod (cl_pod c) cache).

(** The API server refused the request. *)
Definition call_failed (c : call apiE) : Prop :=
  match c with
  | Call e x =>
    match e in apiE Y return Y → Prop with
    | GetWorkspace _ | GetPVC _ | GetPod _ | CreateWorkspace _ | CreatePVC _ | CreatePod _
    | DeletePod _ | UpdateWorkspace _ | PatchStatus _ _ => λ y, is_ok y = false
    | CreateOrUpdate _ _ _ => λ y, is_ok y = false
    | _ => λ _, False
    end x
  end.

(** The kubelet reports the stored pod as running and ready. *)
Definition ready_status : PodStatus :=
  MkPodStatus "Running" "" "" [MkPodCondition "Ready" "True"] [].
Definition kubelet (c : cluster) : cluster :=
  set_pod ((λ p, MkPod (Pod_Meta p) (Pod_Spec p) ready_status) <$> cl_pod c) c.
End cluster.
