(* ===== verification/Diagnostics.v ===== *)
(** * Failure diagnostics ([pkg/workspace/diagnostics.go])

    The remediation hints and Ready reasons, and the functions that choose them
    from an API error or a container's waiting reason. *)
From S2P Require Import Prelude GoStrings.

Definition RemediationRBAC : string :=
  "Confirm the operator ServiceAccount has RBAC to manage ServiceAccounts, Roles, and RoleBindings in this namespace (see DevPlane operator ClusterRole/RoleBinding).".
Definition RemediationNetPol : string :=
  "Confirm the operator can create and update NetworkPolicies in this namespace.".
Definition RemediationPVCGet : string :=
  "Check API server connectivity. If errors mention timeout, investigate apiserver load and admission webhook latency.".
Definition RemediationPVCCreate : string :=
  "Confirm the operator can create PersistentVolumeClaims in this namespace and that spec.persistence.storageClass exists.".
Definition RemediationPVCLost : string :=
  "PVC entered Lost — check storage backend, reclaim policy, and underlying volume health; you may need to delete the PVC and recreate the Workspace.".
Definition RemediationPodGet : string :=
  "Check API server connectivity and that the operator can read Pods in this namespace.".
Definition RemediationPodCreate : string :=
  "Confirm the operator can create Pods. If an admission webhook is mentioned, review that webhook's logs and failurePolicy.".
Definition RemediationService : string :=
  "Confirm the operator can create Services and that the Workspace namespace allows ClusterIP=None headless services.".
Definition RemediationImagePull : string :=
  "Verify WORKSPACE_IMAGE (or the image in the pod spec) exists, is pullable from nodes, and registry credentials are configured if the registry is private.".
Definition RemediationCrashLoop : string :=
  "Inspect pod logs and previous container logs; fix startup command, config, or resource limits in the workspace image or Workspace spec.".
Definition RemediationPodFailed : string :=
  "Inspect pod status and logs; adjust resource limits or fix the workload.".
Definition RemediationPodUnknown : string :=
  "Check node and kubelet health; Unknown often means the node is unreachable or the kubelet stopped reporting.".
Definition RemediationValidation : string :=
  "Fix the Workspace spec fields shown in status.message and re-apply the manifest.".
Definition RemediationForbidden : string :=
  "Kubernetes returned Forbidden — grant the operator RBAC required for the resource in this namespace.".
Definition RemediationTimeout : string :=
  "Request timed out — check apiserver connectivity, etcd health, and cluster load.".
Definition RemediationWebhook : string :=
  "An admission webhook rejected or blocked the request — inspect validating/mutating webhook configuration and webhook pod logs.".
Definition RemediationAPIError : string :=
  "See status.message for the Kubernetes API error details.".
Definition ReasonRunning : string := "Running".
Definition ReasonProgressing : string := "Progressing".
Definition ReasonStopped : string := "Stopped".
Definition ReasonFailed : string := "Failed".
Definition ReasonValidationFailed : string := "ValidationFailed".
Definition ReasonRBACReconcileFailed : string := "RBACReconcileFailed".
Definition ReasonNetPolReconcileFailed : string := "NetworkPolicyReconcileFailed".
Definition ReasonPVCReadFailed : string := "PVCReadFailed".
Definition ReasonPVCCreateFailed : string := "PVCCreateFailed".
Definition ReasonPVCLost : string := "PVCLost".
Definition ReasonPodReadFailed : string := "PodReadFailed".
Definition ReasonPodCreateFailed : string := "PodCreateFailed".
Definition ReasonServiceFailed : string := "ServiceEnsureFailed".
Definition ReasonPodFailed : string := "PodFailed".
Definition ReasonPodUnknown : string := "PodUnknown".
Definition ReasonImagePullBackOff : string := "ImagePullBackOff".
Definition ReasonErrImagePull : string := "ErrImagePull".
Definition ReasonInvalidImageName : string := "InvalidImageName".
Definition ReasonCrashLoopBackOff : string := "CrashLoopBackOff".
Definition ReasonForbidden : string := "Forbidden".
Definition ReasonTimeout : string := "Timeout".
Definition ReasonAdmissionWebhook : string := "AdmissionWebhook".
Definition ReasonAPIError : string := "APIError".

Section classify.
Context `{UnicodeTables}.

(** [ClassifyAPIError]: a nil error is [None]. *)
Definition ClassifyAPIError (err : option error) : string * string :=
  match err with
  | None => ("", ReasonAPIError)
  | Some err =>
    if IsForbidden err then (RemediationForbidden, ReasonForbidden)
    else if IsTimeout err || err_has DeadlineExceeded err then
      (RemediationTimeout, ReasonTimeout)
    else if IsServiceUnavailable err then (RemediationTimeout, ReasonTimeout)
    else
      let msg := ToLower (Error err) in
      if Contains msg "webhook" || Contains msg "admission" then
        (RemediationWebhook, ReasonAdmissionWebhook)
      else (RemediationAPIError, ReasonAPIError)
  end.

Definition ErrorDetailsForService (err : error) : string * string :=
  let '(rem, r) := ClassifyAPIError (Some err) in
  if bool_decide (r ≠ ReasonAPIError) then (rem, r)
  else (RemediationService, ReasonServiceFailed).

Definition ErrorDetailsForRBAC (err : error) : string * string :=
  let '(rem, r) := ClassifyAPIError (Some err) in
  if bool_decide (r ≠ ReasonAPIError) then (rem, r)
  else (RemediationRBAC, ReasonRBACReconcileFailed).

Definition ErrorDetailsForNetworkPolicy (err : error) : string * string :=
  let '(rem, r) := ClassifyAPIError (Some err) in
  if bool_decide (r ≠ ReasonAPIError) then (rem, r)
  else (RemediationNetPol, ReasonNetPolReconcileFailed).

Definition ErrorDetailsForPVCGet (err : error) : string * string :=
  let '(rem, r) := ClassifyAPIError (Some err) in
  if bool_decide (r ≠ ReasonAPIError) then (rem, r)
  else (RemediationPVCGet, ReasonPVCReadFailed).

Definition ErrorDetailsForPVCCreate (err : error) : string * string :=
  let '(rem, r) := ClassifyAPIError (Some err) in
  if bool_decide (r ≠ ReasonAPIError) then (rem, r)
  else (RemediationPVCCreate, ReasonPVCCreateFailed).

Definition ErrorDetailsForPodGet (err : error) : string * string :=
  let '(rem, r) := ClassifyAPIError (Some err) in
  if bool_decide (r ≠ ReasonAPIError) then (rem, r)
  else (RemediationPodGet, ReasonPodReadFailed).

Definition ErrorDetailsForPodCreate (err : error) : string * string :=
  let '(rem, r) := ClassifyAPIError (Some err) in
  if bool_decide (r ≠ ReasonAPIError) then (rem, r)
  else (RemediationPodCreate, ReasonPodCreateFailed).

Definition RemediationForPodWaitingReason (waitingReason : string) : string * string :=
  if bool_decide (waitingReason = "ImagePullBackOff") then
    (RemediationImagePull, ReasonImagePullBackOff)
  else if bool_decide (waitingReason = "ErrImagePull") then
    (RemediationImagePull, ReasonErrImagePull)
  else if bool_decide (waitingReason = "InvalidImageName") then
    (RemediationImagePull, ReasonInvalidImageName)
  else if bool_decide (waitingReason = "CrashLoopBackOff") then
    (RemediationCrashLoop, ReasonCrashLoopBackOff)
  else if bool_decide (waitingReason ≠ "") then (RemediationPodFailed, waitingReason)
  else (RemediationPodFailed, ReasonFailed).

(** The kind of failure an API error shows, as an operator would sort it. *)
Inductive api_failure := FForbidden | FTimeout | FWebhook | FOther.

Definition sort_failure (e : error) : api_failure :=
  if IsForbidden e then FForbidden
  else if IsTimeout e || err_has DeadlineExceeded e || IsServiceUnavailable e then FTimeout
  else if Contains (ToLower (Error e)) "webhook" || Contains (ToLower (Error e)) "admission"
  then FWebhook else FOther.

(** What an operator reads for a failure of a call whose own hint and reason
    are [own]. *)
Definition failure_details (own : string * string) (f : api_failure) : string * string :=
  match f with
  | FForbidden => (RemediationForbidden, ReasonForbidden)
  | FTimeout => (RemediationTimeout, ReasonTimeout)
  | FWebhook => (RemediationWebhook, ReasonAdmissionWebhook)
  | FOther => own
  end.

Lemma classify_details (own : string * string) (e : error) :
  (let '(rem, r) := ClassifyAPIError (Some e) in
   if bool_decide (r ≠ ReasonAPIError) then (rem, r) else own)
  = failure_details own (sort_failure e).
Proof.
  unfold ClassifyAPIError, sort_failure.
  destruct (IsForbidden e), (IsTimeout e), (err_has DeadlineExceeded e),
    (IsServiceUnavailable e), (Contains (ToLower (Error e)) "webhook"),
    (Contains (ToLower (Error e)) "admission"); done.
Qed.
End classify.
