(* ===== verification/StatusSummary.v ===== *)
(** * Status summaries ([pkg/workspace/status_summary.go])

    How one observation of a workspace is written to its status. *)
From S2P Require Import Prelude GoTime Api K8s Diagnostics.

Definition ConditionTypeReady : string := "Ready".

Record StatusSummary_ := MkStatusSummary {
  Sum_Phase : WorkspacePhase;
  Sum_PodName : string;
  Sum_ServiceEndpoint : string;
  Sum_Message : string;
  Sum_MessageOverride : string;
  Sum_RemediationHint : string;
  Sum_ReadyReason : string;
}.

Definition defaultReadyReason (p : WorkspacePhase) : string :=
  if bool_decide (p = WorkspacePhaseRunning) then ReasonRunning
  else if bool_decide (p = WorkspacePhaseCreating) then ReasonProgressing
  else if bool_decide (p = WorkspacePhaseFailed) then ReasonFailed
  else if bool_decide (p = WorkspacePhaseStopped) then ReasonStopped
  else ReasonProgressing.

Section status.
Context `{K8sLib}.

(** The condition [syncReadyCondition] builds; [SetStatusCondition] fills the
    transition time. *)
Definition ready_condition (gen : Z) (sum : StatusSummary_) (message : string) : Condition :=
  let reason := if bool_decide (Sum_ReadyReason sum = "")
                then defaultReadyReason (Sum_Phase sum) else Sum_ReadyReason sum in
  let running := bool_decide (Sum_Phase sum = WorkspacePhaseRunning) in
  let condMsg := if bool_decide (message = "") && running
                 then "Workspace pod is ready." else message in
  MkCondition ConditionTypeReady (if running then ConditionTrue else ConditionFalse)
    gen zeroTime reason condMsg.

Definition syncReadyCondition (now : Time) (ws : Workspace) (sum : StatusSummary_)
    (message : string) : list Condition :=
  SetStatusCondition now (Status_Conditions (WS_Status ws))
    (ready_condition (Generation (WS_Meta ws)) sum message).

Definition ApplyStatusSummary (now : Time) (ws : Workspace) (sum : StatusSummary_) : Workspace :=
  let msg := if bool_decide (Sum_MessageOverride sum = "") then Sum_Message sum
             else Sum_MessageOverride sum in
  set_status (MkWorkspaceStatus (Sum_Phase sum) (Sum_PodName sum) (Sum_ServiceEndpoint sum) msg
    (Sum_RemediationHint sum) (syncReadyCondition now ws sum msg)
    (Status_LastAccessed (WS_Status ws))) ws.

(** Applying a summary leaves the specification, the metadata and
    [lastAccessed] alone. *)
Lemma ApplyStatusSummary_frame now ws sum :
  WS_Meta (ApplyStatusSummary now ws sum) = WS_Meta ws ∧
  WS_Spec (ApplyStatusSummary now ws sum) = WS_Spec ws ∧
  lastAccessed (ApplyStatusSummary now ws sum) = lastAccessed ws.
Proof. done. Qed.

Lemma ready_reason_nonempty gen sum msg :
  Cond_Reason (ready_condition gen sum msg) ≠ "".
Proof.
  cbn. case_bool_decide; [|done]. unfold defaultReadyReason. repeat case_bool_decide; done.
Qed.

(** The Ready condition after a summary. *)
Lemma ApplyStatusSummary_ready `{!K8sLaws} now ws sum :
  ∃ c, find_condition ConditionTypeReady
         (Status_Conditions (WS_Status (ApplyStatusSummary now ws sum))) = Some c ∧
    (Cond_Status c = ConditionTrue ↔ Sum_Phase sum = WorkspacePhaseRunning) ∧
    Cond_Reason c ≠ "" ∧
    Cond_ObservedGeneration c = Generation (WS_Meta ws).
Proof.
  unfold ApplyStatusSummary, syncReadyCondition. cbn [WS_Status set_status Status_Conditions].
  set (msg := if bool_decide _ then _ else _).
  set (c0 := ready_condition _ sum msg).
  destruct (SetStatusCondition_same now (Status_Conditions (WS_Status ws)) c0)
    as (c & Hfind & Hst & Hre & _ & Hgen).
  exists c. split; [exact Hfind|]. split_and!.
  - rewrite Hst. cbn. case_bool_decide; naive_solver.
  - rewrite Hre. apply ready_reason_nonempty.
  - by rewrite Hgen.
Qed.
End status.
