(* ===== verification/Resources.v ===== *)
(** * Resource builders ([pkg/workspace/resources.go])

    Names, labels, the PVC, Pod and Service of a workspace, and the validation
    of its specification. *)
From S2P Require Import Prelude GoStrings Regexp GoTime Json Api K8s.
From Stdlib Require Import ZArith Lia.

(** ** The user-id pattern *)

Definition label_char (c : ascii) : bool := is_alnum c || Ascii.eqb c dash.

(** [^[a-z]([a-z0-9\-]*[a-z0-9])?$] *)
Definition dnsLabelRegex : re :=
  Cat (Class_ is_lower) (Alt (Cat (Star (Class_ label_char)) (Class_ is_alnum)) Empty).

(** The pattern in words: a lowercase letter, then letters, digits and hyphens,
    the last of which is not a hyphen. *)
Definition dns_label (s : string) : Prop :=
  ∃ c l, bytes_of s = c :: l ∧ is_lower c = true ∧ Forall (λ x, label_char x = true) l ∧
         ∀ l' x, l = l' ++ [x] → is_alnum x = true.

Lemma dnsLabelRegex_spec s : full_match dnsLabelRegex (bytes_of s) = true ↔ dns_label s.
Proof.
  rewrite full_match_spec. unfold dnsLabelRegex, dns_label. rewrite matches_cat. split.
  - intros (s1 & l & E & (c & -> & Hc)%matches_class & Hl). exists c, l.
    split_and!; [done|done|..]; apply matches_alt in Hl as [Hl|Hl].
    + apply matches_cat in Hl as (a & b & -> & Ha%matches_star_class & (x & -> & Hx)%matches_class).
      apply Forall_app; split; [done|]. constructor; [|done]. unfold label_char. by rewrite Hx.
    + by inversion Hl.
    + apply matches_cat in Hl as (a & b & -> & _ & (x & -> & Hx)%matches_class).
      intros l' y [_ [= ->]]%app_inj_tail. done.
    + inversion Hl. intros l' x Hx. by destruct l'.
  - intros (c & l & E & Hc & Hl & Hlast). exists [c], l. split_and!; [done|by constructor|].
    destruct l as [|x l] using rev_ind; [apply matches_alt; right; constructor|].
    apply matches_alt. left. apply matches_cat. exists l, [x]. split_and!; [done|..].
    + apply matches_star_class. by apply Forall_app in Hl as [? _].
    + apply matches_class. exists x. split; [done|]. by eapply Hlast.
Qed.

(** ** Names and labels *)

Definition labelApp : string := "workspace".
Definition labelManagedBy : string := "devplane".
Definition labelUser : string := "user".
Definition ttydPort : Z := 7681.
Definition workspaceMount : string := "/workspace".

Definition PVCName (userID : string) : string := userID +:+ "-workspace-pvc".
Definition PodName (userID : string) : string := userID +:+ "-workspace-pod".
Definition ServiceName (userID : string) : string := userID +:+ "-workspace-svc".
Definition ServiceAccountName (userID : string) : string := userID +:+ "-workspace".

Definition Labels_ (userID : string) : gmap string string :=
  list_to_map [("app", labelApp); (labelUser, userID); ("managed-by", labelManagedBy)].

(** ** Builders *)

Definition ReadWriteOnce : string := "ReadWriteOnce".
Definition ResourceStorage : string := "storage".
Definition ResourceCPU : string := "cpu".
Definition ResourceMemory : string := "memory".
Definition FSGroupChangeOnRootMismatch : string := "OnRootMismatch".
Definition SeccompProfileTypeRuntimeDefault : string := "RuntimeDefault".
Definition ProtocolTCP : string := "TCP".
Definition ProtocolUDP : string := "UDP".
Definition ClusterIPNone : string := "None".

Record BuildOpts := MkBuildOpts {
  DefaultCABundle : string;
  PipIndexURL : string;
  PipTrustedHost : string;
  NpmRegistry : string;
}.

(** [json.Marshal] of the provider list. *)
Definition provider_json (p : AIProvider) : string :=
  json_object [("name", json_string (Provider_Name p));
               ("endpoint", json_string (Provider_Endpoint p));
               ("models", json_array (map json_string (Provider_Models p)))].

(** Nil and empty slices, [null] and [\[\]], are not told apart here; in a Workspace
    that [ValidateSpec] accepts neither the providers nor their models are
    empty. *)
Definition buildEnvVars (ws : Workspace) : list EnvVar :=
  let s := WS_Spec ws in
  [MkEnvVar "AI_PROVIDERS_JSON" (json_array (map provider_json (AI_Providers (Spec_AIConfig s))));
   MkEnvVar "USER_EMAIL" (User_Email (Spec_User s));
   MkEnvVar "USER_ID" (User_ID (Spec_User s))].

Section builders.
Context `{UnicodeTables} `{K8sLib}.

(** [fmt.Errorf("parse <what> quantity %q: %w", raw, err)]. *)
Definition parse_quantity_as (what raw : string) : result Quantity :=
  match ParseQuantity raw with
  | Ok q => Ok q
  | Err e => Err (errorf_w ("parse " +:+ what +:+ " quantity " +:+ Quote raw +:+ ": ") e)
  end.

(** [controllerutil.SetControllerReference] with the builder's error text. *)
Definition own (what : string) (ws : Workspace) (m : ObjectMeta) : result ObjectMeta :=
  match SetControllerReference (WS_Meta ws) m with
  | Ok m' => Ok m'
  | Err e => Err (errorf_w ("set " +:+ what +:+ " owner reference: ") e)
  end.

Definition BuildPVC (ws : Workspace) : result PersistentVolumeClaim :=
  let userID := userID ws in
  let spec := WS_Spec ws in
  storageQty ← parse_quantity_as "storage" (Res_Storage (Spec_Resources spec));
  let sc := StorageClass (Spec_Persistence spec) in
  m ← own "PVC" ws (object_meta (PVCName userID) (Namespace (WS_Meta ws)) (Labels_ userID));
  Ok (MkPVC m [ReadWriteOnce] {[ResourceStorage := storageQty]}
        (if bool_decide (sc = "") then None else Some sc) "").

(** The ConfigMap with extra CA certificates, [""] for none. *)
Definition caConfigMap (ws : Workspace) (opts : BuildOpts) : string :=
  match CustomCABundle (Spec_TLS (WS_Spec ws)) with
  | Some ref => if bool_decide (CABundle_Name ref = "") then DefaultCABundle opts
                else CABundle_Name ref
  | None => DefaultCABundle opts
  end.

Definition env_if_set (name value : string) : list EnvVar :=
  if bool_decide (value = "") then [] else [MkEnvVar name value].

Definition BuildPod (ws : Workspace) (pvcName workspaceImage : string) (opts : BuildOpts) :
    result Pod :=
  let userID := userID ws in
  let labels := Labels_ userID in
  let res := Spec_Resources (WS_Spec ws) in
  cpuQty ← parse_quantity_as "CPU" (Res_CPU res);
  memQty ← parse_quantity_as "memory" (Res_Memory res);
  let quantities : gmap string Quantity :=
    {[ResourceCPU := cpuQty; ResourceMemory := memQty]} in
  let ca := caConfigMap ws opts in
  let with_ca {A} (l : list A) : list A := if bool_decide (ca = "") then [] else l in
  let container := MkContainer "workspace" workspaceImage
    (Some (MkSecurityContext None (Some true) (Some false) [] ["ALL"]))
    quantities quantities
    [MkContainerPort "ttyd" ttydPort ProtocolTCP]
    (Some (MkProbe ttydPort 5 5))
    ([MkVolumeMount "workspace-data" workspaceMount false; MkVolumeMount "tmp" "/tmp" false] ++
     with_ca [MkVolumeMount "custom-ca-certs" "/etc/ssl/certs/custom" true])
    (buildEnvVars ws ++ with_ca [MkEnvVar "CUSTOM_CA_MOUNTED" "true"] ++
     env_if_set "PIP_INDEX_URL" (PipIndexURL opts) ++
     env_if_set "PIP_TRUSTED_HOST" (PipTrustedHost opts) ++
     env_if_set "npm_config_registry" (NpmRegistry opts)) in
  let spec := MkPodSpec (ServiceAccountName userID) false false false
    (Some (MkPodSecurityContext (Some true) (Some 1000%Z) (Some 1000%Z)
             (Some FSGroupChangeOnRootMismatch) (Some SeccompProfileTypeRuntimeDefault)))
    [container]
    ([MkVolume "workspace-data" (PersistentVolumeClaimSource pvcName);
      MkVolume "tmp" EmptyDirSource] ++
     with_ca [MkVolume "custom-ca-certs" (ConfigMapSource ca)]) in
  m ← own "Pod" ws (object_meta (PodName userID) (Namespace (WS_Meta ws)) labels);
  Ok (MkPod m spec zero_pod_status).

Definition BuildHeadlessService (ws : Workspace) : result Service :=
  let userID := userID ws in
  let labels := Labels_ userID in
  m ← own "Service" ws (object_meta (ServiceName userID) (Namespace (WS_Meta ws)) labels);
  Ok (MkService m ClusterIPNone labels [MkServicePort "ttyd" ttydPort ProtocolTCP]).

(** ** Validation *)

(** The loop over [s.AIConfig.Providers], from index [i]. *)
Fixpoint validate_providers (i : nat) (ps : list AIProvider) : option error :=
  match ps with
  | [] => None
  | p :: ps' =>
    let at_ (rest : string) : error :=
      errors_new ("spec.aiConfig.providers[" +:+ pretty i +:+ "]" +:+ rest) in
    if bool_decide (Provider_Name p = "") then Some (at_ ".name is required")
    else if bool_decide (Provider_Endpoint p = "") then Some (at_ ".endpoint is required")
    else if bool_decide (Provider_Models p = []) then
      Some (at_ ".models must have at least one entry")
    else validate_providers (S i) ps'
  end.

(** The idle-timeout check at the end of [ValidateSpec]. *)
Definition validate_idle (raw : string) : option error :=
  let raw := TrimSpace raw in
  if bool_decide (raw = "") || bool_decide (raw = "0") then None
  else match ParseDuration raw with
       | Ok _ => None
       | Err e => Some (errorf_w "spec.lifecycle.idleTimeout invalid: " e)
       end.

(** [ValidateSpec]: [None] is the nil error. *)
Definition ValidateSpec (workspace : option Workspace) : option error :=
  match workspace with
  | None => Some (errors_new "workspace is nil")
  | Some ws =>
    let s := WS_Spec ws in
    let id := User_ID (Spec_User s) in
    let res := Spec_Resources s in
    if bool_decide (id = "") then Some (errors_new "spec.user.id is required")
    else if (49 <? len id)%nat then
      Some (errors_new ("spec.user.id must be 49 characters or fewer (got " +:+
                        pretty (len id) +:+ ")"))
    else if negb (full_match dnsLabelRegex (bytes_of id)) then
      Some (errors_new "spec.user.id must be a valid DNS label: must start with a lowercase letter, lowercase alphanumeric and hyphens only, must end with alphanumeric")
    else if bool_decide (User_Email (Spec_User s) = "") then
      Some (errors_new "spec.user.email is required")
    else if bool_decide (Res_Storage res = "") then
      Some (errors_new "spec.resources.storage is required")
    else if bool_decide (Res_CPU res = "") then
      Some (errors_new "spec.resources.cpu is required")
    else if bool_decide (Res_Memory res = "") then
      Some (errors_new "spec.resources.memory is required")
    else
    match ParseQuantity (Res_CPU res) with
    | Err e => Some (errorf_w "spec.resources.cpu invalid: " e)
    | Ok _ =>
    match ParseQuantity (Res_Memory res) with
    | Err e => Some (errorf_w "spec.resources.memory invalid: " e)
    | Ok _ =>
    match ParseQuantity (Res_Storage res) with
    | Err e => Some (errorf_w "spec.resources.storage invalid: " e)
    | Ok _ =>
      let ps := AI_Providers (Spec_AIConfig s) in
      if bool_decide (ps = []) then
        Some (errors_new "spec.aiConfig.providers must have at least one entry")
      else
      match validate_providers 0 ps with
      | Some e => Some e
      | None => validate_idle (Spec_IdleTimeout (Spec_Lifecycle s))
      end
    end
    end
    end
  end.
End builders.

(** ** What a validated specification is *)

Section validated.
Context `{UnicodeTables} `{K8sLib}.

Definition provider_ok (p : AIProvider) : Prop :=
  Provider_Name p ≠ "" ∧ Provider_Endpoint p ≠ "" ∧ Provider_Models p ≠ [].

Definition quantity_ok (q : string) : Prop := q ≠ "" ∧ is_ok (ParseQuantity q) = true.

Definition idle_ok (raw : string) : Prop :=
  TrimSpace raw = "" ∨ TrimSpace raw = "0" ∨ is_ok (ParseDuration (TrimSpace raw)) = true.

Record valid_spec (s : WorkspaceSpec) : Prop := {
  valid_id : dns_label (User_ID (Spec_User s));
  valid_id_len : len (User_ID (Spec_User s)) ≤ 49;
  valid_email : User_Email (Spec_User s) ≠ "";
  valid_cpu : quantity_ok (Res_CPU (Spec_Resources s));
  valid_memory : quantity_ok (Res_Memory (Spec_Resources s));
  valid_storage : quantity_ok (Res_Storage (Spec_Resources s));
  valid_providers : AI_Providers (Spec_AIConfig s) ≠ [] ∧
                    Forall provider_ok (AI_Providers (Spec_AIConfig s));
  valid_idle : idle_ok (Spec_IdleTimeout (Spec_Lifecycle s));
}.

Lemma validate_providers_spec i ps :
  validate_providers i ps = None ↔ Forall provider_ok ps.
Proof.
  revert i. induction ps as [|p ps IH]; intros i; cbn; [by split|].
  rewrite Forall_cons. unfold provider_ok at 1.
  repeat case_bool_decide; rewrite ?IH; naive_solver.
Qed.

Lemma validate_idle_spec raw : validate_idle raw = None ↔ idle_ok raw.
Proof.
  unfold validate_idle, idle_ok. destruct (ParseDuration (TrimSpace raw));
    repeat case_bool_decide; cbn; naive_solver.
Qed.

Lemma dns_label_nonempty s : dns_label s → s ≠ "".
Proof. intros (c & l & E & _) ->. done. Qed.

(** The validator accepts exactly the specifications described above. *)
Lemma ValidateSpec_iff ws : ValidateSpec (Some ws) = None ↔ valid_spec (WS_Spec ws).
Proof.
  unfold ValidateSpec. split.
  - case_bool_decide; [done|]. destruct (Nat.ltb_spec 49 (len (User_ID (Spec_User (WS_Spec ws)))));
      [done|].
    destruct (full_match dnsLabelRegex _) eqn:Hre; [|done]. apply dnsLabelRegex_spec in Hre.
    cbn [negb]. do 4 (case_bool_decide; [done|]).
    destruct (ParseQuantity (Res_CPU _)) eqn:Ec; [|done].
    destruct (ParseQuantity (Res_Memory _)) eqn:Em; [|done].
    destruct (ParseQuantity (Res_Storage _)) eqn:Es; [|done].
    case_bool_decide; [done|]. destruct (validate_providers 0 _) eqn:Hp; [done|].
    intros Hi. split; auto; unfold quantity_ok; rewrite ?Ec, ?Em, ?Es; auto.
    + split; [done|]. by apply (validate_providers_spec 0).
    + by apply validate_idle_spec.
  - intros [Hid Hlen Hem [Hc Ec] [Hm Em] [Hs Es] [Hp Hps] Hi].
    rewrite bool_decide_false by (by apply dns_label_nonempty).
    rewrite (proj2 (Nat.ltb_ge _ _)) by done.
    rewrite (proj2 (dnsLabelRegex_spec _)) by done. cbn [negb].
    rewrite !bool_decide_false by done.
    destruct (ParseQuantity (Res_CPU _)); [|done].
    destruct (ParseQuantity (Res_Memory _)); [|done].
    destruct (ParseQuantity (Res_Storage _)); [|done].
    rewrite (proj2 (validate_providers_spec 0 _)) by done. by apply validate_idle_spec.
Qed.

Lemma parse_quantity_as_ok what raw q :
  parse_quantity_as what raw = Ok q ↔ ParseQuantity raw = Ok q.
Proof. unfold parse_quantity_as. by destruct (ParseQuantity raw). Qed.

Lemma own_ok what ws m m' : own what ws m = Ok m' ↔ SetControllerReference (WS_Meta ws) m = Ok m'.
Proof. unfold own. by destruct (SetControllerReference _ m). Qed.

(** ** Derived names *)

Lemma dns_label_app s t :
  dns_label s → Forall (λ x, label_char x = true) (bytes_of t) →
  (∀ l' x, bytes_of t = l' ++ [x] → is_alnum x = true) → dns_label (s +:+ t).
Proof.
  intros (c & l & E & Hc & Hl & Hlast) Ht Htlast. exists c, (l ++ bytes_of t).
  rewrite bytes_of_app, E. split_and!; [done|done|by apply Forall_app|].
  intros l' x Hx. destruct (bytes_of t) as [|y t' _] using rev_ind.
  - rewrite app_nil_r in Hx. eauto.
  - rewrite app_assoc in Hx. apply app_inj_tail in Hx as [_ <-]. eauto.
Qed.

Lemma dns_label_suffix s t :
  dns_label s →
  forallb label_char (bytes_of t) && match last (bytes_of t) with
    | Some x => is_alnum x | None => true end = true →
  dns_label (s +:+ t).
Proof.
  intros Hs [Hall Hlast]%andb_true_iff. apply dns_label_app; [done|..].
  - apply Forall_forall. intros x Hx. rewrite forallb_forall in Hall.
    apply Hall. by apply list_elem_of_In.
  - intros l' x E. rewrite E, last_snoc in Hlast. done.
Qed.

Lemma string_app_inj_r (s1 s2 t : string) : s1 +:+ t = s2 +:+ t → s1 = s2.
Proof.
  intros E%(f_equal bytes_of). rewrite !bytes_of_app in E.
  apply app_inv_tail in E. by apply bytes_of_inj.
Qed.

(** The names made from a label of at most 49 bytes. *)
Lemma names_within id name :
  dns_label id → len id ≤ 49 → name ∈ [PVCName; PodName; ServiceName; ServiceAccountName] →
  dns_label (name id) ∧ len (name id) ≤ 63 ∧ ∀ other, name other = name id → other = id.
Proof.
  intros Hid Hlen Hn. rewrite !elem_of_cons, elem_of_nil in Hn.
  destruct Hn as [->|[->|[->|[->|[]]]]];
    (split_and!; [by apply dns_label_suffix | unfold PVCName, PodName, ServiceName,
      ServiceAccountName; rewrite len_app; cbn; lia | intros o; apply string_app_inj_r]).
Qed.
End validated.

(** ** Theorems *)

Section theorems.
Context `{UnicodeTables} `{K8sLib}.

(** C23. For a validated Workspace every name the operator derives from the
    user id for a PVC, Pod, Service or ServiceAccount is a DNS label of at
    most 63 bytes, and the names of two users never coincide. *)
Theorem derived_names_valid ws name :
  ValidateSpec (Some ws) = None →
  name ∈ [PVCName; PodName; ServiceName; ServiceAccountName] →
  dns_label (name (userID ws)) ∧ len (name (userID ws)) ≤ 63 ∧
  ∀ other, name other = name (userID ws) → other = userID ws.
Proof.
  intros [Hid Hlen _ _ _ _ _ _]%ValidateSpec_iff Hn. by apply names_within.
Qed.

(** A container that runs with the least privilege the builder promises. *)
Definition hardened_container (c : Container) : Prop :=
  ∃ sc, Container_SecurityContext c = Some sc ∧ SC_Privileged sc ≠ Some true ∧
    SC_ReadOnlyRootFilesystem sc = Some true ∧ SC_AllowPrivilegeEscalation sc = Some false ∧
    SC_CapabilitiesAdd sc = [] ∧ "ALL" ∈ SC_CapabilitiesDrop sc.

Definition hardened_pod (s : PodSpec) : Prop :=
  HostNetwork s = false ∧ HostPID s = false ∧ HostIPC s = false ∧
  (∃ psc, Pod_SecurityContext s = Some psc ∧ RunAsNonRoot psc = Some true ∧
     (∃ u, RunAsUser psc = Some u ∧ (0 < u)%Z) ∧ SeccompProfile psc = Some "RuntimeDefault") ∧
  Forall hardened_container (Containers s).

(** Every mount names a volume of the pod, and volume names are distinct. *)
Definition mounts_resolve (s : PodSpec) : Prop :=
  NoDup (map Volume_Name (Volumes s)) ∧
  ∀ c m, c ∈ Containers s → m ∈ VolumeMounts c → Mount_Name m ∈ map Volume_Name (Volumes s).

Lemma BuildPod_inv ws pvcName image opts pod :
  BuildPod ws pvcName image opts = Ok pod →
  ∃ cpu mem m, ParseQuantity (Res_CPU (Spec_Resources (WS_Spec ws))) = Ok cpu ∧
    ParseQuantity (Res_Memory (Spec_Resources (WS_Spec ws))) = Ok mem ∧
    SetControllerReference (WS_Meta ws)
      (object_meta (PodName (userID ws)) (Namespace (WS_Meta ws)) (Labels_ (userID ws))) = Ok m ∧
    Pod_Meta pod = m ∧ Pod_Status pod = zero_pod_status ∧
    hardened_pod (Pod_Spec pod) ∧ mounts_resolve (Pod_Spec pod) ∧
    MkVolume "workspace-data" (PersistentVolumeClaimSource pvcName) ∈ Volumes (Pod_Spec pod) ∧
    ServiceAccountName_ (Pod_Spec pod) = ServiceAccountName (userID ws) ∧
    ∃ c, Containers (Pod_Spec pod) = [c] ∧ Image c = image ∧
      MkVolumeMount "workspace-data" workspaceMount false ∈ VolumeMounts c ∧
      Requests c = {[ResourceCPU := cpu; ResourceMemory := mem]} ∧ Limits c = Requests c.
Proof.
  unfold BuildPod. intros (cpu & Hcpu & (mem & Hmem & (m & Hm & [= <-])%result_bind_ok)%result_bind_ok)%result_bind_ok.
  apply parse_quantity_as_ok in Hcpu, Hmem. apply own_ok in Hm.
  exists cpu, mem, m. split_and!; try done.
  - cbn. split_and!; try done; [eexists; split_and!; eauto; eexists; split; [done|lia]|].
    constructor; [|done]. eexists. split_and!; try done. by left.
  - split; cbn; case_bool_decide; cbn;
      first [repeat constructor; set_solver | intros c' m' ->%list_elem_of_singleton; set_solver].
  - cbn. by left.
  - eexists. split_and!; try done. cbn. by left.
Qed.

(** Every Pod the operator builds runs one container with the configured
    image, as a non-root user under the default seccomp profile, with a
    read-only root filesystem, no added and all dropped capabilities, no
    privilege escalation, no host namespace; requests equal limits; it uses
    the user's own ServiceAccount, mounts the given PVC on /workspace, and
    every mount has a volume. *)
Theorem BuildPod_hardened ws pvcName image opts pod :
  BuildPod ws pvcName image opts = Ok pod →
  hardened_pod (Pod_Spec pod) ∧ mounts_resolve (Pod_Spec pod) ∧
  ServiceAccountName_ (Pod_Spec pod) = ServiceAccountName (userID ws) ∧
  MkVolume "workspace-data" (PersistentVolumeClaimSource pvcName) ∈ Volumes (Pod_Spec pod) ∧
  ∃ c, Containers (Pod_Spec pod) = [c] ∧ Image c = image ∧ Limits c = Requests c ∧
    MkVolumeMount "workspace-data" workspaceMount false ∈ VolumeMounts c.
Proof.
  intros (cpu & mem & m & _ & _ & _ & _ & _ & Hh & Hm & Hv & Hsa & c & Hc & Hi & Hmt & _ & Hl)
    %BuildPod_inv.
  split_and!; try done. exists c. by split_and!.
Qed.

(** An object's metadata as the builders make it. *)
Definition owned_object (ws : Workspace) (name : string) (m : ObjectMeta) : Prop :=
  Name m = name ∧ Namespace m = Namespace (WS_Meta ws) ∧ Labels m = Labels_ (userID ws) ∧
  controlled_by (WS_Meta ws) m.

Lemma own_fresh `{!K8sLaws} what ws name :
  ∃ m, own what ws (object_meta name (Namespace (WS_Meta ws)) (Labels_ (userID ws))) = Ok m ∧
       owned_object ws name m.
Proof.
  destruct (SetControllerReference_fresh (WS_Meta ws)
    (object_meta name (Namespace (WS_Meta ws)) (Labels_ (userID ws)))) as [m Hm]; [done..|].
  exists m. split; [by apply own_ok|].
  apply SetControllerReference_ok in Hm as [(Hn & Hns & Hl & _) Hc]. by split_and!.
Qed.

Lemma BuildPVC_total `{!K8sLaws} ws :
  valid_spec (WS_Spec ws) →
  ∃ pvc, BuildPVC ws = Ok pvc ∧ owned_object ws (PVCName (userID ws)) (PVC_Meta pvc) ∧
         PVC_Phase pvc = "".
Proof.
  intros [_ _ _ _ _ [_ Hs] _ _]. unfold BuildPVC, parse_quantity_as.
  destruct (ParseQuantity (Res_Storage _)); [|done].
  destruct (own_fresh "PVC" ws (PVCName (userID ws))) as (m & E & O).
  cbn [mbind result_bind]. rewrite E. eauto.
Qed.

Lemma BuildPod_total `{!K8sLaws} ws pvcName image opts :
  valid_spec (WS_Spec ws) →
  ∃ pod, BuildPod ws pvcName image opts = Ok pod ∧
         owned_object ws (PodName (userID ws)) (Pod_Meta pod).
Proof.
  intros [_ _ _ [_ Hc] [_ Hm] _ _ _]. unfold BuildPod, parse_quantity_as.
  destruct (ParseQuantity (Res_CPU _)), (ParseQuantity (Res_Memory _)); try done.
  destruct (own_fresh "Pod" ws (PodName (userID ws))) as (m & E & O).
  cbn [mbind result_bind]. rewrite E. eauto.
Qed.

(** Once a Workspace is validated, its PVC, Pod and Service can always be
    built: none of the builders' error paths is reachable.  The objects carry
    the derived names, the workspace's namespace and labels, and are
    controlled by the Workspace, so that they are garbage-collected with
    it. *)
Theorem validated_builders_succeed `{!K8sLaws} ws pvcName image opts :
  ValidateSpec (Some ws) = None →
  (∃ pvc, BuildPVC ws = Ok pvc ∧ owned_object ws (PVCName (userID ws)) (PVC_Meta pvc)) ∧
  (∃ pod, BuildPod ws pvcName image opts = Ok pod ∧
          owned_object ws (PodName (userID ws)) (Pod_Meta pod)) ∧
  (∃ svc, BuildHeadlessService ws = Ok svc ∧
          owned_object ws (ServiceName (userID ws)) (Service_Meta svc)).
Proof.
  intros Hv%ValidateSpec_iff.
  destruct (BuildPVC_total ws Hv) as (pvc & ? & ? & _).
  destruct (BuildPod_total ws pvcName image opts Hv) as (pod & ? & ?).
  split_and!; eauto. unfold BuildHeadlessService.
  destruct (own_fresh "Service" ws (ServiceName (userID ws))) as (m & E & O).
  cbn [mbind result_bind]. rewrite E. eauto.
Qed.
End theorems.
