(* ===== verification/Rbac.v ===== *)
(** * RBAC objects ([pkg/security/rbac.go])

    The per-user ServiceAccount, Role and RoleBinding, and what the Role grants
    under the RBAC authorizer's rules. *)
From S2P Require Import Prelude GoStrings Api K8s Resources.

Definition ServiceAccountKind : string := "ServiceAccount".
Definition rbac_GroupName : string := "rbac.authorization.k8s.io".

(** [security.ServiceAccountName], the same function as in [pkg/workspace]. *)
Definition security_ServiceAccountName (userID : string) : string := userID +:+ "-workspace".

(** The label map literal the [security] builders and [ensureRBAC] repeat. *)
Definition security_labels (userID : string) : gmap string string :=
  list_to_map [("app", "workspace"); ("user", userID); ("managed-by", "devplane")].

(** The rules of the workspace Role. *)
Definition workspace_rules : list PolicyRule :=
  [MkPolicyRule [""] ["pods"; "services"; "configmaps"; "events"; "endpoints"]
     ["get"; "list"; "watch"];
   MkPolicyRule [""] ["pods/log"] ["get"; "list"];
   MkPolicyRule ["apps"] ["deployments"; "replicasets"; "statefulsets"; "daemonsets"]
     ["get"; "list"; "watch"];
   MkPolicyRule ["workspace.devplane.io"] ["workspaces"] ["get"]].

Section rbac.
Context `{K8sLib}.

Definition rbac_meta (ws : Workspace) : ObjectMeta :=
  object_meta (security_ServiceAccountName (userID ws)) (Namespace (WS_Meta ws))
    (security_labels (userID ws)).

Definition BuildServiceAccount (ws : Workspace) : result ServiceAccount :=
  m ← own "ServiceAccount" ws (rbac_meta ws);
  Ok (MkServiceAccount m).

Definition BuildRole (ws : Workspace) : result Role :=
  m ← own "Role" ws (rbac_meta ws);
  Ok (MkRole m workspace_rules).

Definition BuildRoleBinding (ws : Workspace) : result RoleBinding :=
  let saName := security_ServiceAccountName (userID ws) in
  m ← own "RoleBinding" ws (rbac_meta ws);
  Ok (MkRoleBinding m [MkSubject ServiceAccountKind saName (Namespace (WS_Meta ws))]
        (MkRoleRef rbac_GroupName "Role" saName)).
End rbac.

(** ** The RBAC authorizer

    A rule allows a request when one of its verbs, groups and resources matches
    ([*] matches everything); a role allows what one of its rules allows. *)
Record attributes := MkAttributes { attr_verb : string; attr_group : string; attr_resource : string }.

Definition covers (x : string) (l : list string) : bool :=
  existsb (λ y, bool_decide (y = x) || bool_decide (y = "*")) l.

Definition rule_allows (a : attributes) (r : PolicyRule) : bool :=
  covers (attr_verb a) (Verbs r) && covers (attr_group a) (APIGroups r) &&
  covers (attr_resource a) (Resources r).

Definition role_allows (a : attributes) (rs : list PolicyRule) : bool :=
  existsb (rule_allows a) rs.

Lemma covers_In x l : "*" ∉ l → covers x l = true ↔ x ∈ l.
Proof.
  intros Hs. unfold covers. rewrite existsb_exists. split.
  - intros (y & Hy%list_elem_of_In & [Hd|Hd]%orb_true_iff); apply bool_decide_eq_true in Hd;
      by subst.
  - intros Hx%list_elem_of_In. exists x. split; [done|]. by rewrite bool_decide_true.
Qed.

Section theorems.
Context `{K8sLib}.

(** The Role built for a workspace is read-only and reaches no Secret:
    whatever request it allows has the verb get, list or watch and is not for
    secrets; in the Workspace API group it only allows get on workspaces, and
    it grants nothing outside the core, apps and Workspace groups. *)
Theorem BuildRole_read_only ws role a :
  BuildRole ws = Ok role → role_allows a (Rules role) = true →
  attr_verb a ∈ ["get"; "list"; "watch"] ∧ attr_resource a ≠ "secrets" ∧
  (attr_group a = "workspace.devplane.io" → attr_verb a = "get" ∧ attr_resource a = "workspaces") ∧
  attr_group a ∈ [""; "apps"; "workspace.devplane.io"].
Proof.
  unfold BuildRole. intros (m & _ & [= <-])%result_bind_ok. cbn [Rules].
  unfold role_allows. rewrite existsb_exists. intros (r & Hr & Ha).
  unfold rule_allows in Ha. apply andb_true_iff in Ha as [[Hv Hg]%andb_true_iff Hres].
  cbn in Hr. destruct Hr as [<-|[<-|[<-|[<-|[]]]]];
    apply covers_In in Hv, Hg, Hres; try by apply (bool_decide_unpack _).
  all: destruct a as [v g res]; cbn in *; rewrite ?elem_of_cons, ?elem_of_nil in *;
    destruct_or!; subst; try done; split_and!; auto; done.
Qed.
End theorems.
