(* ===== verification/NetPol.v ===== *)
(** * NetworkPolicies ([pkg/security/netpol.go])

    The three policies of a workspace, the resolution of their inputs, and the
    traffic they allow under the NetworkPolicy API's rules. *)
From S2P Require Import Prelude GoStrings Api K8s Resources Rbac.
From Stdlib Require Import ZArith Lia.

(** ** Inputs *)

Definition labelGatewayApp : string := "workspace-gateway".
Definition dnsNamespace : string := "kube-system".
Definition DefaultEgressPorts : list Z := [22; 80; 443; 5000; 8000; 8080; 8081; 11434]%Z.
Definition DefaultLLMNamespace : string := "ai-system".
Definition metadata_name_label : string := "kubernetes.io/metadata.name".

Fixpoint compactNonEmptyStrings (l : list string) : list string :=
  match l with
  | [] => []
  | s :: l' =>
    let t := TrimSpace s in
    if bool_decide (t ≠ "") then t :: compactNonEmptyStrings l' else compactNonEmptyStrings l'
  end.

Definition ResolveLLMEgressNamespaces (spec operator : list string) : list string :=
  match compactNonEmptyStrings spec with
  | _ :: _ as ns => ns
  | [] => match compactNonEmptyStrings operator with
          | _ :: _ as ns => ns
          | [] => [DefaultLLMNamespace]
          end
  end.

Definition ResolveEgressPorts (spec operator : list Z) : list Z :=
  match spec with
  | _ :: _ => spec
  | [] => match operator with
          | _ :: _ => operator
          | [] => DefaultEgressPorts
          end
  end.

Definition netpolName (userID suffix : string) : string :=
  userID +:+ "-workspace-" +:+ suffix.

Definition workspacePodSelector (userID : string) : LabelSelector :=
  MkLabelSelector (list_to_map [("app", "workspace"); ("user", userID)]).

Definition namespaceSelectorByName (name : string) : NetworkPolicyPeer :=
  MkNPPeer None (Some (MkLabelSelector {[metadata_name_label := name]})) None.

Definition np_port (proto : string) (p : Z) : NetworkPolicyPort :=
  MkNPPort (Some proto) (Some (FromInt p)).

(** ** The policies *)

(** The loop over [egressPorts]: entries outside 1..65535 are skipped. *)
Fixpoint internet_ports (ports : list Z) : list NetworkPolicyPort :=
  match ports with
  | [] => []
  | p :: ports' =>
    if (p <? 1)%Z || (65535 <? p)%Z then internet_ports ports'
    else np_port ProtocolTCP p :: internet_ports ports'
  end.

Definition egress_rules (llmNamespaces : list string) (egressPorts : list Z) :
    list NetworkPolicyRule :=
  let dns := MkNPRule [np_port ProtocolUDP 53; np_port ProtocolTCP 53]
               [namespaceSelectorByName dnsNamespace] in
  let llm := match llmNamespaces with
             | [] => []
             | _ => [MkNPRule [] (map namespaceSelectorByName llmNamespaces)]
             end in
  let internetPorts := match internet_ports egressPorts with
                       | [] => map (np_port ProtocolTCP) DefaultEgressPorts
                       | ps => ps
                       end in
  [dns] ++ llm ++ [MkNPRule internetPorts [MkNPPeer None None (Some (MkIPBlock "0.0.0.0/0" []))]].

Section netpol.
Context `{K8sLib}.

Definition np_meta (ws : Workspace) (suffix : string) : ObjectMeta :=
  object_meta (netpolName (userID ws) suffix) (Namespace (WS_Meta ws))
    (security_labels (userID ws)).

Definition BuildDenyAllNetworkPolicy (ws : Workspace) : result NetworkPolicy :=
  m ← own "NetworkPolicy" ws (np_meta ws "deny-all");
  Ok (MkNetworkPolicy m
    (MkNPSpec (workspacePodSelector (userID ws)) [PolicyTypeIngress; PolicyTypeEgress] [] [])).

Definition BuildEgressNetworkPolicy (ws : Workspace) (llmNamespaces : list string)
    (egressPorts : list Z) : result NetworkPolicy :=
  m ← own "NetworkPolicy" ws (np_meta ws "egress");
  Ok (MkNetworkPolicy m
    (MkNPSpec (workspacePodSelector (userID ws)) [PolicyTypeEgress] []
       (egress_rules llmNamespaces egressPorts))).

Definition gateway_peer (gatewayNamespace : string) : NetworkPolicyPeer :=
  MkNPPeer (Some (MkLabelSelector {["app" := labelGatewayApp]}))
    (if bool_decide (gatewayNamespace = "") then None
     else Some (MkLabelSelector {[metadata_name_label := gatewayNamespace]})) None.

Definition BuildIngressFromGatewayNetworkPolicy (ws : Workspace) (gatewayNamespace : string) :
    result NetworkPolicy :=
  m ← own "NetworkPolicy" ws (np_meta ws "ingress-gateway");
  Ok (MkNetworkPolicy m
    (MkNPSpec (workspacePodSelector (userID ws)) [PolicyTypeIngress]
       [MkNPRule [np_port ProtocolTCP 7681] [gateway_peer gatewayNamespace]] [])).
End netpol.

(** ** What the NetworkPolicy API says of a policy

    The reference semantics the builders are checked against.  An endpoint may
    be a pod (its namespace, the namespace's labels, its own labels) and may
    have an IPv4 address. *)
Record pod_identity := MkPodIdentity {
  pi_namespace : string;
  pi_namespace_labels : gmap string string;
  pi_labels : gmap string string;
}.
Record endpoint := MkEndpoint { ep_pod : option pod_identity; ep_ipv4 : option Z }.

Definition selects (s : LabelSelector) (labels : gmap string string) : Prop :=
  ∀ k v, MatchLabels s !! k = Some v → labels !! k = Some v.

(** [a.b.c.d/n] as the network address and the prefix length. *)
Definition parse_cidr (s : string) : option (Z * Z) :=
  match Split s "/" with
  | [addr; n] =>
    match map (λ o, ParseInt o 32) (Split addr "."), ParseInt n 32 with
    | [Some a; Some b; Some c; Some d], Some n =>
      Some (((a * 256 + b) * 256 + c) * 256 + d, n)%Z
    | _, _ => None
    end
  | _ => None
  end.
Definition in_cidr (s : string) (ip : Z) : Prop :=
  ∃ net n, parse_cidr s = Some (net, n) ∧
           Z.shiftr ip (32 - n) = Z.shiftr net (32 - n).

Definition peer_matches (np : NetworkPolicy) (peer : NetworkPolicyPeer) (e : endpoint) : Prop :=
  match Peer_IPBlock peer, Peer_NamespaceSelector peer, Peer_PodSelector peer with
  | Some b, _, _ => ∃ ip, ep_ipv4 e = Some ip ∧ in_cidr (CIDR b) ip ∧
                          ∀ x, x ∈ Except b → ¬ in_cidr x ip
  | None, Some ns, Some ps =>
    ∃ p, ep_pod e = Some p ∧ selects ns (pi_namespace_labels p) ∧ selects ps (pi_labels p)
  | None, Some ns, None => ∃ p, ep_pod e = Some p ∧ selects ns (pi_namespace_labels p)
  | None, None, Some ps =>
    ∃ p, ep_pod e = Some p ∧ pi_namespace p = Namespace (NP_Meta np) ∧ selects ps (pi_labels p)
  | None, None, None => False
  end.

Definition port_matches (p : NetworkPolicyPort) (proto : string) (port : Z) : Prop :=
  default ProtocolTCP (NPP_Protocol p) = proto ∧
  match NPP_Port p with
  | None => True
  | Some (FromInt n) => n = port
  | Some (FromString _) => False
  end.

(** An empty port or peer list matches everything. *)
Definition rule_matches (np : NetworkPolicy) (r : NetworkPolicyRule) (e : endpoint)
    (proto : string) (port : Z) : Prop :=
  (Rule_Ports r = [] ∨ ∃ p, p ∈ Rule_Ports r ∧ port_matches p proto port) ∧
  (Rule_Peers r = [] ∨ ∃ q, q ∈ Rule_Peers r ∧ peer_matches np q e).

Definition applies (np : NetworkPolicy) (t : PolicyType) (pod : pod_identity) : Prop :=
  Namespace (NP_Meta np) = pi_namespace pod ∧
  selects (NP_PodSelector (NP_Spec np)) (pi_labels pod) ∧ t ∈ NP_PolicyTypes (NP_Spec np).

Definition rules_of (t : PolicyType) (np : NetworkPolicy) : list NetworkPolicyRule :=
  match t with
  | PolicyTypeIngress => NP_Ingress (NP_Spec np)
  | PolicyTypeEgress => NP_Egress (NP_Spec np)
  end.

(** Traffic of direction [t] between [pod] and [e] is allowed when no policy of
    that direction selects the pod, or when a rule of one that does matches. *)
Definition allowed (nps : list NetworkPolicy) (t : PolicyType) (pod : pod_identity)
    (e : endpoint) (proto : string) (port : Z) : Prop :=
  (∀ np, np ∈ nps → ¬ applies np t pod) ∨
  ∃ np r, np ∈ nps ∧ applies np t pod ∧ r ∈ rules_of t np ∧ rule_matches np r e proto port.

(** ** Lemmas *)

Lemma selects_singleton k v labels :
  selects (MkLabelSelector {[k := v]}) labels ↔ labels !! k = Some v.
Proof.
  unfold selects. cbn. split.
  - intros Hs. apply Hs. by rewrite lookup_singleton_eq.
  - intros Hl k' v' [<- <-]%lookup_singleton_Some. done.
Qed.

Lemma selects_workspace u labels :
  selects (workspacePodSelector u) labels ↔
  labels !! "app" = Some "workspace" ∧ labels !! "user" = Some u.
Proof.
  unfold selects, workspacePodSelector. cbn. split.
  - intros Hs. split; by apply Hs.
  - intros [Ha Hu] k v. rewrite !lookup_insert_Some, lookup_empty. naive_solver.
Qed.

Lemma Labels_app u : Labels_ u !! "app" = Some "workspace".
Proof. done. Qed.
Lemma Labels_user u : Labels_ u !! "user" = Some u.
Proof. done. Qed.

(** A pod in a namespace of the given name. *)
Definition in_namespace (e : endpoint) (n : string) : Prop :=
  ∃ p, ep_pod e = Some p ∧ pi_namespace_labels p !! metadata_name_label = Some n.

Definition has_ipv4 (e : endpoint) : Prop :=
  ∃ ip, ep_ipv4 e = Some ip ∧ (0 ≤ ip < 2 ^ 32)%Z.

Lemma namespace_peer np n e :
  peer_matches np (namespaceSelectorByName n) e ↔ in_namespace e n.
Proof. unfold in_namespace. cbn. by setoid_rewrite selects_singleton. Qed.

Lemma anywhere_peer np e :
  peer_matches np (MkNPPeer None None (Some (MkIPBlock "0.0.0.0/0" []))) e ↔ has_ipv4 e.
Proof.
  unfold has_ipv4, in_cidr. cbn. change (parse_cidr "0.0.0.0/0") with (Some (0, 0)%Z).
  assert (Hz : ∀ ip, Z.shiftr ip 32 = 0%Z ↔ (0 ≤ ip < 2 ^ 32)%Z).
  { intros ip. rewrite Z.shiftr_div_pow2 by lia. split; intros Hip.
    - split; [|apply Z.div_small_iff in Hip; lia].
      apply Z.div_small_iff in Hip; [|lia]. lia.
    - apply Z.div_small. lia. }
  split.
  - intros (ip & He & (net & n & [= <- <-] & Hs) & _). exists ip. by rewrite <- Hz.
  - intros (ip & He & Hr). exists ip. split_and!; [done| |by intros x ?%not_elem_of_nil].
    exists 0%Z, 0%Z. split; [done|]. by apply Hz.
Qed.

Lemma np_port_matches proto p proto' port :
  port_matches (np_port proto p) proto' port ↔ proto' = proto ∧ port = p.
Proof. unfold port_matches. cbn. naive_solver. Qed.

Definition valid_port (p : Z) : bool := (1 <=? p)%Z && (p <=? 65535)%Z.

(** The ports of the rule towards 0.0.0.0/0. *)
Definition effective_ports (ports : list Z) : list Z :=
  match List.filter valid_port ports with
  | [] => DefaultEgressPorts
  | l => l
  end.

Lemma internet_ports_filter ports :
  internet_ports ports = map (np_port ProtocolTCP) (List.filter valid_port ports).
Proof.
  induction ports as [|p ports IH]; [done|]. cbn. unfold valid_port at 1.
  destruct (Z.ltb_spec p 1), (Z.ltb_spec 65535 p), (Z.leb_spec 1 p), (Z.leb_spec p 65535);
    try lia; cbn; by rewrite IH.
Qed.

Lemma egress_rules_eq llm ports :
  egress_rules llm ports =
  [MkNPRule [np_port ProtocolUDP 53; np_port ProtocolTCP 53] [namespaceSelectorByName dnsNamespace]]
  ++ (match llm with [] => [] | _ => [MkNPRule [] (map namespaceSelectorByName llm)] end)
  ++ [MkNPRule (map (np_port ProtocolTCP) (effective_ports ports))
        [MkNPPeer None None (Some (MkIPBlock "0.0.0.0/0" []))]].
Proof.
  unfold egress_rules, effective_ports. rewrite internet_ports_filter.
  by destruct (List.filter valid_port ports).
Qed.

Lemma effective_ports_nonempty ports : effective_ports ports ≠ [].
Proof. unfold effective_ports. by destruct (List.filter _ _). Qed.

(** One rule of the egress policy. *)
Lemma dns_rule np e proto port :
  rule_matches np (MkNPRule [np_port ProtocolUDP 53; np_port ProtocolTCP 53]
    [namespaceSelectorByName dnsNamespace]) e proto port ↔
  in_namespace e dnsNamespace ∧ port = 53%Z ∧ (proto = ProtocolUDP ∨ proto = ProtocolTCP).
Proof.
  unfold rule_matches. cbn [Rule_Ports Rule_Peers]. split.
  - intros [[|(p & Hp & Hm)] [|(q & Hq & He)]]; try done.
    apply list_elem_of_singleton in Hq as ->. rewrite namespace_peer in He.
    rewrite !elem_of_cons, elem_of_nil in Hp.
    destruct Hp as [->|[->|[]]]; apply np_port_matches in Hm as [-> ->]; auto.
  - intros (He & -> & Hp). split; right.
    + destruct Hp as [-> | ->]; eexists; (split; [|by apply np_port_matches]); set_solver.
    + eexists. split; [by left|]. by apply namespace_peer.
Qed.

Lemma llm_rule np llm e proto port :
  llm ≠ [] →
  rule_matches np (MkNPRule [] (map namespaceSelectorByName llm)) e proto port ↔
  ∃ ns, ns ∈ llm ∧ in_namespace e ns.
Proof.
  intros Hne. unfold rule_matches. cbn [Rule_Ports Rule_Peers]. split.
  - intros [_ [Hnil|(q & (ns & -> & Hns)%list_elem_of_fmap & He)]].
    + by apply map_eq_nil in Hnil.
    + exists ns. by rewrite <- (namespace_peer np).
  - intros (ns & Hns & He). split; [by left|right]. exists (namespaceSelectorByName ns).
    split; [by apply list_elem_of_fmap_2|by apply namespace_peer].
Qed.

Lemma internet_rule np ports e proto port :
  ports ≠ [] →
  rule_matches np (MkNPRule (map (np_port ProtocolTCP) ports)
    [MkNPPeer None None (Some (MkIPBlock "0.0.0.0/0" []))]) e proto port ↔
  proto = ProtocolTCP ∧ port ∈ ports ∧ has_ipv4 e.
Proof.
  intros Hne. unfold rule_matches. cbn [Rule_Ports Rule_Peers]. split.
  - intros [[Hnil|(p & (n & -> & Hn)%list_elem_of_fmap & [-> ->]%np_port_matches)] [|(q & Hq & He)]];
      try done; [by apply map_eq_nil in Hnil|].
    apply list_elem_of_singleton in Hq as ->. by apply anywhere_peer in He.
  - intros (-> & Hp & He). split; right.
    + exists (np_port ProtocolTCP port). split; [by apply list_elem_of_fmap_2|by apply np_port_matches].
    + eexists. split; [by left|by apply anywhere_peer].
Qed.

Lemma gateway_peer_spec np gwns e :
  peer_matches np (gateway_peer gwns) e ↔
  ∃ p, ep_pod e = Some p ∧ pi_labels p !! "app" = Some labelGatewayApp ∧
    if bool_decide (gwns = "") then pi_namespace p = Namespace (NP_Meta np)
    else pi_namespace_labels p !! metadata_name_label = Some gwns.
Proof.
  unfold peer_matches, gateway_peer. cbn [Peer_IPBlock Peer_NamespaceSelector Peer_PodSelector].
  case_bool_decide; setoid_rewrite selects_singleton; naive_solver.
Qed.

(** ** The three policies together *)

Section together.
Context `{K8sLib}.

(** The policies [ensureNetworkPolicies] keeps for a workspace. *)
Definition workspace_policies (ws : Workspace) (llm : list string) (ports : list Z)
    (gwns : string) : result (list NetworkPolicy) :=
  d ← BuildDenyAllNetworkPolicy ws;
  e ← BuildEgressNetworkPolicy ws llm ports;
  i ← BuildIngressFromGatewayNetworkPolicy ws gwns;
  Ok [d; e; i].

(** A pod of the workspace: in its namespace, with the labels of
    [BuildPod]. *)
Definition workspace_pod (ws : Workspace) (pod : pod_identity) : Prop :=
  pi_namespace pod = Namespace (WS_Meta ws) ∧ pi_labels pod = Labels_ (userID ws).

Context `{!K8sLaws}.

Lemma own_namespace what ws m m' : own what ws m = Ok m' → Namespace m' = Namespace m.
Proof. intros Hm%own_ok%SetControllerReference_ok. by destruct Hm as [(_ & ? & _) _]. Qed.

Lemma workspace_policies_inv ws llm ports gwns nps :
  workspace_policies ws llm ports gwns = Ok nps →
  ∃ m1 m2 m3,
    let sel := workspacePodSelector (userID ws) in
    nps = [MkNetworkPolicy m1 (MkNPSpec sel [PolicyTypeIngress; PolicyTypeEgress] [] []);
           MkNetworkPolicy m2 (MkNPSpec sel [PolicyTypeEgress] [] (egress_rules llm ports));
           MkNetworkPolicy m3 (MkNPSpec sel [PolicyTypeIngress]
             [MkNPRule [np_port ProtocolTCP 7681] [gateway_peer gwns]] [])] ∧
    Namespace m1 = Namespace (WS_Meta ws) ∧ Namespace m2 = Namespace (WS_Meta ws) ∧
    Namespace m3 = Namespace (WS_Meta ws).
Proof.
  unfold workspace_policies.
  intros (d & (m1 & E1 & [= <-])%result_bind_ok & (e & (m2 & E2 & [= <-])%result_bind_ok &
    (i & (m3 & E3 & [= <-])%result_bind_ok & [= <-])%result_bind_ok)%result_bind_ok)%result_bind_ok.
  apply own_namespace in E1, E2, E3. eauto 10.
Qed.

(** Which of the policies bear on a pod of the workspace, and with what rules:
    the deny-all policy applies to both directions and adds no rule. *)
Lemma allowed_rules ws llm ports gwns nps pod t e proto port :
  workspace_policies ws llm ports gwns = Ok nps → workspace_pod ws pod →
  allowed nps t pod e proto port ↔
  ∃ np r, np ∈ nps ∧ Namespace (NP_Meta np) = Namespace (WS_Meta ws) ∧
    r ∈ match t with
        | PolicyTypeEgress => egress_rules llm ports
        | PolicyTypeIngress => [MkNPRule [np_port ProtocolTCP 7681] [gateway_peer gwns]]
        end ∧
    r ∈ rules_of t np ∧ rule_matches np r e proto port.
Proof.
  intros (m1 & m2 & m3 & -> & N1 & N2 & N3)%workspace_policies_inv [Hns Hl].
  assert (Hsel : selects (workspacePodSelector (userID ws)) (pi_labels pod)).
  { rewrite Hl. apply selects_workspace. split; [apply Labels_app|apply Labels_user]. }
  split.
  - intros [Hno|(np & r & Hin & (Hn & _ & Ht) & Hr & Hm)].
    + exfalso. eapply Hno; [by left|]. split_and!; cbn; [congruence|done|]. destruct t; set_solver.
    + exists np, r. rewrite Hn, Hns. split_and!; try done.
      rewrite !elem_of_cons, elem_of_nil in Hin.
      destruct t, Hin as [->|[->|[->|[]]]]; cbn in *; set_solver.
  - intros (np & r & Hin & Hn & Hr & Hr' & Hm). right. exists np, r.
    split_and!; try done. split_and!; [congruence|..].
    + rewrite !elem_of_cons, elem_of_nil in Hin. by destruct Hin as [->|[->|[->|[]]]].
    + rewrite !elem_of_cons, elem_of_nil in Hin.
      destruct t, Hin as [->|[->|[->|[]]]]; cbn in *; set_solver.
Qed.

(** C11. The policies of a workspace open exactly this egress for its pods and
    nothing else: DNS (port 53, UDP or TCP) to pods of kube-system, any port
    of pods in the resolved LLM namespaces, and TCP to IPv4 addresses on the
    configured ports that are valid (the built-in list when none is). *)
Theorem egress_exact ws llm ports gwns nps pod e proto port :
  workspace_policies ws llm ports gwns = Ok nps → workspace_pod ws pod →
  allowed nps PolicyTypeEgress pod e proto port ↔
  (in_namespace e dnsNamespace ∧ port = 53%Z ∧ (proto = ProtocolUDP ∨ proto = ProtocolTCP)) ∨
  (∃ ns, ns ∈ llm ∧ in_namespace e ns) ∨
  (proto = ProtocolTCP ∧ port ∈ effective_ports ports ∧ has_ipv4 e).
Proof.
  intros Hp Hpod. rewrite (allowed_rules _ _ _ _ _ _ _ _ _ _ Hp Hpod).
  apply workspace_policies_inv in Hp as (m1 & m2 & m3 & -> & N1 & N2 & N3).
  rewrite egress_rules_eq. pose proof (effective_ports_nonempty ports) as Hne.
  set (np2 := MkNetworkPolicy m2 _).
  split.
  - intros (np & r & Hin & _ & Hr & _ & Hm). rewrite !elem_of_app, !list_elem_of_singleton in Hr.
    destruct Hr as [->|[Hr| ->]].
    + left. by apply dns_rule in Hm.
    + right; left. destruct llm; [by apply not_elem_of_nil in Hr|].
      apply list_elem_of_singleton in Hr as ->. by apply llm_rule in Hm.
    + right; right. by apply internet_rule in Hm.
  - intros Hc.
    cut (∃ r, r ∈ egress_rules llm ports ∧ rule_matches np2 r e proto port).
    { intros (r & Hr & Hm). exists np2, r. rewrite egress_rules_eq in Hr.
      split_and!; try done; first [by rewrite egress_rules_eq | set_solver]. }
    rewrite egress_rules_eq. setoid_rewrite elem_of_app. setoid_rewrite elem_of_app.
    destruct Hc as [Hc|[Hc|Hc]].
    + eexists. split; [left; by left|]. by apply dns_rule.
    + exists (MkNPRule [] (map namespaceSelectorByName llm)).
      destruct llm as [|n llm]; [destruct Hc as (? & []%not_elem_of_nil & _)|].
      split; [right; left; by left|]. by apply llm_rule.
    + eexists. split; [right; right; by left|]. by apply internet_rule.
Qed.

(** C12. The only ingress a workspace's policies allow is TCP port 7681 from
    pods labelled as the gateway, in the gateway's namespace when one is
    configured and in the workspace's own namespace otherwise.  In particular
    no workspace pod, of the same or of another user, can reach it. *)
Theorem ingress_exact ws llm ports gwns nps pod e proto port :
  workspace_policies ws llm ports gwns = Ok nps → workspace_pod ws pod →
  (allowed nps PolicyTypeIngress pod e proto port ↔
   proto = ProtocolTCP ∧ port = ttydPort ∧
   ∃ p, ep_pod e = Some p ∧ pi_labels p !! "app" = Some labelGatewayApp ∧
     if bool_decide (gwns = "") then pi_namespace p = Namespace (WS_Meta ws)
     else pi_namespace_labels p !! metadata_name_label = Some gwns) ∧
  (∀ p other, ep_pod e = Some p → pi_labels p = Labels_ other →
     ¬ allowed nps PolicyTypeIngress pod e proto port).
Proof.
  intros Hp Hpod. pose proof (allowed_rules _ _ _ _ _ _ PolicyTypeIngress e proto port Hp Hpod) as Ha.
  apply workspace_policies_inv in Hp as (m1 & m2 & m3 & -> & N1 & N2 & N3).
  match goal with |- ?A ∧ _ => assert (Hex : A) end.
  { rewrite Ha. unfold rule_matches. split.
    - intros (np & r & Hin & Hns & ->%list_elem_of_singleton & Hr &
        [[|(q & ->%list_elem_of_singleton & Hm)] [|(g & ->%list_elem_of_singleton & He)]]);
        try done.
      apply np_port_matches in Hm as [-> ->]. apply gateway_peer_spec in He.
      rewrite Hns in He. by split_and!.
    - intros (-> & -> & He). rewrite <- N3 in He.
      exists (MkNetworkPolicy m3 (MkNPSpec (workspacePodSelector (userID ws)) [PolicyTypeIngress]
        [MkNPRule [np_port ProtocolTCP 7681] [gateway_peer gwns]] [])).
      eexists. split_and!; [right; right; by left|done|by left|by left|right|right].
      + eexists. split; [by left|]. by apply np_port_matches.
      + eexists. split; [by left|]. by apply gateway_peer_spec. }
  split; [exact Hex|]. intros p other He Hl Hal.
  apply Hex in Hal as (_ & _ & p' & He' & Hg & _). rewrite He in He'. injection He' as <-.
  by rewrite Hl, Labels_app in Hg.
Qed.
End together.
