(* ===== verification/Observability.v ===== *)
(** * Observability ([pkg/observability])

    The label and the audit line of a phase transition. *)
From S2P Require Import Prelude GoTime Api K8s K8sClient.

Definition LogKeyComponent : string := "devplane.component".
Definition LogKeyEvent : string := "devplane.event".
Definition LogKeyWorkspace : string := "workspace".
Definition LogKeyNamespace : string := "namespace".
Definition LogKeyUserID : string := "userId".
Definition LogKeyFromPhase : string := "fromPhase".
Definition LogKeyToPhase : string := "toPhase".
Definition LogKeyAuditSchema : string := "devplane.audit.schema_version".
Definition AuditSchemaVersion : string := "1".
Definition ComponentWorkspaceController : string := "workspace-controller".
Definition EventPhaseTransition : string := "devplane.audit.workspace.phase_transition".

Definition PhaseLabel (p : string) : string := if bool_decide (p = "") then "None" else p.

Section observability.
Context `{K8sLib}.

(** A nil workspace is [None]. *)
Definition LogWorkspacePhaseTransition (ws : option Workspace) (from to : WorkspacePhase)
    (podName serviceEndpoint message : string) : prog apiE unit :=
  match ws with
  | None => mret ()
  | Some ws =>
    request (LogAuditLine "workspace phase transition"
      [(LogKeyAuditSchema, AuditSchemaVersion);
       (LogKeyComponent, ComponentWorkspaceController);
       (LogKeyEvent, EventPhaseTransition);
       (LogKeyWorkspace, Name (WS_Meta ws));
       (LogKeyNamespace, Namespace (WS_Meta ws));
       (LogKeyUserID, userID ws);
       (LogKeyFromPhase, from);
       (LogKeyToPhase, to);
       ("pod", podName);
       ("serviceEndpoint", serviceEndpoint);
       ("message", message)])
  end.
End observability.
