(* ===== verification/Controller.v ===== *)
(** * The Workspace reconciler ([controllers/workspace_controller.go])

    [Reconcile] and the functions it calls, as a tree of requests to the API
    server and the clock.  The body of [Reconcile] is cut at its comments into
    one definition per step, each calling the next the way the code falls
    through. *)
From S2P Require Import Prelude GoStrings GoTime Api K8s K8sClient Diagnostics StatusSummary.
From S2P Require Import Resources Rbac NetPol Observability.
From Stdlib Require Import ZArith.
#[local] Open Scope Z_scope.

Definition workspaceFinalizer : string := "workspace.devplane.io/finalizer".

Record WorkspaceReconciler := MkReconciler {
  WorkspaceImage : string;
  LLMNamespaces : list string;
  EgressPorts : list Z;
  IdleTimeout : Duration;
  GatewayNamespace : string;
  R_DefaultCABundle : string;
  R_PipIndexURL : string;
  R_PipTrustedHost : string;
  R_NpmRegistry : string;
  (** [r.Recorder != nil] *)
  HasRecorder : bool;
}.

(** [ctrl.Result]. *)
Record Result := MkResult { Requeue : bool; RequeueAfter : Duration }.
Definition done_result : Result := MkResult false 0.
Definition requeue_after (d : Duration) : Result := MkResult false d.

Definition outcome : Type := Result * option error.

(** [fmt.Errorf("<what>: %w (status patch: %v)", err, updateErr)]. *)
Definition with_patch_error (what : string) (err updateErr : error) : error :=
  MkError (what +:+ ": " +:+ Error err +:+ " (status patch: " +:+ Error updateErr +:+ ")") (chain err).

(** ** Pure helpers *)

Definition PodRunning : string := "Running".
Definition PodFailed : string := "Failed".
Definition PodUnknown : string := "Unknown".
Definition ClaimLost : string := "Lost".

Definition deletion_set (m : ObjectMeta) : bool :=
  match DeletionTimestamp m with None => false | Some t => negb (IsZero t) end.

Fixpoint ready_condition_true (cs : list PodCondition) : bool :=
  match cs with
  | [] => false
  | c :: cs' =>
    if bool_decide (PodCond_Type c = "Ready") then bool_decide (PodCond_Status c = "True")
    else ready_condition_true cs'
  end.

Definition effectiveIdleTimeout (ws : Workspace) (operatorDefault : Duration) : Duration :=
  let raw := TrimSpace (Spec_IdleTimeout (Spec_Lifecycle (WS_Spec ws))) in
  if bool_decide (raw = "") then operatorDefault
  else if bool_decide (raw = "0") then 0
  else match ParseDuration raw with
       | Ok d => d
       | Err _ => operatorDefault
       end.

(** The first container waiting for one of the listed reasons. *)
Fixpoint stuck_container (cs : list ContainerStatus) : option (string * string) :=
  match cs with
  | [] => None
  | c :: cs' =>
    match Waiting c with
    | Some (reason, message) =>
      if bool_decide (reason ∈ ["CrashLoopBackOff"; "ImagePullBackOff"; "ErrImagePull";
                                "InvalidImageName"])
      then Some (reason, message) else stuck_container cs'
    | None => stuck_container cs'
    end
  end.

Section controller.
Context `{UnicodeTables} `{K8sLib}.

Abbreviation api := (prog apiE).

(** [isPodReady]; a nil pod is [None]. *)
Definition isPodReady (pod : option Pod) : bool :=
  match pod with
  | None => false
  | Some p => ready_condition_true (PodStatus_Conditions (Pod_Status p))
  end.

Definition running_and_ready (pod : Pod) : bool :=
  bool_decide (PodStatus_Phase (Pod_Status pod) = PodRunning) && isPodReady (Some pod).

(** ** Status *)

Definition updateStatus (r : WorkspaceReconciler) (ws : Workspace) (sum : StatusSummary_) :
    api (option error) :=
  let oldPhase := phase ws in
  now ← request Now;
  p ← request (PatchStatus ws (ApplyStatusSummary now ws sum));
  match p with
  | Err e => _ ← request IncStatusPatchFailures; mret (Some e)
  | Ok ws' =>
    _ ← (if bool_decide (oldPhase ≠ Sum_Phase sum) then
           _ ← LogWorkspacePhaseTransition (Some ws') oldPhase (Sum_Phase sum) (Sum_PodName sum)
                 (Sum_ServiceEndpoint sum) (Status_Message (WS_Status ws'));
           request (IncPhaseTransitions (PhaseLabel oldPhase) (PhaseLabel (Sum_Phase sum)))
         else mret ());
    _ ← (if HasRecorder r && bool_decide (Sum_Phase sum = WorkspacePhaseFailed)
            && bool_decide (oldPhase ≠ Sum_Phase sum) then
           request (Eventf (if bool_decide (Sum_ReadyReason sum = "") then ReasonFailed
                            else Sum_ReadyReason sum) (Status_Message (WS_Status ws')))
         else mret ());
    mret None
  end.

(** [if updateErr := r.updateStatus(...); updateErr != nil { return ... }]
    followed by a return. *)
Definition report (r : WorkspaceReconciler) (ws : Workspace) (sum : StatusSummary_)
    (on_patch_error : error → error) (after : outcome) : api outcome :=
  u ← updateStatus r ws sum;
  match u with
  | Some e => mret (done_result, Some (on_patch_error e))
  | None => mret after
  end.

(** Phase Failed with [message]: the object is wrong or cannot be created. *)
Definition failed_summary (podName message hint reason : string) : StatusSummary_ :=
  MkStatusSummary WorkspacePhaseFailed podName "" "" message hint reason.

(** Phase Creating, keeping the pod name and endpoint on record. *)
Definition creating_summary (ws : Workspace) (message hint reason : string) : StatusSummary_ :=
  MkStatusSummary WorkspacePhaseCreating (Status_PodName (WS_Status ws))
    (Status_ServiceEndpoint (WS_Status ws)) message "" hint reason.

(** ** Children *)

Definition ensureRBAC (ws : Workspace) : api (option error) :=
  let saName := ServiceAccountName (userID ws) in
  let ns := Namespace (WS_Meta ws) in
  let rbacLabels := security_labels (userID ws) in
  let own_it (m : ObjectMeta) := SetControllerReference (WS_Meta ws) (set_Labels rbacLabels m) in
  e1 ← request (CreateOrUpdate KServiceAccount (MkServiceAccount (object_meta saName ns ∅))
         (λ sa, m ← own_it (SA_Meta sa); Ok (MkServiceAccount m)));
  match e1 with
  | Err e => mret (Some (errorf_w "ensure ServiceAccount: " e))
  | Ok _ =>
  match BuildRole ws with
  | Err e => mret (Some (errorf_w "build Role: " e))
  | Ok desiredRole =>
  e2 ← request (CreateOrUpdate KRole (MkRole (object_meta saName ns ∅) [])
         (λ role, m ← own_it (Role_Meta role); Ok (MkRole m (Rules desiredRole))));
  match e2 with
  | Err e => mret (Some (errorf_w "ensure Role: " e))
  | Ok _ =>
  e3 ← request (CreateOrUpdate KRoleBinding
         (MkRoleBinding (object_meta saName ns ∅) [] (MkRoleRef "" "" ""))
         (λ rb, m ← own_it (RB_Meta rb);
                Ok (MkRoleBinding m [MkSubject ServiceAccountKind saName ns]
                      (MkRoleRef rbac_GroupName "Role" saName))));
  match e3 with
  | Err e => mret (Some (errorf_w "ensure RoleBinding: " e))
  | Ok _ => mret None
  end
  end
  end
  end.

(** [CreateOrUpdate] of one policy towards [desired]. *)
Definition ensure_policy (ws : Workspace) (what : string) (desired : result NetworkPolicy) :
    api (option error) :=
  match desired with
  | Err e => mret (Some (errorf_w ("build " +:+ what +:+ " NetworkPolicy: ") e))
  | Ok d =>
    res ← request (CreateOrUpdate KNetworkPolicy
            (MkNetworkPolicy (object_meta (Name (NP_Meta d)) (Namespace (WS_Meta ws)) ∅)
               empty_np_spec)
            (λ np, m ← SetControllerReference (WS_Meta ws)
                         (set_Labels (Labels (NP_Meta d)) (NP_Meta np));
                   Ok (MkNetworkPolicy m (NP_Spec d))));
    match res with
    | Err e => mret (Some (errorf_w ("ensure " +:+ what +:+ " NetworkPolicy: ") e))
    | Ok _ => mret None
    end
  end.

Definition ensureNetworkPolicies (r : WorkspaceReconciler) (ws : Workspace) :
    api (option error) :=
  e1 ← ensure_policy ws "deny-all" (BuildDenyAllNetworkPolicy ws);
  match e1 with
  | Some e => mret (Some e)
  | None =>
  let llmNamespaces :=
    ResolveLLMEgressNamespaces (AI_EgressNamespaces (Spec_AIConfig (WS_Spec ws))) (LLMNamespaces r) in
  let egressPorts :=
    ResolveEgressPorts (AI_EgressPorts (Spec_AIConfig (WS_Spec ws))) (EgressPorts r) in
  e2 ← ensure_policy ws "egress" (BuildEgressNetworkPolicy ws llmNamespaces egressPorts);
  match e2 with
  | Some e => mret (Some e)
  | None =>
    ensure_policy ws "ingress-gateway"
      (BuildIngressFromGatewayNetworkPolicy ws (GatewayNamespace r))
  end
  end.

Definition reconcileDelete (ws : Workspace) : api outcome :=
  u ← request (UpdateWorkspace (set_meta (RemoveFinalizer (WS_Meta ws) workspaceFinalizer) ws));
  match u with
  | Err e => mret (done_result, Some (errorf_w "remove finalizer: " e))
  | Ok _ => mret (done_result, None)
  end.

(** ** The steps of [Reconcile], last first *)

(** Lines 411-446: a stuck container, else the pod is still starting. *)
Definition reconcilePodWaiting (r : WorkspaceReconciler) (ws : Workspace) (podName : string)
    (pod : Pod) (serviceEndpoint : string) : api outcome :=
  match stuck_container (ContainerStatuses (Pod_Status pod)) with
  | Some (reason, message) =>
    let '(hint, rr) := RemediationForPodWaitingReason reason in
    report r ws (failed_summary podName ("Pod stuck: " +:+ reason +:+ " — " +:+ message) hint rr)
      id (done_result, None)
  | None =>
    let ph := PodStatus_Phase (Pod_Status pod) in
    let msg := if bool_decide (ph = "") then "Pod starting" else "Pod phase: " +:+ ph in
    report r ws (MkStatusSummary WorkspacePhaseCreating podName serviceEndpoint msg "" ""
                   ReasonProgressing)
      id (requeue_after (5 * Second), None)
  end.

(** Lines 362-409: the status from the pod's phase. *)
Definition reconcilePodStatus (r : WorkspaceReconciler) (ws : Workspace) (podName : string)
    (pod : Pod) (serviceEndpoint : string) (idle : Duration) : api outcome :=
  let st := Pod_Status pod in
  if running_and_ready pod then
    report r ws (MkStatusSummary WorkspacePhaseRunning podName serviceEndpoint "" "" ""
                   ReasonRunning)
      id (if (0 <? idle)%Z then requeue_after (Z.quot idle 4) else done_result, None)
  else if bool_decide (PodStatus_Phase st = PodFailed) then
    report r ws (failed_summary podName ("Pod failed: " +:+ PodStatus_Reason st)
                   RemediationPodFailed ReasonPodFailed)
      id (done_result, None)
  else if bool_decide (PodStatus_Phase st = PodUnknown) then
    let msg := if bool_decide (PodStatus_Message st = "")
               then "Pod phase Unknown — cluster node or kubelet may be unavailable"
               else "Pod phase Unknown: " +:+ PodStatus_Message st in
    report r ws (failed_summary podName msg RemediationPodUnknown ReasonPodUnknown)
      id (done_result, None)
  else reconcilePodWaiting r ws podName pod serviceEndpoint.

(** Lines 346-358: stop an idle workspace. *)
Definition stopIdle (r : WorkspaceReconciler) (ws : Workspace) (pod : Pod) : api outcome :=
  d ← request (DeletePod pod);
  match d with
  | Err e =>
    if negb (IsNotFound e) then mret (done_result, Some (errorf_w "delete idle pod: " e))
    else report r ws (MkStatusSummary WorkspacePhaseStopped "" ""
                        "Workspace stopped due to inactivity" "" "" ReasonStopped)
           id (done_result, None)
  | Ok _ => report r ws (MkStatusSummary WorkspacePhaseStopped "" ""
                           "Workspace stopped due to inactivity" "" "" ReasonStopped)
              id (done_result, None)
  end.

(** Lines 338-344: seed [lastAccessed] when it was never set. *)
Definition seedLastAccessed (ws : Workspace) : api (result Workspace) :=
  if IsZero (lastAccessed ws) then
    now ← request Now;
    request (PatchStatus ws (set_LastAccessed now ws))
  else mret (Ok ws).

(** Lines 332-360: the idle check, then the status from the pod. *)
Definition reconcileIdle (r : WorkspaceReconciler) (ws : Workspace) (podName : string)
    (pod : Pod) (serviceEndpoint : string) : api outcome :=
  let idle := effectiveIdleTimeout ws (IdleTimeout r) in
  if running_and_ready pod && (0 <? idle)%Z then
    s ← seedLastAccessed ws;
    match s with
    | Err e => mret (done_result, Some (errorf_w "seed lastAccessed: " e))
    | Ok ws' =>
      now ← request Now;
      if (idle <? Sub now (lastAccessed ws'))%Z then stopIdle r ws' pod
      else reconcilePodStatus r ws' podName pod serviceEndpoint idle
    end
  else reconcilePodStatus r ws podName pod serviceEndpoint idle.

(** Lines 303-330: the headless Service. *)
Definition reconcileService (r : WorkspaceReconciler) (nn : NamespacedName) (ws : Workspace)
    (pod : Pod) : api outcome :=
  let svcName := ServiceName (userID ws) in
  let svcLabels := Labels_ (userID ws) in
  e ← request (CreateOrUpdate KService
        (MkService (object_meta svcName (NN_Namespace nn) ∅) "" ∅ [])
        (λ svc, m ← SetControllerReference (WS_Meta ws) (set_Labels svcLabels (Service_Meta svc));
                Ok (MkService m ClusterIPNone svcLabels
                      [MkServicePort "ttyd" 7681 ProtocolTCP])));
  match e with
  | Err e =>
    let '(hint, rr) := ErrorDetailsForService e in
    report r ws (failed_summary "" (Error e) hint rr) id (done_result, None)
  | Ok _ =>
    let serviceEndpoint := svcName +:+ "." +:+ NN_Namespace nn +:+ ".svc.cluster.local" in
    reconcileIdle r ws (PodName (userID ws)) pod serviceEndpoint
  end.

Definition desired_image (r : WorkspaceReconciler) : string :=
  if bool_decide (WorkspaceImage r = "") then "workspace:latest" else WorkspaceImage r.

(** The pod runs another image than the desired one and is not being deleted. *)
Definition outdated (image : string) (pod : Pod) : bool :=
  match Containers (Pod_Spec pod) with
  | [] => false
  | c :: _ => negb (bool_decide (Image c = image)) && negb (deletion_set (Pod_Meta pod))
  end.

Definition build_opts (r : WorkspaceReconciler) : BuildOpts :=
  MkBuildOpts (R_DefaultCABundle r) (R_PipIndexURL r) (R_PipTrustedHost r) (R_NpmRegistry r).

(** Lines 252-284: no pod yet. *)
Definition createPod (r : WorkspaceReconciler) (ws : Workspace) : api outcome :=
  match BuildPod ws (PVCName (userID ws)) (desired_image r) (build_opts r) with
  | Err buildErr =>
    report r ws (failed_summary "" (Error buildErr) RemediationValidation ReasonValidationFailed)
      id (done_result, None)
  | Ok podObj =>
    c ← request (CreatePod podObj);
    match c with
    | Err e =>
      let '(hint, rr) := ErrorDetailsForPodCreate e in
      report r ws (failed_summary "" (Error e) hint rr) id (done_result, None)
    | Ok _ => mret (requeue_after (2 * Second), None)
    end
  end.

(** Lines 229-301: ensure the pod; replace it when the image changed. *)
Definition reconcilePod (r : WorkspaceReconciler) (nn : NamespacedName) (ws : Workspace) :
    api outcome :=
  g ← request (GetPod (MkNamespacedName (NN_Namespace nn) (PodName (userID ws))));
  match g with
  | Err e =>
    if negb (IsNotFound e) then
      let '(hint, rr) := ErrorDetailsForPodGet e in
      report r ws (creating_summary ws ("Failed to read Pod: " +:+ Error e) hint rr)
        (with_patch_error "get Pod" e) (done_result, Some e)
    else createPod r ws
  | Ok pod =>
    if outdated (desired_image r) pod then
      d ← request (DeletePod pod);
      match d with
      | Err e => if negb (IsNotFound e)
                 then mret (done_result, Some (errorf_w "delete outdated pod: " e))
                 else mret (requeue_after (2 * Second), None)
      | Ok _ => mret (requeue_after (2 * Second), None)
      end
    else reconcileService r nn ws pod
  end.

(** Lines 174-210: no PVC yet. *)
Definition createPVC (r : WorkspaceReconciler) (ws : Workspace) : api outcome :=
  match BuildPVC ws with
  | Err buildErr =>
    report r ws (failed_summary "" (Error buildErr) RemediationValidation ReasonValidationFailed)
      id (done_result, None)
  | Ok pvcObj =>
    c ← request (CreatePVC pvcObj);
    match c with
    | Err e =>
      let '(hint, rr) := ErrorDetailsForPVCCreate e in
      report r ws (failed_summary "" (Error e) hint rr) id (done_result, None)
    | Ok _ =>
      report r ws (creating_summary ws "PersistentVolumeClaim created; waiting for volume to bind"
                     "" ReasonProgressing)
        id (requeue_after (2 * Second), None)
    end
  end.

(** Lines 156-227: ensure the PVC; a lost one is final. *)
Definition reconcilePVC (r : WorkspaceReconciler) (nn : NamespacedName) (ws : Workspace) :
    api outcome :=
  g ← request (GetPVC (MkNamespacedName (NN_Namespace nn) (PVCName (userID ws))));
  match g with
  | Err e =>
    if negb (IsNotFound e) then
      let '(hint, rr) := ErrorDetailsForPVCGet e in
      report r ws (creating_summary ws ("Failed to read PersistentVolumeClaim: " +:+ Error e) hint rr)
        (with_patch_error "get PVC" e) (done_result, Some e)
    else createPVC r ws
  | Ok pvc =>
    if bool_decide (PVC_Phase pvc = ClaimLost) then
      report r ws (failed_summary "" "PVC lost — manual intervention required"
                     RemediationPVCLost ReasonPVCLost)
        id (done_result, None)
    else reconcilePod r nn ws
  end.

(** Lines 116-154: RBAC and NetworkPolicies come before any storage or pod. *)
Definition reconcileChildren (r : WorkspaceReconciler) (nn : NamespacedName) (ws : Workspace) :
    api outcome :=
  e1 ← ensureRBAC ws;
  match e1 with
  | Some e =>
    let '(hint, rr) := ErrorDetailsForRBAC e in
    report r ws (creating_summary ws ("RBAC reconcile failed: " +:+ Error e) hint rr)
      (with_patch_error "ensure RBAC" e) (done_result, Some e)
  | None =>
  e2 ← ensureNetworkPolicies r ws;
  match e2 with
  | Some e =>
    let '(hint, rr) := ErrorDetailsForNetworkPolicy e in
    report r ws (creating_summary ws ("NetworkPolicy reconcile failed: " +:+ Error e) hint rr)
      (with_patch_error "ensure NetworkPolicies" e) (done_result, Some e)
  | None => reconcilePVC r nn ws
  end
  end.

(** Lines 75-114. *)
Definition Reconcile (r : WorkspaceReconciler) (req : NamespacedName) : api outcome :=
  g ← request (GetWorkspace req);
  match g with
  | Err e => mret (done_result, IgnoreNotFound e)
  | Ok ws =>
    if deletion_set (WS_Meta ws) then reconcileDelete ws
    else
    match ValidateSpec (Some ws) with
    | Some err =>
      report r ws (failed_summary "" (Error err) RemediationValidation ReasonValidationFailed)
        id (done_result, None)
    | None =>
      if negb (ContainsFinalizer (WS_Meta ws) workspaceFinalizer) then
        u ← request (UpdateWorkspace (set_meta (AddFinalizer (WS_Meta ws) workspaceFinalizer) ws));
        match u with
        | Err e => mret (done_result, Some (errorf_w "add finalizer: " e))
        | Ok _ => mret (MkResult true 0, None)
        end
      else if bool_decide (phase ws = WorkspacePhaseStopped) then mret (done_result, None)
      else reconcileChildren r req ws
    end
  end.
End controller.
