(* ===== verification/ControllerSpec.v ===== *)
(** * What the operator may do, and when

    An abstract specification of the reconciler: each request to the API server
    is allowed only after the requests and answers that justify it.
    [Reconcile_justified] proves that every request of every run of [Reconcile]
    is justified, whatever the API server answers; the theorems at the end read
    the guarantees off the specification. *)
From S2P Require Import Prelude GoStrings GoTime Api K8s K8sClient Diagnostics StatusSummary.
From S2P Require Import Resources Rbac NetPol Observability Controller.
From Stdlib Require Import ZArith Lia.
#[local] Open Scope Z_scope.

Section spec.
Context `{UnicodeTables} `{K8sLib}.
Variable r : WorkspaceReconciler.
Variable req : NamespacedName.

Abbreviation history := (list (call apiE)).

(** The Workspace read at the start of the run. *)
Definition fetched (h : history) (ws : Workspace) : Prop :=
  Call (GetWorkspace req) (Ok ws) ∈ h.

(** A Workspace the operator works on: live, valid, with the finalizer and
    not stopped. *)
Record active (h : history) (ws : Workspace) : Prop := {
  active_fetched : fetched h ws;
  active_live : deletion_set (WS_Meta ws) = false;
  active_valid : ValidateSpec (Some ws) = None;
  active_finalizer : ContainsFinalizer (WS_Meta ws) workspaceFinalizer = true;
  active_not_stopped : phase ws ≠ WorkspacePhaseStopped;
}.

(** [CreateOrUpdate] of the object [name] succeeded, with a mutation that
    always makes an object controlled by the workspace and satisfying
    [want]. *)
Definition kept {T} (k : kind T) (ws : Workspace) (name : string) (want : T → Prop)
    (h : history) : Prop :=
  ∃ obj f, Call (CreateOrUpdate k obj f) (Ok ()) ∈ h ∧ Name (kept_meta k obj) = name ∧
    ∀ o o', f o = Ok o' → want o' ∧ controlled_by (WS_Meta ws) (kept_meta k o').

Definition rbac_ensured (ws : Workspace) (h : history) : Prop :=
  let sa := ServiceAccountName (userID ws) in
  kept KServiceAccount ws sa (λ _, True) h ∧
  kept KRole ws sa (λ o, Rules o = workspace_rules) h ∧
  kept KRoleBinding ws sa (λ o,
    Subjects o = [MkSubject ServiceAccountKind sa (Namespace (WS_Meta ws))] ∧
    RB_RoleRef o = MkRoleRef rbac_GroupName "Role" sa) h.

(** The policy stored is the one the builder makes. *)
Definition policy_ensured (ws : Workspace) (suffix : string) (desired : result NetworkPolicy)
    (h : history) : Prop :=
  ∃ d, desired = Ok d ∧
    kept KNetworkPolicy ws (netpolName (userID ws) suffix)
      (λ o, NP_Spec o = NP_Spec d) h.

Definition llm_namespaces (ws : Workspace) : list string :=
  ResolveLLMEgressNamespaces (AI_EgressNamespaces (Spec_AIConfig (WS_Spec ws))) (LLMNamespaces r).
Definition egress_ports (ws : Workspace) : list Z :=
  ResolveEgressPorts (AI_EgressPorts (Spec_AIConfig (WS_Spec ws))) (EgressPorts r).

Definition policies_ensured (ws : Workspace) (h : history) : Prop :=
  policy_ensured ws "deny-all" (BuildDenyAllNetworkPolicy ws) h ∧
  policy_ensured ws "egress"
    (BuildEgressNetworkPolicy ws (llm_namespaces ws) (egress_ports ws)) h ∧
  policy_ensured ws "ingress-gateway"
    (BuildIngressFromGatewayNetworkPolicy ws (GatewayNamespace r)) h.

(** The workspace is fenced in: its identity and its policies are in place. *)
Record secured (h : history) (ws : Workspace) : Prop := {
  secured_active : active h ws;
  secured_rbac : rbac_ensured ws h;
  secured_policies : policies_ensured ws h;
}.

Definition pod_key (ws : Workspace) : NamespacedName :=
  MkNamespacedName (NN_Namespace req) (PodName (userID ws)).
Definition pvc_key (ws : Workspace) : NamespacedName :=
  MkNamespacedName (NN_Namespace req) (PVCName (userID ws)).
Definition endpoint_of (ws : Workspace) : string :=
  ServiceName (userID ws) +:+ "." +:+ NN_Namespace req +:+ ".svc.cluster.local".

Definition got_pod (h : history) (ws : Workspace) (pod : Pod) : Prop :=
  Call (GetPod (pod_key ws)) (Ok pod) ∈ h.

(** The PVC was read in this run and is not lost. *)
Definition pvc_usable (h : history) (ws : Workspace) : Prop :=
  ∃ pvc, Call (GetPVC (pvc_key ws)) (Ok pvc) ∈ h ∧ PVC_Phase pvc ≠ ClaimLost.

(** The local copy of the Workspace: as read, or as the server returned it
    when a missing [lastAccessed] was seeded. *)
Definition current (h : history) (ws ws' : Workspace) : Prop :=
  ws' = ws ∨ IsZero (lastAccessed ws) = true ∧
             ∃ t, Call (PatchStatus ws (set_LastAccessed t ws)) (Ok ws') ∈ h.

(** The pod runs, and the first of its conditions of type Ready is True. *)
Definition pod_ready (pod : Pod) : Prop :=
  PodStatus_Phase (Pod_Status pod) = "Running" ∧
  ∃ pre c post, PodStatus_Conditions (Pod_Status pod) = pre ++ c :: post ∧
    PodCond_Type c = "Ready" ∧ PodCond_Status c = "True" ∧
    Forall (λ d, PodCond_Type d ≠ "Ready") pre.

(** The pod's first container runs another image, and the pod is not going
    away already. *)
Definition pod_outdated (pod : Pod) : Prop :=
  ∃ c cs, Containers (Pod_Spec pod) = c :: cs ∧ Image c ≠ desired_image r ∧
    deletion_set (Pod_Meta pod) = false.

Definition idle_of (ws : Workspace) : Duration := effectiveIdleTimeout ws (IdleTimeout r).

(** The time since the last access, read in this run. *)
Definition idle_for (h : history) (ws : Workspace) (d : Duration) : Prop :=
  ∃ ws' now, current h ws ws' ∧ Call Now now ∈ h ∧ d = Sub now (lastAccessed ws').

Definition idle_expired (h : history) (ws : Workspace) (pod : Pod) : Prop :=
  pod_ready pod ∧ 0 < idle_of ws ∧
  ∃ d, idle_for h ws d ∧ idle_of ws < d.

(** The workspace is secured, its volume usable and its Service in place, and its pod
    was read as running and ready. *)
Definition ready_seen (h : history) (ws : Workspace) : Prop :=
  secured h ws ∧ pvc_usable h ws ∧
  kept KService ws (ServiceName (userID ws)) (λ s, Selector s = Labels_ (userID ws)) h ∧
  ∃ pod, got_pod h ws pod ∧ pod_ready pod.

(** When a phase may be reported. *)
Definition summary_ok (h : history) (ws : Workspace) (sum : StatusSummary_) : Prop :=
  Sum_Phase sum ∈ [WorkspacePhaseCreating; WorkspacePhaseRunning; WorkspacePhaseFailed;
                   WorkspacePhaseStopped] ∧
  (Sum_Phase sum = WorkspacePhaseRunning →
     secured h ws ∧ pvc_usable h ws ∧
     kept KService ws (ServiceName (userID ws)) (λ s, Selector s = Labels_ (userID ws)) h ∧
     Sum_PodName sum = PodName (userID ws) ∧ Sum_ServiceEndpoint sum = endpoint_of ws ∧
     ∃ pod, got_pod h ws pod ∧ pod_ready pod ∧
       (idle_of ws <= 0 ∨ ∃ d, idle_for h ws d ∧ d <= idle_of ws)) ∧
  (Sum_Phase sum = WorkspacePhaseStopped →
     secured h ws ∧ ∃ pod x, got_pod h ws pod ∧ Call (DeletePod pod) x ∈ h ∧
       idle_expired h ws pod).

(** A phase change the server accepted. *)
Definition changed_phase (h : history) (base new ws' : Workspace) : Prop :=
  Call (PatchStatus base new) (Ok ws') ∈ h ∧ phase base ≠ phase new.

(** The rules and the role a stored object grants. *)
Definition grants {T} (k : kind T) (ws : Workspace) : T → Prop :=
  match k with
  | KRole => λ o, Rules o = workspace_rules
  | KRoleBinding => λ o, RB_RoleRef o = MkRoleRef rbac_GroupName "Role" (ServiceAccountName (userID ws))
  | _ => λ _, True
  end.

(** The Workspace becomes the controller of the object, which stays where it is. *)
Definition taken (ws : Workspace) (m m' : ObjectMeta) : Prop :=
  controlled_by (WS_Meta ws) m' ∧ key_of m' = key_of m.

Definition justified (h : history) (c : call apiE) : Prop :=
  match c with
  | Call e x =>
    match e with
    | GetWorkspace key => key = req ∧ h = []
    | GetPVC key => ∃ ws, secured h ws ∧ key = pvc_key ws
    | GetPod key => ∃ ws, secured h ws ∧ pvc_usable h ws ∧ key = pod_key ws
    | CreateOrUpdate k obj f =>
      ∃ ws, active h ws ∧ Namespace (kept_meta k obj) ∈ [Namespace (WS_Meta ws); NN_Namespace req] ∧
        (∀ o o', f o = Ok o' → taken ws (kept_meta k o) (kept_meta k o') ∧ grants k ws o')
    | CreatePVC pvc =>
      ∃ ws e, secured h ws ∧ BuildPVC ws = Ok pvc ∧
              Call (GetPVC (pvc_key ws)) (Err e) ∈ h ∧ IsNotFound e = true
    | CreatePod pod =>
      ∃ ws e, secured h ws ∧ pvc_usable h ws ∧
              BuildPod ws (PVCName (userID ws)) (desired_image r) (build_opts r) = Ok pod ∧
              Call (GetPod (pod_key ws)) (Err e) ∈ h ∧ IsNotFound e = true
    | DeletePod pod =>
      ∃ ws, secured h ws ∧ got_pod h ws pod ∧
            (pod_outdated pod ∨ idle_expired h ws pod)
    | UpdateWorkspace ws' =>
      ∃ ws, fetched h ws ∧
        ((deletion_set (WS_Meta ws) = true ∧
          ws' = set_meta (RemoveFinalizer (WS_Meta ws) workspaceFinalizer) ws) ∨
         (deletion_set (WS_Meta ws) = false ∧ ValidateSpec (Some ws) = None ∧
          ContainsFinalizer (WS_Meta ws) workspaceFinalizer = false ∧
          ws' = set_meta (AddFinalizer (WS_Meta ws) workspaceFinalizer) ws))
    | PatchStatus base new =>
      ∃ ws, fetched h ws ∧ deletion_set (WS_Meta ws) = false ∧ current h ws base ∧
        ((ready_seen h ws ∧ IsZero (lastAccessed base) = true ∧
          ∃ t, Call Now t ∈ h ∧ new = set_LastAccessed t base) ∨
         (∃ now sum, Call Now now ∈ h ∧ new = ApplyStatusSummary now base sum ∧
                     summary_ok h ws sum))
    | IncStatusPatchFailures => ∃ base new e, Call (PatchStatus base new) (Err e) ∈ h
    | IncPhaseTransitions from to =>
      ∃ base new ws', changed_phase h base new ws' ∧
        from = PhaseLabel (phase base) ∧ to = PhaseLabel (phase new)
    | Eventf reason note =>
      HasRecorder r = true ∧ ∃ base new ws', changed_phase h base new ws' ∧
        phase new = WorkspacePhaseFailed ∧ note = Status_Message (WS_Status ws')
    | LogAuditLine msg fields => ∃ base new ws', changed_phase h base new ws' ∧
        (LogKeyFromPhase, phase base) ∈ fields ∧ (LogKeyToPhase, phase new) ∈ fields
    | Now => True
    | CreateWorkspace _ | WaitOrDone _ => False
    end
  end.
End spec.

(** ** The pod's state, as the code tests it *)

Lemma ready_condition_true_spec cs :
  ready_condition_true cs = true →
  ∃ pre c post, cs = pre ++ c :: post ∧ PodCond_Type c = "Ready" ∧ PodCond_Status c = "True" ∧
    Forall (λ d, PodCond_Type d ≠ "Ready") pre.
Proof.
  induction cs as [|c cs IH]; cbn; [done|]. case_bool_decide as Hc.
  - intros Hs%bool_decide_eq_true. exists [], c, cs. by split_and!.
  - intros (pre & c' & post & -> & ? & ? & ?)%IH. exists (c :: pre), c', post.
    split_and!; [done|done|done|by constructor].
Qed.

Lemma running_and_ready_spec `{K8sLib} pod : running_and_ready pod = true → pod_ready pod.
Proof.
  intros [Hr%bool_decide_eq_true Hc]%andb_true_iff. split; [exact Hr|].
  by apply ready_condition_true_spec.
Qed.

Lemma outdated_spec `{K8sLib} r pod : outdated (desired_image r) pod = true → pod_outdated r pod.
Proof.
  unfold outdated, pod_outdated. destruct (Containers (Pod_Spec pod)) as [|c cs]; [done|].
  intros [Hi Hd]%andb_true_iff. apply negb_true_iff in Hi, Hd. apply bool_decide_eq_false in Hi.
  by exists c, cs.
Qed.
#[export] Hint Resolve running_and_ready_spec outdated_spec : devplane.

(** ** What was justified stays justified *)

Section mono.
Context `{UnicodeTables} `{K8sLib}.
Variable r : WorkspaceReconciler.
Variable req : NamespacedName.
Context (h h' : list (call apiE)) (Hsub : h ⊆ h').

Lemma active_mono ws : active req h ws → active req h' ws.
Proof. intros [Hf ? ? ? ?]. split; try done. by apply Hsub. Qed.

Lemma kept_mono {T} (k : kind T) ws name want : kept k ws name want h → kept k ws name want h'.
Proof. intros (obj & f & Hin & ?). exists obj, f. auto. Qed.

Lemma rbac_ensured_mono ws : rbac_ensured ws h → rbac_ensured ws h'.
Proof. intros (? & ? & ?). split_and!; by apply kept_mono. Qed.

Lemma policy_ensured_mono ws s d : policy_ensured ws s d h → policy_ensured ws s d h'.
Proof. intros (np & ? & ?). exists np. split; [done|]. by apply kept_mono. Qed.

Lemma policies_ensured_mono ws : policies_ensured r ws h → policies_ensured r ws h'.
Proof. intros (? & ? & ?). split_and!; by apply policy_ensured_mono. Qed.

Lemma secured_mono ws : secured r req h ws → secured r req h' ws.
Proof.
  intros [? ? ?].
  split; [by apply active_mono|by apply rbac_ensured_mono|by apply policies_ensured_mono].
Qed.

Lemma pvc_usable_mono ws : pvc_usable req h ws → pvc_usable req h' ws.
Proof. intros (pvc & ? & ?). exists pvc. auto. Qed.

Lemma got_pod_mono ws pod : got_pod req h ws pod → got_pod req h' ws pod.
Proof. apply Hsub. Qed.

Lemma current_mono ws ws' : current h ws ws' → current h' ws ws'.
Proof. intros [-> | (? & t & ?)]; [by left|right; eauto]. Qed.

Lemma idle_for_mono ws d : idle_for h ws d → idle_for h' ws d.
Proof.
  intros (ws' & now & ? & ? & ?). exists ws', now. split_and!; [by apply current_mono|auto|done].
Qed.

Lemma idle_expired_mono ws pod : idle_expired r h ws pod → idle_expired r h' ws pod.
Proof.
  intros (? & ? & d & ? & ?). split_and!; [done|done|]. exists d. split; [by apply idle_for_mono|done].
Qed.

Lemma summary_ok_mono ws sum : summary_ok r req h ws sum → summary_ok r req h' ws sum.
Proof.
  intros (Hp & Hr & Hs). split_and!; [done|..].
  - intros E. destruct (Hr E) as (? & ? & ? & ? & ? & pod & ? & ? & Hi).
    split_and!; [by apply secured_mono|by apply pvc_usable_mono|by apply kept_mono|done|done|].
    exists pod. split_and!; [by apply got_pod_mono|done|].
    destruct Hi as [?|(d & ? & ?)]; [by left|right]. exists d. split; [by apply idle_for_mono|done].
  - intros E. destruct (Hs E) as (? & pod & x & ? & ? & ?).
    split; [by apply secured_mono|]. exists pod, x.
    split_and!; [by apply got_pod_mono|auto|by apply idle_expired_mono].
Qed.
End mono.

#[export] Hint Resolve active_mono kept_mono secured_mono pvc_usable_mono got_pod_mono
  current_mono idle_for_mono idle_expired_mono summary_ok_mono : devplane.

(** ** Every request of [Reconcile] is justified *)

Section refinement.
Context `{UnicodeTables} `{K8sLib} `{!K8sLaws}.
Variable r : WorkspaceReconciler.
Variable req : NamespacedName.

Abbreviation J := (justified r req).

Lemma summary_ok_failed h ws pn msg hint rr :
  summary_ok r req h ws (failed_summary pn msg hint rr).
Proof. split_and!; [cbn; right; right; by left|done|done]. Qed.

Lemma summary_ok_creating h ws pn ep msg ovr hint rr :
  summary_ok r req h ws (MkStatusSummary WorkspacePhaseCreating pn ep msg ovr hint rr).
Proof. split_and!; [by left|done|done]. Qed.

Lemma updateStatus_safe h ws base sum :
  fetched req h ws → deletion_set (WS_Meta ws) = false → current h ws base →
  summary_ok r req h ws sum → safe J h (updateStatus r base sum).
Proof.
  intros Hf Hd Hc Hs. unfold updateStatus. apply safe_request; [done|intros now].
  apply safe_request.
  { intros x. exists ws. split_and!; [by apply in_app_l|done|eauto with devplane|].
    right. exists now, sum. split_and!; [apply in_snoc|done|eauto with devplane]. }
  intros [ws'|e].
  2: { cbn. intros u. split; [|done]. eexists _, _, e. apply in_snoc. }
  set (new := ApplyStatusSummary now base sum). set (h' := (_ ++ _) ++ _).
  assert (Hin : Call (PatchStatus base new) (Ok ws') ∈ h') by apply in_snoc.
  clearbody h'. cbv zeta.
  destruct (decide (phase base = Sum_Phase sum)) as [E|E].
  - rewrite (bool_decide_false (phase base ≠ Sum_Phase sum)) by auto.
    rewrite andb_false_r. done.
  - rewrite (bool_decide_true (phase base ≠ Sum_Phase sum)) by auto. rewrite andb_true_r.
    assert (Hch : ∀ tr, changed_phase (h' ++ tr) base new ws').
    { intros tr. split; [by apply in_app_l|done]. }
    pose proof (Hch []) as Hch0. rewrite app_nil_r in Hch0.
    cbn. intros u. split; [exists base, new, ws'; split_and!; [done|set_solver|set_solver]|].
    intros u1. split; [exists base, new, ws'; auto|].
    case_match eqn:Hrec; [|done]. apply andb_true_iff in Hrec as [Hrec Hph%bool_decide_eq_true].
    intros u2. split; [|done]. split; [done|]. exists base, new, ws'.
    rewrite <- app_assoc. auto.
Qed.

Lemma report_safe h ws base sum g o :
  fetched req h ws → deletion_set (WS_Meta ws) = false → current h ws base →
  summary_ok r req h ws sum → safe J h (report r base sum g o).
Proof.
  intros. unfold report. apply safe_bind; [by eapply updateStatus_safe|].
  by intros tr [e|] _.
Qed.

(** The common case: the Workspace as read. *)
Lemma report_active h ws sum g o :
  active req h ws → summary_ok r req h ws sum → safe J h (report r ws sum g o).
Proof. intros [? ? _ _ _] ?. eapply report_safe; eauto. by left. Qed.

(** *** RBAC and policies *)

(** A mutation that ends in [SetControllerReference]. *)
Lemma mutation_controlled {T} (k : kind T) ws l (get : T → ObjectMeta) (mk : ObjectMeta → T) o o' :
  (∀ m, kept_meta k (mk m) = m) → (∀ o, get o = kept_meta k o) →
  (m ← SetControllerReference (WS_Meta ws) (set_Labels l (get o)); Ok (mk m)) = Ok o' →
  taken ws (kept_meta k o) (kept_meta k o').
Proof.
  intros Hk Hg (m & Hm & [= <-])%result_bind_ok. unfold taken. rewrite Hk, <- Hg.
  apply SetControllerReference_ok in Hm as [(Hn & Hns & _) ?]. split; [done|].
  unfold key_of. by rewrite Hn, Hns.
Qed.

Lemma ensureRBAC_safe h ws : active req h ws → safe J h (ensureRBAC ws).
Proof.
  intros Ha. unfold ensureRBAC. apply safe_request.
  { intros x. exists ws. split; [done|]. split; [by left|]. intros o o' Ho.
    split; [|done]. by apply (mutation_controlled KServiceAccount) in Ho. }
  intros [u|e]; [|done]. destruct (BuildRole ws) as [role|e] eqn:Hb; [|done]. apply safe_request.
  { intros x. exists ws. split; [eauto with devplane|]. split; [by left|]. intros o o' Ho.
    split; [by apply (mutation_controlled KRole) in Ho|].
    apply result_bind_ok in Ho as (m & _ & [= <-]). by apply result_bind_ok in Hb as (? & _ & [= <-]). }
  intros [u1|e]; [|done]. apply safe_request.
  { intros x. exists ws. split; [eauto with devplane|]. split; [by left|].
    intros o o' Ho. split; [by apply (mutation_controlled KRoleBinding) in Ho|].
    by apply result_bind_ok in Ho as (m & _ & [= <-]). }
  by intros [u2|e].
Qed.

Lemma kept_intro {T} (k : kind T) ws name (want : T → Prop) obj f u tr :
  Call (CreateOrUpdate k obj f) (Ok u) ∈ tr → Name (kept_meta k obj) = name →
  (∀ o o', f o = Ok o' → want o' ∧ controlled_by (WS_Meta ws) (kept_meta k o')) →
  kept k ws name want tr.
Proof. destruct u. intros. exists obj, f. auto. Qed.

Lemma ensureRBAC_ensures ws : post (ensureRBAC ws) (λ tr e, e = None → rbac_ensured ws tr).
Proof.
  unfold ensureRBAC. rewrite post_bind, post_request. intros [u1|e]; [|done].
  destruct (BuildRole ws) as [role|e] eqn:Hrole; [|done].
  rewrite post_bind, post_request. intros [u2|e]; [|done].
  rewrite post_bind, post_request. intros [u3|e]; [|done]. intros _.
  assert (Hr : Rules role = workspace_rules).
  { unfold BuildRole in Hrole. by apply result_bind_ok in Hrole as (m & _ & [= <-]). }
  split_and!; (eapply kept_intro; [first [by left | right; by left | right; right; by left]|done|]); intros o o' Ho;
    (split; [|by eapply (mutation_controlled _) in Ho as [? _]]);
    by apply result_bind_ok in Ho as (m & _ & [= <-]).
Qed.

Lemma ensure_policy_safe h ws what d : active req h ws → safe J h (ensure_policy ws what d).
Proof.
  intros Ha. unfold ensure_policy. destruct d as [np|e]; [|done]. apply safe_request.
  { intros x. exists ws. split; [done|]. split; [by left|]. intros o o' Ho.
    split; [|done]. by apply (mutation_controlled KNetworkPolicy) in Ho. }
  by intros [u|e].
Qed.

Lemma ensure_policy_ensures ws what suffix d :
  (∀ np, d = Ok np → Name (NP_Meta np) = netpolName (userID ws) suffix) →
  post (ensure_policy ws what d) (λ tr e, e = None → policy_ensured ws suffix d tr).
Proof.
  intros Hn. unfold ensure_policy. destruct d as [np|e]; [|done].
  rewrite post_bind, post_request. intros [u|e]; [|done]. intros _.
  exists np. split; [done|]. eapply kept_intro; [by left|exact (Hn np eq_refl)|]. intros o o' Ho.
  split; [|by eapply (mutation_controlled KNetworkPolicy) in Ho as [? _]].
  by apply result_bind_ok in Ho as (m & _ & [= <-]).
Qed.

Lemma own_name what ws m m' : own what ws m = Ok m' → Name m' = Name m.
Proof. intros Hm%own_ok%SetControllerReference_ok. by destruct Hm as [(? & _) _]. Qed.

Lemma built_policy_name ws suffix spec np :
  (m ← own "NetworkPolicy" ws (np_meta ws suffix); Ok (MkNetworkPolicy m spec)) = Ok np →
  Name (NP_Meta np) = netpolName (userID ws) suffix.
Proof. by intros (m & Hm%own_name & [= <-])%result_bind_ok. Qed.

Lemma ensureNetworkPolicies_safe h ws : active req h ws → safe J h (ensureNetworkPolicies r ws).
Proof.
  intros Ha. unfold ensureNetworkPolicies.
  apply safe_bind; [by apply ensure_policy_safe|]. intros tr1 [e|] _; [done|].
  apply safe_bind; [apply ensure_policy_safe; eauto with devplane|]. intros tr2 [e|] _; [done|].
  apply ensure_policy_safe; eauto with devplane.
Qed.

Lemma ensureNetworkPolicies_ensures ws :
  post (ensureNetworkPolicies r ws) (λ tr e, e = None → policies_ensured r ws tr).
Proof.
  unfold ensureNetworkPolicies. rewrite post_bind.
  eapply post_mono; [apply ensure_policy_ensures, built_policy_name|].
  intros tr1 [e|] E1; [done|]. rewrite post_bind.
  eapply post_mono; [apply ensure_policy_ensures, built_policy_name|].
  intros tr2 [e|] E2; [done|].
  eapply post_mono; [apply ensure_policy_ensures, built_policy_name|].
  intros tr3 e E3 ->. split_and!; eapply policy_ensured_mono;
    [|by apply E1| |by apply E2| |by apply E3]; set_solver.
Qed.

(** *** The pod, from its status back to its creation *)

(** What is known when the pod has been read and is current. *)
Record pod_known (h : list (call apiE)) (ws : Workspace) (pod : Pod) : Prop := {
  known_secured : secured r req h ws;
  known_pvc : pvc_usable req h ws;
  known_pod : got_pod req h ws pod;
}.

Lemma pod_known_mono h h' ws pod : h ⊆ h' → pod_known h ws pod → pod_known h' ws pod.
Proof. intros Hs [? ? ?]. split; eauto with devplane. Qed.
Hint Resolve pod_known_mono : devplane.

Definition service_kept (h : list (call apiE)) (ws : Workspace) : Prop :=
  kept KService ws (ServiceName (userID ws)) (λ s, Selector s = Labels_ (userID ws)) h.

Lemma report_current h ws base sum g o :
  secured r req h ws → current h ws base → summary_ok r req h ws sum →
  safe J h (report r base sum g o).
Proof. intros [[? ? _ _ _] _ _] ? ?. by eapply report_safe. Qed.

Lemma reconcilePodWaiting_safe h ws base pod ep :
  secured r req h ws → current h ws base →
  safe J h (reconcilePodWaiting r base (PodName (userID ws)) pod ep).
Proof.
  intros Hs Hc. unfold reconcilePodWaiting.
  destruct (stuck_container _) as [[reason msg]|].
  - destruct (RemediationForPodWaitingReason reason).
    eapply report_current; eauto using summary_ok_failed.
  - eapply report_current; eauto using summary_ok_creating.
Qed.

Lemma reconcilePodStatus_safe h ws base pod :
  pod_known h ws pod → service_kept h ws → current h ws base →
  (running_and_ready pod = true →
     idle_of r ws <= 0 ∨ ∃ d, idle_for h ws d ∧ d <= idle_of r ws) →
  safe J h (reconcilePodStatus r base (PodName (userID ws)) pod (endpoint_of req ws) (idle_of r ws)).
Proof.
  intros [Hs Hp Hg] Hsvc Hc Hidle. unfold reconcilePodStatus.
  destruct (running_and_ready pod) eqn:Hrun.
  - eapply report_current; eauto. split_and!; [right; by left| |done].
    intros _. split_and!; try done. exists pod. split_and!; eauto with devplane.
  - case_bool_decide; [eapply report_current; eauto using summary_ok_failed|].
    case_bool_decide; [eapply report_current; eauto using summary_ok_failed|].
    by apply reconcilePodWaiting_safe.
Qed.

Lemma stopIdle_safe h ws base pod :
  pod_known h ws pod → current h ws base → idle_expired r h ws pod →
  safe J h (stopIdle r base pod).
Proof.
  intros [Hs Hp Hg] Hc Hi. unfold stopIdle. apply safe_request.
  { intros x. exists ws. eauto. }
  assert (Hstop : ∀ x g o, safe J (h ++ [Call (DeletePod pod) x])
    (report r base (MkStatusSummary WorkspacePhaseStopped "" ""
       "Workspace stopped due to inactivity" "" "" ReasonStopped) g o)).
  { intros x g o. eapply report_current; eauto with devplane.
    split_and!; [right; right; right; by left|done|]. intros _.
    split; [eauto with devplane|]. exists pod, x.
    split_and!; [eauto with devplane|apply in_snoc|eauto with devplane]. }
  intros [u|e]; [done|]. by case_match.
Qed.

Lemma seed_current ws tr ws' :
  exec (seedLastAccessed ws) tr (Ok ws') → current tr ws ws'.
Proof.
  unfold seedLastAccessed. case_match; [|by intros [-> [= ->]]; left].
  intros (t & tr1 & -> & (x & tr2 & -> & [-> <-])). right. split; [done|]. eexists. right; by left.
Qed.

Lemma ready_seen_snoc h c ws : ready_seen r req h ws → ready_seen r req (h ++ [c]) ws.
Proof.
  intros (? & ? & ? & pod & ? & ?). split_and!; [eauto with devplane|eauto with devplane|by eapply kept_mono; [apply sub_snoc|]|].
  exists pod. split; [by apply in_app_l|done].
Qed.

Lemma seedLastAccessed_safe h ws : ready_seen r req h ws → safe J h (seedLastAccessed ws).
Proof.
  intros Hs. unfold seedLastAccessed. case_match eqn:Hz; [|done].
  apply safe_request; [done|]. intros t x. split; [|done].
  destruct (Hs) as ([[? ? _ _ _] _ _] & _). exists ws.
  split_and!; [by apply in_app_l|done|by left|]. left.
  split_and!; [by apply ready_seen_snoc|done|]. exists t. split; [apply in_snoc|done].
Qed.

Lemma reconcileIdle_safe h ws pod :
  pod_known h ws pod → service_kept h ws →
  safe J h (reconcileIdle r ws (PodName (userID ws)) pod (endpoint_of req ws)).
Proof.
  intros Hk Hsvc. unfold reconcileIdle. fold (idle_of r ws).
  destruct (running_and_ready pod && (0 <? idle_of r ws)) eqn:Hb.
  - apply andb_true_iff in Hb as [Hrun Hpos%Z.ltb_lt].
    apply safe_bind.
    { apply seedLastAccessed_safe. split_and!; [apply Hk|apply Hk|done|]. exists pod.
      split; [apply Hk|by apply running_and_ready_spec]. }
    intros tr [ws'|e] Hex; [|done].
    apply seed_current in Hex. apply safe_request; [done|]. intros now.
    set (h' := (h ++ tr) ++ _).
    assert (Hsub : h ⊆ h') by (unfold h'; set_solver).
    assert (Hcur : current h' ws ws').
    { eapply current_mono; [|exact Hex]. unfold h'. set_solver. }
    assert (Hfor : idle_for h' ws (Sub now (lastAccessed ws'))).
    { exists ws', now. split_and!; [done|apply in_snoc|done]. }
    assert (Hk' : pod_known h' ws pod) by eauto with devplane.
    assert (Hsvc' : service_kept h' ws) by (by eapply kept_mono).
    destruct (Z.ltb_spec (idle_of r ws) (Sub now (lastAccessed ws'))) as [Hlt|Hge].
    + eapply stopIdle_safe; eauto. split_and!; eauto with devplane.
    + eapply reconcilePodStatus_safe; eauto.
  - apply reconcilePodStatus_safe; [done|done|by left|].
    intros Hrun. rewrite Hrun in Hb. cbn in Hb. apply Z.ltb_ge in Hb. by left.
Qed.

Lemma reconcileService_safe h ws pod :
  pod_known h ws pod → safe J h (reconcileService r req ws pod).
Proof.
  intros Hk. pose proof (secured_active _ _ _ _ (known_secured _ _ _ Hk)) as Ha.
  assert (Hm : ∀ o o', (m ← SetControllerReference (WS_Meta ws)
      (set_Labels (Labels_ (userID ws)) (Service_Meta o));
      Ok (MkService m ClusterIPNone (Labels_ (userID ws)) [MkServicePort "ttyd" 7681 ProtocolTCP]))
      = Ok o' → taken ws (kept_meta KService o) (kept_meta KService o')).
  { intros o o'. by apply (mutation_controlled KService). }
  unfold reconcileService. apply safe_request.
  { intros x. exists ws. split; [done|]. split; [right; left|]. intros o o' Ho. split; [by apply (Hm o)|done]. }
  intros [u|e].
  - apply reconcileIdle_safe; [eauto with devplane|].
    eapply kept_intro; [apply in_snoc|done|]. intros o o' Ho.
    split; [|by apply (Hm o) in Ho as [? _]]. by apply result_bind_ok in Ho as (m & _ & [= <-]).
  - destruct (ErrorDetailsForService e). apply report_active; eauto using summary_ok_failed with devplane.
Qed.

Lemma createPod_safe h ws e :
  secured r req h ws → pvc_usable req h ws →
  Call (GetPod (pod_key req ws)) (Err e) ∈ h → IsNotFound e = true →
  safe J h (createPod r ws).
Proof.
  intros Hs Hp Hin He. pose proof (secured_active _ _ _ _ Hs) as Ha. unfold createPod.
  destruct (BuildPod _ _ _ _) as [pod|err] eqn:Hb.
  - apply safe_request; [intros x; exists ws, e; by split_and!|]. intros [u|e']; [done|].
    destruct (ErrorDetailsForPodCreate e').
    apply report_active; eauto using summary_ok_failed with devplane.
  - apply report_active; eauto using summary_ok_failed.
Qed.

Lemma reconcilePod_safe h ws :
  secured r req h ws → pvc_usable req h ws → safe J h (reconcilePod r req ws).
Proof.
  intros Hs Hp. pose proof (secured_active _ _ _ _ Hs) as Ha. unfold reconcilePod.
  apply safe_request; [intros x; by exists ws|]. intros [pod|e].
  - assert (Hk : pod_known (h ++ [Call (GetPod (pod_key req ws)) (Ok pod)]) ws pod).
    { split; [eauto with devplane|eauto with devplane|apply in_snoc]. }
    destruct (outdated _ pod) eqn:Ho; [apply outdated_spec in Ho|by apply reconcileService_safe].
    destruct Hk as [? ? ?]. apply safe_request; [intros x; exists ws; eauto|].
    intros [u|e]; [done|]. by case_match.
  - destruct (IsNotFound e) eqn:He; cbn [negb].
    + eapply createPod_safe; [eauto with devplane|eauto with devplane|apply in_snoc|done].
    + destruct (ErrorDetailsForPodGet e).
      apply report_active; eauto using summary_ok_creating with devplane.
Qed.

Lemma createPVC_safe h ws e :
  secured r req h ws → Call (GetPVC (pvc_key req ws)) (Err e) ∈ h → IsNotFound e = true →
  safe J h (createPVC r ws).
Proof.
  intros Hs Hin He. pose proof (secured_active _ _ _ _ Hs) as Ha. unfold createPVC.
  destruct (BuildPVC ws) as [pvc|err] eqn:Hb.
  - apply safe_request; [intros x; exists ws, e; by split_and!|]. intros [u|e'].
    + apply report_active; eauto using summary_ok_creating with devplane.
    + destruct (ErrorDetailsForPVCCreate e').
      apply report_active; eauto using summary_ok_failed with devplane.
  - apply report_active; eauto using summary_ok_failed.
Qed.

Lemma reconcilePVC_safe h ws : secured r req h ws → safe J h (reconcilePVC r req ws).
Proof.
  intros Hs. pose proof (secured_active _ _ _ _ Hs) as Ha. unfold reconcilePVC.
  apply safe_request; [intros x; by exists ws|]. intros [pvc|e].
  - case_bool_decide.
    + apply report_active; eauto using summary_ok_failed with devplane.
    + apply reconcilePod_safe; [eauto with devplane|]. exists pvc. split; [apply in_snoc|done].
  - destruct (IsNotFound e) eqn:He; cbn [negb].
    + eapply createPVC_safe; [eauto with devplane|apply in_snoc|done].
    + destruct (ErrorDetailsForPVCGet e).
      apply report_active; eauto using summary_ok_creating with devplane.
Qed.

Lemma reconcileChildren_safe h ws : active req h ws → safe J h (reconcileChildren r req ws).
Proof.
  intros Ha. unfold reconcileChildren.
  apply safe_bind; [by apply ensureRBAC_safe|]. intros tr1 [e|] Hex1.
  { destruct (ErrorDetailsForRBAC e).
    apply report_active; eauto using summary_ok_creating with devplane. }
  apply safe_bind; [apply ensureNetworkPolicies_safe; eauto with devplane|].
  intros tr2 [e|] Hex2.
  { destruct (ErrorDetailsForNetworkPolicy e).
    apply report_active; [|by apply summary_ok_creating].
    eapply active_mono; [|exact Ha]. set_solver. }
  apply reconcilePVC_safe. split.
  - eapply active_mono; [|exact Ha]. set_solver.
  - eapply rbac_ensured_mono; [|by eapply (proj1 (post_exec _ _) (ensureRBAC_ensures ws))].
    set_solver.
  - eapply policies_ensured_mono;
      [|by eapply (proj1 (post_exec _ _) (ensureNetworkPolicies_ensures ws))].
    set_solver.
Qed.

Lemma Reconcile_safe : safe J [] (Reconcile r req).
Proof.
  unfold Reconcile. apply safe_request; [done|]. intros [ws|e]; [|done].
  set (h := [] ++ [_]). assert (Hf : fetched req h ws) by (by left).
  destruct (deletion_set (WS_Meta ws)) eqn:Hd.
  { unfold reconcileDelete. apply safe_request; [|by intros [?|?]].
    intros x. exists ws. auto. }
  destruct (ValidateSpec (Some ws)) as [err|] eqn:Hv.
  { eapply report_safe; eauto using summary_ok_failed. by left. }
  destruct (ContainsFinalizer _ _) eqn:Hfin; cbn [negb].
  2: { apply safe_request; [|by intros [?|?]]. intros x. exists ws. auto 10. }
  case_bool_decide as Hst; [done|]. by apply reconcileChildren_safe.
Qed.
End refinement.
