(* ===== verification/Fixtures.v ===== *)
(** * Concrete inputs for the witnesses

    A valid Workspace, an operator configuration, and the cluster in the states a workspace goes through. *)
From S2P Require Import Prelude GoStrings GoTime Api K8s K8sClient Cluster Controller Resources.
From Stdlib Require Import ZArith.
#[local] Open Scope Z_scope.

Definition demo_spec : WorkspaceSpec :=
  MkWorkspaceSpec (MkUserInfo "alice" "alice@example.com") (MkResourceRequirements "2" "4Gi" "20Gi")
    (MkAIConfiguration [MkAIProvider "local" "http://vllm:8000" ["llama"]] [] [])
    (MkPersistenceConfig "") (MkTLSConfig None) (MkWorkspaceLifecycleSpec "").

Definition demo_meta (finalizers : list string) (deleted : option Time) : ObjectMeta :=
  MkObjectMeta "alice" "workspaces" ∅ "uid-1" 1 deleted finalizers [].

Definition demo_status (p : WorkspacePhase) (accessed : Time) : WorkspaceStatus :=
  MkWorkspaceStatus p "" "" "" "" [] accessed.

Definition demo_ws (finalizers : list string) (p : WorkspacePhase) (accessed : Time) : Workspace :=
  MkWorkspace (demo_meta finalizers None) demo_spec (demo_status p accessed).

Definition demo_req : NamespacedName := MkNamespacedName "workspaces" "alice".

(** An operator with a 24h idle timeout. *)
Definition demo_r : WorkspaceReconciler :=
  MkReconciler "workspace:v1" ["ai-system"] [443; 11434] (24 * Hour) "workspace-operator-system"
    "" "" "" "" true.

Definition demo_now : Time := 1000 * Hour.

#[local] Existing Instance ascii_tables.
#[local] Existing Instance RefLib.

Definition demo_cluster (ws : Workspace) : cluster := MkCluster (Some ws) None None demo_now.

(** A new Workspace, and the cluster after three runs of the operator. *)
Definition new_cluster : cluster := demo_cluster (demo_ws [] "" zeroTime).

Definition step (c : cluster) : cluster := (run serve (Reconcile demo_r demo_req) c).2.
Definition trace (c : cluster) : list (call apiE) := run_trace serve (Reconcile demo_r demo_req) c.
Definition outcome_of (c : cluster) : outcome := (run serve (Reconcile demo_r demo_req) c).1.

(** The finalizer is set; the volume exists; the pod is created; it is ready. *)
Definition finalized_cluster : cluster := step new_cluster.
Definition volume_cluster : cluster := step finalized_cluster.
Definition pod_cluster : cluster := step volume_cluster.
Definition ready_cluster : cluster := kubelet pod_cluster.
Definition running_cluster : cluster := step ready_cluster.
(** Two days later, with no access in between. *)
Definition idle_cluster : cluster := set_now (demo_now + 48 * Hour) running_cluster.
