(* ===== verification/Validation.v ===== *)
(** * What validation is for ([ValidateSpec] of [pkg/workspace/resources.go])

    The operator validates a specification once and then relies on it.  Here the
    validator is compared with what the rest of the operator needs: names that
    Kubernetes takes, builders that succeed, an idle timeout that is understood,
    and the constraints that the API types state. *)
From S2P Require Import Prelude GoStrings GoTime Api K8s K8sClient Resources Controller Fixtures.
From Stdlib Require Import ZArith Lia.

Section validation.
Context `{UnicodeTables} `{K8sLib} `{!K8sLaws}.

(** A specification the operator can work with. *)
Record usable_spec (ws : Workspace) : Prop := {
  (** the user id is a label, and so is every name made from it, within 63 bytes *)
  us_id : dns_label (userID ws);
  us_names name : name ∈ [PVCName; PodName; ServiceName; ServiceAccountName] →
    dns_label (name (userID ws)) ∧ len (name (userID ws)) ≤ 63;
  us_email : User_Email (Spec_User (WS_Spec ws)) ≠ "";
  us_resources : Forall (λ q, q ≠ "")
    [Res_CPU (Spec_Resources (WS_Spec ws)); Res_Memory (Spec_Resources (WS_Spec ws));
     Res_Storage (Spec_Resources (WS_Spec ws))];
  (** volume and pod can be built, whatever the operator's settings are *)
  us_pvc : is_ok (BuildPVC ws) = true;
  us_pod pvcName image opts : is_ok (BuildPod ws pvcName image opts) = true;
  (** the [MinItems] and [MinLength] markers of the API types *)
  us_providers : AI_Providers (Spec_AIConfig (WS_Spec ws)) ≠ [];
  us_provider p : p ∈ AI_Providers (Spec_AIConfig (WS_Spec ws)) →
    Provider_Name p ≠ "" ∧ Provider_Endpoint p ≠ "" ∧ Provider_Models p ≠ [];
  (** the operator's default is used only when the field is blank *)
  us_idle : TrimSpace (Spec_IdleTimeout (Spec_Lifecycle (WS_Spec ws))) = "" ∨
    ∀ d d', effectiveIdleTimeout ws d = effectiveIdleTimeout ws d';
}.

Lemma parse_quantity_as_is_ok what raw : is_ok (parse_quantity_as what raw) = is_ok (ParseQuantity raw).
Proof. unfold parse_quantity_as. by destruct (ParseQuantity raw). Qed.

(** A builder that succeeds has parsed its quantities. *)
Lemma BuildPVC_parses ws :
  is_ok (BuildPVC ws) = true → is_ok (ParseQuantity (Res_Storage (Spec_Resources (WS_Spec ws)))) = true.
Proof.
  unfold BuildPVC. rewrite <- (parse_quantity_as_is_ok "storage").
  by destruct (parse_quantity_as "storage" _).
Qed.

Lemma BuildPod_parses ws pvcName image opts :
  is_ok (BuildPod ws pvcName image opts) = true →
  is_ok (ParseQuantity (Res_CPU (Spec_Resources (WS_Spec ws)))) = true ∧
  is_ok (ParseQuantity (Res_Memory (Spec_Resources (WS_Spec ws)))) = true.
Proof.
  unfold BuildPod. rewrite <- (parse_quantity_as_is_ok "CPU"), <- (parse_quantity_as_is_ok "memory").
  destruct (parse_quantity_as "CPU" _); [|done]. by destruct (parse_quantity_as "memory" _).
Qed.

Lemma idle_understood ws :
  idle_ok (Spec_IdleTimeout (Spec_Lifecycle (WS_Spec ws))) ↔
  TrimSpace (Spec_IdleTimeout (Spec_Lifecycle (WS_Spec ws))) = "" ∨
  ∀ d d', effectiveIdleTimeout ws d = effectiveIdleTimeout ws d'.
Proof.
  unfold idle_ok, effectiveIdleTimeout. set (raw := TrimSpace _).
  destruct (decide (raw = "")) as [E|E]; [naive_solver|]. rewrite (bool_decide_false _ E).
  destruct (decide (raw = "0")) as [E0|E0]; [rewrite (bool_decide_true _ E0); naive_solver|].
  rewrite (bool_decide_false _ E0). destruct (ParseDuration raw); cbn; [naive_solver|].
  split; [naive_solver|]. intros [?|Hd]; [done|]. by specialize (Hd 0%Z 1%Z).
Qed.

Lemma usable_valid ws : usable_spec ws → valid_spec (WS_Spec ws).
Proof.
  intros [Hid Hn Hem Hres Hpvc Hpod Hps Hp Hi]. apply Forall_cons in Hres as [Hc Hres].
  apply Forall_cons in Hres as [Hm Hs]. apply Forall_inv in Hs.
  destruct (BuildPod_parses _ _ _ _ (Hpod "" "" (MkBuildOpts "" "" "" ""))) as [Ec Em].
  split; try done.
  - destruct (Hn ServiceName) as [_ Hl]; [right; right; left|].
    unfold ServiceName in Hl. rewrite len_app in Hl. cbn in Hl. unfold userID in Hl. lia.
  - split; [done|]. by apply BuildPVC_parses.
  - split; [done|]. by apply Forall_forall.
  - by apply idle_understood.
Qed.

Lemma valid_usable ws : valid_spec (WS_Spec ws) → usable_spec ws.
Proof.
  intros Hv. pose proof Hv as [Hid Hlen Hem [Hc _] [Hm _] [Hs _] [Hp Hps] Hi].
  split; try done.
  - intros name Hn. by destruct (names_within (userID ws) name Hid Hlen Hn) as (? & ? & _).
  - by repeat constructor.
  - by destruct (BuildPVC_total ws Hv) as (pvc & -> & _).
  - intros. by destruct (BuildPod_total ws pvcName image opts Hv) as (pod & -> & _).
  - by apply Forall_forall.
  - by apply idle_understood.
Qed.

(** The Workspace with every provider listed twice. *)
Definition providers_twice (ws : Workspace) : Workspace :=
  let s := WS_Spec ws in
  let ai := Spec_AIConfig s in
  MkWorkspace (WS_Meta ws)
    (MkWorkspaceSpec (Spec_User s) (Spec_Resources s)
       (MkAIConfiguration (AI_Providers ai ++ AI_Providers ai) (AI_EgressNamespaces ai) (AI_EgressPorts ai))
       (Spec_Persistence s) (Spec_TLS s) (Spec_Lifecycle s)) (WS_Status ws).

(** C22. [ValidateSpec] accepts exactly the specifications the operator can work
    with: the user id and all names made from it are DNS labels within the 63 bytes
    that Kubernetes allows; email and resources are set; the volume and the pod can
    be built; the providers satisfy the [MinItems] and [MinLength] markers of the
    API types; and the idle timeout is blank or understood, so that the operator's
    default never silently replaces it.  It does not check what the types' comment
    asks of provider names, that they be unique: with every provider listed twice
    an accepted specification is still accepted. *)
Theorem ValidateSpec_exact ws :
  (ValidateSpec (Some ws) = None ↔ usable_spec ws) ∧
  (ValidateSpec (Some ws) = None →
   ValidateSpec (Some (providers_twice ws)) = None ∧
   ¬ NoDup (Provider_Name <$> AI_Providers (Spec_AIConfig (WS_Spec (providers_twice ws))))).
Proof.
  rewrite !ValidateSpec_iff. split; [split; [apply valid_usable|apply usable_valid]|].
  intros [? ? ? ? ? ? [Hp Hps] ?]. split.
  - split; try done. cbn. split; [by destruct (AI_Providers (Spec_AIConfig (WS_Spec ws)))|by apply Forall_app].
  - cbn. rewrite fmap_app. intros (_ & Hd & _)%NoDup_app. destruct (AI_Providers (Spec_AIConfig (WS_Spec ws))) as [|p ps]; [done|].
    apply (Hd (Provider_Name p)); left.
Qed.
End validation.

#[local] Existing Instance ascii_tables.
#[local] Existing Instance RefLib.

Lemma ValidateSpec_exact_witness :
  usable_spec (demo_ws [] "" zeroTime) ∧ ValidateSpec (Some (providers_twice (demo_ws [] "" zeroTime))) = None.
Proof.
  destruct (@ValidateSpec_exact _ _ RefLib_laws (demo_ws [] "" zeroTime)) as [Hiff Hdup].
  assert (Hv : ValidateSpec (Some (demo_ws [] "" zeroTime)) = None) by (vm_compute; reflexivity).
  split; [apply Hiff; exact Hv|apply Hdup; exact Hv].
Defined.
