(* ===== verification/ObjectWitnesses.v ===== *)
(** * Witnesses for the theorems about built objects

    The theorems of [Resources], [Rbac] and [NetPol] at the demo Workspace. *)
From S2P Require Import Prelude GoStrings GoTime Api K8s Resources Rbac NetPol Controller Fixtures.
From Stdlib Require Import ZArith.
#[local] Open Scope Z_scope.

#[local] Existing Instance ascii_tables.
#[local] Existing Instance RefLib.

Definition fixture_ws : Workspace := demo_ws [workspaceFinalizer] "" zeroTime.

Lemma fixture_valid : valid_spec (WS_Spec fixture_ws).
Proof. apply ValidateSpec_iff. vm_compute. reflexivity. Qed.

Lemma derived_names_valid_witness :
  dns_label (PodName "alice") ∧ (len (PodName "alice") ≤ 63)%nat.
Proof.
  destruct (derived_names_valid fixture_ws PodName) as (Hd & Hl & _).
  - by vm_compute.
  - right. by left.
  - split; [exact Hd|exact Hl].
Defined.

Lemma BuildPod_hardened_witness :
  ∃ pod, BuildPod fixture_ws "alice-workspace-pvc" "workspace:v1" (build_opts demo_r) = Ok pod ∧
    hardened_pod (Pod_Spec pod).
Proof.
  destruct (@BuildPod_total _ _ RefLib_laws fixture_ws "alice-workspace-pvc" "workspace:v1"
    (build_opts demo_r) fixture_valid) as (pod & Hb & _). exists pod. split; [exact Hb|].
  exact (proj1 (BuildPod_hardened _ _ _ _ _ Hb)).
Defined.

Lemma validated_builders_succeed_witness :
  ∃ pvc, BuildPVC fixture_ws = Ok pvc ∧ owned_object fixture_ws (PVCName "alice") (PVC_Meta pvc).
Proof.
  refine (proj1 (@validated_builders_succeed _ _ RefLib_laws fixture_ws "" "" (build_opts demo_r) _)).
  vm_compute. reflexivity.
Defined.

Lemma BuildRole_read_only_witness :
  ∃ role, BuildRole fixture_ws = Ok role ∧
    role_allows (MkAttributes "get" "" "pods") (Rules role) = true ∧ "get" ∈ ["get"; "list"; "watch"].
Proof.
  assert (Hb : ∃ role, BuildRole fixture_ws = Ok role ∧
    role_allows (MkAttributes "get" "" "pods") (Rules role) = true)
    by (eexists; split; vm_compute; reflexivity).
  destruct Hb as (role & Hb & Ha). exists role. split; [exact Hb|]. split; [exact Ha|].
  exact (proj1 (BuildRole_read_only _ _ _ Hb Ha)).
Defined.

Definition demo_pod_identity : pod_identity :=
  MkPodIdentity "workspaces" {[metadata_name_label := "workspaces"]} (Labels_ "alice").

Lemma demo_policies :
  ∃ nps, workspace_policies fixture_ws ["ai-system"] [443] "workspace-operator-system" = Ok nps.
Proof. eexists. vm_compute. reflexivity. Qed.

(** HTTPS to an IPv4 address is allowed, and nothing lets another pod in. *)
Lemma egress_exact_witness :
  ∃ nps, workspace_policies fixture_ws ["ai-system"] [443] "workspace-operator-system" = Ok nps ∧
    allowed nps PolicyTypeEgress demo_pod_identity (MkEndpoint None (Some 0)) ProtocolTCP 443.
Proof.
  destruct demo_policies as [nps Hp]. exists nps. split; [exact Hp|].
  apply (@egress_exact RefLib RefLib_laws fixture_ws ["ai-system"] [443] "workspace-operator-system" nps
    demo_pod_identity); [exact Hp|by split|]. right; right.
  split; [done|]. split; [by left|by eexists].
Defined.

Lemma ingress_exact_witness :
  ∃ nps, workspace_policies fixture_ws ["ai-system"] [443] "workspace-operator-system" = Ok nps ∧
    ~ allowed nps PolicyTypeIngress demo_pod_identity (MkEndpoint (Some demo_pod_identity) None)
        ProtocolTCP 7681.
Proof.
  destruct demo_policies as [nps Hp]. exists nps. split; [exact Hp|].
  destruct (@ingress_exact RefLib RefLib_laws fixture_ws ["ai-system"] [443] "workspace-operator-system" nps
    demo_pod_identity (MkEndpoint (Some demo_pod_identity) None) ProtocolTCP 7681 Hp) as [_ Hno];
    [by split|].
  exact (Hno demo_pod_identity "alice" eq_refl eq_refl).
Defined.
