(* ===== verification/ControllerProps.v ===== *)
(** * Guarantees of the reconciler

    What a run of [Reconcile] may do to the cluster, whatever the API server
    answers, read off the specification of [ControllerSpec]; how it ends; and
    that it converges in a fault-free cluster. *)
From S2P Require Import Prelude GoStrings GoTime Api K8s K8sClient Cluster Diagnostics StatusSummary.
From S2P Require Import Resources Rbac NetPol Observability Controller ControllerSpec Fixtures.
From Stdlib Require Import ZArith Lia.
#[local] Open Scope Z_scope.

Section guarantees.
Context `{UnicodeTables} `{K8sLib} `{!K8sLaws}.
Variable r : WorkspaceReconciler.
Variable req : NamespacedName.

(** C1. Isolation comes first: whenever a run creates a Pod, the same run has
    before that created or updated the user's ServiceAccount, read-only Role
    and RoleBinding and the deny-all, egress and ingress policies, found the
    PVC usable and the Pod missing, all for a live, validated, finalized
    Workspace that is not stopped; and the Pod is the hardened one that
    [BuildPod] makes. *)
Theorem pod_created_isolated h pod x :
  asks (Reconcile r req) h (Call (CreatePod pod) x) →
  ∃ ws, secured r req h ws ∧ pvc_usable req h ws ∧
    BuildPod ws (PVCName (userID ws)) (desired_image r) (build_opts r) = Ok pod ∧
    hardened_pod (Pod_Spec pod) ∧
    ∃ e, Call (GetPod (pod_key req ws)) (Err e) ∈ h ∧ IsNotFound e = true.
Proof.
  intros (ws & e & Hs & Hp & Hb & Hin & He)%(safe_asks _ _ _ _ (Reconcile_safe r req)).
  exists ws. split_and!; eauto. by apply BuildPod_inv in Hb as (? & ? & ? & ? & ? & ? & ? & ? & ? & ?).
Qed.

(** C14. A run deletes no Pod but the one it read under the workspace's own
    Pod name, and only because that Pod runs another image than the
    configured one and is not already going away, or because it is running
    and ready, a positive idle timeout is in force, and more than that time
    has passed since the last access. *)
Theorem pod_deleted_for_cause h pod x :
  asks (Reconcile r req) h (Call (DeletePod pod) x) →
  ∃ ws, secured r req h ws ∧ got_pod req h ws pod ∧
    (pod_outdated r pod ∨ idle_expired r h ws pod).
Proof. exact (safe_asks _ _ _ _ (Reconcile_safe r req)). Qed.

(** C15. Every status patch is for the Workspace read in this run, which is not
    being deleted; it leaves metadata and specification alone; it writes
    [lastAccessed] only to seed it with the current time when it was zero,
    and then nothing else; otherwise it reports one of the four phases
    Creating, Running, Failed, Stopped. *)
Theorem status_patch_frame h base new x :
  asks (Reconcile r req) h (Call (PatchStatus base new) x) →
  WS_Meta new = WS_Meta base ∧ WS_Spec new = WS_Spec base ∧
  (∃ ws, fetched req h ws ∧ deletion_set (WS_Meta ws) = false ∧ current h ws base) ∧
  ((IsZero (lastAccessed base) = true ∧ ∃ t, Call Now t ∈ h ∧ new = set_LastAccessed t base) ∨
   (lastAccessed new = lastAccessed base ∧
    phase new ∈ [WorkspacePhaseCreating; WorkspacePhaseRunning; WorkspacePhaseFailed;
                 WorkspacePhaseStopped])).
Proof.
  intros (ws & Hf & Hd & Hc & Hn)%(safe_asks _ _ _ _ (Reconcile_safe r req)).
  destruct Hn as [(_ & Hz & t & Ht & ->)|(now & sum & _ & -> & Hp & _ & _)]; eauto 12.
Qed.

(** C10. Phase Running is truthful: whenever a run patches a status to phase
    Running, be it from another phase or again, the same run has secured the
    workspace, found its PVC usable, put its Service in place with the
    workspace's selector and read its Pod as running and ready.  Either the
    patch is the seed of a missing last access, which changes that field alone
    of a Workspace that was Running already; or no positive idle timeout had
    expired, the Pod name and endpoint reported are the derived ones, and the
    Ready condition is True at the current generation. *)
Theorem running_is_truthful h base new x :
  asks (Reconcile r req) h (Call (PatchStatus base new) x) → phase new = WorkspacePhaseRunning →
  ∃ ws pod, secured r req h ws ∧ pvc_usable req h ws ∧ service_kept h ws ∧
    got_pod req h ws pod ∧ pod_ready pod ∧
    ((phase base = WorkspacePhaseRunning ∧ IsZero (lastAccessed base) = true ∧
      ∃ t, Call Now t ∈ h ∧ new = set_LastAccessed t base) ∨
     ((idle_of r ws <= 0 ∨ ∃ d, idle_for h ws d ∧ d <= idle_of r ws) ∧
      Status_PodName (WS_Status new) = PodName (userID ws) ∧
      Status_ServiceEndpoint (WS_Status new) = endpoint_of req ws ∧
      ∃ c, find_condition ConditionTypeReady (Status_Conditions (WS_Status new)) = Some c ∧
        Cond_Status c = ConditionTrue ∧ Cond_ObservedGeneration c = Generation (WS_Meta base))).
Proof.
  intros (ws & Hf & Hd & Hc & Hn)%(safe_asks _ _ _ _ (Reconcile_safe r req)) Hrun.
  destruct Hn as [((Hs & Hp & Hk & pod & Hg & Hrr) & Hz & t & Ht & ->)|(now & sum & _ & -> & _ & Hr & _)].
  { exists ws, pod. split_and!; try done. left. split_and!; [done|done|by exists t]. }
  destruct (Hr Hrun) as (Hs & Hp & Hk & Hpn & Hep & pod & Hg & Hrr & Hi).
  destruct (ApplyStatusSummary_ready now base sum) as (c & Hc1 & Hc2 & _ & Hc4).
  exists ws, pod. split_and!; try done. right. split_and!; try done. exists c. naive_solver.
Qed.

(** A workspace is declared Stopped only after its own Pod was read as
    running and ready, found idle for longer than a positive timeout, and
    deleted in the same run. *)
Theorem stopped_only_when_idle h base new x :
  asks (Reconcile r req) h (Call (PatchStatus base new) x) →
  phase new = WorkspacePhaseStopped → phase base ≠ WorkspacePhaseStopped →
  ∃ ws pod y, secured r req h ws ∧ got_pod req h ws pod ∧ Call (DeletePod pod) y ∈ h ∧
    idle_expired r h ws pod.
Proof.
  intros (ws & Hf & Hd & Hc & Hn)%(safe_asks _ _ _ _ (Reconcile_safe r req)) Hst Hbase.
  destruct Hn as [(_ & _ & t & _ & ->)|(now & sum & _ & -> & _ & _ & Hs)]; [done|].
  destruct (Hs Hst) as (? & pod & y & ? & ? & ?). eauto 10.
Qed.
End guarantees.

(** ** How a run ends *)

Section endings.
Context `{UnicodeTables} `{K8sLib} `{!K8sLaws}.
Variable r : WorkspaceReconciler.
Variable req : NamespacedName.

(** What a run may leave behind when the controller is not called again on
    its own account. *)
Inductive settled (tr : list (call apiE)) : Prop :=
  | settled_gone e : Call (GetWorkspace req) (Err e) ∈ tr → IsNotFound e = true → settled tr
  | settled_deleted ws ws' :
      fetched req tr ws → deletion_set (WS_Meta ws) = true →
      Call (UpdateWorkspace (set_meta (RemoveFinalizer (WS_Meta ws) workspaceFinalizer) ws)) (Ok ws') ∈ tr →
      settled tr
  | settled_stopped ws : fetched req tr ws → phase ws = WorkspacePhaseStopped → settled tr
  | settled_reported base new ws' :
      Call (PatchStatus base new) (Ok ws') ∈ tr →
      phase new ∈ [WorkspacePhaseFailed; WorkspacePhaseStopped] → settled tr
  | settled_running base new ws' ws :
      fetched req tr ws → Call (PatchStatus base new) (Ok ws') ∈ tr →
      phase new = WorkspacePhaseRunning → idle_of r ws < 4 → settled tr.

(** The three ways a run ends: with an error that a refused request caused;
    asking to be called again; or settled. *)
Definition ends_well (tr : list (call apiE)) (o : outcome) : Prop :=
  match o.2 with
  | Some _ => Exists call_failed tr
  | None => Requeue o.1 = true ∨ 0 < RequeueAfter o.1 ∨ settled tr
  end.

(** After the calls of [h], every run of [p] ends well. *)
Definition finishes (h : list (call apiE)) (p : prog apiE outcome) : Prop :=
  post p (λ tr o, ends_well (h ++ tr) o).

Lemma finishes_return h o : ends_well h o → finishes h (mret o).
Proof. unfold finishes. cbn. by rewrite app_nil_r. Qed.

Lemma finishes_bind {A} h (p : prog apiE A) f :
  (∀ tr a, exec p tr a → finishes (h ++ tr) (f a)) → finishes h (p ≫= f).
Proof.
  intros Hf. apply post_bind, post_exec. intros tr a Ha. eapply post_mono; [by apply Hf|].
  intros tr' o. cbn. by rewrite app_assoc.
Qed.

Lemma finishes_request {X} h (e : apiE X) f :
  (∀ x, finishes (h ++ [Call e x]) (f x)) → finishes h (request e ≫= f).
Proof. intros Hf. apply finishes_bind. intros tr x (y & tr' & -> & [-> ->]). apply Hf. Qed.

Lemma updateStatus_ends base sum :
  post (updateStatus r base sum) (λ tr u,
    match u with
    | Some _ => Exists call_failed tr
    | None => ∃ now ws', Call (PatchStatus base (ApplyStatusSummary now base sum)) (Ok ws') ∈ tr
    end).
Proof.
  unfold updateStatus. rewrite post_bind, post_request. intros now.
  rewrite post_bind, post_request. intros [ws'|e].
  - apply post_bind. apply post_exec. intros tr1 [] _. apply post_bind.
    apply post_exec. intros tr2 [] _. exists now, ws'. cbn. right. by left.
  - cbn. intros u. right. left. done.
Qed.

Lemma report_finishes h base sum g o :
  match o.2 with
  | Some _ => Exists call_failed h
  | None => 0 < RequeueAfter o.1 ∨
      ∀ tr now ws', h ⊆ tr →
        Call (PatchStatus base (ApplyStatusSummary now base sum)) (Ok ws') ∈ tr → settled tr
  end → finishes h (report r base sum g o).
Proof.
  intros Ho. unfold report. apply finishes_bind. intros tr u Hu.
  apply (proj1 (post_exec _ _) (updateStatus_ends base sum)) in Hu.
  destruct u as [e|]; apply finishes_return; unfold ends_well.
  - apply Exists_app. by right.
  - destruct (o.2) as [e|]; [apply Exists_app; by left|].
    right. destruct Ho as [?|Hset]; [by left|right].
    destruct Hu as (now & ws' & Hin). apply (Hset _ now ws'); [apply sub_snoc|].
    apply elem_of_app. by right.
Qed.

Lemma failed_finishes h base pn msg hint rr g :
  finishes h (report r base (failed_summary pn msg hint rr) g (done_result, None)).
Proof.
  apply report_finishes. right. intros tr now ws' _ Hin.
  eapply settled_reported; [exact Hin|]. by left.
Qed.

(** A refused request in the history justifies the error returned. *)
Lemma refused_finishes h c base sum g e :
  call_failed c → finishes (h ++ [c]) (report r base sum g (done_result, Some e)).
Proof. intros Hc. apply report_finishes. cbn. apply Exists_app. right. by left. Qed.

Lemma requeue_finishes h base sum g o :
  o.2 = None → 0 < RequeueAfter o.1 → finishes h (report r base sum g o).
Proof. intros E ?. apply report_finishes. rewrite E. by left. Qed.

Lemma requeue_return h d : 0 < d → finishes h (mret (requeue_after d, None)).
Proof. intros. apply finishes_return. right. by left. Qed.

Lemma error_return h c o e : call_failed c → finishes (h ++ [c]) (mret (o, Some e)).
Proof. intros. apply finishes_return. apply Exists_app. right. by left. Qed.

Hint Resolve failed_finishes requeue_return error_return : devplane.

Lemma reconcilePodWaiting_finishes h ws pn pod ep :
  finishes h (reconcilePodWaiting r ws pn pod ep).
Proof.
  unfold reconcilePodWaiting. destruct (stuck_container _) as [[reason msg]|].
  - destruct (RemediationForPodWaitingReason reason). apply failed_finishes.
  - by apply requeue_finishes.
Qed.

Lemma reconcilePodStatus_finishes h ws base pn pod ep :
  fetched req h ws → finishes h (reconcilePodStatus r base pn pod ep (idle_of r ws)).
Proof.
  intros Hf. unfold reconcilePodStatus. destruct (running_and_ready pod).
  - destruct (Z.le_gt_cases 4 (idle_of r ws)) as [Hge|Hlt].
    + rewrite (proj2 (Z.ltb_lt 0 _)) by lia. apply requeue_finishes; [done|].
      cbn. apply Z.quot_str_pos. lia.
    + apply report_finishes.
      destruct (0 <? idle_of r ws); cbn; right; intros tr now ws' Hsub Hin;
        (eapply settled_running; [by apply Hsub|exact Hin|done|done]).
  - repeat case_bool_decide; eauto using failed_finishes, reconcilePodWaiting_finishes.
Qed.

Lemma stopIdle_finishes h base pod : finishes h (stopIdle r base pod).
Proof.
  assert (Hst : ∀ h' g, finishes h' (report r base (MkStatusSummary WorkspacePhaseStopped "" ""
    "Workspace stopped due to inactivity" "" "" ReasonStopped) g (done_result, None))).
  { intros h' g. apply report_finishes. right. intros tr now ws' _ Hin.
    eapply settled_reported; [exact Hin|]. right. by left. }
  unfold stopIdle. apply finishes_request. intros [u|e]; [done|].
  destruct (negb (IsNotFound e)); [by apply error_return|done].
Qed.

Lemma reconcileIdle_finishes h ws pn pod ep :
  fetched req h ws → finishes h (reconcileIdle r ws pn pod ep).
Proof.
  intros Hf. unfold reconcileIdle. fold (idle_of r ws).
  destruct (running_and_ready pod && _); [|by apply reconcilePodStatus_finishes].
  apply finishes_bind. intros tr s Hs. destruct s as [ws'|e].
  - apply finishes_request. intros now. destruct (_ <? _).
    + apply stopIdle_finishes.
    + apply reconcilePodStatus_finishes. unfold fetched. auto with devplane.
  - apply finishes_return. apply Exists_app. right. unfold seedLastAccessed in Hs.
    destruct (IsZero _); [|by destruct Hs].
    destruct Hs as (t & tr1 & -> & (x & tr2 & -> & [-> <-])). right. by left.
Qed.

Lemma reconcilePod_finishes h ws : fetched req h ws → finishes h (reconcilePod r req ws).
Proof.
  intros Hf. unfold reconcilePod. apply finishes_request. intros [pod|e].
  - destruct (outdated _ pod).
    + apply finishes_request. intros [u|e]; [by apply requeue_return|].
      destruct (negb _); [by apply error_return|by apply requeue_return].
    + unfold reconcileService. apply finishes_request. intros [u|e].
      * apply reconcileIdle_finishes. unfold fetched. auto with devplane.
      * destruct (ErrorDetailsForService e). apply failed_finishes.
  - destruct (negb (IsNotFound e)).
    + destruct (ErrorDetailsForPodGet e). by apply refused_finishes.
    + unfold createPod. destruct (BuildPod _ _ _ _); [|apply failed_finishes].
      apply finishes_request. intros [u|e']; [by apply requeue_return|].
      destruct (ErrorDetailsForPodCreate e'). apply failed_finishes.
Qed.

Lemma reconcilePVC_finishes h ws : fetched req h ws → finishes h (reconcilePVC r req ws).
Proof.
  intros Hf. unfold reconcilePVC. apply finishes_request. intros [pvc|e].
  - case_bool_decide; [apply failed_finishes|]. apply reconcilePod_finishes. by apply in_app_l.
  - destruct (negb (IsNotFound e)).
    + destruct (ErrorDetailsForPVCGet e). by apply refused_finishes.
    + unfold createPVC. destruct (BuildPVC _); [|apply failed_finishes].
      apply finishes_request. intros [u|e']; [by apply requeue_finishes|].
      destruct (ErrorDetailsForPVCCreate e'). apply failed_finishes.
Qed.

Lemma own_total what ws n l :
  ∃ m, own what ws (object_meta n (Namespace (WS_Meta ws)) l) = Ok m.
Proof.
  destruct (SetControllerReference_fresh (WS_Meta ws)
    (object_meta n (Namespace (WS_Meta ws)) l)) as [m Hm]; [done..|].
  exists m. by apply own_ok.
Qed.

Lemma ensureRBAC_fails ws :
  post (ensureRBAC ws) (λ tr e, is_Some e → Exists call_failed tr).
Proof.
  unfold ensureRBAC, BuildRole. destruct (own_total "Role" ws
    (security_ServiceAccountName (userID ws)) (security_labels (userID ws))) as [m Hm].
  unfold rbac_meta. rewrite Hm.
  intros [u1|e]; cbn; [|by left]. intros [u2|e]; cbn; [|by right; left].
  intros [u3|e]; cbn; [by intros []|by right; right; left].
Qed.

Lemma ensure_policy_fails ws what d :
  is_ok d = true → post (ensure_policy ws what d) (λ tr e, is_Some e → Exists call_failed tr).
Proof. destruct d; [|done]. intros _ [u|e]; cbn; [by intros []|by left]. Qed.

Lemma built_policy_ok ws suffix spec :
  is_ok (m ← own "NetworkPolicy" ws (np_meta ws suffix); Ok (MkNetworkPolicy m spec)) = true.
Proof.
  destruct (own_total "NetworkPolicy" ws (netpolName (userID ws) suffix)
    (Labels (np_meta ws suffix))) as [m Hm].
  change (own "NetworkPolicy" ws (np_meta ws suffix) = Ok m) in Hm. by rewrite Hm.
Qed.

Lemma ensureNetworkPolicies_fails ws :
  post (ensureNetworkPolicies r ws) (λ tr e, is_Some e → Exists call_failed tr).
Proof.
  unfold ensureNetworkPolicies. apply post_bind.
  eapply post_mono; [apply ensure_policy_fails, built_policy_ok|].
  intros tr1 [e|] Hf1; [cbn; rewrite app_nil_r; eauto|]. apply post_bind.
  eapply post_mono; [apply ensure_policy_fails, built_policy_ok|].
  intros tr2 [e|] Hf2; [cbn; rewrite app_nil_r; intros; apply Exists_app; right; eauto|].
  eapply post_mono; [apply ensure_policy_fails, built_policy_ok|].
  intros tr3 e Hf3 He. apply Exists_app. right. apply Exists_app. right. eauto.
Qed.

Lemma reconcileChildren_finishes h ws :
  fetched req h ws → finishes h (reconcileChildren r req ws).
Proof.
  intros Hf. unfold reconcileChildren. apply finishes_bind. intros tr1 [e|] Hf1.
  { apply (proj1 (post_exec _ _) (ensureRBAC_fails ws)) in Hf1; [|done]. destruct (ErrorDetailsForRBAC e).
    apply report_finishes. apply Exists_app. right. exact Hf1. }
  apply finishes_bind. intros tr2 [e|] Hf2.
  { apply (proj1 (post_exec _ _) (ensureNetworkPolicies_fails ws)) in Hf2; [|done].
    destruct (ErrorDetailsForNetworkPolicy e).
    apply report_finishes. apply Exists_app. right. exact Hf2. }
  apply reconcilePVC_finishes. unfold fetched. auto with devplane.
Qed.

(** C13. Every run of [Reconcile] ends in one of three ways.  It returns an
    error, and then some request of the run was refused by the API server;
    or it asks to be called again; or it is settled: the Workspace is gone,
    or its finalizer was removed, or it is Stopped, or Failed or Stopped was
    just recorded, or Running was recorded and no idle check is due (the
    timeout is below 4 ns).  In particular no workspace is left Creating
    without a further run. *)
Theorem Reconcile_ends_well tr o : exec (Reconcile r req) tr o → ends_well tr o.
Proof.
  revert tr o. apply post_exec. change (finishes [] (Reconcile r req)).
  unfold Reconcile. apply finishes_request. intros [ws|e]; cbn [app].
  2: { apply finishes_return. unfold ends_well. cbn. rewrite IgnoreNotFound_spec.
       destruct (IsNotFound e) eqn:He; [|by left].
       right; right. eapply settled_gone; [by left|done]. }
  set (h := [_]). assert (Hf : fetched req h ws) by (by left).
  destruct (deletion_set (WS_Meta ws)) eqn:Hd.
  { unfold reconcileDelete. apply finishes_request. intros [ws'|e]; [|by apply error_return].
    apply finishes_return. right; right.
    eapply settled_deleted; [by apply in_app_l|done|apply in_snoc]. }
  destruct (ValidateSpec (Some ws)); [apply failed_finishes|].
  destruct (negb (ContainsFinalizer _ _)).
  { apply finishes_request. intros [ws'|e]; [|by apply error_return].
    apply finishes_return. by left. }
  case_bool_decide; [|by apply reconcileChildren_finishes].
  apply finishes_return. right; right. by eapply settled_stopped.
Qed.
End endings.

(** ** Early returns *)

Section early.
Context `{UnicodeTables} `{K8sLib}.
Variable r : WorkspaceReconciler.
Variable req : NamespacedName.

Lemma updateStatus_result base sum :
  post (updateStatus r base sum) (λ tr u, ∃ now x tr',
    tr = Call Now now :: Call (PatchStatus base (ApplyStatusSummary now base sum)) x :: tr' ∧
    u = err_of x).
Proof.
  unfold updateStatus. rewrite post_bind, post_request. intros now.
  rewrite post_bind, post_request. intros [ws'|e].
  - apply post_bind, post_exec. intros tr1 [] _. apply post_bind, post_exec. intros tr2 [] _.
    cbn. eauto 10.
  - cbn. eauto 10.
Qed.

Lemma report_result base sum g o :
  post (report r base sum g o) (λ tr o', ∃ now x tr',
    tr = Call Now now :: Call (PatchStatus base (ApplyStatusSummary now base sum)) x :: tr' ∧
    o' = match x with Ok _ => o | Err e => (done_result, Some (g e)) end).
Proof.
  unfold report. apply post_bind. eapply post_mono; [apply updateStatus_result|].
  intros tr u (now & x & tr' & -> & ->). destruct x; cbn; rewrite app_nil_r; eauto 10.
Qed.

(** The early returns, exactly.  Every run first reads the Workspace.  When
    that fails the run stops, ignoring a missing object.  A Workspace being
    deleted gets its finalizer removed and nothing else, even when its
    specification is invalid or it is stopped; an invalid one gets at most
    the Failed status, whose message is the validation error; a valid one
    without the finalizer gets the finalizer and an immediate requeue; a
    stopped one is left alone. *)
Theorem Reconcile_early_returns tr o :
  exec (Reconcile r req) tr o →
  ∃ x tr1, tr = Call (GetWorkspace req) x :: tr1 ∧
  match x with
  | Err e => tr1 = [] ∧ o = (done_result, IgnoreNotFound e)
  | Ok ws =>
    let m := WS_Meta ws in
    if deletion_set m then
      ∃ y, tr1 = [Call (UpdateWorkspace (set_meta (RemoveFinalizer m workspaceFinalizer) ws)) y] ∧
           o = (done_result, errorf_w "remove finalizer: " <$> err_of y)
    else match ValidateSpec (Some ws) with
    | Some err =>
      ∃ now y tr2, tr1 = Call Now now :: Call (PatchStatus ws (ApplyStatusSummary now ws
          (failed_summary "" (Error err) RemediationValidation ReasonValidationFailed))) y :: tr2 ∧
        o = (done_result, err_of y)
    | None =>
      (ContainsFinalizer m workspaceFinalizer = false →
         ∃ y, tr1 = [Call (UpdateWorkspace (set_meta (AddFinalizer m workspaceFinalizer) ws)) y] ∧
              o = match y with
                  | Ok _ => (MkResult true 0, None)
                  | Err e => (done_result, Some (errorf_w "add finalizer: " e))
                  end) ∧
      (ContainsFinalizer m workspaceFinalizer = true → phase ws = WorkspacePhaseStopped →
         tr1 = [] ∧ o = (done_result, None))
    end
  end.
Proof.
  unfold Reconcile. rewrite exec_request. intros (x & tr1 & -> & Hex). exists x, tr1. split; [done|].
  destruct x as [ws|e]; [|by destruct Hex]. cbv zeta.
  destruct (deletion_set _).
  { unfold reconcileDelete in Hex. apply exec_request in Hex as (y & tr2 & -> & Hex). exists y. destruct y; by destruct Hex as [-> ->]. }
  destruct (ValidateSpec _) as [err|].
  { destruct (exec_post _ _ _ _ Hex (report_result _ _ _ _)) as (now & y & tr2 & -> & ->).
    exists now, y, tr2. by destruct y. }
  split.
  - intros Hf. rewrite Hf in Hex. apply exec_request in Hex as (y & tr2 & -> & Hex). exists y.
    destruct y; by destruct Hex as [-> ->].
  - intros Hf Hs. rewrite Hf, bool_decide_true in Hex by done. by destruct Hex.
Qed.
End early.

(** ** Convergence in a fault-free cluster *)

Section convergence.
Context `{UnicodeTables} `{K8sLib} `{!K8sLaws}.
Variable r : WorkspaceReconciler.
Variable req : NamespacedName.

Definition reconcile (c : cluster) : cluster := (run serve (Reconcile r req) c).2.

(** The Workspace as stored, ready for children. *)
Record admitted_ws (ws : Workspace) : Prop := {
  adm_key : key_of (WS_Meta ws) = req;
  adm_live : deletion_set (WS_Meta ws) = false;
  adm_valid : ValidateSpec (Some ws) = None;
  adm_finalizer : ContainsFinalizer (WS_Meta ws) workspaceFinalizer = true;
  adm_phase : phase ws ≠ WorkspacePhaseStopped;
}.

Lemma get_by_key {T} (meta : T → ObjectMeta) x key :
  key_of (meta x) = key → get_by meta (Some x) key = Ok x.
Proof. intros. cbn. by rewrite bool_decide_true. Qed.

(** A stored object accepts the operator's mutation when no one else
    controls it. *)
Lemma serve_keep {T} (k : kind T) ws n l (get : T → ObjectMeta) (mk : ObjectMeta → T) obj c :
  get obj = object_meta n (Namespace (WS_Meta ws)) ∅ →
  serve _ (CreateOrUpdate k obj (λ o, m ← SetControllerReference (WS_Meta ws) (set_Labels l (get o));
                                     Ok (mk m))) c = (Ok (), c).
Proof.
  intros Hg. destruct (SetControllerReference_fresh (WS_Meta ws) (set_Labels l (get obj))) as [m Hm].
  { by rewrite Hg. } { by rewrite Hg. }
  unfold serve. rewrite Hm. done.
Qed.

Lemma run_request {X A} (e : apiE X) (f : X → prog apiE A) c x c' :
  serve X e c = (x, c') → run serve (request e ≫= f) c = run serve (f x) c'.
Proof. intros Hs. rewrite run_bind. cbn. by rewrite Hs. Qed.

Lemma run_ensureRBAC ws c : run serve (ensureRBAC ws) c = (None, c).
Proof.
  unfold ensureRBAC, BuildRole, rbac_meta.
  destruct (own_total "Role" ws (security_ServiceAccountName (userID ws))
    (security_labels (userID ws))) as [m Hm]. rewrite Hm. cbn [mbind result_bind].
  rewrite (run_request _ _ _ (Ok ()) c) by (by eapply (serve_keep KServiceAccount ws _ _ SA_Meta)).
  rewrite (run_request _ _ _ (Ok ()) c) by (by eapply (serve_keep KRole ws _ _ Role_Meta)).
  by rewrite (run_request _ _ _ (Ok ()) c) by (by eapply (serve_keep KRoleBinding ws _ _ RB_Meta)).
Qed.

Lemma run_ensure_policy ws what d c :
  is_ok d = true → run serve (ensure_policy ws what d) c = (None, c).
Proof.
  destruct d as [np|]; [|done]. intros _. unfold ensure_policy.
  by rewrite (run_request _ _ _ (Ok ()) c) by (by eapply (serve_keep KNetworkPolicy ws _ _ NP_Meta)).
Qed.

Lemma run_ensureNetworkPolicies ws c : run serve (ensureNetworkPolicies r ws) c = (None, c).
Proof.
  unfold ensureNetworkPolicies.
  rewrite run_bind, run_ensure_policy by apply built_policy_ok. cbn [fst snd].
  rewrite run_bind, run_ensure_policy by apply built_policy_ok.
  by rewrite run_ensure_policy by apply built_policy_ok.
Qed.

Lemma serve_patch c ws new :
  cl_ws c = Some ws →
  serve _ (PatchStatus ws new) c = (Ok (patched ws new ws), set_ws (Some (patched ws new ws)) c).
Proof. intros Hc. cbn. by rewrite Hc. Qed.

(** The Workspace after a summary was recorded. *)
Definition reported (now : Time) (ws : Workspace) (sum : StatusSummary_) : Workspace :=
  patched ws (ApplyStatusSummary now ws sum) ws.

Lemma reported_phase now ws sum : phase (reported now ws sum) = Sum_Phase sum.
Proof. apply patched_base. Qed.
Lemma reported_endpoint now ws sum :
  Status_ServiceEndpoint (WS_Status (reported now ws sum)) = Sum_ServiceEndpoint sum.
Proof. apply (patched_base ws (ApplyStatusSummary now ws sum)). Qed.
Lemma reported_accessed now ws sum : lastAccessed (reported now ws sum) = lastAccessed ws.
Proof. by apply patched_untouched. Qed.

(** No request but the patch matters to the cluster. *)
Lemma run_report ws sum g o c :
  cl_ws c = Some ws →
  run serve (report r ws sum g o) c = (o, set_ws (Some (reported (cl_now c) ws sum)) c).
Proof.
  intros Hc. unfold report, updateStatus. rewrite run_bind.
  rewrite (run_request _ _ _ (cl_now c) c) by done.
  rewrite (run_request _ _ _ _ _ (serve_patch _ _ (ApplyStatusSummary (cl_now c) ws sum) Hc)).
  rewrite run_bind.
  destruct (bool_decide (phase ws ≠ Sum_Phase sum)); cbn; by destruct (HasRecorder r && _).
Qed.

Lemma run_admitted ws c :
  cl_ws c = Some ws → admitted_ws ws →
  run serve (Reconcile r req) c = run serve (reconcilePVC r req ws) c.
Proof.
  intros Hc [Hk Hl Hv Hf Hp]. unfold Reconcile.
  rewrite (run_request _ _ _ (Ok ws) c) by (cbn; by rewrite Hc, get_by_key).
  rewrite Hl, Hv, Hf, bool_decide_false by done. cbn [negb].
  unfold reconcileChildren. rewrite run_bind, run_ensureRBAC.
  by rewrite run_bind, run_ensureNetworkPolicies.
Qed.

(** The stages of a new workspace. *)

Lemma step_finalizer ws c :
  cl_ws c = Some ws → key_of (WS_Meta ws) = req → deletion_set (WS_Meta ws) = false →
  ValidateSpec (Some ws) = None → ContainsFinalizer (WS_Meta ws) workspaceFinalizer = false →
  reconcile c = set_ws (Some (set_meta (AddFinalizer (WS_Meta ws) workspaceFinalizer) ws)) c.
Proof.
  intros Hc Hk Hl Hv Hf. unfold reconcile, Reconcile.
  rewrite (run_request _ _ _ (Ok ws) c) by (cbn; by rewrite Hc, get_by_key).
  rewrite Hl, Hv, Hf. cbn. rewrite Hc. cbn.
  destruct (AddFinalizer_spec (WS_Meta ws) workspaceFinalizer) as [_ Hin].
  rewrite bool_decide_false; [done|]. intros [_ E].
  apply (not_elem_of_nil workspaceFinalizer). rewrite <- E. apply Hin. by right.
Qed.

Lemma admitted_added ws :
  key_of (WS_Meta ws) = req → deletion_set (WS_Meta ws) = false →
  ValidateSpec (Some ws) = None → phase ws ≠ WorkspacePhaseStopped →
  admitted_ws (set_meta (AddFinalizer (WS_Meta ws) workspaceFinalizer) ws).
Proof.
  intros Hk Hl Hv Hp.
  destruct (AddFinalizer_spec (WS_Meta ws) workspaceFinalizer)
    as [(Hn & Hns & _ & _ & _ & Hd & _) Hin]. split; try done.
  - rewrite <- Hk. unfold key_of. cbn. congruence.
  - unfold deletion_set in *. cbn. by rewrite Hd.
  - apply ContainsFinalizer_spec, Hin. by right.
Qed.

Lemma admitted_valid ws : admitted_ws ws → valid_spec (WS_Spec ws).
Proof. intros [_ _ Hv _ _]. by apply ValidateSpec_iff. Qed.

Lemma owned_key ws name m :
  admitted_ws ws → owned_object ws name m → key_of m = MkNamespacedName (NN_Namespace req) name.
Proof. intros [<- _ _ _ _] (<- & Hns & _). unfold key_of. cbn. by rewrite Hns. Qed.

Lemma step_volume ws c :
  cl_ws c = Some ws → admitted_ws ws → cl_pvc c = None →
  ∃ pvc sum, key_of (PVC_Meta pvc) = pvc_key req ws ∧ PVC_Phase pvc = "" ∧
    Sum_Phase sum = WorkspacePhaseCreating ∧
    reconcile c = set_ws (Some (reported (cl_now c) ws sum)) (set_pvc (Some pvc) c).
Proof.
  intros Hc Ha Hnone.
  destruct (BuildPVC_total ws (admitted_valid ws Ha)) as (pvc & Hb & Ho & Hph).
  unfold reconcile. rewrite (run_admitted ws) by done. unfold reconcilePVC, createPVC.
  rewrite (run_request _ _ _ (Err not_found) c) by (cbn; by rewrite Hnone).
  change (negb (IsNotFound not_found)) with false. cbv iota. rewrite Hb.
  rewrite (run_request _ _ _ (Ok ()) (set_pvc (Some pvc) c)) by (cbn; by rewrite Hnone).
  rewrite run_report by done. eexists pvc, _.
  split_and!; [by apply (owned_key ws)|done| |done]. done.
Qed.

(** The volume is there and the run gets to the pod. *)
Lemma run_volume ws pvc c :
  cl_ws c = Some ws → admitted_ws ws → cl_pvc c = Some pvc →
  key_of (PVC_Meta pvc) = pvc_key req ws → PVC_Phase pvc ≠ ClaimLost →
  run serve (Reconcile r req) c = run serve (reconcilePod r req ws) c.
Proof.
  intros Hc Ha Hpvc Hk Hph. rewrite (run_admitted ws) by done. unfold reconcilePVC.
  rewrite (run_request _ _ _ (Ok pvc) c) by (cbn -[get_by]; by rewrite Hpvc, get_by_key).
  by rewrite bool_decide_false.
Qed.

Lemma step_pod ws pvc c :
  cl_ws c = Some ws → admitted_ws ws → cl_pvc c = Some pvc →
  key_of (PVC_Meta pvc) = pvc_key req ws → PVC_Phase pvc ≠ ClaimLost → cl_pod c = None →
  ∃ pod, BuildPod ws (PVCName (userID ws)) (desired_image r) (build_opts r) = Ok pod ∧
    reconcile c = set_pod (Some pod) c.
Proof.
  intros Hc Ha Hpvc Hk Hph Hnone.
  destruct (BuildPod_total ws (PVCName (userID ws)) (desired_image r) (build_opts r)
    (admitted_valid ws Ha)) as (pod & Hb & Ho).
  exists pod. split; [done|]. unfold reconcile. rewrite (run_volume ws pvc) by done.
  unfold reconcilePod, createPod.
  rewrite (run_request _ _ _ (Err not_found) c) by (cbn; by rewrite Hnone).
  change (negb (IsNotFound not_found)) with false. cbv iota. rewrite Hb.
  by rewrite (run_request _ _ _ (Ok ()) (set_pod (Some pod) c)) by (cbn; by rewrite Hnone).
Qed.

(** Not idle for longer than the timeout at time [now]; a first access is recorded
    with whole seconds, so that it may seem up to a second old. *)
Definition recently_used (ws : Workspace) (now : Time) : Prop :=
  idle_of r ws <= 0 ∨
  (if IsZero (lastAccessed ws) then Second else Sub now (lastAccessed ws)) <= idle_of r ws.

Arguments reported : simpl never.

Definition seeded (now : Time) (ws : Workspace) : Workspace :=
  if IsZero (lastAccessed ws) then patched ws (set_LastAccessed now ws) ws else ws.

Lemma seeded_accessed now ws :
  lastAccessed (seeded now ws) = if IsZero (lastAccessed ws) then wire_time now else lastAccessed ws.
Proof.
  unfold seeded. destruct (IsZero (lastAccessed ws)) eqn:Hz; [|done]. rewrite patched_accessed.
  apply Z.eqb_eq in Hz. rewrite Hz. change (lastAccessed (set_LastAccessed now ws)) with now.
  apply (merge_field_base zeroTime (wire_time now)).
Qed.

Lemma run_seed ws c :
  cl_ws c = Some ws →
  run serve (seedLastAccessed ws) c =
    (Ok (seeded (cl_now c) ws), set_ws (Some (seeded (cl_now c) ws)) c).
Proof.
  intros Hc. unfold seedLastAccessed, seeded. destruct (IsZero _).
  - rewrite (run_request _ _ _ (cl_now c) c) by done.
    cbn -[serve]. by rewrite (serve_patch c ws (set_LastAccessed (cl_now c) ws)).
  - destruct c. cbn in *. by subst.
Qed.

Lemma seeded_recent ws now :
  0 < idle_of r ws → recently_used ws now → Sub now (lastAccessed (seeded now ws)) <= idle_of r ws.
Proof.
  intros Hpos Hu. rewrite seeded_accessed. destruct (IsZero (lastAccessed ws)) eqn:Hz.
  - pose proof (wire_time_bounds now). unfold recently_used in Hu. rewrite Hz in Hu.
    unfold Sub, min_int64, max_int64. lia.
  - unfold recently_used in Hu. rewrite Hz in Hu. destruct Hu; [lia|done].
Qed.

Lemma step_running ws pvc pod c :
  cl_ws c = Some ws → admitted_ws ws → cl_pvc c = Some pvc →
  key_of (PVC_Meta pvc) = pvc_key req ws → PVC_Phase pvc ≠ ClaimLost → cl_pod c = Some pod →
  key_of (Pod_Meta pod) = pod_key req ws → outdated (desired_image r) pod = false →
  running_and_ready pod = true → recently_used ws (cl_now c) →
  ∃ ws', reconcile c = set_ws (Some ws') c ∧ phase ws' = WorkspacePhaseRunning ∧
    WS_Spec ws' = WS_Spec ws ∧ Status_ServiceEndpoint (WS_Status ws') = endpoint_of req ws ∧
    WS_Meta ws' = WS_Meta ws ∧ (lastAccessed ws' = lastAccessed ws ∨ lastAccessed ws' = wire_time (cl_now c)).
Proof.
  intros Hc Ha Hpvc Hk Hph Hpod Hpk Hout Hrr Hused.
  unfold reconcile. rewrite (run_volume ws pvc) by done. unfold reconcilePod.
  rewrite (run_request _ _ _ (Ok pod) c) by (cbn -[get_by]; by rewrite Hpod, get_by_key).
  rewrite Hout. unfold reconcileService.
  rewrite (run_request _ _ _ (Ok ()) c).
  2: { eapply (serve_keep KService ws _ _ Service_Meta). cbn.
       by rewrite <- (adm_key _ Ha). }
  unfold reconcileIdle, reconcilePodStatus. fold (idle_of r ws). rewrite Hrr.
  destruct (Z.ltb_spec 0 (idle_of r ws)) as [Hpos|Hneg]; cbn [andb].
  2: { rewrite run_report by done. eexists. rewrite reported_phase, reported_endpoint, reported_accessed.
       split_and!; try done. by left. }
  rewrite run_bind, run_seed by done.
  rewrite (run_request _ _ _ (cl_now c) (set_ws (Some (seeded (cl_now c) ws)) c)) by done.
  rewrite (proj2 (Z.ltb_ge _ _)) by (by apply seeded_recent).
  rewrite run_report by done. eexists. rewrite reported_phase, reported_endpoint, reported_accessed, seeded_accessed.
  split_and!; try done; unfold seeded; destruct (IsZero _); auto.
Qed.

(** A pod that is still starting. *)
Lemma step_waiting ws pvc pod c :
  cl_ws c = Some ws → admitted_ws ws → cl_pvc c = Some pvc →
  key_of (PVC_Meta pvc) = pvc_key req ws → PVC_Phase pvc ≠ ClaimLost → cl_pod c = Some pod →
  key_of (Pod_Meta pod) = pod_key req ws → outdated (desired_image r) pod = false →
  Pod_Status pod = zero_pod_status →
  ∃ sum, Sum_Phase sum = WorkspacePhaseCreating ∧
    reconcile c = set_ws (Some (reported (cl_now c) ws sum)) c.
Proof.
  intros Hc Ha Hpvc Hk Hph Hpod Hpk Hout Hst.
  assert (Hrr : running_and_ready pod = false) by (unfold running_and_ready; by rewrite Hst).
  unfold reconcile. rewrite (run_volume ws pvc) by done. unfold reconcilePod.
  rewrite (run_request _ _ _ (Ok pod) c) by (cbn -[get_by]; by rewrite Hpod, get_by_key).
  rewrite Hout. unfold reconcileService.
  rewrite (run_request _ _ _ (Ok ()) c).
  2: { eapply (serve_keep KService ws _ _ Service_Meta). cbn. by rewrite <- (adm_key _ Ha). }
  unfold reconcileIdle, reconcilePodStatus, reconcilePodWaiting. rewrite Hrr, Hst. cbn [andb].
  rewrite (bool_decide_false (PodStatus_Phase zero_pod_status = PodFailed)),
    (bool_decide_false (PodStatus_Phase zero_pod_status = PodUnknown)) by done.
  change (stuck_container (ContainerStatuses zero_pod_status)) with (@None (string * string)). cbv iota zeta.
  rewrite run_report by done. eexists. split; [|reflexivity]. done.
Qed.

Lemma built_current pod ws c :
  BuildPod ws (PVCName (userID ws)) (desired_image r) (build_opts r) = Ok pod →
  Containers (Pod_Spec c) = Containers (Pod_Spec pod) → outdated (desired_image r) c = false.
Proof.
  intros (? & ? & ? & ? & ? & ? & ? & ? & ? & ? & ? & ? & co & Hc & Hi & _)%BuildPod_inv E.
  unfold outdated. rewrite E, Hc, Hi. by rewrite bool_decide_true.
Qed.

(** C6. Convergence: in a cluster that answers every request, a new valid
    Workspace gets its finalizer, its volume and its Pod in three runs; once
    the kubelet reports the Pod ready, the fourth run records Running with
    the service endpoint, leaving the specification as it was and the Pod in
    place, provided the workspace is not already past its idle timeout. *)
Theorem Reconcile_converges ws now :
  key_of (WS_Meta ws) = req → deletion_set (WS_Meta ws) = false →
  ValidateSpec (Some ws) = None → ContainsFinalizer (WS_Meta ws) workspaceFinalizer = false →
  phase ws ≠ WorkspacePhaseStopped → recently_used ws now →
  let c3 := reconcile (reconcile (reconcile (MkCluster (Some ws) None None now))) in
  let c4 := reconcile (kubelet c3) in
  (∃ pvc pod, cl_pvc c3 = Some pvc ∧ cl_pod c3 = Some pod ∧ hardened_pod (Pod_Spec pod)) ∧
  cl_pod c4 = cl_pod (kubelet c3) ∧
  ∃ ws', cl_ws c4 = Some ws' ∧ phase ws' = WorkspacePhaseRunning ∧ WS_Spec ws' = WS_Spec ws ∧
    Status_ServiceEndpoint (WS_Status ws') = endpoint_of req ws.
Proof.
  intros Hk Hl Hv Hf Hp Hu.
  rewrite (step_finalizer ws (MkCluster (Some ws) None None now)) by done.
  pose proof (admitted_added ws Hk Hl Hv Hp) as Ha1.
  set (ws1 := set_meta _ ws) in *. unfold set_ws at 1. cbn [cl_pvc cl_pod cl_now].
  destruct (step_volume ws1 (MkCluster (Some ws1) None None now)) as (pvc & sum & Hpk & Hph & Hsum & ->); [done|done|done|].
  set (ws2 := reported _ ws1 sum). unfold set_ws, set_pvc. cbn [cl_ws cl_pvc cl_pod cl_now].
  assert (Ha2 : admitted_ws ws2).
  { destruct Ha1. split; try done. unfold ws2. by rewrite reported_phase, Hsum. }
  destruct (step_pod ws2 pvc (MkCluster (Some ws2) (Some pvc) None now)) as (pod & Hb & ->); [done|done|done|done|by rewrite Hph|done|].
  destruct (BuildPod_total ws2 (PVCName (userID ws2)) (desired_image r) (build_opts r)
    (admitted_valid ws2 Ha2)) as (pod' & Hb' & Ho). rewrite Hb in Hb'. injection Hb' as <-.
  cbv zeta. unfold set_pod. cbn [cl_ws cl_pvc cl_pod cl_now].
  destruct (step_running ws2 pvc (MkPod (Pod_Meta pod) (Pod_Spec pod) ready_status)
    (kubelet (MkCluster (Some ws2) (Some pvc) (Some pod) now))) as (ws' & -> & Hrun & Hspec & Hep & _); try done.
  { by rewrite Hph. }
  { by apply (owned_key ws2). }
  { by eapply built_current. }
  { unfold recently_used, ws2. rewrite reported_accessed. exact Hu. }
  split_and!; [|done|by exists ws'].
  exists pvc, pod. split_and!; try done.
  by apply BuildPod_inv in Hb as (? & ? & ? & ? & ? & ? & ? & ? & ? & ?).
Qed.
End convergence.

(** ** Witnesses

    The runs of the demo operator: [pod_created_isolated] at the run that
    creates the pod, the others at the runs that stop an idle workspace and
    report a ready one. *)

#[local] Existing Instance ascii_tables.
#[local] Existing Instance RefLib.

Lemma demo_asks c n a : trace c !! n = Some a → asks (Reconcile demo_r demo_req) (take n (trace c)) a.
Proof. apply run_asks. Qed.

(** The run that creates the pod, and the one that stops it when idle. *)
Lemma demo_create c n :
  match (trace c !! n : option (call apiE)) with
  | Some (Call (CreatePod _) _) => True | _ => False end →
  ∃ h pod x, asks (Reconcile demo_r demo_req) h (Call (CreatePod pod) x).
Proof.
  destruct (trace c !! n) as [[X e x]|] eqn:E; [|done]. destruct e; try done.
  eexists _, _, x. exact (demo_asks _ _ _ E).
Qed.

Lemma demo_delete c n :
  match (trace c !! n : option (call apiE)) with
  | Some (Call (DeletePod _) _) => True | _ => False end →
  ∃ h pod x, asks (Reconcile demo_r demo_req) h (Call (DeletePod pod) x).
Proof.
  destruct (trace c !! n) as [[X e x]|] eqn:E; [|done]. destruct e; try done.
  eexists _, _, x. exact (demo_asks _ _ _ E).
Qed.

Lemma demo_created : ∃ h pod x, asks (Reconcile demo_r demo_req) h (Call (CreatePod pod) x).
Proof. apply (demo_create volume_cluster 9). vm_compute. exact I. Qed.

Lemma demo_deleted : ∃ h pod x, asks (Reconcile demo_r demo_req) h (Call (DeletePod pod) x).
Proof. apply (demo_delete idle_cluster 11). vm_compute. exact I. Qed.

Lemma pod_created_isolated_witness :
  ∃ h pod x ws, asks (Reconcile demo_r demo_req) h (Call (CreatePod pod) x) ∧
    secured demo_r demo_req h ws ∧ hardened_pod (Pod_Spec pod).
Proof.
  destruct demo_created as (h & pod & x & Ha).
  destruct (@pod_created_isolated _ _ RefLib_laws _ _ _ _ _ Ha) as (ws & Hs & _ & _ & Hh & _).
  exists h, pod, x, ws. by split_and!.
Defined.

Lemma pod_deleted_for_cause_witness :
  ∃ h pod x ws, asks (Reconcile demo_r demo_req) h (Call (DeletePod pod) x) ∧
    got_pod demo_req h ws pod ∧
    (pod_outdated demo_r pod ∨ idle_expired demo_r h ws pod).
Proof.
  destruct demo_deleted as (h & pod & x & Ha).
  destruct (@pod_deleted_for_cause _ _ RefLib_laws _ _ _ _ _ Ha) as (ws & _ & Hg & Hd).
  exists h, pod, x, ws. by split_and!.
Defined.

(** A patch of the run that reports the ready workspace, or stops the idle one. *)
Lemma demo_patch c n p q :
  match (trace c !! n : option (call apiE)) with
  | Some (Call (PatchStatus base new) _) => phase base = p ∧ phase new = q
  | _ => False
  end →
  ∃ h base new x, asks (Reconcile demo_r demo_req) h (Call (PatchStatus base new) x) ∧
    phase base = p ∧ phase new = q.
Proof.
  destruct (trace c !! n) as [[X e x]|] eqn:Hn; [|done]. destruct e; try done.
  intros Hp. eexists _, _, _, x. split; [exact (demo_asks _ _ _ Hn)|exact Hp].
Qed.

Lemma demo_running : ∃ h base new x,
  asks (Reconcile demo_r demo_req) h (Call (PatchStatus base new) x) ∧
  phase base = WorkspacePhaseCreating ∧ phase new = WorkspacePhaseRunning.
Proof. apply (demo_patch ready_cluster 14). by vm_compute. Qed.

Lemma demo_stopped : ∃ h base new x,
  asks (Reconcile demo_r demo_req) h (Call (PatchStatus base new) x) ∧
  phase base = WorkspacePhaseRunning ∧ phase new = WorkspacePhaseStopped.
Proof. apply (demo_patch idle_cluster 13). by vm_compute. Qed.

Lemma status_patch_frame_witness :
  ∃ h base new x, asks (Reconcile demo_r demo_req) h (Call (PatchStatus base new) x) ∧
    WS_Meta new = WS_Meta base ∧ WS_Spec new = WS_Spec base.
Proof.
  destruct demo_running as (h & base & new & x & Ha & _ & _).
  destruct (@status_patch_frame _ _ RefLib_laws _ _ _ _ _ _ Ha) as (Hm & Hs & _).
  exists h, base, new, x. by split_and!.
Defined.

(** The run after that reports Running again. *)
Lemma demo_running_again : ∃ h base new x,
  asks (Reconcile demo_r demo_req) h (Call (PatchStatus base new) x) ∧
  phase base = WorkspacePhaseRunning ∧ phase new = WorkspacePhaseRunning.
Proof. apply (demo_patch running_cluster 12). by vm_compute. Qed.

Lemma running_is_truthful_witness :
  ∃ h base new x ws pod, asks (Reconcile demo_r demo_req) h (Call (PatchStatus base new) x) ∧
    phase base = WorkspacePhaseRunning ∧ phase new = WorkspacePhaseRunning ∧
    got_pod demo_req h ws pod ∧ pod_ready pod.
Proof.
  destruct demo_running_again as (h & base & new & x & Ha & Hb & Hr).
  destruct (@running_is_truthful _ _ RefLib_laws _ _ _ _ _ _ Ha Hr) as (ws & pod & _ & _ & _ & Hg & Hrr & _).
  exists h, base, new, x, ws, pod. by split_and!.
Defined.

Lemma stopped_only_when_idle_witness :
  ∃ h base new x ws pod, asks (Reconcile demo_r demo_req) h (Call (PatchStatus base new) x) ∧
    phase new = WorkspacePhaseStopped ∧ idle_expired demo_r h ws pod.
Proof.
  destruct demo_stopped as (h & base & new & x & Ha & Hb & Hr).
  destruct (@stopped_only_when_idle _ _ RefLib_laws _ _ _ _ _ _ Ha Hr) as (ws & pod & y & _ & _ & _ & Hi);
    [by rewrite Hb|].
  exists h, base, new, x, ws, pod. by split_and!.
Defined.

(** The run that creates the pod asks to be called again after two seconds. *)
Lemma Reconcile_ends_well_witness :
  outcome_of volume_cluster = (requeue_after (2 * Second), None) ∧
  ends_well demo_r demo_req (trace volume_cluster) (outcome_of volume_cluster).
Proof.
  split; [by vm_compute|].
  apply (@Reconcile_ends_well _ _ RefLib_laws demo_r demo_req). apply run_exec.
Defined.

Lemma Reconcile_early_returns_witness :
  exec (Reconcile demo_r demo_req) (trace new_cluster) (outcome_of new_cluster) ∧
  ∃ x tr1, trace new_cluster = Call (GetWorkspace demo_req) x :: tr1.
Proof.
  split; [apply run_exec|].
  destruct (Reconcile_early_returns demo_r demo_req (trace new_cluster) (outcome_of new_cluster))
    as (x & tr1 & E & _); [apply run_exec|]. by exists x, tr1.
Defined.

Lemma Reconcile_converges_witness :
  ∃ ws', cl_ws (reconcile demo_r demo_req (kubelet (reconcile demo_r demo_req
           (reconcile demo_r demo_req (reconcile demo_r demo_req
             (MkCluster (Some (demo_ws [] "" zeroTime)) None None demo_now)))))) = Some ws' ∧
    phase ws' = WorkspacePhaseRunning.
Proof.
  assert (Hu : recently_used demo_r (demo_ws [] "" zeroTime) demo_now)
    by (right; by vm_compute).
  pose proof (@Reconcile_converges _ _ RefLib_laws demo_r demo_req (demo_ws [] "" zeroTime) demo_now)
    as Hc.
  specialize (Hc ltac:(by vm_compute) ltac:(by vm_compute) ltac:(by vm_compute)
    ltac:(by vm_compute) ltac:(by vm_compute) Hu).
  destruct Hc as (_ & _ & ws' & Hw & Hp & _). exists ws'. exact (conj Hw Hp).
Defined.
