(* ===== verification/Watches.v ===== *)
(** * What wakes the reconciler ([SetupWithManager])

    The watches the controller registers, and the requests an event about an
    object puts into its queue.  The theorem is that everything a run of
    [Reconcile] creates or takes over wakes that Workspace again when it
    changes, and no other. *)
From S2P Require Import Prelude GoStrings GoTime Api K8s K8sClient Cluster Resources Rbac NetPol.
From S2P Require Import Controller ControllerSpec Fixtures ControllerProps.
From Stdlib Require Import ZArith Lia.

(** The object types named in the builder calls. *)
Inductive object_kind :=
  | KindWorkspace | KindPod | KindPersistentVolumeClaim | KindService | KindServiceAccount
  | KindRole | KindRoleBinding | KindNetworkPolicy
  (** any other *)
  | KindOther (name : string).
#[export] Instance object_kind_eq_dec : EqDecision object_kind.
Proof. solve_decision. Defined.

(** [ctrl.NewControllerManagedBy(mgr).For(...).Owns(...)...]. *)
Record controller_builder := MkControllerBuilder {
  cb_For : object_kind;
  cb_Owns : list object_kind;
}.

Definition SetupWithManager : controller_builder :=
  MkControllerBuilder KindWorkspace
    [KindPod; KindPersistentVolumeClaim; KindService; KindServiceAccount; KindRole; KindRoleBinding; KindNetworkPolicy].

(** The requests for an event about an object: of the object itself for [For], of its
    controller for [Owns], as the builder documents ([EnqueueRequestForObject],
    [EnqueueRequestForOwner] with [OnlyControllerOwner]). *)
Definition enqueue (b : controller_builder) (k : object_kind) (m : ObjectMeta) : list NamespacedName :=
  (if bool_decide (k = cb_For b) then [key_of m] else []) ++
  (if bool_decide (k ∈ cb_Owns b) then
     match GetControllerOf m with
     | Some ref => if bool_decide (Owner_Kind ref = "Workspace")
                   then [MkNamespacedName (Namespace m) (Owner_Name ref)] else []
     | None => []
     end
   else []).

Definition kept_kind {T} (k : kind T) : object_kind :=
  match k with
  | KServiceAccount => KindServiceAccount
  | KRole => KindRole
  | KRoleBinding => KindRoleBinding
  | KNetworkPolicy => KindNetworkPolicy
  | KService => KindService
  end.

Section watches.
Context `{UnicodeTables} `{K8sLib} `{!K8sLaws}.
Context (r : WorkspaceReconciler) (req : NamespacedName).

(** An event about an object, as a request of a run leaves it, wakes [req]; the
    objects of [CreateOrUpdate] wherever the cache finds them under their key. *)
Definition wakes (c : call apiE) : Prop :=
  match c with
  | Call e _ =>
    match e with
    | CreatePVC pvc => enqueue SetupWithManager KindPersistentVolumeClaim (PVC_Meta pvc) = [req]
    | CreatePod pod => enqueue SetupWithManager KindPod (Pod_Meta pod) = [req]
    | UpdateWorkspace ws => enqueue SetupWithManager KindWorkspace (WS_Meta ws) = [req]
    | CreateOrUpdate k obj f => ∀ o o',
        key_of (kept_meta k o) = key_of (kept_meta k obj) → f o = Ok o' →
        enqueue SetupWithManager (kept_kind k) (kept_meta k o') = [req]
    | _ => True
    end
  end.

(** The API server answers a read with the object that was asked for. *)
Definition read_as_asked (c : call apiE) : Prop :=
  match c with
  | Call e x =>
    match e in apiE Y return Y → Prop with
    | GetWorkspace key => λ x, match x with Ok ws => key_of (WS_Meta ws) = key | Err _ => True end
    | _ => λ _, True
    end x
  end.

Ltac watched := apply (bool_decide_unpack _); reflexivity.

Lemma controlled_enqueue k ws m :
  k ∈ cb_Owns SetupWithManager → controlled_by (WS_Meta ws) m → Namespace m = Namespace (WS_Meta ws) →
  enqueue SetupWithManager k m = [key_of (WS_Meta ws)].
Proof.
  intros Hk (ref & Hf & Hkind & _ & Hn) Hns. unfold enqueue.
  assert (Hne : k ≠ cb_For SetupWithManager).
  { intros ->. revert Hk. apply (bool_decide_unpack _). reflexivity. }
  rewrite bool_decide_eq_false_2, bool_decide_eq_true_2 by done. rewrite Hf, bool_decide_eq_true_2 by done. cbn. unfold key_of. by rewrite Hns, Hn.
Qed.

Lemma fetched_key h ws : Forall read_as_asked h → fetched req h ws → key_of (WS_Meta ws) = req.
Proof. intros Hh Hf. rewrite Forall_forall in Hh. exact (Hh _ Hf). Qed.

(** C38. The reconciler watches what it makes.  In every run in which the API
      server answers reads with the objects asked for, whatever is created,
      taken over by [CreateOrUpdate] or updated (volume, pod, service, service
      account, role, binding, policies, and the Workspace itself) is of a
      watched kind and names its Workspace as controller, so that each later
      event about it queues exactly the request of this Workspace. *)
Theorem changes_wake_workspace h c :
  asks (Reconcile r req) h c → Forall read_as_asked h → wakes c.
Proof.
  intros Ha%(safe_asks _ _ _ _ (Reconcile_safe r req)) Hh. destruct c as [X e x].
  destruct e as [| | | |pvc|pod| |ws'| |T k obj f| | | | | |]; try done; cbn [wakes].
  - destruct Ha as (ws & e & Hs & Hb & _). pose proof (active_fetched _ _ _ (secured_active _ _ _ _ Hs)) as Hf.
    rewrite <- (fetched_key h ws Hh Hf). unfold BuildPVC in Hb.
    apply result_bind_ok in Hb as (q & _ & Hb). apply result_bind_ok in Hb as (m & Hm%own_ok & [= <-]).
    apply SetControllerReference_ok in Hm as [(_ & Hns & _) Hc]. apply controlled_enqueue; [|done|done]. watched.
  - destruct Ha as (ws & e & Hs & _ & Hb & _). pose proof (active_fetched _ _ _ (secured_active _ _ _ _ Hs)) as Hf.
    rewrite <- (fetched_key h ws Hh Hf). apply BuildPod_inv in Hb as (? & ? & m & _ & _ & Hm & Hp & _).
    apply SetControllerReference_ok in Hm as [(_ & Hns & _) Hc]. rewrite Hp.
    apply controlled_enqueue; [|done|done]. watched.
  - destruct Ha as (ws & Hf & Hw). rewrite <- (fetched_key h ws Hh Hf).
    assert (Hk : key_of (WS_Meta ws') = key_of (WS_Meta ws)); [|by rewrite <- Hk].
    destruct Hw as [[_ ->]|(_ & _ & _ & ->)]; unfold key_of; cbn;
      [destruct (RemoveFinalizer_spec (WS_Meta ws) workspaceFinalizer) as [(-> & -> & _) _]
      |destruct (AddFinalizer_spec (WS_Meta ws) workspaceFinalizer) as [(-> & -> & _) _]]; done.
  - destruct Ha as (ws & Hact & Hns & Hf). intros o o' Hk Ho. destruct (Hf o o' Ho) as [[Hc Hkey] _].
    pose proof (fetched_key h ws Hh (active_fetched _ _ _ Hact)) as Hreq. rewrite <- Hreq.
    apply controlled_enqueue; [destruct k; watched|done|].
    assert (En : Namespace (kept_meta k o') = Namespace (kept_meta k obj)) by (rewrite Hk in Hkey; by injection Hkey).
    rewrite En. rewrite <- Hreq in Hns. by apply elem_of_cons in Hns as [?|?%list_elem_of_singleton].
Qed.
End watches.

#[local] Existing Instance ascii_tables.
#[local] Existing Instance RefLib.
#[local] Existing Instance RefLib_laws.

Lemma served_as_asked {A} (p : prog apiE A) c : Forall read_as_asked (run_trace Cluster.serve p c).
Proof.
  revert c. induction p as [a|X e k IH]; intros c; cbn; [constructor|].
  destruct (Cluster.serve _ e c) as [x c'] eqn:E. constructor; [|apply IH].
  destruct e; try done. cbn in *. injection E as <- _. unfold get_by.
  destruct (cl_ws c); [|done]. by case_bool_decide.
Qed.

Definition creates_pod (o : option (call apiE)) : bool :=
  match o with Some (Call e _) => match e with CreatePod _ => true | _ => false end | None => false end.

Lemma pod_created : ∃ pod x, trace volume_cluster !! 9%nat = Some (Call (CreatePod pod) x).
Proof.
  assert (H : creates_pod (trace volume_cluster !! 9%nat) = true) by (vm_compute; reflexivity).
  destruct (trace volume_cluster !! 9%nat) as [[X e x]|]; [|done]. destruct e; try done. by eexists _, _.
Qed.

Lemma changes_wake_workspace_witness :
  ∃ pod x, Call (CreatePod pod) x ∈ trace volume_cluster ∧
    enqueue SetupWithManager KindPod (Pod_Meta pod) = [demo_req].
Proof.
  destruct pod_created as (pod & x & Hc). exists pod, x. split; [by eapply list_elem_of_lookup_2|].
  pose proof (changes_wake_workspace demo_r demo_req (take 9 (trace volume_cluster)) (Call (CreatePod pod) x)) as Hw.
  apply Hw; [exact (run_asks _ _ _ _ _ Hc)|]. apply Forall_take, served_as_asked.
Defined.
