(* ===== verification/Auth.v ===== *)
(** * Token validation ([pkg/gateway/auth.go], [auth_dev.go], [auth_http.go])

    The user id derived from an OIDC subject, the bounded token cache with its
    two critical sections, [Validate], the classification of verification
    errors and their HTTP answers.  The OIDC verifier is not part of the
    repository: verifying a token is a request to the environment. *)
From S2P Require Import Prelude GoStrings Regexp GoTime Sha256 Resources.
From Stdlib Require Import ZArith Lia.
#[local] Open Scope Z_scope.

(** [fmt.Errorf("%w: <text>", sentinel)]: only the sentinel is wrapped. *)
Definition wrap_sentinel (m : errmark) (name text : string) : error :=
  MkError (name +:+ ": " +:+ text) [m].

Definition err_unauthorized (text : string) : error := wrap_sentinel ErrUnauthorized "unauthenticated" text.
Definition err_forbidden (text : string) : error := wrap_sentinel ErrForbidden "forbidden" text.
Definition err_token_expired (text : string) : error := wrap_sentinel ErrTokenExpired "token expired" text.

Record OIDCConfig := MkOIDCConfig {
  IssuerURL : string;
  ClientID : string;
  Audience : string;
  ClockSkew : Duration;
}.

Definition tokenCacheTTL : Duration := 5 * Minute.
Definition tokenCacheMax : Z := 10000.

Record Claims := MkClaims { Claims_Sub : string; Claims_Email : string; Claims_UserID : string }.

(** What the code reads of a verified [*oidc.IDToken]: its subject, and the
    answer of [idToken.Claims] for the [email] field. *)
Record IDToken := MkIDToken { Subject_ : string; email_claim : result string }.

Definition hashToken (raw : string) : string := sha256_hex (bytes_of raw).

Section sanitize.
Context `{UnicodeTables}.

(** [nonAlphaNum.ReplaceAllString(s, "-")] for [[^a-z0-9]+].  The regexp works
    on runes; every byte of a rune above U+007F is outside the class, so that
    runs of bytes and runs of runes are the same. *)
Definition nonAlphaNum_replace (s : string) : string :=
  of_bytes (replace_runs (λ c, negb (is_alnum c)) dash false (bytes_of s)).

Definition starts_with_digit (s : string) : bool :=
  match bytes_of s with [] => false | c :: _ => is_digit c end.

Definition sanitizeUserID (sub : string) : string :=
  let s := ToLower sub in
  let s := nonAlphaNum_replace s in
  let s := Trim s dash in
  let s := if starts_with_digit s then "u-" +:+ s else s in
  if (49 <? len s)%nat then TrimRight (of_bytes (take 49 (bytes_of s))) dash else s.

Definition claims_of (t : IDToken) (email : string) : Claims :=
  MkClaims (Subject_ t) email (sanitizeUserID (Subject_ t)).

(** ** Verification errors *)

Definition classifyOIDCVerifyError (err : option error) : option error :=
  match err with
  | None => None
  | Some e =>
    if err_has TokenExpiredError e then Some (err_token_expired (Error e))
    else
      let msg := ToLower (Error e) in
      if Contains msg "aud" || Contains msg "audience" then Some (err_forbidden (Error e))
      else Some (err_unauthorized (Error e))
  end.
End sanitize.

Definition StatusOK : Z := 200.
Definition StatusUnauthorized : Z := 401.
Definition StatusForbidden : Z := 403.
Definition AuthErrorCodeUnauthorized : string := "unauthorized".
Definition AuthErrorCodeForbidden : string := "forbidden".
Definition AuthErrorCodeTokenExpired : string := "token_expired".

Definition AuthErrorResponse (err : option error) : Z * string :=
  match err with
  | None => (StatusOK, "")
  | Some e =>
    if err_has ErrForbidden e then (StatusForbidden, AuthErrorCodeForbidden)
    else if err_has ErrTokenExpired e then (StatusUnauthorized, AuthErrorCodeTokenExpired)
    else (StatusUnauthorized, AuthErrorCodeUnauthorized)
  end.

(** ** The token cache

    [container/list] elements are pointers: an element is its identity with the
    entry it holds, which is never written after it was made. *)
Record cachedEntry := MkEntry { ce_key : string; ce_claims : Claims; ce_expiry : Time }.
Abbreviation element := (nat * cachedEntry)%type.

Record cache := MkCache {
  index : gmap string element;
  lru : list element;
  (** the identity of the next element allocated *)
  next_id : nat;
}.

Definition empty_cache : cache := MkCache ∅ [] 0.

(** [l.Remove(e)] and [l.MoveToFront(e)]. *)
Definition list_remove (e : element) (l : list element) : list element :=
  filter (λ x, x.1 ≠ e.1) l.
Definition MoveToFront (e : element) (l : list element) : list element :=
  if decide (e.1 ∈ l.*1) then e :: list_remove e l else l.

(** [v.lru.Remove(elem); delete(v.index, key)]. *)
Definition drop_entry (key : string) (e : element) (c : cache) : cache :=
  MkCache (delete key (index c)) (list_remove e (lru c)) (next_id c).

(** The first critical section of [Validate]. *)
Definition cache_lookup (now : Time) (key : string) (c : cache) : option Claims * cache :=
  match index c !! key with
  | Some e =>
    if now <? ce_expiry e.2 then
      (Some (ce_claims e.2), MkCache (index c) (MoveToFront e (lru c)) (next_id c))
    else (None, drop_entry key e c)
  | None => (None, c)
  end.

(** [for v.lru.Len() >= tokenCacheMax { ... }]: every pass removes the last
    element, so the length of the list is enough fuel. *)
Fixpoint make_room (fuel : nat) (c : cache) : cache :=
  if Z.of_nat (length (lru c)) >=? tokenCacheMax then
    match fuel, last (lru c) with
    | S n, Some oldest => make_room n (drop_entry (ce_key oldest.2) oldest c)
    | _, _ => c
    end
  else c.

(** The second critical section. *)
Definition cache_insert (now : Time) (key : string) (claims : Claims) (c : cache) : cache :=
  let c := make_room (length (lru c)) c in
  let e := (next_id c, MkEntry key claims (now + tokenCacheTTL)) in
  MkCache (<[key := e]> (index c)) (e :: lru c) (S (next_id c)).

(** One tick of [evictExpired]: the loop over the index deletes as it goes. *)
Definition evictExpired_tick (now : Time) (c : cache) : cache :=
  foldl (λ c '(key, e), if ce_expiry e.2 <? now then drop_entry key e c else c)
    c (map_to_list (index c)).

(** ** [Validate] *)

Inductive authE : Type → Type :=
  | CacheLookup (key : string) : authE (option Claims)
  | VerifyToken (raw : string) : authE (result IDToken)
  | CacheInsert (key : string) (claims : Claims) : authE unit.

Section validate.
Context `{UnicodeTables}.

(** After a miss. *)
Definition Validate_verify (rawToken : string) : prog authE (result Claims) :=
  v ← request (VerifyToken rawToken);
  match v with
  | Err err =>
    match classifyOIDCVerifyError (Some err) with
    | Some e => mret (Err e)
    | None => mret (Err err)
    end
  | Ok idToken =>
    match email_claim idToken with
    | Err err => mret (Err (err_unauthorized ("extract claims: " +:+ Error err)))
    | Ok email =>
      let claims := claims_of idToken email in
      _ ← request (CacheInsert (hashToken rawToken) claims);
      mret (Ok claims)
    end
  end.

Definition Validate (rawToken : string) : prog authE (result Claims) :=
  hit ← request (CacheLookup (hashToken rawToken));
  match hit with
  | Some claims => mret (Ok claims)
  | None => Validate_verify rawToken
  end.

(** ** The development validator *)

Definition NewFixedIdentityValidator (sub email : string) : Claims :=
  let sub := if bool_decide (TrimSpace sub = "") then "dev-user" else sub in
  MkClaims sub email (sanitizeUserID sub).

Definition Fixed_Validate (f : Claims) (rawToken : string) : result Claims :=
  if bool_decide (TrimSpace rawToken = "") then Err (err_unauthorized "empty token") else Ok f.

(** ** Construction *)

(** What the verifier is configured with: the expected audience, and the
    clock it reads at time [now]. *)
Record verifier_config := MkVerifierConfig {
  vc_issuer : string; vc_audience : string; vc_now : Time → Time }.

(** [discover] is [gooidc.NewProvider]. *)
Definition NewValidatorWithOIDC (discover : string → option error) (cfg : OIDCConfig) :
    result (verifier_config * cache) :=
  if bool_decide (IssuerURL cfg = "") || bool_decide (ClientID cfg = "") then
    Err (errors_new "OIDC IssuerURL and ClientID are required")
  else
    let audience := if bool_decide (Audience cfg = "") then ClientID cfg else Audience cfg in
    match discover (IssuerURL cfg) with
    | Some err => Err (errorf_w ("OIDC provider discovery " +:+ Quote (IssuerURL cfg) +:+ ": ") err)
    | None =>
      Ok (MkVerifierConfig (IssuerURL cfg) audience
            (if 0 <? ClockSkew cfg then λ now, now - ClockSkew cfg else id), empty_cache)
    end.

Definition NewValidator (discover : string → option error) (issuerURL clientID : string) :
    result (verifier_config * cache) :=
  NewValidatorWithOIDC discover (MkOIDCConfig issuerURL clientID "" 0).
End validate.
