(* ===== verification/AuthProps.v ===== *)
(** * Properties of token validation

    The shape of derived user ids; the token cache as a bounded index into its
    LRU list, under every interleaving of the critical sections; and that
    claims are only ever returned for a token the verifier accepted. *)
From S2P Require Import Prelude GoStrings Regexp GoTime Sha256 Resources Auth.
From Stdlib Require Import ZArith Lia.
#[local] Open Scope Z_scope.

(** ** User ids *)

Section sanitize.
Context `{UnicodeTables}.

Abbreviation label l := (Forall (λ x, label_char x = true) l).

Lemma label_char_cases x : label_char x = true → is_alnum x = true ∨ x = dash.
Proof. unfold label_char. intros [?|?%Ascii.eqb_eq]%orb_true_iff; auto. Qed.

Lemma label_not_dash x : label_char x = true → Ascii.eqb dash x = false → is_alnum x = true.
Proof.
  intros [?| ->]%label_char_cases Hd; [done|]. by rewrite Ascii.eqb_refl in Hd.
Qed.

Lemma alnum_label x : is_alnum x = true → label_char x = true.
Proof. intros Hx. unfold label_char. by rewrite Hx. Qed.

Lemma alnum_not_dash x : is_alnum x = true → Ascii.eqb dash x = false.
Proof. intros Hx. apply Ascii.eqb_neq. intros <-. done. Qed.

(** Letters, digits and dashes, with no dash at the ends. *)
Record trimmed (l : bytes) : Prop := {
  trimmed_label : label l;
  trimmed_head x l' : l = x :: l' → is_alnum x = true;
  trimmed_last x l' : l = l' ++ [x] → is_alnum x = true;
}.

Lemma Trim_trimmed s : label (bytes_of s) → trimmed (bytes_of (Trim s dash)).
Proof.
  intros Hl. unfold Trim. rewrite bytes_of_of.
  set (l := drop_while _ (bytes_of s)).
  assert (Hl' : label l) by (by apply drop_while_Forall).
  assert (Hh : ∀ x l', l = x :: l' → is_alnum x = true).
  { intros x l' E. apply label_not_dash.
    - rewrite E in Hl'. by inversion Hl'.
    - by apply (drop_while_head (Ascii.eqb dash) (bytes_of s) x l'). }
  clearbody l. assert (Hl2 : label (drop_while_end (Ascii.eqb dash) l))
    by (by apply drop_while_end_Forall).
  split; [done|..].
  - intros x l' E. destruct l as [|y l].
    { done. }
    destruct (drop_while_end_cons (Ascii.eqb dash) y l) as [l2 E2].
    { eauto using alnum_not_dash. }
    rewrite E2 in E. injection E as <- _. eauto.
  - intros x l' E. apply label_not_dash.
    + rewrite E in Hl2. apply Forall_app in Hl2 as [_ Hx]. by inversion Hx.
    + by eapply drop_while_end_last.
Qed.

Lemma nonAlphaNum_label s : label (bytes_of (nonAlphaNum_replace s)).
Proof.
  unfold nonAlphaNum_replace. rewrite bytes_of_of.
  eapply Forall_impl; [apply replace_runs_Forall|]. intros c [Hc| ->]; [|done].
  apply alnum_label. by apply negb_false_iff.
Qed.

Lemma trimmed_dns_label s :
  trimmed (bytes_of s) → s ≠ "" →
  dns_label (if starts_with_digit s then "u-" +:+ s else s).
Proof.
  intros [Hl Hh Ht] Hne. unfold starts_with_digit.
  destruct (bytes_of s) as [|c l] eqn:E; [by apply bytes_of_nil in E|].
  destruct (is_digit c) eqn:Hc.
  - exists "u"%char, (dash :: c :: l). rewrite bytes_of_app, E.
    split_and!; [done|done|by constructor|]. intros l' x Hx.
    destruct l' as [|y l']; [done|]. injection Hx as <- Hx. by eapply Ht.
  - exists c, l. specialize (Hh c l eq_refl). unfold is_alnum in Hh. rewrite Hc, orb_false_r in Hh.
    split_and!; [done|done|by inversion Hl|]. intros l' x ->. by apply (Ht x (c :: l')).
Qed.

Lemma truncated_dns_label s :
  dns_label s → dns_label (TrimRight (of_bytes (take 49 (bytes_of s))) dash).
Proof.
  intros (c & l & E & Hc & Hl & Ht). rewrite E. unfold TrimRight. rewrite bytes_of_of.
  assert (Hall : label (take 49 (c :: l))).
  { apply Forall_take. constructor; [apply alnum_label; unfold is_alnum; by rewrite Hc|done]. }
  cbn [take] in *. set (k := take _ l) in *.
  assert (Hd : Ascii.eqb dash c = false) by (apply alnum_not_dash; unfold is_alnum; by rewrite Hc).
  destruct (drop_while_end_cons (Ascii.eqb dash) c k Hd) as [k' E'].
  apply (drop_while_end_Forall (Ascii.eqb dash)) in Hall. rewrite E' in Hall |- *.
  exists c, k'. rewrite bytes_of_of. split_and!; [done|done|by inversion Hall|].
  intros l' x ->. apply label_not_dash.
  - inversion Hall as [|? ? _ Hk]. subst. apply Forall_app in Hk as [_ Hx]. by inversion Hx.
  - eapply (drop_while_end_last _ (c :: k) (c :: l')). by rewrite E'.
Qed.

Lemma len_TrimRight s c : (len (TrimRight s c) <= len s)%nat.
Proof. unfold TrimRight. rewrite len_of_bytes, len_bytes. apply length_drop_while_end. Qed.

Lemma sanitizeUserID_label_or_empty sub :
  sanitizeUserID sub = "" ∨
  (dns_label (sanitizeUserID sub) ∧ (len (sanitizeUserID sub) ≤ 49)%nat).
Proof.
  unfold sanitizeUserID. set (s := Trim _ _).
  assert (Ht : trimmed (bytes_of s)) by (apply Trim_trimmed, nonAlphaNum_label).
  clearbody s. destruct (decide (s = "")) as [-> | Hne]; [by left|right].
  pose proof (trimmed_dns_label s Ht Hne) as Hd. set (t := if starts_with_digit s then _ else _) in *.
  clearbody t. destruct (Nat.ltb_spec 49 (len t)) as [Hlt|Hge]; [|done].
  split; [by apply truncated_dns_label|].
  etrans; [apply len_TrimRight|]. rewrite len_of_bytes, length_take. lia.
Qed.

(** Whatever the OIDC subject, the derived user id is either empty or a DNS
    label of at most 49 bytes that starts with a letter: exactly what
    [ValidateSpec] requires of a user id. *)
Theorem sanitizeUserID_label sub :
  sanitizeUserID sub = "" ∨
  (full_match dnsLabelRegex (bytes_of (sanitizeUserID sub)) = true ∧
   (len (sanitizeUserID sub) ≤ 49)%nat).
Proof. rewrite dnsLabelRegex_spec. apply sanitizeUserID_label_or_empty. Qed.

(** *** Labels are fixed points *)

Lemma lower_byte_label x : label_char x = true → is_ascii x = true ∧ lower_byte x = x.
Proof.
  destruct x as [[] [] [] [] [] [] [] []]; vm_compute; try done; intros [=].
Qed.

Lemma ToLower_label s : label (bytes_of s) → ToLower s = s.
Proof.
  intros Hl. unfold ToLower.
  assert (Ha : forallb is_ascii (bytes_of s) = true).
  { apply forallb_forall. intros x Hx. rewrite Forall_forall in Hl.
    by apply lower_byte_label, Hl, list_elem_of_In. }
  rewrite Ha. rewrite <- (of_bytes_of s) at 2. f_equal.
  induction Hl as [|x l Hx _ IH]; [done|]. cbn in *.
  apply andb_true_iff in Ha as [_ Ha]. rewrite (IH Ha). by rewrite (proj2 (lower_byte_label x Hx)).
Qed.

(** No two dashes in a row; [prev] says that a dash came before. *)
Fixpoint no_dd (prev : bool) (l : bytes) : bool :=
  match l with
  | [] => true
  | c :: l' => negb (prev && Ascii.eqb c dash) && no_dd (Ascii.eqb c dash) l'
  end.

Lemma no_dd_weaken b l : no_dd b l = true → no_dd false l = true.
Proof. destruct l as [|c l]; [done|]. cbn. by intros [_ ?]%andb_true_iff. Qed.

Lemma no_dd_prefix b l1 l2 : no_dd b (l1 ++ l2) = true → no_dd b l1 = true.
Proof.
  revert b. induction l1 as [|c l1 IH]; intros b; cbn; [done|].
  intros [? ?]%andb_true_iff. apply andb_true_iff. eauto.
Qed.

Lemma no_dd_suffix b l1 l2 : no_dd b (l1 ++ l2) = true → no_dd false l2 = true.
Proof.
  revert b. induction l1 as [|c l1 IH]; intros b; cbn; [by apply no_dd_weaken|].
  intros [_ ?]%andb_true_iff. eauto.
Qed.

Abbreviation other := (λ c, negb (is_alnum c)).

Lemma replace_runs_no_dd b s : no_dd b (replace_runs other dash b s) = true.
Proof.
  revert b. induction s as [|c s IH]; intros b; [done|]. cbn [replace_runs].
  destruct (is_alnum c) eqn:Hc; cbn [negb].
  - cbn. rewrite Ascii.eqb_sym, alnum_not_dash, andb_false_r by done. apply IH.
  - destruct b; cbn; apply IH.
Qed.

Lemma replace_runs_clean b l :
  label l → no_dd b l = true → replace_runs other dash b l = l.
Proof.
  intros Hl. revert b. induction Hl as [|c l Hc _ IH]; intros b; [done|]. cbn.
  intros [Hb Hd]%andb_true_iff. destruct (is_alnum c) eqn:Ha; cbn.
  - rewrite Ascii.eqb_sym, alnum_not_dash in Hd by done. by rewrite IH.
  - apply label_char_cases in Hc as [Hc| ->]; [congruence|].
    rewrite Ascii.eqb_refl in Hd. destruct b; [done|]. cbn. by rewrite IH.
Qed.

Lemma no_dd_drop_while P b l : no_dd b l = true → no_dd false (drop_while P l) = true.
Proof.
  intros Hl. destruct (drop_while_suffix P l) as (pre & E & _). rewrite E in Hl.
  by eapply no_dd_suffix.
Qed.

Lemma no_dd_drop_while_end P b l : no_dd b l = true → no_dd b (drop_while_end P l) = true.
Proof.
  intros Hl. destruct (drop_while_end_prefix P l) as (post & E & _). rewrite E in Hl.
  by eapply no_dd_prefix.
Qed.

Lemma sanitizeUserID_no_dd sub : no_dd false (bytes_of (sanitizeUserID sub)) = true.
Proof.
  unfold sanitizeUserID. set (s := Trim _ _).
  assert (Hs : no_dd false (bytes_of s) = true).
  { unfold s, Trim, nonAlphaNum_replace. rewrite !bytes_of_of.
    eapply no_dd_drop_while_end, no_dd_drop_while, replace_runs_no_dd. }
  clearbody s. set (t := if starts_with_digit s then _ else _).
  assert (Ht : no_dd false (bytes_of t) = true).
  { unfold t, starts_with_digit. destruct (bytes_of s) as [|c l] eqn:E; [by rewrite E|].
    destruct (is_digit c) eqn:Hc; [|by rewrite E].
    rewrite bytes_of_app, E. cbn in Hs |- *. rewrite Hs, andb_true_r.
    rewrite Ascii.eqb_sym, alnum_not_dash; [done|]. unfold is_alnum. by rewrite Hc, orb_true_r. }
  clearbody t. destruct (49 <? len t)%nat; [|done].
  unfold TrimRight. rewrite !bytes_of_of. apply no_dd_drop_while_end.
  apply (no_dd_prefix _ _ (drop 49 (bytes_of t))). by rewrite take_drop.
Qed.

(** A clean label is its own user id. *)
Lemma sanitizeUserID_clean s :
  dns_label s → (len s ≤ 49)%nat → no_dd false (bytes_of s) = true → sanitizeUserID s = s.
Proof.
  intros (c & l & E & Hc & Hl & Ht) Hlen Hdd.
  assert (Hca : is_alnum c = true) by (unfold is_alnum; by rewrite Hc).
  assert (Hlab : label (bytes_of s)) by (rewrite E; constructor; [by apply alnum_label|done]).
  assert (Hr : nonAlphaNum_replace s = s).
  { unfold nonAlphaNum_replace. by rewrite replace_runs_clean, of_bytes_of. }
  assert (Htr : Trim s dash = s).
  { unfold Trim. rewrite drop_while_id.
    2: { intros x l' Ex. rewrite E in Ex. injection Ex as <- _. by apply alnum_not_dash. }
    rewrite drop_while_end_id; [apply of_bytes_of|]. intros x l' Ex. apply alnum_not_dash.
    rewrite E in Ex. destruct l' as [|y l']; injection Ex as -> Ex; [done|]. by eapply Ht. }
  unfold sanitizeUserID. rewrite ToLower_label, Hr, Htr by done.
  unfold starts_with_digit. rewrite E.
  assert (Hd : is_digit c = false) by (revert Hc; destruct c as [[] [] [] [] [] [] [] []]; done).
  rewrite Hd. by rewrite (proj2 (Nat.ltb_ge _ _)).
Qed.

(** Deriving a user id is idempotent: an id the gateway produced is mapped to
    itself when it comes back as a subject. *)
Theorem sanitizeUserID_idempotent sub :
  sanitizeUserID (sanitizeUserID sub) = sanitizeUserID sub.
Proof.
  destruct (sanitizeUserID_label_or_empty sub) as [-> | [Hd Hl]]; [done|].
  apply sanitizeUserID_clean; [done|done|apply sanitizeUserID_no_dd].
Qed.

(** Distinct identities can share one workspace: subjects that differ only in
    letter case, in punctuation, or past the 49th byte get the same user id,
    so the Workspace, the volume and the terminal of one are reached with the
    token of the other. *)
Theorem sanitizeUserID_not_injective :
  sanitizeUserID "auth0|Alice" = sanitizeUserID "auth0|alice" ∧
  sanitizeUserID "a.b" = sanitizeUserID "a_b" ∧
  sanitizeUserID "x23456789012345678901234567890123456789012345678901" =
    sanitizeUserID "x23456789012345678901234567890123456789012345678902".
Proof. split_and!; vm_compute; reflexivity. Qed.
End sanitize.

(** ** Errors and answers *)

Section answers.
Context `{UnicodeTables}.

Lemma bytes_prefix_app p q s : bytes_prefix (p ++ q) s = true → bytes_prefix p s = true.
Proof.
  revert s. induction p as [|a p IH]; intros [|b s]; try done. cbn.
  intros [? ?]%andb_true_iff. apply andb_true_iff. eauto.
Qed.

Lemma Contains_prefix s p q : Contains s (p +:+ q) = true → Contains s p = true.
Proof.
  unfold Contains. rewrite bytes_of_app. induction (bytes_of s) as [|c l IH]; cbn [bytes_contains].
  - rewrite !orb_false_r. apply bytes_prefix_app.
  - intros [?|?]%orb_true_iff; apply orb_true_iff; eauto using bytes_prefix_app.
Qed.

(** How a verification failure is answered: 401 with code token_expired when
    the verifier reports expiry, 403 forbidden when its message speaks of the
    audience, 401 unauthorized otherwise; a failure is never answered as a
    success.  (The test for "audience" adds nothing to the test for "aud".) *)
Theorem verify_error_response err :
  AuthErrorResponse (classifyOIDCVerifyError (Some err)) =
    if err_has TokenExpiredError err then (StatusUnauthorized, AuthErrorCodeTokenExpired)
    else if Contains (ToLower (Error err)) "aud" then (StatusForbidden, AuthErrorCodeForbidden)
    else (StatusUnauthorized, AuthErrorCodeUnauthorized).
Proof.
  unfold classifyOIDCVerifyError. destruct (err_has TokenExpiredError err); [done|].
  destruct (Contains (ToLower (Error err)) "aud") eqn:Ha; [done|]. cbn [orb].
  destruct (Contains (ToLower (Error err)) "audience") eqn:Hb; [|done].
  by rewrite (Contains_prefix _ "aud" "ience" Hb) in Ha.
Qed.
End answers.

(** ** The cache *)

(** The index points into the list, under the key of the entry; identities are
    unique and below the next one. *)
Record cache_wf (c : cache) : Prop := {
  wf_index k e : index c !! k = Some e → e ∈ lru c ∧ ce_key e.2 = k;
  wf_nodup : NoDup (lru c).*1;
  wf_fresh e : e ∈ lru c → (e.1 < next_id c)%nat;
}.

(** The list stays within its bound. *)
Definition cache_bounded (c : cache) : Prop := Z.of_nat (length (lru c)) <= tokenCacheMax.

Lemma elem_list_remove x e l : x ∈ list_remove e l ↔ x ∈ l ∧ x.1 ≠ e.1.
Proof. unfold list_remove. rewrite list_elem_of_filter. naive_solver. Qed.

Lemma list_remove_sublist e l : list_remove e l `sublist_of` l.
Proof. apply sublist_filter. Qed.

Lemma length_list_remove e l : (length (list_remove e l) ≤ length l)%nat.
Proof. apply sublist_length, list_remove_sublist. Qed.

Lemma length_list_remove_lt e l : e ∈ l → (length (list_remove e l) < length l)%nat.
Proof. intros He. apply (length_filter_lt _ l e He). by intros []. Qed.

(** Elements with one identity are one element. *)
Lemma same_element c e e' : cache_wf c → e ∈ lru c → e' ∈ lru c → e.1 = e'.1 → e = e'.
Proof.
  intros [_ Hnd _] (i & Hi)%list_elem_of_lookup (j & Hj)%list_elem_of_lookup E.
  assert (i = j) as ->; [|congruence].
  eapply NoDup_lookup; [exact Hnd|..]; rewrite list_lookup_fmap, ?Hi, ?Hj; cbn; by f_equal.
Qed.

Lemma nodup_remove e l : NoDup l.*1 → NoDup (list_remove e l).*1.
Proof. intros Hl. eapply sublist_NoDup; [exact Hl|]. apply fmap_sublist, list_remove_sublist. Qed.

(** Dropping an element of the list under its own key. *)
Lemma drop_entry_wf c e : cache_wf c → e ∈ lru c → cache_wf (drop_entry (ce_key e.2) e c).
Proof.
  intros Hwf He. pose proof Hwf as [Hi Hn Hf]. split; cbn.
  - intros k e' [Hk Hl]%lookup_delete_Some. destruct (Hi _ _ Hl) as [Hin Hkey].
    split; [|done]. apply elem_list_remove. split; [done|]. intros E.
    rewrite (same_element c e' e) in Hkey by done. done.
  - by apply nodup_remove.
  - intros e' [? _]%elem_list_remove. eauto.
Qed.

Lemma drop_entry_bounded c k e : cache_bounded c → cache_bounded (drop_entry k e c).
Proof.
  unfold cache_bounded. cbn. pose proof (length_list_remove e (lru c)). lia.
Qed.

Lemma MoveToFront_wf c e :
  cache_wf c → e ∈ lru c → cache_wf (MkCache (index c) (MoveToFront e (lru c)) (next_id c)).
Proof.
  intros Hwf He. pose proof Hwf as [Hi Hn Hf].
  assert (Hsame : ∀ x, x ∈ MoveToFront e (lru c) ↔ x ∈ lru c).
  { intros x. unfold MoveToFront. case_decide as Hin; [|done].
    rewrite elem_of_cons, elem_list_remove. split; [by intros [-> | []]|]. intros Hx.
    destruct (decide (x.1 = e.1)); [left; by apply (same_element c)|by right]. }
  split; cbn.
  - intros k x Hx. destruct (Hi _ _ Hx). by rewrite Hsame.
  - unfold MoveToFront. case_decide; [|done]. cbn. constructor; [|by apply nodup_remove].
    intros (y & E & Hy)%list_elem_of_fmap. apply elem_list_remove in Hy as [_ Hy]. congruence.
  - intros x Hx. apply Hf. by apply Hsame.
Qed.

Lemma length_MoveToFront e l : e ∈ l → (length (MoveToFront e l) ≤ length l)%nat.
Proof.
  intros He. unfold MoveToFront. case_decide; [|done]. cbn.
  pose proof (length_list_remove_lt e l He). lia.
Qed.

(** The first critical section. *)
Lemma cache_lookup_wf now key c :
  cache_wf c → cache_bounded c →
  cache_wf (cache_lookup now key c).2 ∧ cache_bounded (cache_lookup now key c).2.
Proof.
  intros Hwf Hb. unfold cache_lookup. destruct (index c !! key) as [e|] eqn:He; [|done].
  destruct (wf_index c Hwf _ _ He) as [Hin <-]. destruct (_ <? _); cbn [snd].
  - split; [by apply MoveToFront_wf|]. unfold cache_bounded in *. cbn.
    pose proof (length_MoveToFront e (lru c) Hin). lia.
  - split; [by apply drop_entry_wf|by apply drop_entry_bounded].
Qed.

(** The loop makes room within its fuel. *)
Lemma make_room_spec fuel c :
  cache_wf c → (length (lru c) ≤ fuel)%nat →
  cache_wf (make_room fuel c) ∧ Z.of_nat (length (lru (make_room fuel c))) < tokenCacheMax ∧
  (lru (make_room fuel c) `sublist_of` lru c) ∧ (index (make_room fuel c) ⊆ index c).
Proof.
  revert c. induction fuel as [|n IH]; intros c Hwf Hf.
  { assert (E : make_room 0 c = c) by (cbn; by destruct (_ >=? _)).
    rewrite E. split_and!; [done| |done|done]. unfold tokenCacheMax. lia. }
  cbn [make_room]. destruct (Z.geb_spec (Z.of_nat (length (lru c))) tokenCacheMax) as [Hge|Hlt];
    [|by split_and!].
  destruct (last (lru c)) as [e|] eqn:Hl.
  2: { apply last_None in Hl. rewrite Hl in Hge. by cbn in Hge. }
  assert (He : e ∈ lru c) by (apply last_Some in Hl as [l' ->]; set_solver).
  destruct (IH (drop_entry (ce_key e.2) e c)) as (Hw & Hlen & Hs & Hi).
  - by apply drop_entry_wf.
  - cbn. pose proof (length_list_remove_lt e (lru c) He). lia.
  - split_and!; [done|done|..].
    + etrans; [exact Hs|apply list_remove_sublist].
    + etrans; [exact Hi|apply delete_subseteq].
Qed.

(** The second critical section. *)
Lemma cache_insert_wf now key claims c :
  cache_wf c → cache_wf (cache_insert now key claims c) ∧ cache_bounded (cache_insert now key claims c).
Proof.
  intros Hwf. unfold cache_insert.
  destruct (make_room_spec (length (lru c)) c Hwf) as (Hw & Hlen & _); [done|].
  set (c' := make_room _ c) in *. destruct Hw as [Hi Hn Hf]. split; [split; cbn|].
  - intros k e [[<- <-]|[Hk Hl]]%lookup_insert_Some; [split; [by left|done]|].
    destruct (Hi _ _ Hl). split; [by right|done].
  - constructor; [|done]. intros (y & E & Hy)%list_elem_of_fmap. apply Hf in Hy. lia.
  - intros e [-> | He]%elem_of_cons; [cbn; lia|]. apply Hf in He. lia.
  - unfold cache_bounded. cbn [lru length]. lia.
Qed.

Lemma evict_fold now l c :
  (∀ k e, (k, e) ∈ l → index c !! k = Some e) → NoDup l.*1 → cache_wf c → cache_bounded c →
  let c' := foldl (λ c '(key, e), if ce_expiry e.2 <? now then drop_entry key e c else c) c l in
  cache_wf c' ∧ cache_bounded c' ∧ (lru c' `sublist_of` lru c) ∧ (index c' ⊆ index c) ∧
  next_id c' = next_id c.
Proof.
  revert c. induction l as [|[k e] l IH]; intros c Hl Hnd Hwf Hb; [by split_and!|].
  cbn [foldl]. inversion Hnd as [|? ? Hk Hnd']. subst.
  assert (Hi : index c !! k = Some e) by (apply Hl; by left).
  destruct (wf_index c Hwf _ _ Hi) as [Hin Hkey].
  destruct (_ <? _).
  2: { apply IH; [|done..]. intros. apply Hl. by right. }
  destruct (IH (drop_entry k e c)) as (Hw & Hb' & Hs & Hix & Hn); [|done|..].
  - intros k' e' Hin'. cbn. rewrite lookup_delete_ne; [apply Hl; by right|].
    intros <-. apply Hk. by apply (list_elem_of_fmap_2 fst _ (k, e')).
  - rewrite <- Hkey. by apply drop_entry_wf.
  - by apply drop_entry_bounded.
  - split_and!; [done|done|..].
    + etrans; [exact Hs|apply list_remove_sublist].
    + etrans; [exact Hix|apply delete_subseteq].
    + done.
Qed.

Lemma evictExpired_wf now c :
  cache_wf c → cache_bounded c →
  let c' := evictExpired_tick now c in
  cache_wf c' ∧ cache_bounded c' ∧ (lru c' `sublist_of` lru c) ∧ (index c' ⊆ index c) ∧
  next_id c' = next_id c.
Proof.
  intros Hwf Hb. apply evict_fold; [|apply NoDup_fst_map_to_list|done|done].
  intros k e. apply elem_of_map_to_list.
Qed.

(** ** Concurrent requests

    Any number of goroutines run [Validate] on one [Validator]; their critical
    sections, the verifier's answers, the clock and the eviction ticker
    interleave freely.  [verified] records what the verifier accepted. *)
Section concurrent.
Context `{UnicodeTables}.

Abbreviation thread := (string * prog authE (result Claims))%type.

Record gateway_state := MkState {
  st_cache : cache;
  st_now : Time;
  st_threads : list thread;
  st_verified : list (string * IDToken);
}.

(** The next request of a goroutine; [answer] is the verifier's, when it is
    asked. *)
Definition advance (answer : result IDToken) (s : gateway_state) (p : prog authE (result Claims)) :
    option (prog authE (result Claims) * cache * list (string * IDToken)) :=
  match p with
  | Return _ => None
  | Request e k =>
    Some (match e in authE X return (X → prog authE (result Claims)) → _ with
          | CacheLookup key => λ k,
            let '(hit, c) := cache_lookup (st_now s) key (st_cache s) in
            (k hit, c, st_verified s)
          | VerifyToken raw => λ k,
            (k answer, st_cache s,
             match answer with Ok t => (raw, t) :: st_verified s | Err _ => st_verified s end)
          | CacheInsert key claims => λ k,
            (k (), cache_insert (st_now s) key claims (st_cache s), st_verified s)
          end k)
  end.

Inductive step : gateway_state → gateway_state → Prop :=
  | step_call s raw :
      step s (MkState (st_cache s) (st_now s) (st_threads s ++ [(raw, Validate raw)]) (st_verified s))
  | step_run s i raw p answer p' c v :
      st_threads s !! i = Some (raw, p) → advance answer s p = Some (p', c, v) →
      step s (MkState c (st_now s) (<[i := (raw, p')]> (st_threads s)) v)
  | step_tick s t :
      st_now s <= t → step s (MkState (st_cache s) t (st_threads s) (st_verified s))
  | step_evict s :
      step s (MkState (evictExpired_tick (st_now s) (st_cache s)) (st_now s) (st_threads s)
                (st_verified s)).

Inductive reachable : gateway_state → Prop :=
  | reach_init t : reachable (MkState empty_cache t [] [])
  | reach_step s s' : reachable s → step s s' → reachable s'.

(** The claims of a token accepted under this hash. *)
Definition accepted (v : list (string * IDToken)) (key : string) (claims : Claims) : Prop :=
  ∃ raw t email, (raw, t) ∈ v ∧ hashToken raw = key ∧ email_claim t = Ok email ∧
    claims = claims_of t email.

Definition entry_ok (s : gateway_state) (e : element) : Prop :=
  accepted (st_verified s) (ce_key e.2) (ce_claims e.2) ∧
  ce_expiry e.2 <= st_now s + tokenCacheTTL.

(** Where a goroutine may be. *)
Inductive thread_ok (v : list (string * IDToken)) (raw : string) : prog authE (result Claims) → Prop :=
  | thread_start : thread_ok v raw (Validate raw)
  | thread_missed : thread_ok v raw (Validate_verify raw)
  | thread_verified t email :
      (raw, t) ∈ v → email_claim t = Ok email →
      thread_ok v raw (_ ← request (CacheInsert (hashToken raw) (claims_of t email));
                       mret (Ok (claims_of t email)))
  | thread_failed e : thread_ok v raw (Return (Err e))
  | thread_done claims : accepted v (hashToken raw) claims → thread_ok v raw (Return (Ok claims)).

Record inv (s : gateway_state) : Prop := {
  inv_wf : cache_wf (st_cache s);
  inv_bounded : cache_bounded (st_cache s);
  inv_entries e : e ∈ lru (st_cache s) → entry_ok s e;
  inv_threads raw p : (raw, p) ∈ st_threads s → thread_ok (st_verified s) raw p;
}.

Lemma accepted_mono v v' key claims : v ⊆ v' → accepted v key claims → accepted v' key claims.
Proof. intros Hv (raw & t & email & ? & ?). exists raw, t, email. auto. Qed.

Lemma thread_ok_mono v v' raw p : v ⊆ v' → thread_ok v raw p → thread_ok v' raw p.
Proof. intros Hv [| | | |]; econstructor; eauto using accepted_mono. Qed.

(** The list keeps only elements it had. *)
Lemma cache_lookup_lru now key c e :
  cache_wf c → e ∈ lru (cache_lookup now key c).2 → e ∈ lru c.
Proof.
  intros Hwf. unfold cache_lookup. destruct (index c !! key) as [x|] eqn:Hx; [|done].
  destruct (wf_index c Hwf _ _ Hx) as [Hin _]. destruct (_ <? _); cbn.
  - unfold MoveToFront. case_decide; [|done].
    intros [-> | [? _]%elem_list_remove]%elem_of_cons; done.
  - by intros [? _]%elem_list_remove.
Qed.

Lemma cache_insert_lru now key claims c e :
  cache_wf c → e ∈ lru (cache_insert now key claims c) →
  e.2 = MkEntry key claims (now + tokenCacheTTL) ∨ e ∈ lru c.
Proof.
  intros Hwf. unfold cache_insert. cbn.
  destruct (make_room_spec (length (lru c)) c Hwf) as (_ & _ & Hs & _); [done|].
  intros [-> | He]%elem_of_cons; [by left|right]. by eapply elem_of_sublist.
Qed.

Lemma entry_ok_mono s s' e :
  st_verified s ⊆ st_verified s' → st_now s <= st_now s' → entry_ok s e → entry_ok s' e.
Proof. intros Hv Hn [? ?]. split; [by eapply accepted_mono|lia]. Qed.

(** One request of one goroutine. *)
Lemma advance_inv s raw p answer p' c v :
  inv s → thread_ok (st_verified s) raw p → advance answer s p = Some (p', c, v) →
  cache_wf c ∧ cache_bounded c ∧ st_verified s ⊆ v ∧ thread_ok v raw p' ∧
  (∀ e, e ∈ lru c → e ∈ lru (st_cache s) ∨
     accepted v (ce_key e.2) (ce_claims e.2) ∧ ce_expiry e.2 = st_now s + tokenCacheTTL).
Proof.
  intros [Hwf Hb He Ht] Hp Ha. destruct Hp as [| |t email Hin Hem|e|claims Hc]; cbn in Ha; try done.
  - pose proof (cache_lookup_wf (st_now s) (hashToken raw) _ Hwf Hb) as [Hw' Hb'].
    pose proof (cache_lookup_lru (st_now s) (hashToken raw) (st_cache s)) as Hl.
    destruct (cache_lookup _ _ _) as [hit c'] eqn:Hlk. injection Ha as <- <- <-.
    cbn [snd] in *. split_and!; [done|done|done| |by left; apply Hl].
    destruct hit as [claims|]; [|apply thread_missed]. apply thread_done.
    unfold cache_lookup in Hlk. destruct (index (st_cache s) !! hashToken raw) as [x|] eqn:Hx; [|done].
    destruct (wf_index _ Hwf _ _ Hx) as [Hxin <-].
    destruct (_ <? _); simplify_eq. by destruct (He x Hxin).
  - injection Ha as <- <- <-. split_and!; [done|done| |..].
    + destruct answer; [set_solver|done].
    + destruct answer as [t|e]; cbn.
      * destruct (email_claim t) as [email|e] eqn:Hem; [|apply thread_failed].
        apply thread_verified; [by left|done].
      * repeat case_match; apply thread_failed.
    + by left.
  - injection Ha as <- <- <-.
    destruct (cache_insert_wf (st_now s) (hashToken raw) (claims_of t email) _ Hwf) as [Hw' Hb'].
    assert (Hacc : accepted (st_verified s) (hashToken raw) (claims_of t email)).
    { by exists raw, t, email. }
    split_and!; [done|done|done|by apply thread_done|].
    intros e [Ee|Hin']%cache_insert_lru; [|by left|done]. right. by rewrite Ee.
Qed.

Lemma step_inv s s' : inv s → step s s' → inv s'.
Proof.
  intros Hi Hs. destruct Hs as [s raw|s i raw p answer p' c v Hth Ha|s t Hle|s].
  - destruct Hi as [? ? ? Ht]. split; try done. cbn.
    intros raw' p [?|[= -> ->]%list_elem_of_singleton]%elem_of_app; [eauto|constructor].
  - assert (Hin : (raw, p) ∈ st_threads s) by (by eapply list_elem_of_lookup_2).
    destruct (advance_inv s raw p answer p' c v) as (Hw & Hb & Hv & Hp & He); [done| |done|].
    { by eapply inv_threads. }
    destruct Hi as [? ? Hent Hthr]. split; cbn; [done|done|..].
    + intros e [Hold|[? ?]]%He; [|split; [done|cbn; lia]].
      eapply entry_ok_mono; [..|by apply Hent]; cbn; [done|lia].
    + intros raw' q [j Hj]%list_elem_of_lookup. apply list_lookup_insert_Some in Hj as
        [(-> & [= <- <-] & _)|[_ Hj]]; [done|].
      eapply thread_ok_mono; [done|]. eapply Hthr. by eapply list_elem_of_lookup_2.
  - destruct Hi as [? ? Hent ?]. split; try done. cbn. intros e He.
    eapply entry_ok_mono; [..|by apply Hent]; cbn; [done|lia].
  - destruct Hi as [Hwf Hb Hent ?].
    destruct (evictExpired_wf (st_now s) (st_cache s)) as (? & ? & Hsub & _); [done|done|].
    split; try done. cbn. intros e He. apply Hent. by eapply elem_of_sublist.
Qed.

Lemma reachable_inv s : reachable s → inv s.
Proof.
  induction 1 as [t|s s' _ IH Hs]; [|by eapply step_inv].
  split; cbn.
  - split; cbn; [|constructor|by intros e He%elem_of_nil].
    intros k e Hk. by rewrite lookup_empty in Hk.
  - done.
  - by intros e He%elem_of_nil.
  - by intros raw p Hp%elem_of_nil.
Qed.

(** C5. No unverified identity: in every reachable state of the gateway, under
    every interleaving, a [Validate] that returned claims returned those of a
    token the OIDC verifier accepted, with the user id derived from that
    token's subject; and that token is the one presented, or the two are a
    SHA-256 collision. *)
Theorem Validate_sound s raw claims :
  reachable s → (raw, Return (Ok claims)) ∈ st_threads s →
  ∃ raw' t email, (raw', t) ∈ st_verified s ∧ email_claim t = Ok email ∧
    claims = claims_of t email ∧
    (raw' = raw ∨ collision (bytes_of raw') (bytes_of raw)).
Proof.
  intros Hr Hin. pose proof (inv_threads s (reachable_inv s Hr) _ _ Hin) as Ht.
  assert (Hacc : accepted (st_verified s) (hashToken raw) claims).
  { remember (Return (Ok claims)) as p eqn:E. destruct Ht; try done; by simplify_eq. }
  destruct Hacc as (raw' & t & email & Hv & Hh & Hem & ->).
  exists raw', t, email. split_and!; try done.
  apply sha256_hex_eq in Hh as [E|?]; [left; by apply bytes_of_inj|by right].
Qed.

(** C16. The cache is bounded and coherent under every interleaving: the list
    never holds more than 10000 elements; the index is no larger than the
    list and maps each key to an element of the list with that key; every
    cached entry belongs to an accepted token and expires at most five
    minutes from now. *)
Theorem cache_coherent s :
  reachable s →
  let c := st_cache s in
  Z.of_nat (length (lru c)) <= 10000 ∧ (size (index c) <= length (lru c))%nat ∧
  (∀ k e, index c !! k = Some e →
     e ∈ lru c ∧ ce_key e.2 = k ∧ accepted (st_verified s) k (ce_claims e.2) ∧
     ce_expiry e.2 <= st_now s + 5 * Minute).
Proof.
  intros [Hwf Hb Hent _]%reachable_inv. cbv zeta. split_and!; [done|..].
  - rewrite <- length_map_to_list.
    assert (Hnd : NoDup ((map_to_list (index (st_cache s))).*2)).
    { apply NoDup_fmap_2_strong; [|apply NoDup_map_to_list].
      intros [k e] [k' e'] Hk%elem_of_map_to_list Hk'%elem_of_map_to_list E. cbn in E. subst e'.
      apply (wf_index _ Hwf) in Hk as [_ <-]. by apply (wf_index _ Hwf) in Hk' as [_ <-]. }
    assert (Hsub : (map_to_list (index (st_cache s))).*2 ⊆+ lru (st_cache s)).
    { apply NoDup_submseteq; [done|].
      intros e ([k e'] & -> & Hk)%list_elem_of_fmap. apply elem_of_map_to_list in Hk.
      by apply (wf_index _ Hwf) in Hk as [? _]. }
    apply submseteq_length in Hsub. by rewrite length_fmap in Hsub.
  - intros k e Hk. destruct (wf_index _ Hwf _ _ Hk) as [Hin <-].
    destruct (Hent e Hin) as [? ?]. by split_and!.
Qed.
End concurrent.

(** ** How long a validation lasts *)

Section lasting.
Context `{UnicodeTables}.

Lemma make_room_id fuel c : Z.of_nat (length (lru c)) < tokenCacheMax → make_room fuel c = c.
Proof.
  intros Hlt. destruct fuel; cbn; destruct (Z.geb_spec (Z.of_nat (length (lru c))) tokenCacheMax); try done; lia.
Qed.

Lemma make_room_next fuel c : next_id (make_room fuel c) = next_id c.
Proof.
  revert c. induction fuel as [|n IH]; intros c; cbn; destruct (_ >=? _); try done.
  destruct (last (lru c)); [|done]. by rewrite IH.
Qed.

(** What one step does to the cache. *)
Inductive cache_step (now : Time) (c : cache) : cache → Prop :=
  | cs_none : cache_step now c c
  | cs_lookup key : cache_step now c (cache_lookup now key c).2
  | cs_insert key claims : cache_step now c (cache_insert now key claims c)
  | cs_evict : cache_step now c (evictExpired_tick now c).

Lemma step_cache s s' :
  step s s' → cache_step (st_now s) (st_cache s) (st_cache s') ∧ st_now s <= st_now s'.
Proof.
  intros Hs. destruct Hs as [s raw|s i raw p answer p' c v Hth Ha|s t Hle|s]; cbn; (split; [|lia]); try constructor.
  destruct p as [a|X e k]; [done|]. cbn in Ha. destruct e as [key|raw'|key claims].
  - destruct (cache_lookup (st_now s) key (st_cache s)) as [hit c'] eqn:E. injection Ha as _ <- _.
    replace c' with (cache_lookup (st_now s) key (st_cache s)).2 by (by rewrite E). constructor.
  - injection Ha as _ <- _. constructor.
  - injection Ha as _ <- _. constructor.
Qed.

Lemma evict_next now l c :
  let c' := foldl (λ c '(key, e), if ce_expiry e.2 <? now then drop_entry key e c else c) c l in
  next_id c' = next_id c ∧ (length (lru c') ≤ length (lru c))%nat ∧ index c' ⊆ index c.
Proof.
  revert c. induction l as [|[k e] l IH]; intros c; [done|]. cbn [foldl]. destruct (_ <? _); [|apply IH].
  destruct (IH (drop_entry k e c)) as (E1 & E2 & E3). cbv zeta. split_and!; [done| |].
  - pose proof (length_list_remove e (lru c)). cbn in E2. lia.
  - etrans; [exact E3|apply delete_subseteq].
Qed.

Lemma evict_keeps now key e c :
  index c !! key = Some e → now <= ce_expiry e.2 → index (evictExpired_tick now c) !! key = Some e.
Proof.
  intros Hk Hle. unfold evictExpired_tick.
  assert (Hl : ∀ e', (key, e') ∈ map_to_list (index c) → e' = e).
  { intros e' Hin%elem_of_map_to_list. congruence. }
  revert Hk Hl. generalize (map_to_list (index c)). intros l. revert c.
  induction l as [|[k x] l IH]; intros c Hk Hl; [done|]. cbn [foldl].
  destruct (ce_expiry x.2 <? now) eqn:Ex; (apply IH; [|intros; apply Hl; by right]); [|done].
  cbn. rewrite lookup_delete_ne; [done|]. intros ->. assert (x = e) as -> by (apply Hl; by left).
  apply Z.ltb_lt in Ex. lia.
Qed.

(** Identities and the length of the list; the index only gains what is inserted. *)
Lemma cache_step_grows now c c' :
  cache_wf c → cache_step now c c' →
  (next_id c <= next_id c')%nat ∧ (length (lru c') + next_id c <= length (lru c) + next_id c')%nat ∧
  ∀ k e, index c' !! k = Some e → index c !! k = Some e ∨ (next_id c <= e.1)%nat.
Proof.
  intros Hwf [|key|key claims|].
  - split_and!; [lia|lia|by left].
  - unfold cache_lookup. destruct (index c !! key) as [e|] eqn:He; [|cbn; split_and!; [lia|lia|by left]].
    destruct (wf_index c Hwf _ _ He) as [Hin _]. destruct (_ <? _); cbn.
    + pose proof (length_MoveToFront e (lru c) Hin). split_and!; [lia|lia|by left].
    + pose proof (length_list_remove e (lru c)). split_and!; [lia|lia|]. intros k x [_ ?]%lookup_delete_Some. by left.
  - unfold cache_insert. cbn. rewrite make_room_next.
    destruct (make_room_spec (length (lru c)) c Hwf) as (_ & _ & Hs & Hi); [done|]. apply sublist_length in Hs.
    split_and!; [lia|lia|]. intros k e [[<- <-]|[_ Hl]]%lookup_insert_Some; [right; cbn; lia|left].
    by eapply lookup_weaken.
  - destruct (evict_next now (map_to_list (index c)) c) as (E1 & E2 & E3). unfold evictExpired_tick.
    rewrite E1. split_and!; [lia|lia|]. intros k e He. left. by eapply lookup_weaken.
Qed.

(** A live entry stays while there is room for what is inserted. *)
Lemma cache_step_keeps now c c' key (deadline : Time) (first : nat) e :
  cache_wf c → cache_step now c c' → index c !! key = Some e → now < deadline <= ce_expiry e.2 →
  (first <= next_id c)%nat → deadline <= now + tokenCacheTTL →
  Z.of_nat (length (lru c) + (next_id c' - next_id c)) <= tokenCacheMax →
  ∃ e', index c' !! key = Some e' ∧ deadline <= ce_expiry e'.2 ∧ (e' = e ∨ (first <= e'.1)%nat).
Proof.
  intros Hwf Hs Hk Hd Hf Ht Hroom. destruct Hs as [|k|k claims|].
  - exists e. split_and!; [done|lia|by left].
  - exists e. split_and!; [|lia|by left]. unfold cache_lookup. destruct (index c !! k) as [x|] eqn:Hx; [|done].
    destruct (now <? ce_expiry x.2) eqn:Ex; [done|]. cbn. rewrite lookup_delete_ne; [done|].
    intros ->. assert (x = e) as -> by congruence. apply Z.ltb_ge in Ex. lia.
  - unfold cache_insert in *. cbn in *. rewrite make_room_next in Hroom. rewrite make_room_id by lia. cbn.
    destruct (decide (k = key)) as [->|Hn].
    + rewrite lookup_insert_eq. eexists. split_and!; [reflexivity|cbn; lia|by right].
    + rewrite lookup_insert_ne by done. exists e. split_and!; [done|lia|by left].
  - exists e. split_and!; [apply evict_keeps; [done|lia]|lia|by left].
Qed.

Lemma steps_time s s' : rtc step s s' → st_now s <= st_now s'.
Proof. induction 1 as [|? ? ? Hs _ IH]; [lia|]. apply step_cache in Hs as [_ ?]. lia. Qed.

Lemma steps_grow s s' :
  reachable s → rtc step s s' →
  (next_id (st_cache s) <= next_id (st_cache s'))%nat ∧
  (length (lru (st_cache s')) + next_id (st_cache s) <= length (lru (st_cache s)) + next_id (st_cache s'))%nat ∧
  ∀ k e, index (st_cache s') !! k = Some e → index (st_cache s) !! k = Some e ∨ (next_id (st_cache s) <= e.1)%nat.
Proof.
  intros Hr Hs. revert Hr. induction Hs as [s|s1 s2 s3 Hs _ IH]; intros Hr; [split_and!; [lia|lia|by left]|].
  destruct IH as (E1 & E2 & E3); [by eapply reach_step|].
  destruct (step_cache _ _ Hs) as [Hc _].
  destruct (cache_step_grows _ _ _ (inv_wf _ (reachable_inv _ Hr)) Hc) as (F1 & F2 & F3).
  split_and!; [lia|lia|]. intros k e He. destruct (E3 k e He) as [H2|H2]; [|right; lia]. by apply F3.
Qed.

Lemma reachable_steps s s' : reachable s → rtc step s s' → reachable s'.
Proof. intros Hr Hs. revert Hr. induction Hs; eauto using reach_step. Qed.

Lemma steps_keep s1 s2 key t claims id :
  reachable s1 → rtc step s1 s2 →
  index (st_cache s1) !! key = Some (id, MkEntry key claims (t + tokenCacheTTL)) → t <= st_now s1 →
  Z.of_nat (length (lru (st_cache s1)) + (next_id (st_cache s2) - next_id (st_cache s1))) <= tokenCacheMax →
  st_now s2 < t + tokenCacheTTL →
  ∃ e, index (st_cache s2) !! key = Some e ∧ t + tokenCacheTTL <= ce_expiry e.2 ∧
    (ce_claims e.2 = claims ∨ (next_id (st_cache s1) <= e.1)%nat).
Proof.
  intros Hr Hs Hk Ht. revert s2 Hs. apply (rtc_ind_r (λ s2, Z.of_nat _ <= _ → st_now s2 < _ → _) s1).
  { intros _ _. eexists. split_and!; [exact Hk|cbn; lia|by left]. }
  intros s2 s3 Hs1 Hs IH Hroom Hnow.
  destruct (step_cache _ _ Hs) as [Hc Hle]. pose proof (reachable_steps _ _ Hr Hs1) as Hr2.
  pose proof (inv_wf _ (reachable_inv _ Hr2)) as Hwf. pose proof (steps_time _ _ Hs1) as Hle1.
  destruct (cache_step_grows _ _ _ Hwf Hc) as (F1 & F2 & _). destruct (steps_grow _ _ Hr Hs1) as (E1 & E2 & _).
  destruct IH as (e & He & Hx & Hcl); [lia|lia|].
  destruct (cache_step_keeps _ _ _ key (t + tokenCacheTTL) (next_id (st_cache s1)) e Hwf Hc He) as (e' & He' & Hx' & Hold);
    [lia|lia|lia|lia|].
  exists e'. split_and!; [done|done|]. destruct Hold as [->|?]; [done|by right].
Qed.

(** The goroutine that has just seen the verifier accept its token. *)
Abbreviation about_to_cache raw claims :=
  (_ ← request (CacheInsert (hashToken raw) claims); mret (Ok claims)).

(** The state after it has cached the claims and returned them. *)
Definition cached (s : gateway_state) (i : nat) (raw : string) (claims : Claims) : gateway_state :=
  MkState (cache_insert (st_now s) (hashToken raw) claims (st_cache s)) (st_now s)
    (<[i := (raw, Return (Ok claims))]> (st_threads s)) (st_verified s).

Lemma cached_step s i raw claims :
  st_threads s !! i = Some (raw, about_to_cache raw claims) → step s (cached s i raw claims).
Proof. intros Hi. by eapply (step_run s i raw _ (Err (errors_new ""))). Qed.

Lemma lookup_advance answer s raw :
  advance answer s (Validate raw) =
    Some (match (cache_lookup (st_now s) (hashToken raw) (st_cache s)).1 with
          | Some claims => Return (Ok claims)
          | None => Validate_verify raw
          end, (cache_lookup (st_now s) (hashToken raw) (st_cache s)).2, st_verified s).
Proof. cbn. by destruct (cache_lookup _ _ _) as [[claims|] c]. Qed.

(** C17. What a cached validation is worth, under every interleaving of callers,
    ticker and clock.  Let a goroutine cache the claims of a token it has
    validated, at time [t], and let any steps follow.  As long as the entries
    inserted since fit beside those that were there (so that none is evicted for
    room), before [t] plus five minutes the next caller with the token is accepted
    by its first request, without asking the verifier and whatever that would
    answer, with the same claims or those a later validation cached.  From then
    on, unless a later validation has cached the token again, the next caller
    asks the verifier. *)
Theorem cached_for_five_minutes s s' i raw claims answer :
  reachable s → st_threads s !! i = Some (raw, about_to_cache raw claims) →
  rtc step (cached s i raw claims) s' →
  let c := st_cache (cached s i raw claims) in
  (Z.of_nat (length (lru c) + (next_id (st_cache s') - next_id c)) <= 10000 →
   st_now s' < st_now s + 5 * Minute →
   ∃ claims' c', advance answer s' (Validate raw) = Some (Return (Ok claims'), c', st_verified s') ∧
     (claims' = claims ∨
      ∃ e, index (st_cache s') !! hashToken raw = Some e ∧ (next_id c <= e.1)%nat ∧
        ce_claims e.2 = claims' ∧ accepted (st_verified s') (hashToken raw) claims')) ∧
  (st_now s + 5 * Minute <= st_now s' →
   (∃ e, index (st_cache s') !! hashToken raw = Some e ∧ (next_id c <= e.1)%nat) ∨
   ∃ c', advance answer s' (Validate raw) = Some (Validate_verify raw, c', st_verified s')).
Proof.
  intros Hr Hi Hs. set (key := hashToken raw). cbv zeta.
  assert (Hr1 : reachable (cached s i raw claims)) by (eapply reach_step; [exact Hr|by apply cached_step]).
  assert (Hk : ∃ id, index (st_cache (cached s i raw claims)) !! key = Some (id, MkEntry key claims (st_now s + tokenCacheTTL))).
  { eexists. cbn. by rewrite lookup_insert_eq. }
  destruct Hk as [id Hk]. change (5 * Minute) with tokenCacheTTL. change 10000 with tokenCacheMax. split.
  - intros Hroom Hnow.
    destruct (steps_keep _ _ key (st_now s) claims id Hr1 Hs Hk) as (e & He & Hx & Hcl); [cbn; lia|done|done|].
    rewrite lookup_advance. fold key. unfold cache_lookup. rewrite He. rewrite (proj2 (Z.ltb_lt _ _)) by lia. cbn.
    eexists _, _. split; [reflexivity|]. destruct Hcl as [->|Hnew]; [by left|right]. exists e. split_and!; try done.
    pose proof (reachable_inv _ (reachable_steps _ _ Hr1 Hs)) as Hinv.
    destruct (wf_index _ (inv_wf _ Hinv) _ _ He) as [Hin <-]. by apply (inv_entries _ Hinv).
  - intros Hnow. destruct (steps_grow _ _ Hr1 Hs) as (_ & _ & Hix).
    rewrite lookup_advance. fold key. unfold cache_lookup.
    destruct (index (st_cache s') !! key) as [e|] eqn:He; [|by right; eexists].
    destruct (Hix _ _ He) as [Hold|Hnew]; [|by left; exists e].
    rewrite Hk in Hold. injection Hold as <-. right. cbn. rewrite (proj2 (Z.ltb_ge _ _)) by done. by eexists.
Qed.
End lasting.

(** ** A concurrent miss leaves an orphan *)

Section orphan.
Context `{UnicodeTables}.

(** Run goroutine [i] one request, for each [i] in turn. *)
Fixpoint sched (answer : result IDToken) (l : list nat) (s : gateway_state) : gateway_state :=
  match l with
  | [] => s
  | i :: l' =>
    match st_threads s !! i with
    | Some (raw, p) =>
      match advance answer s p with
      | Some (p', c, v) =>
        sched answer l' (MkState c (st_now s) (<[i := (raw, p')]> (st_threads s)) v)
      | None => s
      end
    | None => s
    end
  end.

Lemma sched_reachable answer l s : reachable s → reachable (sched answer l s).
Proof.
  revert s. induction l as [|i l IH]; intros s Hs; [done|]. cbn.
  destruct (st_threads s !! i) as [[raw p]|] eqn:Hi; [|done].
  destruct (advance answer s p) as [[[p' c] v]|] eqn:Ha; [|done].
  apply IH. eapply reach_step; [done|]. by eapply step_run.
Qed.

Definition two_callers : gateway_state :=
  MkState empty_cache 0 [("tok", Validate "tok"); ("tok", Validate "tok")] [].

Lemma two_callers_reachable : reachable two_callers.
Proof.
  eapply reach_step; [|apply (step_call (MkState empty_cache 0 [("tok", Validate "tok")] []) "tok")].
  eapply reach_step; [|apply (step_call (MkState empty_cache 0 [] []) "tok")]. constructor.
Qed.

(** Two requests with the same token that both miss the cache insert it
    twice: the first element stays in the list though the index no longer
    leads to it.  It takes up room, is not removed when it expires, and its
    eviction later deletes the index entry of the live element. *)
Theorem concurrent_miss_orphans :
  ∃ s e1 e2, reachable s ∧ lru (st_cache s) = [e2; e1] ∧ ce_key e1.2 = ce_key e2.2 ∧
    index (st_cache s) = {[ce_key e1.2 := e2]} ∧
    index (drop_entry (ce_key e1.2) e1 (st_cache s)) = ∅ ∧
    lru (drop_entry (ce_key e1.2) e1 (st_cache s)) = [e2].
Proof.
  set (t := MkIDToken "alice" (Ok "alice@example.com")).
  set (e := MkEntry (hashToken "tok") (claims_of t "alice@example.com") tokenCacheTTL).
  exists (sched (Ok t) [0; 1; 0; 1; 0; 1]%nat two_callers), (0%nat, e), (1%nat, e).
  split; [apply sched_reachable, two_callers_reachable|].
  do 4 (split; [vm_compute; reflexivity|]). vm_compute. reflexivity.
Qed.
End orphan.

(** ** Witnesses *)

#[local] Existing Instance ascii_tables.

Definition demo_token : IDToken := MkIDToken "alice" (Ok "alice@example.com").

(** The first of two callers runs to its end. *)
Definition one_served : gateway_state := sched (Ok demo_token) [0; 0; 0]%nat two_callers.

Lemma one_served_reachable : reachable one_served.
Proof. apply sched_reachable, two_callers_reachable. Qed.

Lemma one_served_done :
  ("tok", Return (Ok (claims_of demo_token "alice@example.com"))) ∈ st_threads one_served.
Proof. apply (list_elem_of_lookup_2 _ 0). vm_compute. reflexivity. Qed.

Lemma Validate_sound_witness :
  ∃ raw' t email, (raw', t) ∈ st_verified one_served ∧ email_claim t = Ok email ∧
    claims_of demo_token "alice@example.com" = claims_of t email ∧
    (raw' = "tok" ∨ collision (bytes_of raw') (bytes_of "tok")).
Proof. exact (Validate_sound one_served "tok" _ one_served_reachable one_served_done). Defined.

Lemma cache_coherent_witness :
  reachable one_served ∧ Z.of_nat (length (lru (st_cache one_served))) <= 10000.
Proof.
  split; [exact one_served_reachable|].
  exact (proj1 (cache_coherent one_served one_served_reachable)).
Defined.

(** The first of two callers is about to cache the token; a minute later the other
    one is served from the cache. *)
Definition one_verified : gateway_state := sched (Ok demo_token) [0; 0]%nat two_callers.
Definition one_cached : gateway_state :=
  cached one_verified 0 "tok" (claims_of demo_token "alice@example.com").
Definition minute_later : gateway_state :=
  MkState (st_cache one_cached) Minute (st_threads one_cached) (st_verified one_cached).

Lemma cached_for_five_minutes_witness :
  ∃ claims' c', advance (Err (errors_new "expired")) minute_later (Validate "tok") =
    Some (Return (Ok claims'), c', st_verified minute_later).
Proof.
  destruct (cached_for_five_minutes one_verified minute_later 0 "tok"
    (claims_of demo_token "alice@example.com") (Err (errors_new "expired"))) as [Hhit _].
  - apply sched_reachable, two_callers_reachable.
  - vm_compute. reflexivity.
  - apply rtc_once. apply (step_tick one_cached Minute). vm_compute. discriminate.
  - destruct Hhit as (claims' & c' & E & _).
    + vm_compute. discriminate.
    + vm_compute. reflexivity.
    + exists claims', c'. exact E.
Defined.
