(* ===== verification/Lifecycle.v ===== *)
(** * The gateway's workspace lifecycle ([pkg/gateway/lifecycle.go])

    Getting or creating the Workspace of an authenticated user, waking a stopped
    one, waiting until it runs, and stamping the last access. *)
From S2P Require Import Prelude GoStrings GoTime Api K8s K8sClient Resources Auth.
From Stdlib Require Import ZArith.
#[local] Open Scope Z_scope.

Definition workspaceReadyTimeout : Duration := 60 * Second.
Definition workspaceReadyPoll : Duration := 2 * Second.

Record EnsureDetails := MkDetails { Created : bool; RestartedFromStopped : bool }.
Definition no_details : EnsureDetails := MkDetails false false.

Record LifecycleConfig := MkLifecycleConfig {
  Providers : list AIProvider;
  DefaultCPU : string;
  DefaultMemory : string;
  DefaultStorage : string;
  Cfg_StorageClass : string;
}.

Section lifecycle.
Context `{UnicodeTables} `{K8sLib}.
Abbreviation api := (prog apiE).

Definition claims_key (namespace : string) (claims : Claims) : NamespacedName :=
  MkNamespacedName namespace (Claims_UserID claims).

(** The Workspace literal of [EnsureWorkspace] and [EnsureExists]. *)
Definition new_workspace (cfg : LifecycleConfig) (namespace : string) (claims : Claims) : Workspace :=
  MkWorkspace
    (object_meta (Claims_UserID claims) namespace (Labels_ (Claims_UserID claims)))
    (MkWorkspaceSpec (MkUserInfo (Claims_UserID claims) (Claims_Email claims))
       (MkResourceRequirements (DefaultCPU cfg) (DefaultMemory cfg) (DefaultStorage cfg))
       (MkAIConfiguration (Providers cfg) [] [])
       (MkPersistenceConfig (Cfg_StorageClass cfg)) (MkTLSConfig None)
       (MkWorkspaceLifecycleSpec ""))
    zero_status.

(** [ws.Status.Phase = ""; ws.Status.Message = ""; ws.Status.PodName = ""]. *)
Definition clear_phase (ws : Workspace) : Workspace :=
  let s := WS_Status ws in
  set_status (MkWorkspaceStatus "" "" (Status_ServiceEndpoint s) "" (Status_RemediationHint s)
    (Status_Conditions s) (Status_LastAccessed s)) ws.

Definition about_workspace (what name : string) : string :=
  what +:+ " workspace " +:+ Quote name +:+ ": ".

Definition EnsureExists (cfg : LifecycleConfig) (namespace : string) (claims : Claims) :
    api (result Workspace * EnsureDetails) :=
  let key := claims_key namespace claims in
  g ← request (GetWorkspace key);
  match g with
  | Err e =>
    if negb (IsNotFound e) then
      mret (Err (errorf_w (about_workspace "get" (Claims_UserID claims)) e), no_details)
    else
      let details := MkDetails true false in
      c ← request (CreateWorkspace (new_workspace cfg namespace claims));
      match c with
      | Err e => mret (Err (errorf_w (about_workspace "create" (Claims_UserID claims)) e), details)
      | Ok ws => mret (Ok ws, details)
      end
  | Ok ws =>
    if bool_decide (phase ws = WorkspacePhaseStopped) then
      let details := MkDetails false true in
      p ← request (PatchStatus ws (clear_phase ws));
      match p with
      | Err e => mret (Err (errorf_w (about_workspace "restart stopped" (NN_Name key)) e), details)
      | Ok ws' => mret (Ok ws', details)
      end
    else mret (Ok ws, no_details)
  end.

(** The loop of [waitForRunning]; [None] when the fuel runs out. *)
Fixpoint waitLoop (fuel : nat) (key : NamespacedName) (deadline : Time) (restarted : bool) :
    api (option (result Workspace * bool)) :=
  match fuel with
  | O => mret None
  | S n =>
    now ← request Now;
    if now <? deadline then
      g ← request (GetWorkspace key);
      match g with
      | Err e => mret (Some (Err (errorf_w (about_workspace "get" (NN_Name key)) e), restarted))
      | Ok ws =>
        let poll (restarted : bool) :=
          d ← request (WaitOrDone workspaceReadyPoll);
          match d with
          | Some e => mret (Some (Err e, restarted))
          | None => waitLoop n key deadline restarted
          end in
        if bool_decide (phase ws = WorkspacePhaseRunning) then mret (Some (Ok ws, restarted))
        else if bool_decide (phase ws = WorkspacePhaseFailed) then
          mret (Some (Err (errors_new ("workspace " +:+ Quote (NN_Name key) +:+ " failed: "
                                       +:+ Status_Message (WS_Status ws))), restarted))
        else if bool_decide (phase ws = WorkspacePhaseStopped) then
          p ← request (PatchStatus ws (clear_phase ws));
          match p with
          | Err e => mret (Some (Err (errorf_w (about_workspace "restart stopped" (NN_Name key)) e), true))
          | Ok _ => poll true
          end
        else poll restarted
      end
    else mret (Some (Err (errors_new ("workspace " +:+ Quote (NN_Name key)
                                      +:+ " not ready after 1m0s")), restarted))
  end.

Definition waitForRunning (fuel : nat) (key : NamespacedName) :
    api (option (result Workspace * bool)) :=
  now ← request Now;
  waitLoop fuel key (now + workspaceReadyTimeout) false.

(** [patchBase := ws.DeepCopy(); ws.Status.LastAccessed = metav1.Now();
    Status().Patch(...)]: a failed patch is only logged, and the local object
    keeps the new time. *)
Definition TouchLastAccessed (ws : Workspace) : api Workspace :=
  now ← request Now;
  let new := set_LastAccessed now ws in
  p ← request (PatchStatus ws new);
  match p with
  | Ok ws' => mret ws'
  | Err _ => mret new
  end.

(** The end of [EnsureWorkspace]: wait, then stamp the last access. *)
Definition waitAndStamp (fuel : nat) (key : NamespacedName) (created : bool) :
    api (option (result Workspace * EnsureDetails)) :=
  w ← waitForRunning fuel key;
  match w with
  | None => mret None
  | Some (Err e, restarted) => mret (Some (Err e, MkDetails created restarted))
  | Some (Ok ws, restarted) =>
    ws' ← TouchLastAccessed ws;
    mret (Some (Ok ws', MkDetails created restarted))
  end.

Definition EnsureWorkspace (fuel : nat) (cfg : LifecycleConfig) (namespace : string)
    (claims : Claims) : api (option (result Workspace * EnsureDetails)) :=
  let key := claims_key namespace claims in
  g ← request (GetWorkspace key);
  match g with
  | Err e =>
    if negb (IsNotFound e) then
      mret (Some (Err (errorf_w (about_workspace "get" (Claims_UserID claims)) e), no_details))
    else
      c ← request (CreateWorkspace (new_workspace cfg namespace claims));
      match c with
      | Err e =>
        mret (Some (Err (errorf_w (about_workspace "create" (Claims_UserID claims)) e),
                    MkDetails true false))
      | Ok _ => waitAndStamp fuel key true
      end
  | Ok _ => waitAndStamp fuel key false
  end.
End lifecycle.
