(* ===== verification/LifecycleProps.v ===== *)
(** * Properties of the workspace lifecycle

    What the gateway may ask of the API server for a user, that it waits no
    longer than its deadline, that it reports what it did, and that the
    Workspaces it creates pass the operator's validation. *)
From S2P Require Import Prelude GoStrings Regexp GoTime Api K8s K8sClient Cluster Resources Auth AuthProps.
From S2P Require Import Lifecycle Fixtures.
From Stdlib Require Import ZArith Lia.
#[local] Open Scope Z_scope.

Section gateway_spec.
Context `{UnicodeTables} `{K8sLib}.
Variable cfg : LifecycleConfig.
Variable namespace : string.
Variable claims : Claims.

Abbreviation key := (claims_key namespace claims).
Abbreviation history := (list (call apiE)).

(** The user's Workspace was read in this request. *)
Definition seen (h : history) (ws : Workspace) : Prop := Call (GetWorkspace key) (Ok ws) ∈ h.

(** What the gateway may do on behalf of the user. *)
Definition gw_justified (h : history) (c : call apiE) : Prop :=
  match c with
  | Call e _ =>
    match e with
    | GetWorkspace k => k = key
    | CreateWorkspace ws =>
      ws = new_workspace cfg namespace claims ∧
      ∃ err, Call (GetWorkspace key) (Err err) ∈ h ∧ IsNotFound err = true
    | PatchStatus base new =>
      seen h base ∧
      ((phase base = WorkspacePhaseStopped ∧ new = clear_phase base) ∨
       (phase base = WorkspacePhaseRunning ∧ ∃ t, last h = Some (Call Now t) ∧ new = set_LastAccessed t base))
    | Now => True
    | WaitOrDone d => d = workspaceReadyPoll
    | _ => False
    end
  end.

Abbreviation G := gw_justified.

Lemma EnsureExists_safe : safe G [] (EnsureExists cfg namespace claims).
Proof.
  unfold EnsureExists. apply safe_request; [done|]. intros [ws|e].
  - case_bool_decide as Hs; [|done]. apply safe_request; [|by intros [?|?]].
    intros x. split; [apply in_snoc|by left].
  - destruct (IsNotFound e) eqn:He; cbn [negb]; [|done].
    apply safe_request; [|by intros [?|?]]. intros x. split; [done|]. exists e. split; [apply in_snoc|done].
Qed.

Lemma waitLoop_safe fuel h deadline restarted : safe G h (waitLoop fuel key deadline restarted).
Proof.
  revert h restarted. induction fuel as [|n IH]; intros h restarted; [done|].
  cbn [waitLoop]. apply safe_request; [done|]. intros now. destruct (_ <? _); [|done].
  apply safe_request; [done|]. intros [ws|e]; [|done].
  assert (Hpoll : ∀ h' b, safe G h' (d ← request (WaitOrDone workspaceReadyPoll);
    match d with Some e => mret (Some (Err e, b)) | None => waitLoop n key deadline b end)).
  { intros h' b. apply safe_request; [done|]. intros [e|]; [done|]. apply IH. }
  case_bool_decide; [done|]. case_bool_decide; [done|]. case_bool_decide as Hst; [|apply Hpoll].
  apply safe_request; [|intros [ws'|e]; [apply Hpoll|done]].
  intros x. split; [apply in_snoc|by left].
Qed.

(** A wait that succeeds has just read a running workspace. *)
Lemma waitLoop_running fuel deadline restarted :
  post (waitLoop fuel key deadline restarted) (λ tr w, ∀ ws b, w = Some (Ok ws, b) →
    seen tr ws ∧ phase ws = WorkspacePhaseRunning ∧
    (b = restarted ∨ b = true ∧ ∃ old ws', seen tr old ∧ phase old = WorkspacePhaseStopped ∧
       Call (PatchStatus old (clear_phase old)) (Ok ws') ∈ tr)).
Proof.
  revert restarted. induction fuel as [|n IH]; intros restarted; [done|].
  cbn [waitLoop]. apply post_bind, post_request. intros now. destruct (_ <? _); [|done].
  apply post_bind, post_request. intros [ws|e]; [|done]. unfold seen in *.
  case_bool_decide as Hrun.
  { intros ws' b [= <- <-]. split_and!; [right; by left|done|by left]. }
  case_bool_decide; [done|]. case_bool_decide as Hst.
  - apply post_bind, post_request. intros [ws'|e]; [|done].
    apply post_bind, post_request. intros [e|]; [done|].
    eapply post_mono; [apply IH|]. intros tr w Hw ws2 b ->. destruct (Hw ws2 b eq_refl) as (Hs & Hr & Hb).
    split_and!; [by repeat right|done|]. right.
    destruct Hb as [-> | (-> & old & ws3 & ? & ? & ?)];
      (split; [done|]); [exists ws, ws' | exists old, ws3]; split_and!;
      first [done | by repeat right | right; by left | right; right; by left].
  - apply post_bind, post_request. intros [e|]; [done|].
    eapply post_mono; [apply IH|]. intros tr w Hw ws2 b ->. destruct (Hw ws2 b eq_refl) as (Hs & Hr & Hb).
    split_and!; [by repeat right|done|].
    destruct Hb as [-> | (-> & old & ws3 & ? & ? & ?)]; [by left|right].
    split; [done|]. exists old, ws3. split_and!; first [done | by repeat right].
Qed.

Lemma waitAndStamp_safe fuel h created : safe G h (waitAndStamp fuel key created).
Proof.
  unfold waitAndStamp, waitForRunning. apply safe_bind.
  { apply safe_request; [done|]. intros now. apply waitLoop_safe. }
  intros tr [[[ws|e] b]|] (now & tr' & -> & Hw)%exec_request; [|done|done].
  pose proof (exec_post _ _ _ _ Hw (waitLoop_running _ _ _)) as Hr.
  destruct (Hr ws b eq_refl) as (Hs & Hrun & _). unfold TouchLastAccessed.
  apply safe_bind; [|by intros ? ? _]. apply safe_request; [done|]. intros t.
  apply safe_request; [|by intros [?|?]]. intros x. unfold seen in *. split.
  - apply elem_of_app. left. apply elem_of_app. right. by right.
  - right. split; [done|]. exists t. split; [apply last_snoc|done].
Qed.

Lemma EnsureWorkspace_safe fuel : safe G [] (EnsureWorkspace fuel cfg namespace claims).
Proof.
  unfold EnsureWorkspace. apply safe_request; [done|].
  intros [ws|e]; [apply waitAndStamp_safe|]. destruct (IsNotFound e) eqn:He; cbn [negb]; [|done].
  apply safe_request; [|intros [ws|e']; [apply waitAndStamp_safe|done]].
  intros x. split; [done|]. exists e. split; [apply in_snoc|done].
Qed.

(** The running workspace that was read, and the attempt to stamp it. *)
Definition stamped (tr : history) (ws : Workspace) : Prop :=
  ∃ ws0 now x, seen tr ws0 ∧ phase ws0 = WorkspacePhaseRunning ∧ Call Now now ∈ tr ∧
    Call (PatchStatus ws0 (set_LastAccessed now ws0)) x ∈ tr ∧
    ws = match x with Ok ws' => ws' | Err _ => set_LastAccessed now ws0 end.

(** A stopped workspace was woken. *)
Definition woken (tr : history) : Prop :=
  ∃ old ws', seen tr old ∧ phase old = WorkspacePhaseStopped ∧
    Call (PatchStatus old (clear_phase old)) (Ok ws') ∈ tr.

Lemma stamped_mono h h' ws : h ⊆ h' → stamped h ws → stamped h' ws.
Proof.
  intros Hs (ws0 & now & x & ? & ? & ? & ? & ?). exists ws0, now, x. unfold seen in *. auto 10.
Qed.

Lemma woken_mono h h' : h ⊆ h' → woken h → woken h'.
Proof. intros Hs (old & ws' & ? & ? & ?). exists old, ws'. unfold seen in *. auto. Qed.

Lemma TouchLastAccessed_stamps ws0 :
  post (TouchLastAccessed ws0) (λ tr ws, ∃ now x,
    Call Now now ∈ tr ∧ Call (PatchStatus ws0 (set_LastAccessed now ws0)) x ∈ tr ∧
    ws = match x with Ok ws' => ws' | Err _ => set_LastAccessed now ws0 end).
Proof.
  unfold TouchLastAccessed. apply post_bind, post_request. intros now. apply post_bind, post_request.
  intros [ws'|e]; eexists now, _; (split_and!; [by left|right; by left|done]).
Qed.

Lemma waitAndStamp_result fuel created :
  post (waitAndStamp fuel key created) (λ tr w, ∀ ws d, w = Some (Ok ws, d) →
    stamped tr ws ∧ Created d = created ∧ (RestartedFromStopped d = true → woken tr)).
Proof.
  unfold waitAndStamp, waitForRunning. apply post_bind, post_bind, post_request. intros t0.
  eapply post_mono; [apply waitLoop_running|]. intros tr1 w Hw.
  destruct w as [[[ws0|e] b]|]; [|done|done]. destruct (Hw ws0 b eq_refl) as (Hs & Hrun & Hb).
  apply post_bind. eapply post_mono; [apply TouchLastAccessed_stamps|].
  intros tr2 ws (now & x & Hn & Hp & Hws) ws1 d [= -> <-]. rewrite app_nil_r.
  assert (Hsub1 : tr1 ⊆ ([Call Now t0] ++ tr1) ++ tr2).
  { intros c Hc. apply elem_of_app. left. by right. }
  assert (Hsub2 : tr2 ⊆ ([Call Now t0] ++ tr1) ++ tr2).
  { intros c Hc. apply elem_of_app. by right. }
  split_and!; [|done|].
  - exists ws0, now, x. unfold seen in *. auto 10.
  - cbn. intros ->. destruct Hb as [?|(_ & old & ws' & ? & ? & ?)]; [done|].
    exists old, ws'. unfold seen in *. auto.
Qed.
End gateway_spec.

(** ** The wait ends *)

(** The clock of a trace: it never runs backwards, and a completed wait takes at
    least its duration. *)
Fixpoint clocked `{K8sLib} (lo : Time) (tr : list (call apiE)) : Prop :=
  match tr with
  | [] => True
  | Call e x :: tr' =>
    match e in apiE Y return Y → Prop with
    | Now => λ t, lo <= t ∧ clocked t tr'
    | WaitOrDone d => λ w, clocked (match w with None => lo + d | Some _ => lo end) tr'
    | _ => λ _, clocked lo tr'
    end x
  end.

Lemma clocked_app `{K8sLib} lo tr1 tr2 : clocked lo (tr1 ++ tr2) → clocked lo tr1.
Proof.
  revert lo. induction tr1 as [|[X e x] tr1 IH]; intros lo; [done|].
  destruct e; cbn; try apply IH. intros [? ?]. eauto.
Qed.

Section waiting.
Context `{UnicodeTables} `{K8sLib}.

Lemma waitLoop_ends fuel key deadline restarted tr w lo :
  exec (waitLoop fuel key deadline restarted) tr w → clocked lo tr → (1 <= fuel)%nat →
  deadline - lo <= workspaceReadyPoll * (Z.of_nat fuel - 1) → is_Some w.
Proof.
  revert restarted tr lo. induction fuel as [|n IH]; intros restarted tr lo Hex Hcl Hf Hle; [lia|].
  assert (Hret : ∀ (x : result Workspace * bool) (tr' : list (call apiE)),
    exec (mret (Some x)) tr' w → is_Some w)
    by (intros x tr' [_ ->]; by eexists).
  cbn [waitLoop] in Hex. rewrite exec_request in Hex. destruct Hex as (now & tr1 & -> & Hex).
  destruct Hcl as [Hlo Hcl]. destruct (Z.ltb_spec now deadline) as [Hlt|Hge]; [|by eapply Hret].
  rewrite exec_request in Hex. destruct Hex as ([ws|e] & tr2 & -> & Hex); [|by eapply Hret].
  cbn in Hcl.
  assert (Hpoll : ∀ b tr3, exec (d ← request (WaitOrDone workspaceReadyPoll);
      match d with Some e => mret (Some (Err e, b)) | None => waitLoop n key deadline b end) tr3 w →
      clocked now tr3 → is_Some w).
  { intros b tr3 (d & tr4 & -> & Hd)%exec_request Hc. destruct d as [e|]; [by eapply Hret|].
    cbn in Hc. change workspaceReadyPoll with 2000000000 in *.
    eapply IH; [exact Hd|exact Hc|lia|lia]. }
  case_bool_decide; [by eapply Hret|]. case_bool_decide; [by eapply Hret|].
  case_bool_decide; [|by eapply Hpoll].
  rewrite exec_request in Hex. destruct Hex as ([ws'|e] & tr3 & -> & Hex); [|by eapply Hret].
  by eapply Hpoll.
Qed.

(** Thirty polls of two seconds fit in the sixty-second deadline; one more
    round notices that it has passed. *)
Lemma waitForRunning_ends key tr w lo :
  exec (waitForRunning 31 key) tr w → clocked lo tr → is_Some w.
Proof.
  unfold waitForRunning. rewrite exec_request. intros (now & tr' & -> & Hex) [_ Hcl].
  eapply waitLoop_ends; [exact Hex|exact Hcl|lia|].
  change workspaceReadyPoll with 2000000000. change workspaceReadyTimeout with 60000000000. lia.
Qed.

Lemma waitAndStamp_ends key created tr w lo :
  exec (waitAndStamp 31 key created) tr w → clocked lo tr → is_Some w.
Proof.
  intros (tr3 & w' & tr4 & -> & Hw & Hk)%exec_bind Hc.
  destruct (waitForRunning_ends _ _ _ lo Hw) as [[[ws|e] b] ->]; [by eapply clocked_app|..].
  - apply exec_bind in Hk as (tr5 & ws' & tr6 & _ & _ & Hr). destruct Hr as [_ ->]. by eexists.
  - destruct Hk as [_ ->]. by eexists.
Qed.
End waiting.

Section lifecycle_theorems.
Context `{UnicodeTables} `{K8sLib}.
Variable cfg : LifecycleConfig.
Variable namespace : string.
Variable claims : Claims.

Lemma EnsureWorkspace_ends tr w lo :
  exec (EnsureWorkspace 31 cfg namespace claims) tr w → clocked lo tr → is_Some w.
Proof.
  unfold EnsureWorkspace. rewrite exec_request. intros (g & tr1 & -> & Hex) Hcl. cbn in Hcl.
  destruct g as [ws|e]; [by eapply waitAndStamp_ends|].
  destruct (negb (IsNotFound e)); [destruct Hex as [_ ->]; by eexists|].
  rewrite exec_request in Hex. destruct Hex as ([ws|e'] & tr2 & -> & Hex).
  - by eapply waitAndStamp_ends.
  - destruct Hex as [_ ->]. by eexists.
Qed.

(** [EnsureWorkspace] returns: when the clock does not run backwards and a
    two-second wait takes at least two seconds, 31 rounds of the loop are
    enough, and the call answers with the workspace or an error. *)
Theorem EnsureWorkspace_returns tr w lo :
  exec (EnsureWorkspace 31 cfg namespace claims) tr w → clocked lo tr → is_Some w.
Proof. apply EnsureWorkspace_ends. Qed.

(** [EnsureExists], exactly: the first request reads the caller's Workspace;
    a read error other than not-found is reported and nothing is written; a
    missing Workspace is created, a stopped one is woken, any other is
    returned as read, with no second request; and the details say which of
    these was done. *)
Theorem EnsureExists_exact tr res d :
  exec (EnsureExists cfg namespace claims) tr (res, d) →
  ∃ g tr', tr = Call (GetWorkspace (claims_key namespace claims)) g :: tr' ∧
  match g with
  | Err e =>
    if IsNotFound e then
      d = MkDetails true false ∧ ∃ c, tr' = [Call (CreateWorkspace (new_workspace cfg namespace claims)) c] ∧
        res = match c with
              | Ok ws => Ok ws
              | Err e => Err (errorf_w (about_workspace "create" (Claims_UserID claims)) e) end
    else d = no_details ∧ tr' = [] ∧
         res = Err (errorf_w (about_workspace "get" (Claims_UserID claims)) e)
  | Ok ws =>
    if decide (phase ws = WorkspacePhaseStopped) then
      d = MkDetails false true ∧ ∃ p, tr' = [Call (PatchStatus ws (clear_phase ws)) p] ∧
        res = match p with
              | Ok ws' => Ok ws'
              | Err e => Err (errorf_w (about_workspace "restart stopped" (Claims_UserID claims)) e) end
    else d = no_details ∧ tr' = [] ∧ res = Ok ws
  end.
Proof.
  unfold EnsureExists. rewrite exec_request. intros (g & tr' & -> & Hex). exists g, tr'.
  split; [done|]. destruct g as [ws|e].
  - case_decide as Hs; [rewrite bool_decide_true in Hex by done|rewrite bool_decide_false in Hex by done].
    + rewrite exec_request in Hex. destruct Hex as (p & tr2 & -> & Hex).
      destruct p; destruct Hex as [-> [= -> ->]]; (split; [done|]); by eexists.
    + by destruct Hex as [-> [= -> ->]].
  - destruct (IsNotFound e); cbn [negb] in Hex; [|by destruct Hex as [-> [= -> ->]]].
    rewrite exec_request in Hex. destruct Hex as (c & tr2 & -> & Hex).
    destruct c; destruct Hex as [-> [= -> ->]]; (split; [done|]); by eexists.
Qed.

Lemma EnsureWorkspace_outcome fuel tr ws d :
  exec (EnsureWorkspace fuel cfg namespace claims) tr (Some (Ok ws, d)) →
  stamped namespace claims tr ws ∧
  (Created d = true →
     ∃ ws', Call (CreateWorkspace (new_workspace cfg namespace claims)) (Ok ws') ∈ tr) ∧
  (RestartedFromStopped d = true → woken namespace claims tr).
Proof.
  unfold EnsureWorkspace. rewrite exec_request. intros (g & tr1 & -> & Hex).
  destruct g as [ws1|e].
  - destruct (exec_post _ _ _ _ Hex (waitAndStamp_result _ _ _ _) _ _ eq_refl) as (Hs & Hc & Hr).
    split_and!.
    + eapply stamped_mono; [|done]. by right.
    + by rewrite Hc.
    + intros ?%Hr. eapply woken_mono; [|done]. by right.
  - destruct (negb (IsNotFound e)); [by destruct Hex|].
    rewrite exec_request in Hex. destruct Hex as ([ws1|e'] & tr2 & -> & Hex); [|by destruct Hex].
    destruct (exec_post _ _ _ _ Hex (waitAndStamp_result _ _ _ _) _ _ eq_refl) as (Hs & Hc & Hr).
    split_and!.
    + eapply stamped_mono; [|done]. intros c ?. by do 2 right.
    + intros _. exists ws1. right. by left.
    + intros ?%Hr. eapply woken_mono; [|done]. intros c ?. by do 2 right.
Qed.

(** When [EnsureWorkspace] succeeds, the caller's Workspace was read as
    Running in this call and its last access was then stamped with the
    current time (the answer is the server's object, or the local one when
    that patch failed); a reported creation or restart has really been
    made. *)
Theorem EnsureWorkspace_running fuel tr ws d :
  exec (EnsureWorkspace fuel cfg namespace claims) tr (Some (Ok ws, d)) →
  stamped namespace claims tr ws ∧
  (Created d = true →
     ∃ ws', Call (CreateWorkspace (new_workspace cfg namespace claims)) (Ok ws') ∈ tr) ∧
  (RestartedFromStopped d = true → woken namespace claims tr).
Proof. apply EnsureWorkspace_outcome. Qed.

(** The gateway is configured with defaults the operator accepts. *)
Record config_ok : Prop := {
  cfg_cpu : quantity_ok (DefaultCPU cfg);
  cfg_memory : quantity_ok (DefaultMemory cfg);
  cfg_storage : quantity_ok (DefaultStorage cfg);
  cfg_providers : Providers cfg ≠ [] ∧ Forall provider_ok (Providers cfg);
}.
End lifecycle_theorems.

Section contract.
Context `{UnicodeTables} `{K8sLib}.

(** The contract between gateway and operator: the Workspace the gateway creates
    for a verified token passes the operator's validation exactly when the subject
    leaves a non-empty user id, the token carries an email and the gateway's
    defaults are acceptable. *)
Theorem new_workspace_valid cfg namespace t email :
  ValidateSpec (Some (new_workspace cfg namespace (claims_of t email))) = None ↔
  sanitizeUserID (Subject_ t) ≠ "" ∧ email ≠ "" ∧ config_ok cfg.
Proof.
  rewrite ValidateSpec_iff. split.
  - intros [Hid _ Hem Hc Hm Hs Hp _]. split; [by apply dns_label_nonempty in Hid|]. split; [done|]. by split.
  - intros (Hne & Hem & [? ? ? ?]). destruct (sanitizeUserID_label_or_empty (Subject_ t)) as [E|[Hd Hl]]; [done|].
    split; try done. by left.
Qed.
End contract.

(** ** Witnesses *)

#[local] Existing Instance ascii_tables.
#[local] Existing Instance RefLib.

Definition demo_cfg : LifecycleConfig :=
  MkLifecycleConfig [MkAIProvider "local" "http://vllm:8000" ["llama"]] "2" "4Gi" "20Gi" "".
Definition demo_claims : Claims := MkClaims "alice" "alice@example.com" "alice".

(** A user without a Workspace; one whose Workspace runs. *)
Definition no_workspace : cluster := MkCluster None None None demo_now.

Definition exists_trace (c : cluster) : list (call apiE) :=
  run_trace serve (EnsureExists demo_cfg "workspaces" demo_claims) c.
Definition ensure_trace (c : cluster) : list (call apiE) :=
  run_trace serve (EnsureWorkspace 31 demo_cfg "workspaces" demo_claims) c.

(** The operator is not there: the gateway polls for a minute and gives up. *)
Lemma EnsureWorkspace_returns_witness :
  length (ensure_trace no_workspace) = 94%nat ∧
  is_Some (run serve (EnsureWorkspace 31 demo_cfg "workspaces" demo_claims) no_workspace).1.
Proof.
  split; [vm_compute; reflexivity|].
  apply (EnsureWorkspace_returns demo_cfg "workspaces" demo_claims (ensure_trace no_workspace) _ 0).
  - apply run_exec.
  - vm_compute. repeat (split; [discriminate|]). exact I.
Defined.

Lemma EnsureExists_exact_witness :
  ∃ g tr', exists_trace no_workspace = Call (GetWorkspace demo_req) g :: tr'.
Proof.
  pose proof (run_exec serve (EnsureExists demo_cfg "workspaces" demo_claims) no_workspace) as Hex.
  destruct (run serve _ no_workspace).1 as [res d] eqn:E.
  destruct (EnsureExists_exact demo_cfg "workspaces" demo_claims _ res d Hex) as (g & tr' & Ht & _).
  exists g, tr'. exact Ht.
Defined.

Definition demo_running_cluster : cluster := demo_cluster (demo_ws ["workspace.devplane.io/finalizer"] "Running" 1).

Lemma EnsureWorkspace_running_witness :
  ∃ ws, stamped "workspaces" demo_claims (ensure_trace demo_running_cluster) ws.
Proof.
  assert (Hr : ∃ ws d, (run serve (EnsureWorkspace 31 demo_cfg "workspaces" demo_claims)
    demo_running_cluster).1 = Some (Ok ws, d)) by (eexists _, _; vm_compute; reflexivity).
  destruct Hr as (ws & d & Hr).
  pose proof (run_exec serve (EnsureWorkspace 31 demo_cfg "workspaces" demo_claims)
    demo_running_cluster) as Hex. rewrite Hr in Hex.
  exists ws. exact (proj1 (EnsureWorkspace_running demo_cfg "workspaces" demo_claims 31 _ ws d Hex)).
Defined.

Lemma demo_cfg_ok : config_ok demo_cfg.
Proof.
  split; cbn; try (by split).
  split; [done|]. constructor; [|constructor]. by split_and!.
Qed.

Lemma new_workspace_valid_witness :
  ValidateSpec (Some (new_workspace demo_cfg "workspaces"
    (claims_of (MkIDToken "user|12345" (Ok "u@example.com")) "u@example.com"))) = None.
Proof.
  apply (new_workspace_valid demo_cfg "workspaces").
  split; [by vm_compute|]. split; [done|exact demo_cfg_ok].
Defined.
