(* ===== verification/Permissions.v ===== *)
(** * What the operator and the gateway are permitted to do

    The roles the project installs for its two programs, the permissions their
    requests need under the RBAC authorizer, and that the former cover the
    latter.  Writing a Role needs, besides the verb, every permission the Role
    grants (the authorizer's escalation prevention). *)
From S2P Require Import Prelude GoStrings GoTime Api K8s K8sClient Resources Rbac Controller Cluster.
From S2P Require Import ControllerSpec Fixtures ControllerProps Auth AuthProps Lifecycle LifecycleProps.

(** ** The installed roles *)

Definition ws_group : string := "workspace.devplane.io".
Definition all_verbs : list string := ["get"; "list"; "watch"; "create"; "update"; "patch"; "delete"].

(** The [+kubebuilder:rbac] markers of the reconciler. *)
Definition marker_rules : list PolicyRule :=
  [MkPolicyRule [ws_group] ["workspaces"] all_verbs;
   MkPolicyRule [ws_group] ["workspaces/status"] ["get"; "update"; "patch"];
   MkPolicyRule [ws_group] ["workspaces/finalizers"] ["update"];
   MkPolicyRule [""] ["events"] ["create"; "patch"];
   MkPolicyRule ["events.k8s.io"] ["events"] ["create"; "patch"; "update"];
   MkPolicyRule [""] ["pods"; "persistentvolumeclaims"; "services"; "serviceaccounts"] all_verbs;
   MkPolicyRule [rbac_GroupName] ["rolebindings"; "roles"] all_verbs;
   MkPolicyRule ["networking.k8s.io"] ["networkpolicies"] all_verbs].

Definition sorted_verbs : list string := ["create"; "delete"; "get"; "list"; "patch"; "update"; "watch"].
(** The ClusterRole [config/rbac/role.yaml]. *)
Definition manager_rules : list PolicyRule :=
  [MkPolicyRule [""] ["events"] ["create"; "patch"];
   MkPolicyRule ["events.k8s.io"] ["events"] ["create"; "patch"; "update"];
   MkPolicyRule [""] ["persistentvolumeclaims"; "pods"; "serviceaccounts"; "services"] sorted_verbs;
   MkPolicyRule ["networking.k8s.io"] ["networkpolicies"] sorted_verbs;
   MkPolicyRule [rbac_GroupName] ["rolebindings"; "roles"] sorted_verbs;
   MkPolicyRule [ws_group] ["workspaces"] sorted_verbs;
   MkPolicyRule [ws_group] ["workspaces/finalizers"] ["update"];
   MkPolicyRule [ws_group] ["workspaces/status"] ["get"; "patch"; "update"]].

(** The ClusterRole of the Helm chart. *)
Definition helm_rules : list PolicyRule :=
  [MkPolicyRule [ws_group] ["workspaces"] all_verbs;
   MkPolicyRule [ws_group] ["workspaces/status"; "workspaces/finalizers"] ["get"; "update"; "patch"];
   MkPolicyRule [""] ["pods"; "persistentvolumeclaims"; "services"; "serviceaccounts"] all_verbs;
   MkPolicyRule [""] ["endpoints"; "pods/log"] ["get"; "list"; "watch"];
   MkPolicyRule ["apps"] ["deployments"; "replicasets"; "statefulsets"; "daemonsets"] ["get"; "list"; "watch"];
   MkPolicyRule [rbac_GroupName] ["roles"; "rolebindings"] all_verbs;
   MkPolicyRule ["networking.k8s.io"] ["networkpolicies"] all_verbs;
   MkPolicyRule ["coordination.k8s.io"] ["leases"] all_verbs;
   MkPolicyRule [""] ["configmaps"; "events"] all_verbs;
   MkPolicyRule ["events.k8s.io"] ["events"] ["create"; "patch"; "update"]].

(** The gateway's ClusterRole, the same in both. *)
Definition gateway_rules : list PolicyRule :=
  [MkPolicyRule [ws_group] ["workspaces"] ["get"; "list"; "watch"; "create"];
   MkPolicyRule [ws_group] ["workspaces/status"] ["get"; "patch"; "update"]].

(** ** What requests need *)

(** The requests a rule names. *)
Definition breakdown (r : PolicyRule) : list attributes :=
  APIGroups r ≫= (λ g, Resources r ≫= (λ res, map (λ v, MkAttributes v g res) (Verbs r))).

(** Everything [rules] grants, the holder of [owner] has. *)
Definition grants_covered (owner rules : list PolicyRule) : bool :=
  forallb (λ a, role_allows a owner) (rules ≫= breakdown).

Lemma elem_of_breakdown a r :
  a ∈ breakdown r ↔
  (attr_group a ∈ APIGroups r) ∧ (attr_resource a ∈ Resources r) ∧ (attr_verb a ∈ Verbs r).
Proof.
  unfold breakdown. rewrite list_elem_of_bind. setoid_rewrite list_elem_of_bind.
  setoid_rewrite list_elem_of_fmap.
  destruct a as [v g res]; cbn. naive_solver.
Qed.

(** Rules without wildcards. *)
Definition plain (r : PolicyRule) : Prop :=
  ("*" ∉ Verbs r) ∧ ("*" ∉ APIGroups r) ∧ ("*" ∉ Resources r).

Lemma rule_allows_breakdown a r : plain r → (rule_allows a r = true) ↔ a ∈ breakdown r.
Proof.
  intros (Hv & Hg & Hr). unfold rule_allows. rewrite !andb_true_iff, !covers_In by done.
  rewrite elem_of_breakdown. naive_solver.
Qed.

(** Covering is inclusion of the requests allowed. *)
Lemma grants_covered_spec owner rules :
  Forall plain rules →
  (grants_covered owner rules = true) ↔ ∀ a, role_allows a rules = true → role_allows a owner = true.
Proof.
  intros Hp. rewrite Forall_forall in Hp. unfold grants_covered. rewrite forallb_forall. split.
  - intros Hc a [r [Hr%list_elem_of_In Ha]]%existsb_exists. apply Hc, list_elem_of_In, list_elem_of_bind.
    exists r. split; [|done]. apply rule_allows_breakdown; auto.
  - intros Hc a (r & Ha & Hr)%list_elem_of_In%list_elem_of_bind. apply Hc, existsb_exists. exists r.
    split; [by apply list_elem_of_In|]. apply rule_allows_breakdown; auto.
Qed.

(** The generated ClusterRole allows what the markers ask for, no more. *)
Lemma manager_role_generated a : role_allows a manager_rules = role_allows a marker_rules.
Proof.
  apply eq_bool_prop_intro. rewrite !Is_true_true.
  assert (Hm : Forall plain manager_rules ∧ Forall plain marker_rules) by (split; apply (bool_decide_unpack _); done).
  split; revert a; apply grants_covered_spec; try apply Hm; reflexivity.
Qed.

Definition ask (v g res : string) : attributes := MkAttributes v g res.

Section needs.
Context `{UnicodeTables} `{K8sLib}.

(** The API group and resource of a kind. *)
Definition kind_resource {T} (k : kind T) : string * string :=
  match k with
  | KServiceAccount => ("", "serviceaccounts")
  | KRole => (rbac_GroupName, "roles")
  | KRoleBinding => (rbac_GroupName, "rolebindings")
  | KNetworkPolicy => ("networking.k8s.io", "networkpolicies")
  | KService => ("", "services")
  end.

(** A read through the operator's cache, which lists and watches. *)
Definition cached_read (g res : string) : list attributes :=
  [ask "get" g res; ask "list" g res; ask "watch" g res].
(** An object created with a controller reference that blocks the deletion of the
    Workspace. *)
Definition owned_create (g res : string) : list attributes :=
  [ask "create" g res; ask "update" ws_group "workspaces/finalizers"].

Definition operator_needs {X} (e : apiE X) : list attributes :=
  match e with
  | GetWorkspace _ => cached_read ws_group "workspaces"
  | GetPVC _ => cached_read "" "persistentvolumeclaims"
  | GetPod _ => cached_read "" "pods"
  | CreateWorkspace _ => [ask "create" ws_group "workspaces"]
  | CreatePVC _ => owned_create "" "persistentvolumeclaims"
  | CreatePod _ => owned_create "" "pods"
  | DeletePod _ => [ask "delete" "" "pods"]
  | UpdateWorkspace _ => [ask "update" ws_group "workspaces"]
  | PatchStatus _ _ => [ask "patch" ws_group "workspaces/status"]
  | CreateOrUpdate k _ _ =>
    let '(g, res) := kind_resource k in
    cached_read g res ++ owned_create g res ++ [ask "update" g res]
  (** through the [events.k8s.io] recorder, which patches a series *)
  | Eventf _ _ => [ask "create" "events.k8s.io" "events"; ask "patch" "events.k8s.io" "events"]
  | Now | WaitOrDone _ | IncStatusPatchFailures | IncPhaseTransitions _ _ | LogAuditLine _ _ => []
  end.

(** The gateway's client has no cache. *)
Definition gateway_needs {X} (e : apiE X) : list attributes :=
  match e with
  | GetWorkspace _ => [ask "get" ws_group "workspaces"]
  | e => operator_needs e
  end.

Definition allowed (rules : list PolicyRule) (l : list attributes) : Prop :=
  Forall (λ a, role_allows a rules = true) l.

(** The rules the object written by a mutation grants, if it is a Role. *)
Definition writes_covered {T} (owner : list PolicyRule) (k : kind T) : (T → result T) → Prop :=
  match k in kind T return (T → result T) → Prop with
  | KRole => λ f, ∀ o o', f o = Ok o' → grants_covered owner (Rules o') = true
  | _ => λ _, True
  end.

(** A request the authorizer lets the operator make. *)
Definition permitted (rules : list PolicyRule) (c : call apiE) : Prop :=
  match c with
  | Call e _ => allowed rules (operator_needs e) ∧
    match e with CreateOrUpdate k _ f => writes_covered rules k f | _ => True end
  end.
End needs.

Section theorems.
Context `{UnicodeTables} `{K8sLib} `{!K8sLaws}.

(** The verbs the operator needs, by either role. *)
Lemma operator_needs_allowed {X} (e : apiE X) :
  allowed helm_rules (operator_needs e) ∧ allowed marker_rules (operator_needs e).
Proof. destruct e as [| | | | | | | | |T k obj f| | | | | |]; [..|destruct k| | | | | |]; by repeat constructor. Qed.

Lemma helm_covers_workspace_rules : grants_covered helm_rules workspace_rules = true.
Proof. reflexivity. Qed.

Section operator.
Context (r : WorkspaceReconciler) (req : NamespacedName).

(** C18. With the role of the Helm chart every request of every run of the
      operator is permitted: each verb, API group and resource it needs, the
      reads its cache makes, the permission to block the deletion of the owner,
      and, for the Role it writes, every permission that Role grants (the
      escalation check).  The role gives no access to Secrets. *)
Theorem operator_permitted h c :
  asks (Reconcile r req) h c →
  permitted helm_rules c ∧ ∀ v, role_allows (ask v "" "secrets") helm_rules = false.
Proof.
  intros Ha%(safe_asks _ _ _ _ (Reconcile_safe r req)). split.
  2: { intros v. apply not_true_is_false. intros [x [Hx Hv]]%existsb_exists. cbn in Hx.
       apply andb_true_iff in Hv as [[_ Hg]%andb_true_iff Hr].
       by repeat (destruct Hx as [<-|Hx]; [by vm_compute in Hg, Hr|]). }
  destruct c as [X e x]. split; [apply operator_needs_allowed|].
  destruct e as [| | | | | | | | |T k obj f| | | | | |]; try done. destruct k; try done. cbn.
  intros o o' Ho. destruct Ha as (ws & _ & _ & Hf). destruct (Hf o o' Ho) as [_ Hg]. cbn in Hg. by rewrite Hg.
Qed.

(** The Role a call has stored or left as it was: its key and its mutation. *)
Definition role_kept (c : call apiE) : option (Role * (Role → result Role)) :=
  match c with
  | Call e x =>
    match e in apiE Y return Y → option (Role * (Role → result Role)) with
    | CreateOrUpdate k obj f => λ x,
      match x with
      | Ok _ =>
        match k in kind T return T → (T → result T) → option (Role * (Role → result Role)) with
        | KRole => λ obj f, Some (obj, f)
        | _ => λ _ _, None
        end obj f
      | Err _ => None
      end
    | _ => λ _, None
    end x
  end.

(** The escalation check, on the answers: [CreateOrUpdate] of a Role succeeds when
    the Role is in the store already (it may then need no write), or when it is
    created and the writer has everything it grants. *)
Fixpoint escalation_checked (owner : list PolicyRule) (stored : list NamespacedName) (h : list (call apiE)) : Prop :=
  match h with
  | [] => True
  | c :: h' =>
    match role_kept c with
    | Some (obj, f) =>
      (key_of (Role_Meta obj) ∈ stored ∨ ∃ o, f obj = Ok o ∧ grants_covered owner (Rules o) = true) ∧
      escalation_checked owner (key_of (Role_Meta obj) :: stored) h'
    | None => escalation_checked owner stored h'
    end
  end.

(** The calls of one run, as far as it came. *)
Definition run_of (h : list (call apiE)) : Prop :=
  ∃ req' tr a, exec (Reconcile r req') tr a ∧ h `prefix_of` tr.

(** Every Role the operator keeps has the workspace's rules. *)
Definition grants_workspace (c : call apiE) : Prop :=
  match role_kept c with Some (_, f) => ∀ o o', f o = Ok o' → Rules o' = workspace_rules | None => True end.

Lemma justified_grants req' h c : justified r req' h c → grants_workspace c.
Proof.
  destruct c as [X e x]. destruct e as [| | | | | | | | |T k obj f| | | | | |]; try done. intros (ws & _ & _ & Hf).
  unfold grants_workspace, role_kept. destruct x as [u|]; [|done]. destruct k; try done.
  intros o o' Ho. by destruct (Hf o o' Ho) as [_ ?].
Qed.

Lemma run_of_grants h : run_of h → Forall grants_workspace h.
Proof.
  intros (req' & tr & a & Hex & [t ->]). apply Forall_forall. intros c (t1 & t2 & ->)%list_elem_of_split.
  rewrite <- app_assoc in Hex. eapply justified_grants.
  exact (safe_elim _ [] _ _ _ t1 c (t2 ++ t) (Reconcile_safe r req') Hex eq_refl).
Qed.

(** Nothing is stored that the writer does not cover. *)
Lemma nothing_stored h :
  Forall grants_workspace h → escalation_checked marker_rules [] h → Forall (λ c, role_kept c = None) h.
Proof.
  induction h as [|c h IH]; [constructor|]. intros [Hc Hh]%Forall_cons Hch. cbn in Hch. unfold grants_workspace in Hc.
  destruct (role_kept c) as [[obj f]|] eqn:E; [|constructor; auto].
  destruct Hch as [[Hin|(o & Ho & Hg)] _]; [by apply elem_of_nil in Hin|].
  rewrite (Hc _ _ Ho) in Hg. done.
Qed.

(** C19. With the role generated from the reconciler's own markers the operator
      cannot work: every verb its requests need is there, but the Role it
      writes for a user grants reads (of ConfigMaps, Events, Endpoints, pod logs
      and workloads) that the operator's role does not have.  Where the API server
      prevents escalation and no Role of a workspace was there before, no
      operator run, after whatever runs came before it and whatever else the
      server answered, ever creates a Pod. *)
Theorem marker_role_insufficient :
  (∀ X (e : apiE X), allowed marker_rules (operator_needs e)) ∧
  grants_covered marker_rules workspace_rules = false ∧
  ∀ hs h pod x, Forall run_of hs → asks (Reconcile r req) h (Call (CreatePod pod) x) →
    ¬ escalation_checked marker_rules [] (concat hs ++ h).
Proof.
  split; [intros X e; apply operator_needs_allowed|]. split; [reflexivity|].
  intros hs h pod x Hruns Ha Hch.
  pose proof (safe_asks _ _ _ _ (Reconcile_safe r req) Ha) as (ws & e & Hs & _).
  destruct (secured_rbac _ _ _ _ Hs) as (_ & (obj & f & Hin & _) & _).
  destruct Ha as (tr & a & Hex).
  assert (Hall : Forall grants_workspace (concat hs ++ h)).
  { apply Forall_app. split.
    - apply Forall_concat. eapply Forall_impl; [exact Hruns|exact run_of_grants].
    - apply run_of_grants. exists req, (h ++ Call (CreatePod pod) x :: tr), a. split; [exact Hex|by eexists]. }
  apply nothing_stored in Hall; [|done]. rewrite Forall_forall in Hall.
  assert (Hn : role_kept (Call (CreateOrUpdate KRole obj f) (Ok ())) = None) by (apply Hall, elem_of_app; by right).
  done.
Qed.
End operator.

(** C20. Every request the gateway makes of the API server for a user, reading or
      creating the Workspace, waiting for it, restarting it and stamping it, is
      permitted by the gateway's role (the stamps of an open session are the same
      request as the last of these), which allows nothing on any other kind
      of object, and neither updating, deleting nor patching a Workspace but
      for its status. *)
Theorem gateway_permitted cfg namespace claims fuel h c :
  asks (EnsureExists cfg namespace claims) h c ∨ asks (EnsureWorkspace fuel cfg namespace claims) h c →
  (match c with Call e _ => allowed gateway_rules (gateway_needs e) end) ∧
  ∀ a, role_allows a gateway_rules = true →
    attr_group a = ws_group ∧
    (attr_resource a = "workspaces" ∧ attr_verb a ∈ ["get"; "list"; "watch"; "create"] ∨
     attr_resource a = "workspaces/status" ∧ attr_verb a ∈ ["get"; "patch"; "update"]).
Proof.
  intros Ha. split.
  - assert (Hj : gw_justified cfg namespace claims h c).
    { destruct Ha as [Ha|Ha]; [exact (safe_asks _ _ _ _ (EnsureExists_safe cfg namespace claims) Ha)
      |exact (safe_asks _ _ _ _ (EnsureWorkspace_safe cfg namespace claims fuel) Ha)]. }
    destruct c as [X e x], e; try done; by repeat constructor.
  - intros a [x [Hx Hv]]%existsb_exists.
    assert (Hp : plain x) by (destruct Hx as [<-|[<-|[]]]; by apply (bool_decide_unpack _)).
    apply (rule_allows_breakdown _ _ Hp), elem_of_breakdown in Hv as (Hg & Hr & Hv).
    destruct Hx as [<-|[<-|[]]]; apply list_elem_of_singleton in Hg, Hr; auto.
Qed.
End theorems.

(** ** Witnesses *)

#[local] Existing Instance ascii_tables.
#[local] Existing Instance RefLib.

Lemma operator_permitted_witness :
  ∃ h pod x, asks (Reconcile demo_r demo_req) h (Call (CreatePod pod) x) ∧
    permitted helm_rules (Call (CreatePod pod) x).
Proof.
  destruct demo_created as (h & pod & x & Ha). exists h, pod, x. split; [exact Ha|].
  exact (proj1 (@operator_permitted _ _ RefLib_laws demo_r demo_req _ _ Ha)).
Defined.

(** A server that refuses to store the Role. *)
Definition serve_checked (X : Type) (e : apiE X) (c : cluster) : X * cluster :=
  match e in apiE Y return Y * cluster with
  | CreateOrUpdate k obj f =>
    match k with KRole => (Err (errors_new "attempting to grant RBAC permissions not currently held"), c) | _ => serve _ (CreateOrUpdate k obj f) c end
  | e' => serve _ e' c
  end.
Definition checked_trace : list (call apiE) := run_trace serve_checked (Reconcile demo_r demo_req) finalized_cluster.

Lemma marker_role_insufficient_witness :
  escalation_checked marker_rules [] (concat [checked_trace; checked_trace]) ∧
  ∃ h pod x, asks (Reconcile demo_r demo_req) h (Call (CreatePod pod) x) ∧
    ¬ escalation_checked marker_rules [] (concat [checked_trace; checked_trace] ++ h).
Proof.
  split; [vm_compute; exact I|].
  destruct demo_created as (h & pod & x & Ha). exists h, pod, x. split; [exact Ha|].
  assert (Hr : run_of demo_r checked_trace).
  { exists demo_req, checked_trace, (run serve_checked (Reconcile demo_r demo_req) finalized_cluster).1.
    split; [apply run_exec|exists []; by rewrite app_nil_r]. }
  refine (proj2 (proj2 (@marker_role_insufficient _ _ RefLib_laws demo_r demo_req)) _ _ _ _ _ Ha).
  constructor; [exact Hr|]. constructor; [exact Hr|constructor].
Defined.

Lemma gateway_permitted_witness :
  ∃ h c, asks (EnsureExists demo_cfg "workspaces" demo_claims) h c ∧
    match c with Call e _ => allowed gateway_rules (gateway_needs e) end.
Proof.
  assert (Ha : ∃ h c, asks (EnsureExists demo_cfg "workspaces" demo_claims) h c).
  { eexists _, _. apply (run_asks serve _ no_workspace 1). vm_compute. reflexivity. }
  destruct Ha as (h & c & Ha). exists h, c. split; [exact Ha|].
  exact (proj1 (gateway_permitted demo_cfg "workspaces" demo_claims 31 h c (or_introl Ha))).
Defined.
