(* ===== verification/DeepCopy.v ===== *)
(** * Deep copies ([api/v1alpha1/zz_generated.deepcopy.go])

    Go values with pointers and slices, in a heap.  The generated methods are
    written against it, one by one; what a heap value stands for is a value of
    the types of [Api].  The theorem is that a copy stands for the same value
    and shares no memory with the original, which is what lets the rest of the
    development treat [base := ws.DeepCopy()] as taking the value. *)
From S2P Require Import Prelude GoTime Api.
From stdpp Require Import fin_maps infinite.
From Stdlib Require Import ZArith Lia.
#[local] Open Scope nat_scope.

(** ** Go values *)

Abbreviation loc := nat.

(** A pointer to an element of an allocated array (of length one for [new]), and a
    slice of an array. *)
Record ptr := MkPtr { p_arr : loc; p_idx : nat }.
Record slice := MkSlice { sl_arr : loc; sl_off : nat; sl_len : nat }.

Record go_AIProvider := GoAIProvider {
  g_Name : string; g_Endpoint : string; g_Models : option slice }.
Record go_AIConfiguration := GoAIConfiguration {
  g_Providers : option slice; g_EgressNamespaces : option slice; g_EgressPorts : option slice }.
Record go_TLSConfig := GoTLSConfig { g_CustomCABundle : option ptr }.
Record go_WorkspaceSpec := GoWorkspaceSpec {
  g_User : UserInfo; g_Resources : ResourceRequirements; g_AIConfig : go_AIConfiguration;
  g_Persistence : PersistenceConfig; g_TLS : go_TLSConfig; g_Lifecycle : WorkspaceLifecycleSpec }.
Record go_WorkspaceStatus := GoWorkspaceStatus {
  g_Phase : WorkspacePhase; g_PodName : string; g_ServiceEndpoint : string; g_Message : string;
  g_RemediationHint : string; g_Conditions : option slice; g_LastAccessed : Time }.
(** [metav1.TypeMeta]. *)
Record TypeMeta := MkTypeMeta { TM_Kind : string; TM_APIVersion : string }.

(** The metadata types are the library's: [meta] is how their structs look,
    [meta_cell] what they point to. *)
Record go_Workspace (meta : Type) := GoWorkspace {
  g_TypeMeta : TypeMeta; g_ObjectMeta : meta; g_Spec : go_WorkspaceSpec; g_Status : go_WorkspaceStatus }.
Record go_WorkspaceList (meta : Type) := GoWorkspaceList {
  g_ListTypeMeta : TypeMeta; g_ListMeta : meta; g_Items : option slice }.
Arguments GoWorkspace {_}. Arguments g_TypeMeta {_}. Arguments g_ObjectMeta {_}.
Arguments g_Spec {_}. Arguments g_Status {_}.
Arguments GoWorkspaceList {_}. Arguments g_ListTypeMeta {_}. Arguments g_ListMeta {_}. Arguments g_Items {_}.

(** An allocated array. *)
Inductive cell {meta lmeta meta_cell : Type} :=
  | CStrings (l : list string)
  | CInts (l : list Z)
  | CProviders (l : list go_AIProvider)
  | CConfigurations (l : list go_AIConfiguration)
  | CBundles (l : list CABundleRef)
  | CTLS (l : list go_TLSConfig)
  | CPersistence (l : list PersistenceConfig)
  | CResources (l : list ResourceRequirements)
  | CUsers (l : list UserInfo)
  | CLifecycles (l : list WorkspaceLifecycleSpec)
  | CConditions (l : list Condition)
  | CSpecs (l : list go_WorkspaceSpec)
  | CStatuses (l : list go_WorkspaceStatus)
  | CWorkspaces (l : list (go_Workspace meta))
  | CLists (l : list (go_WorkspaceList lmeta))
  | CMeta (c : meta_cell).
Arguments cell : clear implicits.

Section deepcopy.
Context {meta lmeta meta_cell : Type}.
Abbreviation cell := (cell meta lmeta meta_cell).
Abbreviation go_Workspace := (go_Workspace meta).
Abbreviation go_WorkspaceList := (go_WorkspaceList lmeta).

Abbreviation heap := (gmap loc cell).

(** Element types, with their zero value. *)
Class Element (T : Type) := {
  arr : list T → cell;
  of_arr : cell → option (list T);
  of_arr_arr l : of_arr (arr l) = Some l;
  zero : T;
}.

(** ** Heap operations; [None] is a panic *)

Definition M (A : Type) : Type := heap → option (A * heap).
#[export] Instance M_ret : MRet M := λ A x h, Some (x, h).
#[export] Instance M_bind : MBind M := λ A B f m h, match m h with Some (x, h') => f x h' | None => None end.

Definition elements {T} `{Element T} (h : heap) (a : loc) : option (list T) := h !! a ≫= of_arr.
Definition load {T} `{Element T} (a : loc) (i : nat) : M T :=
  λ h, match elements h a ≫= (.!! i) with Some x => Some (x, h) | None => None end.
Definition store {T} `{Element T} (a : loc) (i : nat) (x : T) : M () :=
  λ h, match elements h a with
       | Some l => if decide (i < length l) then Some ((), <[a := arr (<[i := x]> l)]> h) else None
       | None => None
       end.
(** [make([]T, n)], and [new(T)] for [n = 1]. *)
Definition alloc {T} `{Element T} (n : nat) : M loc :=
  λ h, let a := fresh (dom h) in Some (a, <[a := arr (replicate n zero)]> h).

(** ** What the methods do *)

(** [in.DeepCopyInto(out)]: what it leaves in [*out]. *)
Class Copyable (T : Type) := DeepCopyInto : T → M T.

(** The loop that copies each element of a slice into the element of the new one;
    with [Assigned] below, [copy( *out, *in)]. *)
Fixpoint copy_loop {T} `{Element T, Copyable T} (a off : nat) (o i n : nat) : M () :=
  match n with
  | O => mret ()
  | S n' =>
    x ← load a (off + i);
    y ← DeepCopyInto x;
    _ ← store o i y;
    copy_loop a off o (S i) n'
  end.

Definition copy_slice {T} `{Element T, Copyable T} (s : option slice) : M (option slice) :=
  match s with
  | None => mret None
  | Some s =>
    o ← alloc (T:=T) (sl_len s);
    _ ← copy_loop (sl_arr s) (sl_off s) o 0 (sl_len s);
    mret (Some (MkSlice o 0 (sl_len s)))
  end.

(** [if in == nil { return nil }; out := new(T); in.DeepCopyInto(out); return out]. *)
Definition DeepCopy {T} `{Element T, Copyable T} (p : option ptr) : M (option ptr) :=
  match p with
  | None => mret None
  | Some p =>
    o ← alloc (T:=T) 1;
    x ← load (p_arr p) (p_idx p);
    y ← DeepCopyInto x;
    _ ← store o 0 y;
    mret (Some (MkPtr o 0))
  end.

(** ** The types *)

#[export] Instance Element_string : Element string :=
  {| arr := CStrings; of_arr c := match c with CStrings l => Some l | _ => None end;
     of_arr_arr _ := eq_refl; zero := "" |}.
#[export] Instance Element_int32 : Element Z :=
  {| arr := CInts; of_arr c := match c with CInts l => Some l | _ => None end;
     of_arr_arr _ := eq_refl; zero := 0%Z |}.
#[export] Instance Element_AIProvider : Element go_AIProvider :=
  {| arr := CProviders; of_arr c := match c with CProviders l => Some l | _ => None end;
     of_arr_arr _ := eq_refl; zero := GoAIProvider "" "" None |}.
#[export] Instance Element_AIConfiguration : Element go_AIConfiguration :=
  {| arr := CConfigurations; of_arr c := match c with CConfigurations l => Some l | _ => None end;
     of_arr_arr _ := eq_refl; zero := GoAIConfiguration None None None |}.
#[export] Instance Element_CABundleRef : Element CABundleRef :=
  {| arr := CBundles; of_arr c := match c with CBundles l => Some l | _ => None end;
     of_arr_arr _ := eq_refl; zero := MkCABundleRef "" |}.
#[export] Instance Element_TLSConfig : Element go_TLSConfig :=
  {| arr := CTLS; of_arr c := match c with CTLS l => Some l | _ => None end;
     of_arr_arr _ := eq_refl; zero := GoTLSConfig None |}.
#[export] Instance Element_PersistenceConfig : Element PersistenceConfig :=
  {| arr := CPersistence; of_arr c := match c with CPersistence l => Some l | _ => None end;
     of_arr_arr _ := eq_refl; zero := MkPersistenceConfig "" |}.
#[export] Instance Element_ResourceRequirements : Element ResourceRequirements :=
  {| arr := CResources; of_arr c := match c with CResources l => Some l | _ => None end;
     of_arr_arr _ := eq_refl; zero := MkResourceRequirements "" "" "" |}.
#[export] Instance Element_UserInfo : Element UserInfo :=
  {| arr := CUsers; of_arr c := match c with CUsers l => Some l | _ => None end;
     of_arr_arr _ := eq_refl; zero := MkUserInfo "" "" |}.
#[export] Instance Element_Lifecycle : Element WorkspaceLifecycleSpec :=
  {| arr := CLifecycles; of_arr c := match c with CLifecycles l => Some l | _ => None end;
     of_arr_arr _ := eq_refl; zero := MkWorkspaceLifecycleSpec "" |}.
#[export] Instance Element_Condition : Element Condition :=
  {| arr := CConditions; of_arr c := match c with CConditions l => Some l | _ => None end;
     of_arr_arr _ := eq_refl; zero := MkCondition "" "" 0 zeroTime "" "" |}.
Definition zero_spec : go_WorkspaceSpec :=
  GoWorkspaceSpec (MkUserInfo "" "") (MkResourceRequirements "" "" "") (GoAIConfiguration None None None)
    (MkPersistenceConfig "") (GoTLSConfig None) (MkWorkspaceLifecycleSpec "").
Definition zero_go_status : go_WorkspaceStatus := GoWorkspaceStatus "" "" "" "" "" None zeroTime.
#[export] Instance Element_WorkspaceSpec : Element go_WorkspaceSpec :=
  {| arr := CSpecs; of_arr c := match c with CSpecs l => Some l | _ => None end;
     of_arr_arr _ := eq_refl; zero := zero_spec |}.
#[export] Instance Element_WorkspaceStatus : Element go_WorkspaceStatus :=
  {| arr := CStatuses; of_arr c := match c with CStatuses l => Some l | _ => None end;
     of_arr_arr _ := eq_refl; zero := zero_go_status |}.
(** The zero values of the library's structs. *)
Context (zero_meta : meta) (zero_lmeta : lmeta).
#[export] Instance Element_Workspace : Element go_Workspace :=
  {| arr := CWorkspaces; of_arr c := match c with CWorkspaces l => Some l | _ => None end;
     of_arr_arr _ := eq_refl; zero := GoWorkspace (MkTypeMeta "" "") zero_meta zero_spec zero_go_status |}.
#[export] Instance Element_WorkspaceList : Element go_WorkspaceList :=
  {| arr := CLists; of_arr c := match c with CLists l => Some l | _ => None end;
     of_arr_arr _ := eq_refl; zero := GoWorkspaceList (MkTypeMeta "" "") zero_lmeta None |}.

(** ** The methods *)

(** Assignment: [*out = *in] of a type without pointers. *)
Definition Assigned {T} : Copyable T := λ x, mret x.
Definition string_assigned : Copyable string := Assigned.
#[export] Existing Instance string_assigned.
Definition int32_assigned : Copyable Z := Assigned.
#[export] Existing Instance int32_assigned.
Definition CABundleRef_DeepCopyInto : Copyable CABundleRef := Assigned.
#[export] Existing Instance CABundleRef_DeepCopyInto.
Definition PersistenceConfig_DeepCopyInto : Copyable PersistenceConfig := Assigned.
#[export] Existing Instance PersistenceConfig_DeepCopyInto.
Definition ResourceRequirements_DeepCopyInto : Copyable ResourceRequirements := Assigned.
#[export] Existing Instance ResourceRequirements_DeepCopyInto.
Definition UserInfo_DeepCopyInto : Copyable UserInfo := Assigned.
#[export] Existing Instance UserInfo_DeepCopyInto.
Definition WorkspaceLifecycleSpec_DeepCopyInto : Copyable WorkspaceLifecycleSpec := Assigned.
#[export] Existing Instance WorkspaceLifecycleSpec_DeepCopyInto.

Definition AIProvider_DeepCopyInto : Copyable go_AIProvider := λ x,
  models ← copy_slice (T:=string) (g_Models x);
  mret (GoAIProvider (g_Name x) (g_Endpoint x) models).
#[export] Existing Instance AIProvider_DeepCopyInto.

Definition AIConfiguration_DeepCopyInto : Copyable go_AIConfiguration := λ x,
  providers ← copy_slice (T:=go_AIProvider) (g_Providers x);
  namespaces ← copy_slice (T:=string) (g_EgressNamespaces x);
  ports ← copy_slice (T:=Z) (g_EgressPorts x);
  mret (GoAIConfiguration providers namespaces ports).
#[export] Existing Instance AIConfiguration_DeepCopyInto.

(** [*out = new(CABundleRef); **out = **in]. *)
Definition TLSConfig_DeepCopyInto : Copyable go_TLSConfig := λ x,
  ca ← DeepCopy (T:=CABundleRef) (g_CustomCABundle x);
  mret (GoTLSConfig ca).
#[export] Existing Instance TLSConfig_DeepCopyInto.

Definition WorkspaceSpec_DeepCopyInto : Copyable go_WorkspaceSpec := λ x,
  ai ← DeepCopyInto (g_AIConfig x);
  tls ← DeepCopyInto (g_TLS x);
  mret (GoWorkspaceSpec (g_User x) (g_Resources x) ai (g_Persistence x) tls (g_Lifecycle x)).
#[export] Existing Instance WorkspaceSpec_DeepCopyInto.

(** The library's methods. *)
Context `{!Copyable meta} `{!Copyable lmeta} `{!Copyable Condition}.
Context (Time_DeepCopyInto : Time → M Time).

Definition WorkspaceStatus_DeepCopyInto : Copyable go_WorkspaceStatus := λ x,
  conditions ← copy_slice (T:=Condition) (g_Conditions x);
  t ← Time_DeepCopyInto (g_LastAccessed x);
  mret (GoWorkspaceStatus (g_Phase x) (g_PodName x) (g_ServiceEndpoint x) (g_Message x)
          (g_RemediationHint x) conditions t).
#[export] Existing Instance WorkspaceStatus_DeepCopyInto.

Definition Workspace_DeepCopyInto : Copyable go_Workspace := λ x,
  m ← DeepCopyInto (g_ObjectMeta x);
  spec ← DeepCopyInto (g_Spec x);
  status ← DeepCopyInto (g_Status x);
  mret (GoWorkspace (g_TypeMeta x) m spec status).
#[export] Existing Instance Workspace_DeepCopyInto.

Definition WorkspaceList_DeepCopyInto : Copyable go_WorkspaceList := λ x,
  m ← DeepCopyInto (g_ListMeta x);
  items ← copy_slice (T:=go_Workspace) (g_Items x);
  mret (GoWorkspaceList (g_ListTypeMeta x) m items).
#[export] Existing Instance WorkspaceList_DeepCopyInto.

Definition AIConfiguration_DeepCopy := DeepCopy (T:=go_AIConfiguration).
Definition AIProvider_DeepCopy := DeepCopy (T:=go_AIProvider).
Definition CABundleRef_DeepCopy := DeepCopy (T:=CABundleRef).
Definition PersistenceConfig_DeepCopy := DeepCopy (T:=PersistenceConfig).
Definition ResourceRequirements_DeepCopy := DeepCopy (T:=ResourceRequirements).
Definition TLSConfig_DeepCopy := DeepCopy (T:=go_TLSConfig).
Definition UserInfo_DeepCopy := DeepCopy (T:=UserInfo).
Definition WorkspaceLifecycleSpec_DeepCopy := DeepCopy (T:=WorkspaceLifecycleSpec).
Definition WorkspaceSpec_DeepCopy := DeepCopy (T:=go_WorkspaceSpec).
Definition WorkspaceStatus_DeepCopy := DeepCopy (T:=go_WorkspaceStatus).
Definition Workspace_DeepCopy := DeepCopy (T:=go_Workspace).
Definition WorkspaceList_DeepCopy := DeepCopy (T:=go_WorkspaceList).
(** [DeepCopyObject]: the pointer as an interface, [nil] for [nil]. *)
Definition Workspace_DeepCopyObject (p : option ptr) : M (option ptr) :=
  c ← Workspace_DeepCopy p;
  match c with Some c => mret (Some c) | None => mret None end.
Definition WorkspaceList_DeepCopyObject (p : option ptr) : M (option ptr) :=
  c ← WorkspaceList_DeepCopy p;
  match c with Some c => mret (Some c) | None => mret None end.

(** ** What a Go value stands for *)

(** [value]: the value, if nothing dangles; [reach]: the memory it occupies beyond
    the struct itself. *)
Class Stands (T V : Type) := {
  value : heap → T → option V;
  reach : heap → T → gset loc;
}.

Definition agree (F : gset loc) (h h' : heap) : Prop := ∀ l, l ∈ F → h' !! l = h !! l.

(** What a method has to ensure: a value only depends on the memory it occupies;
    copying succeeds, leaves everything there as it was, and gives the same value
    in new memory. *)
Record copies {T V} (value : heap → T → option V) (reach : heap → T → gset loc) (copy : T → M T) : Prop := {
  part_alloc h x v : value h x = Some v → reach h x ⊆ dom h;
  part_frame h h' x v :
    value h x = Some v → agree (reach h x) h h' → value h' x = Some v ∧ reach h' x = reach h x;
  part_copy h x v :
    value h x = Some v →
    ∃ y h', copy x h = Some (y, h') ∧ h ⊆ h' ∧ value h' y = Some v ∧ reach h' y ## dom h;
}.
Class CopyLaws (T V : Type) `{!Copyable T, !Stands T V} : Prop := copy_laws : copies value reach DeepCopyInto.

(** Values without pointers. *)
Definition Flat {T} : Stands T T := {| value _ x := Some x; reach _ _ := ∅ |}.
Lemma Flat_laws {T} : @CopyLaws T T Assigned Flat.
Proof.
  split; cbn; [set_solver|done|]. intros h x v [= ->]. exists v, h.
  split; [done|]. split; [done|]. split; [done|set_solver].
Qed.

(** A slice stands for the list of what its elements stand for, a pointer for what it
    points to.  The nil slice stands for the same list as an empty one. *)
Definition window {T} `{Element T} (h : heap) (a off n : nat) : option (list T) :=
  l ← elements h a;
  if decide (off + n ≤ length l) then Some (take n (drop off l)) else None.
Definition slice_value {T V} `{Element T, !Stands T V} (h : heap) (s : option slice) : option (list V) :=
  match s with
  | None => Some []
  | Some s => l ← window h (sl_arr s) (sl_off s) (sl_len s); mapM (value h) l
  end.
Definition slice_reach {T V} `{Element T, !Stands T V} (h : heap) (s : option slice) : gset loc :=
  match s with
  | None => ∅
  | Some s =>
    {[sl_arr s]} ∪ ⋃ (map (reach h) (default [] (window (T:=T) h (sl_arr s) (sl_off s) (sl_len s))))
  end.
Definition ptr_value {T V} `{Element T, !Stands T V} (h : heap) (p : option ptr) : option (option V) :=
  match p with
  | None => Some None
  | Some p => x ← elements h (p_arr p) ≫= (.!! p_idx p); v ← value h x; Some (Some v)
  end.
Definition ptr_reach {T V} `{Element T, !Stands T V} (h : heap) (p : option ptr) : gset loc :=
  match p with
  | None => ∅
  | Some p =>
    {[p_arr p]} ∪ match elements (T:=T) h (p_arr p) ≫= (.!! p_idx p) with Some x => reach h x | None => ∅ end
  end.

(** ** Copies of slices and pointers *)

Lemma subseteq_agree F (h h' : heap) : h ⊆ h' → F ⊆ dom h → agree F h h'.
Proof.
  intros Hs Hd l Hl. destruct (h !! l) as [c|] eqn:E; [by eapply lookup_weaken|].
  apply not_elem_of_dom in E. set_solver.
Qed.

Lemma part_grow {T V} (val : heap → T → option V) rch cp h h' x v :
  copies val rch cp → val h x = Some v → h ⊆ h' → val h' x = Some v ∧ rch h' x = rch h x.
Proof. intros Hp Hv Hs. apply (part_frame _ _ _ Hp); [done|]. by eapply subseteq_agree, part_alloc. Qed.

Section laws.
Context {T V : Type} `{!Element T, !Copyable T, !Stands T V, !CopyLaws T V}.

Lemma value_alloc h (x : T) v : value h x = Some v → reach h x ⊆ dom h.
Proof. apply (part_alloc _ _ _ copy_laws). Qed.
Lemma value_frame h h' (x : T) v :
  value h x = Some v → agree (reach h x) h h' → value h' x = Some v ∧ reach h' x = reach h x.
Proof. apply (part_frame _ _ _ copy_laws). Qed.
Lemma copy_ok h (x : T) v :
  value h x = Some v →
  ∃ y h', DeepCopyInto x h = Some (y, h') ∧ h ⊆ h' ∧ value h' y = Some v ∧ reach h' y ## dom h.
Proof. apply (part_copy _ _ _ copy_laws). Qed.
Lemma value_grow h h' (x : T) v : value h x = Some v → h ⊆ h' → value h' x = Some v ∧ reach h' x = reach h x.
Proof. eapply part_grow, copy_laws. Qed.

Lemma values_frame h h' (l : list T) vs :
  mapM (value h) l = Some vs → agree (⋃ (map (reach h) l)) h h' →
  mapM (value h') l = Some vs ∧ map (reach h') l = map (reach h) l.
Proof.
  rewrite !mapM_Some. induction 1 as [|x v l vs Hx _ IH]; cbn; intros Ha; [done|].
  destruct (value_frame h h' x v Hx) as [Hv ->]; [intros k Hk; apply Ha; set_solver|].
  destruct IH as [IH ->]; [intros k Hk; apply Ha; set_solver|]. split; [by constructor|done].
Qed.

Lemma values_alloc h (l : list T) vs : mapM (value h) l = Some vs → ⋃ (map (reach h) l) ⊆ dom h.
Proof.
  rewrite mapM_Some. induction 1 as [|x v l vs Hx _ IH]; cbn; [set_solver|].
  apply value_alloc in Hx. set_solver.
Qed.

Lemma elements_agree (h h' : heap) a : h' !! a = h !! a → elements (T:=T) h' a = elements h a.
Proof. unfold elements. by intros ->. Qed.
Lemma elements_grow (h h' : heap) a (l : list T) : elements h a = Some l → h ⊆ h' → elements h' a = Some l.
Proof.
  unfold elements. destruct (h !! a) as [c|] eqn:E; [|done]. intros Hl Hs. by rewrite (lookup_weaken _ _ _ _ E Hs).
Qed.
Lemma elements_insert (h : heap) a (l : list T) : elements (<[a := arr l]> h) a = Some l.
Proof. unfold elements. rewrite lookup_insert_eq. cbn. apply of_arr_arr. Qed.
Lemma elements_dom (h : heap) a (l : list T) : elements h a = Some l → a ∈ dom h.
Proof. unfold elements. destruct (h !! a) eqn:E; [|done]. intros _. by apply elem_of_dom_2 in E. Qed.

(** One element: read, copied, written to an array that is not in [h0]. *)
Lemma copy_step h0 h a j o i (l lo : list T) x v :
  h0 ⊆ h → o ∉ dom h0 → elements h0 a = Some l → l !! j = Some x → value h0 x = Some v →
  elements h o = Some lo → i < length lo →
  ∃ y h1 h2, load a j h = Some (x, h) ∧ DeepCopyInto x h = Some (y, h1) ∧ store o i y h1 = Some ((), h2) ∧
    h0 ⊆ h2 ∧ elements h2 o = Some (<[i := y]> lo) ∧ value h2 y = Some v ∧ reach h2 y ## dom h0 ∪ {[o]} ∧
    ∀ z w, value h z = Some w → reach h z ## dom h0 ∪ {[o]} → value h2 z = Some w ∧ reach h2 z = reach h z.
Proof.
  intros H0 Ho Hl Hx Hv Hlo Hi.
  destruct (value_grow h0 h x v Hv H0) as [Hv' _]. destruct (copy_ok h x v Hv') as (y & h1 & Hc & H1 & Hy & Hr).
  assert (Hdo : o ∈ dom h) by (by eapply elements_dom).
  assert (Hd0 : dom h0 ⊆ dom h) by (by apply subseteq_dom).
  assert (Hlo1 : elements h1 o = Some lo) by (by eapply elements_grow).
  set (h2 := <[o := arr (<[i := y]> lo)]> h1).
  assert (Hoff : ∀ F, o ∉ F → agree F h1 h2).
  { intros F HF k Hk. unfold h2. rewrite lookup_insert_ne; [done|]. by intros ->. }
  destruct (value_frame h1 h2 y v Hy) as [Hy2 Hr2]; [apply Hoff; set_solver|].
  exists y, h1, h2. split_and!.
  - unfold load. rewrite (elements_grow h0 h a l) by done. cbn. by rewrite Hx.
  - done.
  - unfold store. rewrite Hlo1. by rewrite decide_True.
  - apply insert_subseteq_r; [by apply not_elem_of_dom|]. by transitivity h.
  - apply elements_insert.
  - done.
  - rewrite Hr2. set_solver.
  - intros z w Hz Hd. destruct (value_grow h h1 z w Hz H1) as [Hz1 Hrz].
    rewrite <- Hrz. apply value_frame; [done|]. apply Hoff. rewrite Hrz. set_solver.
Qed.

Lemma values_kept h h2 F (l : list T) vs :
  (∀ z w, value h z = Some w → reach h z ## F → value h2 z = Some w ∧ reach h2 z = reach h z) →
  Forall2 (λ x v, value h x = Some v ∧ reach h x ## F) l vs →
  Forall2 (λ x v, value h2 x = Some v ∧ reach h2 x ## F) l vs.
Proof.
  intros Hk Hl. eapply Forall2_impl; [exact Hl|]. intros x v [Hx Hd]. destruct (Hk x v Hx Hd) as [? ->]. done.
Qed.

(** The loop, with [done] already copied. *)
Lemma copy_loop_ok h0 a off o (l : list T) xs vs :
  Forall2 (λ x v, value h0 x = Some v) xs vs → o ∉ dom h0 → elements h0 a = Some l →
  ∀ h (dn : list T) vd, h0 ⊆ h →
  take (length xs) (drop (off + length dn) l) = xs →
  elements h o = Some (dn ++ replicate (length xs) zero) →
  Forall2 (λ x v, value h x = Some v ∧ reach h x ## dom h0 ∪ {[o]}) dn vd →
  ∃ h' ys, copy_loop (T:=T) a off o (length dn) (length xs) h = Some ((), h') ∧ h0 ⊆ h' ∧
    elements h' o = Some ys ∧ Forall2 (λ x v, value h' x = Some v ∧ reach h' x ## dom h0 ∪ {[o]}) ys (vd ++ vs).
Proof.
  intros Hvs Ho Hl. induction Hvs as [|x v xs vs Hx _ IH]; intros h dn vd H0 Hw Hlo Hdn.
  { exists h, dn. rewrite app_nil_r in *. done. }
  assert (Hxl : l !! (off + length dn) = Some x).
  { rewrite <- (Nat.add_0_r (off + length dn)), <- lookup_drop, <- (lookup_take_lt _ (length (x :: xs)) 0) by (cbn; lia).
    by rewrite Hw. }
  destruct (copy_step h0 h a (off + length dn) o (length dn) l _ x v H0 Ho Hl Hxl Hx Hlo)
    as (y & h1 & h2 & E1 & E2 & E3 & H2 & Hlo2 & Hy & Hry & Hkeep); [rewrite length_app; cbn; lia|].
  destruct (IH h2 (dn ++ [y]) (vd ++ [v])) as (h' & ys & Hrun & Hh' & Hys & Hall).
  - done.
  - rewrite length_app. cbn [length Nat.add]. rewrite Nat.add_assoc.
    rewrite <- drop_drop. cbn in Hw. destruct (drop (off + length dn) l) as [|x' l'] eqn:Ed; [done|].
    injection Hw as _ Hw. cbn. by rewrite drop_0.
  - rewrite Hlo2. f_equal. rewrite insert_app_r_alt, Nat.sub_diag by lia. cbn. by rewrite <- app_assoc.
  - apply Forall2_app; [by eapply values_kept|]. constructor; [done|constructor].
  - exists h', ys. rewrite <- (app_assoc vd [v] vs) in Hall. split; [|done].
    cbn [length copy_loop]. unfold mbind, M_bind. rewrite E1, E2, E3.
    rewrite length_app, Nat.add_1_r in Hrun. exact Hrun.
Qed.

Lemma window_agree (h h' : heap) a off n : h' !! a = h !! a → window (T:=T) h' a off n = window h a off n.
Proof. intros E. unfold window. by rewrite (elements_agree h h'). Qed.

Lemma copies_slice : copies (slice_value (T:=T) (V:=V)) (slice_reach (T:=T) (V:=V)) (copy_slice (T:=T)).
Proof.
  split.
  - intros h [[a off n]|] vs Hv; cbn in *; [|set_solver].
    apply bind_Some in Hv as (l & Hl & Hv). rewrite Hl. cbn. apply values_alloc in Hv.
    unfold window in Hl. apply bind_Some in Hl as (l0 & He & _). apply elements_dom in He. set_solver.
  - intros h h' [[a off n]|] vs Hv Ha; cbn in *; [|done].
    apply bind_Some in Hv as (l & Hl & Hv). rewrite Hl in *. cbn in Ha.
    rewrite (window_agree h h') by (apply Ha; set_solver). rewrite Hl. cbn.
    destruct (values_frame h h' l vs Hv) as [-> ->]; [intros k Hk; apply Ha; set_solver|done].
  - intros h [[a off n]|] vs Hv; cbn in *; [|exists None, h; simplify_eq; split_and!; [done..|set_solver]].
    apply bind_Some in Hv as (xs & Hl & Hv%mapM_Some). unfold window in Hl. apply bind_Some in Hl as (l & He & Hl).
    case_decide; [|done]. injection Hl as Hxs. assert (Hlen : length xs = n) by (subst; rewrite length_take, length_drop; lia).
    set (o := fresh (dom h)). assert (Ho : o ∉ dom h) by apply is_fresh.
    set (h1 := <[o := arr (replicate n zero)]> h).
    assert (Hs : h ⊆ h1) by (by apply insert_subseteq, not_elem_of_dom).
    destruct (copy_loop_ok h a off o l xs vs Hv Ho He h1 [] []) as (h' & ys & Hr & Hs' & Hys & Hall).
    + done.
    + cbn. by rewrite Nat.add_0_r, Hlen.
    + unfold h1. rewrite elements_insert, Hlen. done.
    + constructor.
    + exists (Some (MkSlice o 0 n)), h'. cbn in Hr, Hall. rewrite Hlen in Hr.
      assert (Hly : length ys = n) by (rewrite (Forall2_length _ _ _ Hall), <- (Forall2_length _ _ _ Hv); done).
      assert (Hw : window h' o 0 n = Some ys).
      { unfold window. rewrite Hys. cbn. rewrite decide_True by lia. by rewrite drop_0, firstn_all2 by lia. }
      split_and!; [|done| |]; cbn; rewrite ?Hw; cbn.
      * unfold mbind, M_bind, alloc. fold o h1. by rewrite Hr.
      * apply mapM_Some. eapply Forall2_impl; [exact Hall|]. by intros ? ? [? _].
      * apply disjoint_union_l. split; [set_solver|]. clear -Hall.
        induction Hall as [|x v ys vs [_ Hx] _ IH]; cbn; set_solver.
Qed.

Lemma copies_ptr : copies (ptr_value (T:=T) (V:=V)) (ptr_reach (T:=T) (V:=V)) (DeepCopy (T:=T)).
Proof.
  split.
  - intros h [[a i]|] w Hv; cbn in *; [|set_solver]. apply bind_Some in Hv as (x & Hx & Hv). rewrite Hx.
    apply bind_Some in Hv as (v & Hv & _). apply bind_Some in Hx as (l & Hl & _).
    apply elements_dom in Hl. apply value_alloc in Hv. set_solver.
  - intros h h' [[a i]|] w Hv Ha; cbn in *; [|done]. apply bind_Some in Hv as (x & Hx & Hv). rewrite Hx in Ha.
    apply bind_Some in Hv as (v & Hv & [= <-]).
    rewrite (elements_agree h h') by (apply Ha; set_solver). rewrite Hx. cbn.
    destruct (value_frame h h' x v Hv) as [-> ->]; [intros k Hk; apply Ha; set_solver|done].
  - intros h [[a i]|] w Hv; cbn in *; [|exists None, h; simplify_eq; split_and!; [done..|set_solver]].
    apply bind_Some in Hv as (x & Hx & Hv). apply bind_Some in Hx as (l & Hl & Hx).
    apply bind_Some in Hv as (v & Hv & [= <-]).
    set (o := fresh (dom h)). assert (Ho : o ∉ dom h) by apply is_fresh.
    set (h1 := <[o := arr (replicate 1 zero)]> h).
    assert (Hs : h ⊆ h1) by (by apply insert_subseteq, not_elem_of_dom).
    destruct (copy_step h h1 a i o 0 l (replicate 1 zero) x v Hs Ho Hl Hx Hv)
      as (y & h2 & h3 & E1 & E2 & E3 & Hs3 & Ho3 & Hy & Hr & _); [apply elements_insert|cbn; lia|].
    exists (Some (MkPtr o 0)), h3. split_and!; [|done| |]; cbn; rewrite ?Ho3; cbn.
    + unfold mbind, M_bind, alloc. fold o h1. by rewrite E1, E2, E3.
    + by rewrite Hy.
    + set_solver.
Qed.
End laws.

(** ** Copies of structs *)

(** Two parts, one after the other. *)
Definition pair_value {A B V W} (f : heap → A → option V) (g : heap → B → option W) (h : heap) (x : A * B) :
    option (V * W) := v ← f h x.1; w ← g h x.2; Some (v, w).
Definition pair_reach {A B} (f : heap → A → gset loc) (g : heap → B → gset loc) (h : heap) (x : A * B) : gset loc :=
  f h x.1 ∪ g h x.2.
Definition pair_copy {A B} (f : A → M A) (g : B → M B) (x : A * B) : M (A * B) :=
  a ← f x.1; b ← g x.2; mret (a, b).

Lemma copies_pair {A B V W} (v1 : heap → A → option V) (v2 : heap → B → option W) r1 r2 c1 c2 :
  copies v1 r1 c1 → copies v2 r2 c2 → copies (pair_value v1 v2) (pair_reach r1 r2) (pair_copy c1 c2).
Proof.
  intros P1 P2. unfold pair_value, pair_reach. split; intros h.
  - intros [a b] v Hv. apply bind_Some in Hv as (va & Ha & Hv). apply bind_Some in Hv as (vb & Hb & _).
    apply (part_alloc _ _ _ P1) in Ha. apply (part_alloc _ _ _ P2) in Hb. set_solver.
  - intros h' [a b] v Hv Hag. apply bind_Some in Hv as (va & Ha & Hv). apply bind_Some in Hv as (vb & Hb & Hv).
    destruct (part_frame _ _ _ P1 h h' a va Ha) as [Ha' Ra]; [intros l Hl; apply Hag; set_solver|].
    destruct (part_frame _ _ _ P2 h h' b vb Hb) as [Hb' Rb]; [intros l Hl; apply Hag; set_solver|].
    cbn in *. by rewrite Ha', Ra, Rb; cbn; rewrite Hb'.
  - intros [a b] v Hv. apply bind_Some in Hv as (va & Ha & Hv). apply bind_Some in Hv as (vb & Hb & Hv). cbn in *.
    destruct (part_copy _ _ _ P1 h a va Ha) as (a' & h1 & E1 & S1 & Va & Ra).
    destruct (part_grow _ _ _ h h1 b vb P2 Hb S1) as [Hb1 _].
    destruct (part_copy _ _ _ P2 h1 b vb Hb1) as (b' & h2 & E2 & S2 & Vb & Rb).
    destruct (part_grow _ _ _ h1 h2 a' va P1 Va S2) as [Va2 Ra2].
    exists (a', b'), h2. split_and!; [|by transitivity h1| |].
    + unfold pair_copy, mbind, M_bind. cbn. by rewrite E1, E2.
    + cbn. by rewrite Va2; cbn; rewrite Vb.
    + cbn. rewrite Ra2. apply subseteq_dom in S1. set_solver.
Qed.

(** A struct with the parts [g t], put back with [f]; [k] adds the fields that are
    assigned. *)
Lemma copies_struct {T A V W} (g : T → A) (f : T → A → T) (k : T → V → W)
    (va : heap → A → option V) ra ca (vt : heap → T → option W) rt ct :
  copies va ra ca →
  (∀ t x, g (f t x) = x) → (∀ t x v, k (f t x) v = k t v) →
  (∀ h t, vt h t = k t <$> va h (g t)) → (∀ h t, rt h t = ra h (g t)) →
  (∀ h t, ct t h = match ca (g t) h with Some (x, h') => Some (f t x, h') | None => None end) →
  copies vt rt ct.
Proof.
  intros P Hg Hk Hv Hr Hc. split.
  - intros h t w Hw. rewrite Hv in Hw. apply fmap_Some in Hw as (v & Hw & _). rewrite Hr. by eapply part_alloc.
  - intros h h' t w Hw Ha. rewrite Hv in Hw. apply fmap_Some in Hw as (v & Hw & ->). rewrite Hr in Ha.
    destruct (part_frame _ _ _ P _ _ _ _ Hw Ha) as [E1 E2]. by rewrite Hv, !Hr, E1, E2.
  - intros h t w Hw. rewrite Hv in Hw. apply fmap_Some in Hw as (v & Hw & ->).
    destruct (part_copy _ _ _ P _ _ _ Hw) as (y & h' & E & S & Vy & Ry). exists (f t y), h'.
    rewrite Hc, E, Hv, Hr, Hg, Vy. split_and!; [done|done| |done]. cbn. by rewrite Hk.
Qed.

(** What a struct stands for against what its parts stand for. *)
Ltac valued :=
  unfold pair_value; cbn; unfold mbind, option_bind;
  repeat match goal with |- context [match ?x with _ => _ end] => destruct x; cbn end.
(** A method [d] against the copies of the parts. *)
Ltac opened d :=
  unfold DeepCopyInto at 1, d, pair_copy; cbn [fst snd]; unfold mbind, M_bind;
  repeat match goal with |- context [match ?m ?h with _ => _ end] => destruct (m h) as [[? ?]|]; [|done] end.

#[export] Instance Stands_string : Stands string string := Flat.
#[export] Instance Stands_int32 : Stands Z Z := Flat.
#[export] Instance Stands_CABundleRef : Stands CABundleRef CABundleRef := Flat.
#[export] Instance Stands_Condition : Stands Condition Condition := Flat.
#[export] Instance string_laws : CopyLaws string string := Flat_laws.
#[export] Instance int32_laws : CopyLaws Z Z := Flat_laws.
#[export] Instance CABundleRef_laws : CopyLaws CABundleRef CABundleRef := Flat_laws.

#[export] Instance Stands_AIProvider : Stands go_AIProvider AIProvider := {|
  value h x := models ← slice_value (T:=string) h (g_Models x); Some (MkAIProvider (g_Name x) (g_Endpoint x) models);
  reach h x := slice_reach (T:=string) (V:=string) h (g_Models x) |}.
#[export] Instance AIProvider_laws : CopyLaws go_AIProvider AIProvider.
Proof.
  apply (copies_struct g_Models (λ t m, GoAIProvider (g_Name t) (g_Endpoint t) m)
    (λ t ms, MkAIProvider (g_Name t) (g_Endpoint t) ms) _ _ _ _ _ _ (copies_slice (T:=string))); try done.
Qed.

#[export] Instance Stands_AIConfiguration : Stands go_AIConfiguration AIConfiguration := {|
  value h x :=
    providers ← slice_value (T:=go_AIProvider) h (g_Providers x);
    namespaces ← slice_value (T:=string) h (g_EgressNamespaces x);
    ports ← slice_value (T:=Z) h (g_EgressPorts x);
    Some (MkAIConfiguration providers namespaces ports);
  reach h x :=
    slice_reach (T:=go_AIProvider) (V:=AIProvider) h (g_Providers x) ∪
    (slice_reach (T:=string) (V:=string) h (g_EgressNamespaces x) ∪
     slice_reach (T:=Z) (V:=Z) h (g_EgressPorts x)) |}.
#[export] Instance AIConfiguration_laws : CopyLaws go_AIConfiguration AIConfiguration.
Proof.
  apply (copies_struct (λ t, (g_Providers t, (g_EgressNamespaces t, g_EgressPorts t)))
    (λ _ x, GoAIConfiguration x.1 x.2.1 x.2.2) (λ _ v, MkAIConfiguration v.1 v.2.1 v.2.2) _ _ _ _ _ _
    (copies_pair _ _ _ _ _ _ (copies_slice (T:=go_AIProvider))
      (copies_pair _ _ _ _ _ _ (copies_slice (T:=string)) (copies_slice (T:=Z))))); try done.
  - by intros t [? [? ?]].
  - intros h t. by valued.
  - intros h t. by opened AIConfiguration_DeepCopyInto.
Qed.

#[export] Instance Stands_TLSConfig : Stands go_TLSConfig TLSConfig := {|
  value h x := ca ← ptr_value (T:=CABundleRef) h (g_CustomCABundle x); Some (MkTLSConfig ca);
  reach h x := ptr_reach (T:=CABundleRef) (V:=CABundleRef) h (g_CustomCABundle x) |}.
#[export] Instance TLSConfig_laws : CopyLaws go_TLSConfig TLSConfig.
Proof.
  by apply (copies_struct g_CustomCABundle (λ _ p, GoTLSConfig p) (λ _ v, MkTLSConfig v) _ _ _ _ _ _
    (copies_ptr (T:=CABundleRef))).
Qed.

#[export] Instance Stands_WorkspaceSpec : Stands go_WorkspaceSpec WorkspaceSpec := {|
  value h x :=
    ai ← value h (g_AIConfig x);
    tls ← value h (g_TLS x);
    Some (MkWorkspaceSpec (g_User x) (g_Resources x) ai (g_Persistence x) tls (g_Lifecycle x));
  reach h x := reach h (g_AIConfig x) ∪ reach h (g_TLS x) |}.
#[export] Instance WorkspaceSpec_laws : CopyLaws go_WorkspaceSpec WorkspaceSpec.
Proof.
  apply (copies_struct (λ t, (g_AIConfig t, g_TLS t))
    (λ t x, GoWorkspaceSpec (g_User t) (g_Resources t) x.1 (g_Persistence t) x.2 (g_Lifecycle t))
    (λ t v, MkWorkspaceSpec (g_User t) (g_Resources t) v.1 (g_Persistence t) v.2 (g_Lifecycle t)) _ _ _ _ _ _
    (copies_pair _ _ _ _ _ _ (AIConfiguration_laws) (TLSConfig_laws))); try done.
  - by intros t [? ?].
  - intros h t. by valued.
  - intros h t. by opened WorkspaceSpec_DeepCopyInto.
Qed.

(** What the library documents of its methods: metadata is copied like the rest;
    conditions and times hold no pointers. *)
Context {ListMeta : Type} `{!Stands meta ObjectMeta, !Stands lmeta ListMeta}.
Context `{!CopyLaws meta ObjectMeta} `{!CopyLaws lmeta ListMeta}.
Hypothesis Condition_copied : ∀ (c : Condition) h, DeepCopyInto c h = Some (c, h).
Hypothesis Time_copied : ∀ (t : Time) h, Time_DeepCopyInto t h = Some (t, h).

Lemma Condition_laws : CopyLaws Condition Condition.
Proof using Condition_copied.
  split; cbn; [intros; apply empty_subseteq|done|]. intros h x v [= ->]. exists v, h. rewrite Condition_copied.
  split; [done|]. split; [done|]. split; [done|apply disjoint_empty_l].
Qed.
#[local] Existing Instance Condition_laws.

#[export] Instance Stands_WorkspaceStatus : Stands go_WorkspaceStatus WorkspaceStatus := {|
  value h x :=
    conditions ← slice_value (T:=Condition) h (g_Conditions x);
    Some (MkWorkspaceStatus (g_Phase x) (g_PodName x) (g_ServiceEndpoint x) (g_Message x)
            (g_RemediationHint x) conditions (g_LastAccessed x));
  reach h x := slice_reach (T:=Condition) (V:=Condition) h (g_Conditions x) |}.
Lemma WorkspaceStatus_laws : CopyLaws go_WorkspaceStatus WorkspaceStatus.
Proof using Condition_copied Time_copied.
  apply (copies_struct g_Conditions
    (λ t c, GoWorkspaceStatus (g_Phase t) (g_PodName t) (g_ServiceEndpoint t) (g_Message t)
              (g_RemediationHint t) c (g_LastAccessed t))
    (λ t v, MkWorkspaceStatus (g_Phase t) (g_PodName t) (g_ServiceEndpoint t) (g_Message t)
              (g_RemediationHint t) v (g_LastAccessed t)) _ _ _ _ _ _ (copies_slice (T:=Condition))); try done.
  intros h t. cbn. unfold DeepCopyInto, WorkspaceStatus_DeepCopyInto, mbind, M_bind.
  destruct (copy_slice _ h) as [[? ?]|]; [|done]. by rewrite Time_copied.
Qed.
#[local] Existing Instance WorkspaceStatus_laws.

#[export] Instance Stands_Workspace : Stands go_Workspace (TypeMeta * Workspace) := {|
  value h x :=
    m ← value h (g_ObjectMeta x);
    spec ← value h (g_Spec x);
    status ← value h (g_Status x);
    Some (g_TypeMeta x, MkWorkspace m spec status);
  reach h x := reach h (g_ObjectMeta x) ∪ (reach h (g_Spec x) ∪ reach h (g_Status x)) |}.
Lemma Workspace_laws : CopyLaws go_Workspace (TypeMeta * Workspace).
Proof using CopyLaws0 Condition_copied Time_copied.
  apply (copies_struct (λ t, (g_ObjectMeta t, (g_Spec t, g_Status t)))
    (λ t x, GoWorkspace (g_TypeMeta t) x.1 x.2.1 x.2.2) (λ t v, (g_TypeMeta t, MkWorkspace v.1 v.2.1 v.2.2))
    _ _ _ _ _ _
    (copies_pair _ _ _ _ _ _ CopyLaws0 (copies_pair _ _ _ _ _ _ WorkspaceSpec_laws WorkspaceStatus_laws))); try done.
  - by intros t [? [? ?]].
  - intros h t. by valued.
  - intros h t. by opened Workspace_DeepCopyInto.
Qed.
#[local] Existing Instance Workspace_laws.

#[export] Instance Stands_WorkspaceList :
    Stands go_WorkspaceList (TypeMeta * ListMeta * list (TypeMeta * Workspace)) := {|
  value h x :=
    m ← value h (g_ListMeta x);
    items ← slice_value (T:=go_Workspace) h (g_Items x);
    Some (g_ListTypeMeta x, m, items);
  reach h x := reach h (g_ListMeta x) ∪ slice_reach (T:=go_Workspace) (V:=TypeMeta * Workspace) h (g_Items x) |}.
Lemma WorkspaceList_laws : CopyLaws go_WorkspaceList (TypeMeta * ListMeta * list (TypeMeta * Workspace)).
Proof using CopyLaws0 CopyLaws1 Condition_copied Time_copied.
  apply (copies_struct (λ t, (g_ListMeta t, g_Items t))
    (λ t x, GoWorkspaceList (g_ListTypeMeta t) x.1 x.2) (λ t v, (g_ListTypeMeta t, v.1, v.2))
    _ _ _ _ _ _ (copies_pair _ _ _ _ _ _ CopyLaws1 (copies_slice (T:=go_Workspace)))); try done.
  - by intros t [? ?].
  - intros h t. by valued.
  - intros h t. by opened WorkspaceList_DeepCopyInto.
Qed.

(** C37. A deep copy is a snapshot.  Whenever a pointer stands for a Workspace (no
      slice or pointer in it dangles), [DeepCopy] does not panic, changes no
      memory that was there, and returns a pointer that stands for the same
      Workspace and goes on to do so whatever is written later to any memory
      the original occupies; nor does writing to the copy's memory change what
      the original stands for.  [nil] is copied to [nil], and [DeepCopyObject]
      returns what [DeepCopy] does. *)
Theorem deep_copy_snapshot h p tm ws :
  ptr_value (T:=go_Workspace) h (Some p) = Some (Some (tm, ws)) →
  Workspace_DeepCopy None h = Some (None, h) ∧
  ∃ q h', Workspace_DeepCopy (Some p) h = Some (Some q, h') ∧ Workspace_DeepCopyObject (Some p) h = Some (Some q, h') ∧
    h ⊆ h' ∧
    (∀ h'', (∀ l, l ∉ dom h → h'' !! l = h' !! l) →
      ptr_value (T:=go_Workspace) h'' (Some q) = Some (Some (tm, ws))) ∧
    (∀ h'', (∀ l, l ∈ dom h → h'' !! l = h !! l) →
      ptr_value (T:=go_Workspace) h'' (Some p) = Some (Some (tm, ws))).
Proof using CopyLaws0 Condition_copied Time_copied.
  intros Hv. split; [done|]. pose proof (copies_ptr (T:=go_Workspace) (V:=TypeMeta * Workspace)) as P.
  destruct (part_copy _ _ _ P h (Some p) _ Hv) as (q & h' & Hc & Hs & Hq & Hr).
  destruct q as [q|]; [|done]. exists q, h'. split; [exact Hc|]. split.
  { unfold Workspace_DeepCopyObject, Workspace_DeepCopy, mbind, M_bind. by rewrite Hc. }
  split; [done|]. split; intros h'' Hh.
  - apply (part_frame _ _ _ P h' h'' (Some q) _ Hq). intros l Hl. apply Hh. intros Hd. exact (Hr l Hl Hd).
  - apply (part_frame _ _ _ P h h'' (Some p) _ Hv). intros l Hl. apply Hh. exact (part_alloc _ _ _ P h _ _ Hv l Hl).
Qed.
End deepcopy.

(** ** A copy, and an assignment *)

Section demo.
Abbreviation plain_heap := (gmap loc (cell ObjectMeta () ())).
#[local] Instance meta_assigned : @Copyable ObjectMeta () () ObjectMeta := Assigned.
#[local] Instance lmeta_assigned : @Copyable ObjectMeta () () () := Assigned.
#[local] Instance condition_assigned : @Copyable ObjectMeta () () Condition := Assigned.
#[local] Instance meta_flat : @Stands ObjectMeta () () ObjectMeta ObjectMeta := Flat.
#[local] Instance meta_flat_laws : CopyLaws ObjectMeta ObjectMeta := Flat_laws.

Definition plain_meta : ObjectMeta := object_meta "" "" ∅.
Definition ready (status : string) : Condition := MkCondition "Ready" status 1 zeroTime "" "".
(** A Workspace at 0 with one condition, in the array at 1. *)
Definition plain_workspace : go_Workspace ObjectMeta :=
  GoWorkspace (MkTypeMeta "" "") plain_meta zero_spec (GoWorkspaceStatus "Running" "" "" "" "" (Some (MkSlice 1 0 1)) zeroTime).
Definition plain : plain_heap := {[0 := CWorkspaces [plain_workspace]; 1 := CConditions [ready "True"]]}.
#[local] Instance plain_element : @Element ObjectMeta () () (go_Workspace ObjectMeta) := Element_Workspace plain_meta.

Definition plain_copy (p : option ptr) : @M ObjectMeta () () (option ptr) :=
  Workspace_DeepCopy plain_meta (λ t, mret t) p.

(** The status of the conditions a pointer leads to. *)
Definition statuses (h : plain_heap) (p : ptr) : option (list string) :=
  match ptr_value (T:=go_Workspace ObjectMeta) h (Some p) with
  | Some (Some (_, ws)) => Some (map Cond_Status (Status_Conditions (WS_Status ws)))
  | _ => None
  end.

(** [meta.SetStatusCondition] writes into the array of conditions: the original
    changes, the copy does not. *)
Definition plain_written (h : plain_heap) : plain_heap := <[1 := CConditions [ready "False"]]> h.

Definition plain_value : Workspace :=
  MkWorkspace plain_meta
    (MkWorkspaceSpec (MkUserInfo "" "") (MkResourceRequirements "" "" "") (MkAIConfiguration [] [] [])
       (MkPersistenceConfig "") (MkTLSConfig None) (MkWorkspaceLifecycleSpec ""))
    (MkWorkspaceStatus "Running" "" "" "" "" [ready "True"] zeroTime).
Lemma plain_stands :
  ptr_value (T:=go_Workspace ObjectMeta) plain (Some (MkPtr 0 0)) = Some (Some (MkTypeMeta "" "", plain_value)).
Proof. vm_compute. reflexivity. Qed.

Lemma deep_copy_snapshot_witness :
  ∃ q h', plain_copy (Some (MkPtr 0 0)) plain = Some (Some q, h') ∧
    statuses (plain_written h') (MkPtr 0 0) = Some ["False"] ∧ statuses (plain_written h') q = Some ["True"].
Proof.
  destruct (deep_copy_snapshot plain_meta (λ t, mret t) (λ c h, eq_refl) (λ t h, eq_refl) plain (MkPtr 0 0)
    (MkTypeMeta "" "") plain_value plain_stands)
    as (_ & q & h' & Hc & _ & Hs & Hq & _).
  exists q, h'. split; [exact Hc|].
  assert (E0 : h' !! 0 = Some (CWorkspaces [plain_workspace])) by (by apply (lookup_weaken plain h')).
  split.
  - unfold statuses, ptr_value, elements, plain_written. cbn [p_arr].
    rewrite lookup_insert_ne, E0 by done. cbn. unfold window, elements. by rewrite lookup_insert_eq.
  - unfold statuses. rewrite Hq; [reflexivity|]. intros l Hl. unfold plain_written. rewrite lookup_insert_ne; [done|].
    intros <-. apply Hl. vm_compute. reflexivity.
Defined.

(** The assignment [*out = *in] alone would share the array. *)
Example assignment_aliases :
  statuses (plain_written (<[2 := CWorkspaces [plain_workspace]]> plain)) (MkPtr 2 0) = Some ["False"].
Proof. reflexivity. Qed.
End demo.
