(* ===== verification/System.v ===== *)
(** * Gateway and operator together

    Runs of the operator and requests of the gateway as concurrent goroutines
    against one API server, one request at a time, with the kubelet and the
    clock in between.  The operator reads from the caches of its informers,
    which catch up at any time, and any request may be refused.  The system
    theorem is about waking a workspace that was stopped for inactivity. *)
From S2P Require Import Prelude GoStrings GoTime Api K8s K8sClient Cluster StatusSummary Resources.
From S2P Require Import Auth Lifecycle LifecycleProps Controller ControllerSpec Fixtures.
From Stdlib Require Import ZArith Lia.
#[local] Open Scope Z_scope.

Section system.
Context `{UnicodeTables} `{K8sLib} `{!K8sLaws}.
Variable r : WorkspaceReconciler.
Variable cfg : LifecycleConfig.
Variable namespace : string.
Variable claims : Claims.

Abbreviation key := (claims_key namespace claims).

(** A goroutine: whether it reads through the caches, what it has asked and what it
    will do. *)
Record goroutine := MkGoroutine {
  g_cached : bool;
  g_result : Type;
  g_history : list (call apiE);
  g_rest : prog apiE g_result;
}.

Definition g_answered {X} (g : goroutine) (e : apiE X) (x : X) (p : prog apiE (g_result g)) : goroutine :=
  MkGoroutine (g_cached g) (g_result g) (g_history g ++ [Call e x]) p.

(** The next request of a goroutine, served. *)
Definition g_step (g : goroutine) (cache c : cluster) : goroutine * cluster :=
  match g_rest g with
  | Return _ => (g, c)
  | Request e k =>
    let '(x, c') := serve_cached _ e (if g_cached g then cache else c) c in (g_answered g e x (k x), c')
  end.

(** The next request of a goroutine, refused. *)
Inductive g_refused (g : goroutine) : goroutine → Prop :=
  | g_refuse X (e : apiE X) k x :
      g_rest g = Request e k → call_failed (Call e x) → g_refused g (g_answered g e x (k x)).

Record system := MkSystem { sys_cluster : cluster; sys_cache : cluster; sys_threads : list goroutine }.

Definition spawn {A} (cached : bool) (p : prog apiE A) : goroutine := MkGoroutine cached A [] p.

Definition add_thread (g : goroutine) (s : system) : system :=
  MkSystem (sys_cluster s) (sys_cache s) (sys_threads s ++ [g]).

Inductive sys_step : system → system → Prop :=
  (** the operator's work queue, an API or proxy request, a WebSocket request *)
  | sys_reconcile s : sys_step s (add_thread (spawn true (Reconcile r key)) s)
  | sys_ensure_exists s : sys_step s (add_thread (spawn false (EnsureExists cfg namespace claims)) s)
  | sys_ensure_workspace s fuel :
      sys_step s (add_thread (spawn false (EnsureWorkspace fuel cfg namespace claims)) s)
  | sys_request s i g g' c' :
      sys_threads s !! i = Some g → g_step g (sys_cache s) (sys_cluster s) = (g', c') →
      sys_step s (MkSystem c' (sys_cache s) (<[i := g']> (sys_threads s)))
  | sys_refused s i g g' :
      sys_threads s !! i = Some g → g_refused g g' →
      sys_step s (MkSystem (sys_cluster s) (sys_cache s) (<[i := g']> (sys_threads s)))
  | sys_synced s cache :
      synced (sys_cluster s) (sys_cache s) cache →
      sys_step s (MkSystem (sys_cluster s) cache (sys_threads s))
  | sys_kubelet s : sys_step s (MkSystem (kubelet (sys_cluster s)) (sys_cache s) (sys_threads s))
  | sys_tick s t :
      cl_now (sys_cluster s) <= t →
      sys_step s (MkSystem (set_now t (sys_cluster s)) (sys_cache s) (sys_threads s)).

(** ** A workspace past its idle timeout *)

(** Stopped, or on its way up again, with a last access longer ago than the
    idle timeout. *)
Record stale (now : Time) (ws : Workspace) : Prop := {
  stale_live : DeletionTimestamp (WS_Meta ws) = None;
  stale_phase : phase ws ≠ WorkspacePhaseRunning;
  stale_accessed : IsZero (lastAccessed ws) = false;
  stale_idle : 0 < idle_of r ws < Sub now (lastAccessed ws);
}.

Lemma Sub_mono t t' u : t <= t' → Sub t u <= Sub t' u.
Proof. unfold Sub. lia. Qed.

Lemma stale_mono t t' ws : t <= t' → stale t ws → stale t' ws.
Proof. intros Ht [? ? ? ?]. split; try done. pose proof (Sub_mono t t' (lastAccessed ws) Ht). lia. Qed.

(** [t0] is a time at which the stored workspace was already stale. *)
Section from.
Variables (t0 la : Time).

Definition stuck (ws : Workspace) : Prop := stale t0 ws ∧ lastAccessed ws = la.

(** What one goroutine knows: every Workspace it read was stuck, every time
    it read is past [t0]. *)
Definition call_ok (a : call apiE) : Prop :=
  match a with
  | Call e x =>
    match e in apiE Y return Y → Prop with
    | GetWorkspace _ => λ g, match g with Ok ws => stuck ws | Err _ => True end
    | Now => λ t, t0 <= t
    | _ => λ _, True
    end x
  end.

Definition history_ok (h : list (call apiE)) : Prop := Forall call_ok h.

Lemma history_read h k ws : history_ok h → Call (GetWorkspace k) (Ok ws) ∈ h → stuck ws.
Proof. intros Hh Hin. exact (proj1 (Forall_forall _ _) Hh _ Hin). Qed.

Lemma history_now h t : history_ok h → Call Now t ∈ h → t0 <= t.
Proof. intros Hh Hin. exact (proj1 (Forall_forall _ _) Hh _ Hin). Qed.

Definition thread_safe (g : goroutine) : Prop :=
  history_ok (g_history g) ∧
  (safe (justified r key) (g_history g) (g_rest g) ∨
   safe (gw_justified cfg namespace claims) (g_history g) (g_rest g)).

Definition cluster_stuck (c : cluster) : Prop :=
  t0 <= cl_now c ∧ ∃ ws, cl_ws c = Some ws ∧ stuck ws.

(** Whatever Workspace a reader is shown is stuck. *)
Definition view_stuck (c : cluster) : Prop := ∀ ws, cl_ws c = Some ws → stuck ws.

Lemma cluster_view c : cluster_stuck c → view_stuck c.
Proof. intros [_ (ws & Hws & Hst)] ws' Hws'. congruence. Qed.

(** The two specifications allow no patch that would unstick it. *)
Definition harmless_patch (base new : Workspace) : Prop :=
  lastAccessed new = lastAccessed base ∧
  (phase new = WorkspacePhaseRunning → phase base = WorkspacePhaseRunning).

Lemma operator_patch_harmless h base new x :
  history_ok h → justified r key h (Call (PatchStatus base new) x) → harmless_patch base new.
Proof.
  intros Hh (ws & Hw & _ & Hc & Hp).
  destruct (history_read _ _ _ Hh Hw) as [[_ Hph Hz Hidle] _].
  assert (base = ws) as ->.
  { destruct Hc as [?|[? _]]; [done|congruence]. }
  destruct Hp as [(_ & ? & _)|(now & sum & _ & -> & _ & Hrun & _)]; [congruence|].
  split; [done|]. intros E. destruct (Hrun E) as (Hs & _ & _ & _ & _ & pod & _ & _ & Hi).
  destruct Hi as [?|(d & (ws' & t & Hcur & Ht & ->) & Hle)]; [lia|].
  assert (ws' = ws) as -> by (destruct Hcur as [?|[? _]]; [done|congruence]).
  apply (history_now _ _ Hh) in Ht. pose proof (Sub_mono t0 t (lastAccessed ws) Ht). lia.
Qed.

Lemma gateway_patch_harmless h base new x :
  history_ok h → gw_justified cfg namespace claims h (Call (PatchStatus base new) x) →
  harmless_patch base new.
Proof.
  intros Hh [Hs Hp]. destruct (history_read _ _ _ Hh Hs) as [[_ Hph _ _] _].
  destruct Hp as [[_ ->]|[? _]]; [|done]. by split.
Qed.

(** A request allowed by one of the specifications. *)
Definition allowed (h : list (call apiE)) (a : call apiE) : Prop :=
  justified r key h a ∨ gw_justified cfg namespace claims h a.

Lemma allowed_patch h base new x :
  history_ok h → allowed h (Call (PatchStatus base new) x) → harmless_patch base new.
Proof. intros Hh [?|?]; eauto using operator_patch_harmless, gateway_patch_harmless. Qed.

Lemma patch_stuck base new stored :
  harmless_patch base new → stuck stored →
  stuck (patched base new stored).
Proof.
  intros [Hla Hph] [[Hd Hp Hz Hi] Hl]. pose proof (patched_untouched base new stored Hla) as Ela.
  split; [split|]; try done; rewrite ?Ela; try done.
  rewrite patched_phase. unfold merge_field. case_decide as E; [done|].
  intros Hn. apply E. by rewrite Hph, Hn.
Qed.

Lemma update_stuck h ws' x stored :
  history_ok h → stuck stored → allowed h (Call (UpdateWorkspace ws') x) →
  DeletionTimestamp (WS_Meta ws') = None ∧ stuck (set_status (WS_Status stored) ws').
Proof.
  intros Hh [[_ Hp Hz _] Hl] [(ws & Hw & Hc)|[]].
  destruct (history_read _ _ _ Hh Hw) as [[Hd _ _ Hi] Hl'].
  assert (Hm : DeletionTimestamp (WS_Meta ws') = None ∧ WS_Spec ws' = WS_Spec ws).
  { destruct Hc as [[_ ->]|(_ & _ & _ & ->)]; cbn; (split; [|done]).
    - by destruct (RemoveFinalizer_spec (WS_Meta ws) workspaceFinalizer)
        as [(_ & _ & _ & _ & _ & -> & _) _].
    - by destruct (AddFinalizer_spec (WS_Meta ws) workspaceFinalizer)
        as [(_ & _ & _ & _ & _ & -> & _) _]. }
  destruct Hm as [Hdel Hspec]. split; [done|]. split; [split|]; try done.
  unfold idle_of, effectiveIdleTimeout in *. cbn. unfold lastAccessed in *. cbn.
  rewrite Hspec, Hl. by rewrite <- Hl'.
Qed.

(** One request keeps the workspace stuck, and the goroutine sees it so. *)
Lemma serve_stuck h X (e : apiE X) view c x c' :
  cluster_stuck c → view_stuck view → history_ok h → serve_cached X e view c = (x, c') → allowed h (Call e x) →
  cluster_stuck c' ∧ call_ok (Call e x).
Proof.
  intros [Hnow (ws & Hws & Hst)] Hv Hh Hs Ha.
  assert (Hkeep : ∀ c', cl_ws c' = cl_ws c → cl_now c' = cl_now c → cluster_stuck c').
  { intros c1 E1 E2. split; [by rewrite E2|]. exists ws. by rewrite E1. }
  assert (Hput : ∀ ws', stuck ws' → cluster_stuck (set_ws (Some ws') c)).
  { intros ws' ?. split; [done|]. by exists ws'. }
  destruct e as [k|k|k|w|pvc|pod|pod|w|base new|T k obj f| |d| |a b|a b|a b]; cbn in Hs;
    rewrite ?Hws in Hs.
  - injection Hs as <- <-. split; [by apply Hkeep|]. cbn. unfold get_by.
    destruct (cl_ws view) as [ws'|] eqn:Ev; [|done]. case_bool_decide; [by apply Hv|done].
  - injection Hs as <- <-. split; [by apply Hkeep|done].
  - injection Hs as <- <-. split; [by apply Hkeep|done].
  - injection Hs as <- <-. split; [by apply Hkeep|done].
  - destruct (cl_pvc c); injection Hs as <- <-; (split; [by apply Hkeep|done]).
  - destruct (cl_pod c); injection Hs as <- <-; (split; [by apply Hkeep|done]).
  - destruct (cl_pod c); injection Hs as <- <-; (split; [by apply Hkeep|done]).
  - destruct (update_stuck h w x ws Hh Hst Ha) as [Hd Hu].
    rewrite bool_decide_false in Hs by (by intros []). injection Hs as <- <-. split; [by apply Hput|done].
  - injection Hs as <- <-. split; [|done]. apply Hput, patch_stuck; [by eapply allowed_patch|done].
  - injection Hs as <- <-. split; [by apply Hkeep|done].
  - injection Hs as <- <-. split; [by apply Hkeep|done].
  - injection Hs as <- <-. split; [|done]. split; [|by exists ws]. destruct Ha as [[]|Ha].
    cbn in Ha |- *. subst d. change workspaceReadyPoll with 2000000000. lia.
  - injection Hs as <- <-. split; [by apply Hkeep|done].
  - injection Hs as <- <-. split; [by apply Hkeep|done].
  - injection Hs as <- <-. split; [by apply Hkeep|done].
  - injection Hs as <- <-. split; [by apply Hkeep|done].
Qed.

Lemma answered_safe g X (e : apiE X) k x :
  thread_safe g → g_rest g = Request e k → call_ok (Call e x) → thread_safe (g_answered g e x (k x)).
Proof.
  intros [Hh Hs] E Hok. rewrite E in Hs. split; cbn.
  - apply Forall_app. split; [done|by constructor].
  - destruct Hs as [Hs|Hs]; [left|right]; apply Hs.
Qed.

Lemma g_step_safe g cache c g' c' :
  cluster_stuck c → view_stuck cache → thread_safe g → g_step g cache c = (g', c') →
  cluster_stuck c' ∧ thread_safe g'.
Proof.
  intros Hc Hv Ht Hg. unfold g_step in Hg. destruct (g_rest g) as [a|X e k] eqn:Er; [by injection Hg as <- <-|].
  destruct (serve_cached X e _ c) as [x c1] eqn:He. injection Hg as <- <-.
  assert (Ha : allowed (g_history g) (Call e x)).
  { destruct Ht as [_ Hs]. rewrite Er in Hs. destruct Hs as [Hs|Hs]; [left|right]; apply Hs. }
  destruct (serve_stuck (g_history g) X e (if g_cached g then cache else c) c x c1) as [Hc' Hok]; try done.
  { destruct (g_cached g); [done|by apply cluster_view]. }
  { apply Ht. }
  split; [done|by apply answered_safe].
Qed.

Lemma g_refused_safe g g' : thread_safe g → g_refused g g' → thread_safe g'.
Proof. intros Ht [X e k x E Hf]. apply answered_safe; [done|done|]. destruct e; try done. by destruct x. Qed.

Record sys_stuck (s : system) : Prop := {
  ss_cluster : cluster_stuck (sys_cluster s);
  ss_cache : view_stuck (sys_cache s);
  ss_threads : Forall thread_safe (sys_threads s);
}.

Lemma sys_step_stuck s s' : sys_stuck s → sys_step s s' → sys_stuck s'.
Proof.
  intros [Hc Hv Ht] Hs. pose proof Ht as Hall. rewrite Forall_forall in Hall.
  assert (Hspawn : ∀ b A (p : prog apiE A),
    safe (justified r key) [] p ∨ safe (gw_justified cfg namespace claims) [] p → sys_stuck (add_thread (spawn b p) s)).
  { intros b A p Hp. split; [done|done|]. apply Forall_app. split; [done|]. constructor; [|done]. split; [by constructor|done]. }
  destruct Hs as [s|s|s fuel|s i g g' c' Hi Hg|s i g g' Hi Hg|s cache Hy|s|s t Hle].
  - apply Hspawn. left. apply Reconcile_safe.
  - apply Hspawn. right. apply EnsureExists_safe.
  - apply Hspawn. right. apply EnsureWorkspace_safe.
  - destruct (g_step_safe g (sys_cache s) (sys_cluster s) g' c') as [? ?]; try done.
    + apply Hall. by eapply list_elem_of_lookup_2.
    + split; [done|done|]. by apply Forall_insert.
  - split; [done|done|]. apply Forall_insert; [done|]. eapply g_refused_safe; [|done].
    apply Hall. by eapply list_elem_of_lookup_2.
  - split; [done| |done]. by destruct Hy; [apply cluster_view in Hc| |].
  - by split.
  - split; [|done|done]. destruct Hc as [? ?]. split; [cbn; lia|done].
Qed.

Lemma sys_steps_stuck s s' : rtc sys_step s s' → sys_stuck s → sys_stuck s'.
Proof. induction 1 as [s|s1 s2 s3 Hs _ IH]; intros Hc; [done|]. by eapply IH, sys_step_stuck. Qed.
End from.

(** C2. A workspace stopped for inactivity cannot be woken.  Start from a
    cluster whose Workspace is not Running and was last accessed longer ago
    than its idle timeout, with no terminal session open and the operator's
    cache showing that Workspace.  Whatever the interleaving of operator runs,
    gateway requests (which clear the phase of a stopped workspace), refusals
    of the server, kubelet reports and passing time, and however late the
    operator's informers follow the server, the Workspace never becomes Running and its
    last access is never updated: the gateway stamps it only once the phase
    is Running, and the operator stops every ready pod whose last access is
    that old before it reports Running. *)
Theorem stale_workspace_never_runs c cache ws s :
  cl_ws c = Some ws → stale (cl_now c) ws → cl_ws cache = Some ws →
  rtc sys_step (MkSystem c cache []) s →
  ∃ ws', cl_ws (sys_cluster s) = Some ws' ∧ phase ws' ≠ WorkspacePhaseRunning ∧
    lastAccessed ws' = lastAccessed ws.
Proof.
  intros Hc Hs Hca Hr.
  destruct (sys_steps_stuck (cl_now c) (lastAccessed ws) _ _ Hr) as [[_ (ws' & Hw & [Hst Hla])] _ _].
  - split; [split; [done|]; exists ws; by split| |by constructor].
    intros ws' E. assert (ws' = ws) as -> by (cbn in E; congruence). by split.
  - exists ws'. split_and!; [done|by apply Hst|done].
Qed.
End system.

(** ** Witness: the demo workspace, stopped after two idle days, then woken

    The gateway clears the phase, the operator recreates the pod, the kubelet
    reports it ready, and the operator stops it again. *)
#[local] Existing Instance ascii_tables.
#[local] Existing Instance RefLib.

Definition stopped_cluster : cluster := step idle_cluster.

Fixpoint g_run (n i : nat) (s : system) : system :=
  match n with
  | O => s
  | S m => match sys_threads s !! i with
           | Some g => let '(g', c') := g_step g (sys_cache s) (sys_cluster s) in
                       g_run m i (MkSystem c' (sys_cache s) (<[i := g']> (sys_threads s)))
           | None => s
           end
  end.

Lemma g_run_steps r cfg ns claims n i s : rtc (sys_step r cfg ns claims) s (g_run n i s).
Proof.
  revert s. induction n as [|n IH]; intros s; [done|]. cbn.
  destruct (sys_threads s !! i) as [g|] eqn:Hi; [|done].
  destruct (g_step g (sys_cache s) (sys_cluster s)) as [g' c'] eqn:Hg.
  eapply rtc_l; [by eapply sys_request|apply IH].
Qed.

(** All informers catch up. *)
Definition sync_all (s : system) : system :=
  let c := sys_cluster s in
  MkSystem c (set_pod (cl_pod c) (set_pvc (cl_pvc c) (set_ws (cl_ws c) (sys_cache s)))) (sys_threads s).

Lemma sync_all_steps r cfg ns claims s : rtc (sys_step r cfg ns claims) s (sync_all s).
Proof.
  destruct s as [c k ts]. unfold sync_all. cbn.
  eapply rtc_l; [apply (sys_synced _ _ _ _ (MkSystem c k ts)); apply synced_ws|].
  eapply rtc_l; [apply (sys_synced _ _ _ _ (MkSystem c (set_ws (cl_ws c) k) ts)); apply synced_pvc|].
  apply rtc_once. apply (sys_synced _ _ _ _ (MkSystem c (set_pvc (cl_pvc c) (set_ws (cl_ws c) k)) ts)). apply synced_pod.
Qed.

(** A browser request wakes the workspace; the operator runs for the volume and the
    pod; the pod becomes ready; the operator runs again. *)
Definition demo_woken : system :=
  g_run 20 0 (add_thread (spawn false (EnsureExists demo_cfg "workspaces" demo_claims))
    (MkSystem stopped_cluster stopped_cluster [])).
Definition demo_restarted : system :=
  g_run 20 1 (add_thread (spawn true (Reconcile demo_r demo_req)) (sync_all demo_woken)).
Definition demo_ready : system :=
  MkSystem (kubelet (sys_cluster demo_restarted)) (sys_cache demo_restarted) (sys_threads demo_restarted).
Definition demo_stopped_again : system :=
  g_run 20 2 (add_thread (spawn true (Reconcile demo_r demo_req)) (sync_all demo_ready)).

Lemma demo_steps :
  rtc (sys_step demo_r demo_cfg "workspaces" demo_claims)
    (MkSystem stopped_cluster stopped_cluster []) demo_stopped_again.
Proof.
  eapply rtc_l; [apply (sys_ensure_exists demo_r)|]. etrans; [apply (g_run_steps demo_r _ _ _ 20 0)|].
  etrans; [apply (sync_all_steps demo_r)|].
  eapply rtc_l; [apply (sys_reconcile demo_r)|]. etrans; [apply (g_run_steps demo_r _ _ _ 20 1)|].
  eapply rtc_l; [apply (sys_kubelet demo_r)|]. etrans; [apply (sync_all_steps demo_r)|].
  eapply rtc_l; [apply (sys_reconcile demo_r)|]. apply (g_run_steps demo_r _ _ _ 20 2).
Qed.

Lemma demo_stale :
  ∃ ws, cl_ws stopped_cluster = Some ws ∧ stale demo_r (cl_now stopped_cluster) ws.
Proof. eexists. split; [vm_compute; reflexivity|]. split; vm_compute; done. Qed.

Lemma stale_workspace_never_runs_witness :
  ∃ ws ws', cl_ws stopped_cluster = Some ws ∧ stale demo_r (cl_now stopped_cluster) ws ∧
    cl_ws (sys_cluster demo_stopped_again) = Some ws' ∧ phase ws' ≠ WorkspacePhaseRunning ∧
    phase <$> cl_ws (sys_cluster demo_woken) = Some "" ∧
    phase <$> cl_ws (sys_cluster demo_stopped_again) = Some WorkspacePhaseStopped.
Proof.
  destruct demo_stale as (ws & Hws & Hst).
  destruct (@stale_workspace_never_runs _ _ RefLib_laws demo_r demo_cfg "workspaces" demo_claims
    stopped_cluster stopped_cluster ws demo_stopped_again Hws Hst Hws demo_steps) as (ws' & Hw & Hp & _).
  exists ws, ws'. split; [exact Hws|]. split; [exact Hst|]. split; [exact Hw|]. split; [exact Hp|].
  split; vm_compute; reflexivity.
Defined.
