(* ===== verification/KeepAlive.v ===== *)
(** * An active session keeps its workspace

    The system of [System] with time that counts: the operator's runs, the
    gateway's requests and the stamps of open terminal sessions (the calls of
    [TouchLastAccessed] that [Session] makes) are goroutines over one API
    server.  Between two waits a goroutine takes at most [D], the operator's
    cache of Workspaces is at most [L] behind the server, and a stamp of a
    session is stored at least every [S]; instants are stored with whole
    seconds.  Under these bounds no operator run finds the workspace idle. *)
From S2P Require Import Prelude GoStrings GoTime Api K8s K8sClient Cluster StatusSummary Resources.
From S2P Require Import Auth Lifecycle LifecycleProps Controller ControllerSpec Fixtures System.
From Stdlib Require Import ZArith Lia.
#[local] Open Scope Z_scope.

Section timed.
Context `{UnicodeTables} `{K8sLib} {laws : K8sLaws}.
Variable r : WorkspaceReconciler.
Variable cfg : LifecycleConfig.
Variable namespace : string.
Variable claims : Claims.
Variables (S D L : Duration).

Abbreviation key := (claims_key namespace claims).

(** ** Goroutines and time *)

(** Whose goroutine: a run of the operator, a request of the gateway, a stamp of a
    session with its copy of the Workspace. *)
Inductive origin := Operator | Gateway | Stamp (ws : Workspace).

(** [th_mark]: when it started, or when its last wait ended. *)
Record thread := MkThread { th_origin : origin; th_mark : Time; th_run : goroutine }.

(** [tm_cache]: what the operator's informers hold; [tm_synced]: when their Workspace
    was last that of the server; [tm_touched]: the latest time that a session has
    stored. *)
Record timed := MkTimed {
  tm_cluster : cluster; tm_cache : cluster; tm_synced : Time; tm_threads : list thread; tm_touched : Time }.

Definition now_of (s : timed) : Time := cl_now (tm_cluster s).
Definition with_threads (ths : list thread) (s : timed) : timed :=
  MkTimed (tm_cluster s) (tm_cache s) (tm_synced s) ths (tm_touched s).

Inductive starts : origin → goroutine → Prop :=
  | starts_reconcile : starts Operator (spawn true (Reconcile r key))
  | starts_ensure_exists : starts Gateway (spawn false (EnsureExists cfg namespace claims))
  | starts_ensure_workspace fuel : starts Gateway (spawn false (EnsureWorkspace fuel cfg namespace claims))
  | starts_touch ws : starts (Stamp ws) (spawn false (TouchLastAccessed ws)).

(** At work: neither finished nor in a wait. *)
Definition busy (g : goroutine) : bool :=
  match g_rest g with
  | Return _ => false
  | Request e _ => match e with WaitOrDone _ => false | _ => true end
  end.

(** The end of a wait, with its outcome. *)
Definition resumed (o : option error) (g : goroutine) : option goroutine :=
  match g_rest g with
  | Return _ => None
  | Request e k =>
    match e in apiE X return (X → prog apiE (g_result g)) → option goroutine with
    | WaitOrDone d => λ k, Some (g_answered g (WaitOrDone d) o (k o))
    | _ => λ _, None
    end k
  end.

(** What a request stores of a session's stamp: its patch is empty when the copy it
    starts from has the same second. *)
Definition stored_stamp (o : origin) {X} (e : apiE X) : option Time :=
  match o with
  | Stamp _ =>
    match e with
    | PatchStatus base new =>
      if decide (wire_time (lastAccessed base) = wire_time (lastAccessed new)) then None else Some (lastAccessed new)
    | _ => None
    end
  | _ => None
  end.

Definition landing (th : thread) : option Time :=
  match g_rest (th_run th) with Return _ => None | Request e _ => stored_stamp (th_origin th) e end.

Definition touched_with (o : option Time) (t : Time) : Time :=
  match o with Some t' => Z.max t t' | None => t end.

Inductive timed_step : timed → timed → Prop :=
  | tm_start s o g :
      starts o g → timed_step s (with_threads (tm_threads s ++ [MkThread o (now_of s) g]) s)
  | tm_request s i th g' c' :
      tm_threads s !! i = Some th → busy (th_run th) = true →
      g_step (th_run th) (tm_cache s) (tm_cluster s) = (g', c') →
      timed_step s (MkTimed c' (tm_cache s) (tm_synced s)
        (<[i := MkThread (th_origin th) (th_mark th) g']> (tm_threads s))
        (touched_with (landing th) (tm_touched s)))
  | tm_refused s i th g' :
      tm_threads s !! i = Some th → g_refused (th_run th) g' →
      timed_step s (with_threads (<[i := MkThread (th_origin th) (th_mark th) g']> (tm_threads s)) s)
  | tm_resume s i th o g' :
      tm_threads s !! i = Some th → resumed o (th_run th) = Some g' →
      timed_step s (with_threads (<[i := MkThread (th_origin th) (now_of s) g']> (tm_threads s)) s)
  | tm_sync_ws s :
      timed_step s (MkTimed (tm_cluster s) (set_ws (cl_ws (tm_cluster s)) (tm_cache s)) (now_of s)
        (tm_threads s) (tm_touched s))
  | tm_sync s cache :
      synced (tm_cluster s) (tm_cache s) cache → cl_ws cache = cl_ws (tm_cache s) →
      timed_step s (MkTimed (tm_cluster s) cache (tm_synced s) (tm_threads s) (tm_touched s))
  | tm_kubelet s :
      timed_step s (MkTimed (kubelet (tm_cluster s)) (tm_cache s) (tm_synced s) (tm_threads s) (tm_touched s))
  (** time passes: the sessions are active, the cache follows, and no goroutine is
      kept waiting for longer than [D] *)
  | tm_tick s t :
      now_of s <= t → t <= tm_touched s + S → t <= tm_synced s + L →
      Forall (λ th, busy (th_run th) = true → t <= th_mark th + D) (tm_threads s) →
      timed_step s (MkTimed (set_now t (tm_cluster s)) (tm_cache s) (tm_synced s) (tm_threads s) (tm_touched s)).

(** ** What is kept *)

Variable I : Duration.
Hypothesis Hbounds : 0 <= S ∧ 0 <= D ∧ 0 <= L ∧ S + 2 * D + L + Second <= I.

(** Live, not stopped, with the idle timeout [I] and accessed since [b]. *)
Record fresh (b : Time) (ws : Workspace) : Prop := {
  fresh_live : DeletionTimestamp (WS_Meta ws) = None;
  fresh_phase : phase ws ≠ WorkspacePhaseStopped;
  fresh_idle : idle_of r ws = I;
  fresh_accessed : zeroTime < lastAccessed ws ∧ b <= lastAccessed ws;
}.

Record cluster_fresh (c : cluster) (touched : Time) : Prop := {
  cf_stored : ∃ ws, cl_ws c = Some ws ∧ fresh (touched - D - Second) ws;
  cf_touched : zeroTime < touched - D - Second;
  cf_now : touched <= cl_now c <= touched + S;
}.

(** The Workspace in the cache was fresh when it was taken over. *)
Record cache_fresh (cache : cluster) (at_ now : Time) : Prop := {
  ca_stored ws : cl_ws cache = Some ws → fresh (at_ - S - D - Second) ws;
  ca_now : at_ <= now <= at_ + L;
}.

(** What a goroutine has seen and done. *)
Definition seen_fresh (o : origin) (mark : Time) (a : call apiE) : Prop :=
  match a with
  | Call e x =>
    match e in apiE Y return Y → Prop with
    | GetWorkspace _ => λ g,
      match g with
      | Ok ws => fresh (match o with Operator => mark - L - S - D - Second | _ => zeroTime end) ws
      | Err _ => True
      end
    | Now => λ t, t <= mark + D
    | DeletePod pod => λ _, pod_outdated r pod
    | _ => λ _, True
    end x
  end.

(** A stamp reads the clock and patches its copy. *)
Definition stamp_justified (ws : Workspace) (h : list (call apiE)) (c : call apiE) : Prop :=
  match c with
  | Call e _ =>
    match e with
    | Now => True
    | PatchStatus base new => base = ws ∧ ∃ t, last h = Some (Call Now t) ∧ new = set_LastAccessed t ws
    | _ => False
    end
  end.

Definition spec_of (o : origin) : list (call apiE) → call apiE → Prop :=
  match o with
  | Operator => justified r key
  | Gateway => gw_justified cfg namespace claims
  | Stamp ws => stamp_justified ws
  end.

Record thread_fresh (now : Time) (th : thread) : Prop := {
  tf_mark : th_mark th <= now;
  tf_busy : busy (th_run th) = true → now <= th_mark th + D;
  tf_seen : Forall (seen_fresh (th_origin th) (th_mark th)) (g_history (th_run th));
  tf_clock t : last (g_history (th_run th)) = Some (Call Now t) → th_mark th <= t <= now;
  tf_safe : safe (spec_of (th_origin th)) (g_history (th_run th)) (g_rest (th_run th));
}.

Lemma read_fresh o m h k ws :
  Forall (seen_fresh o m) h → Call (GetWorkspace k) (Ok ws) ∈ h →
  fresh (match o with Operator => m - L - S - D - Second | _ => zeroTime end) ws.
Proof. intros Hh Hin. exact (proj1 (Forall_forall _ _) Hh _ Hin). Qed.

Lemma clock_bound o m h t : Forall (seen_fresh o m) h → Call Now t ∈ h → t <= m + D.
Proof. intros Hh Hin. exact (proj1 (Forall_forall _ _) Hh _ Hin). Qed.

Lemma current_fresh b h ws ws' : fresh b ws → current h ws ws' → ws' = ws.
Proof.
  intros [_ _ _ [Hz _]] [?|[E _]]; [done|]. unfold IsZero in E. apply Z.eqb_eq in E. lia.
Qed.

(** No run of the operator finds the workspace idle. *)
Lemma not_expired m h ws pod :
  Forall (seen_fresh Operator m) h → fetched key h ws → idle_expired r h ws pod → False.
Proof using laws Hbounds.
  intros Hh Hw (_ & _ & d & (ws' & now & Hcur & Hnow & ->) & Hlt).
  pose proof (read_fresh _ _ _ _ _ Hh Hw) as Hf. rewrite (current_fresh _ _ _ _ Hf Hcur) in Hlt.
  destruct Hf as [_ _ Hi [_ Hla]]. rewrite Hi in Hlt. apply (clock_bound _ _ _ _ Hh) in Hnow.
  unfold Sub, min_int64, max_int64, two63 in Hlt. assert (0 < Second) by done. lia.
Qed.

(** ** Patches *)

Lemma kept_phase base new stored :
  phase new ≠ WorkspacePhaseStopped ∨ phase new = phase base → phase stored ≠ WorkspacePhaseStopped →
  phase (patched base new stored) ≠ WorkspacePhaseStopped.
Proof. rewrite patched_phase. unfold merge_field. case_decide; naive_solver. Qed.

(** A patch that does not stop the workspace and stores no time before [b]. *)
Lemma patch_fresh b base new stored :
  fresh b stored → zeroTime < b →
  phase new ≠ WorkspacePhaseStopped ∨ phase new = phase base →
  wire_time (lastAccessed base) = wire_time (lastAccessed new) ∨ b <= wire_time (lastAccessed new) →
  fresh b (patched base new stored).
Proof.
  intros [Hl Hp Hi Ha] Hz Hn Hla. split; [done|by apply kept_phase|done|].
  rewrite patched_accessed. unfold merge_field. case_decide; [done|]. destruct Hla; [done|lia].
Qed.

Lemma operator_patch m h base new x :
  Forall (seen_fresh Operator m) h → justified r key h (Call (PatchStatus base new) x) →
  phase new ≠ WorkspacePhaseStopped ∧ lastAccessed new = lastAccessed base.
Proof using laws Hbounds.
  intros Hh (ws & Hw & _ & Hc & Hp). pose proof (read_fresh _ _ _ _ _ Hh Hw) as Hf.
  rewrite (current_fresh _ _ _ _ Hf Hc) in *.
  destruct Hp as [(_ & Hz & _)|(now & sum & _ & -> & _ & _ & Hst)].
  - destruct Hf as [_ _ _ [Hz' _]]. unfold IsZero in Hz. apply Z.eqb_eq in Hz. lia.
  - split; [|done]. intros E. destruct (Hst E) as (_ & pod & y & _ & _ & Hexp). by eapply not_expired.
Qed.

Lemma gateway_patch m h base new x :
  Forall (seen_fresh Gateway m) h → gw_justified cfg namespace claims h (Call (PatchStatus base new) x) →
  phase new = phase base ∧ ∃ t, last h = Some (Call Now t) ∧ lastAccessed new = t.
Proof.
  intros Hh [Hs Hp]. destruct (read_fresh _ _ _ _ _ Hh Hs) as [_ Hph _ _].
  destruct Hp as [[? _]|[_ (t & Ht & ->)]]; [done|]. split; [done|]. by exists t.
Qed.

Lemma fresh_mono b b' ws : b' <= b → fresh b ws → fresh b' ws.
Proof. intros Hb [? ? ? ?]. split; try done. lia. Qed.

(** The patch of a thread, and what it leaves of the sessions' latest stamp. *)
Lemma thread_patch now th touched stored base new x :
  thread_fresh now th → busy (th_run th) = true → touched <= now → zeroTime < touched - D - Second →
  fresh (touched - D - Second) stored →
  spec_of (th_origin th) (g_history (th_run th)) (Call (PatchStatus base new) x) →
  let touched' := touched_with (stored_stamp (th_origin th) (PatchStatus base new)) touched in
  fresh (touched' - D - Second) (patched base new stored) ∧
  touched <= touched' <= now.
Proof using laws Hbounds.
  intros [Hm Hb Hh Hck _] Hbusy Ht Hz Hst Hj. specialize (Hb Hbusy).
  destruct (th_origin th) as [| |ws]; cbn [spec_of] in Hj; intros touched'; cbn in touched'.
  - destruct (operator_patch _ _ _ _ _ Hh Hj) as [Hp Hla]. split; [|unfold touched'; lia].
    apply patch_fresh; [done|done|by left|]. left. by rewrite Hla.
  - destruct (gateway_patch _ _ _ _ _ Hh Hj) as (Hp & t & Hl & Hla). split; [|unfold touched'; lia].
    apply Hck in Hl. pose proof (wire_time_bounds t). apply patch_fresh; [done|done|by right|]. rewrite Hla. right. lia.
  - destruct Hj as (-> & t & Hl & ->). apply Hck in Hl. pose proof (wire_time_bounds t) as Hwt.
    unfold touched'. change (lastAccessed (set_LastAccessed t ws)) with t.
    case_decide as E; cbn; (split; [|lia]).
    + apply patch_fresh; [done|done|by right|by left].
    + destruct Hst as [Hlive Hp Hi Ha]. split; [done|apply kept_phase; [by right|done]|done|].
      rewrite patched_accessed. change (lastAccessed (set_LastAccessed t ws)) with t.
      unfold merge_field. rewrite decide_False by done. lia.
Qed.

(** ** Requests *)

Lemma update_fresh m h ws' x b stored :
  Forall (seen_fresh Operator m) h → justified r key h (Call (UpdateWorkspace ws') x) → fresh b stored →
  DeletionTimestamp (WS_Meta ws') = None ∧ fresh b (set_status (WS_Status stored) ws').
Proof.
  intros Hh (ws & Hw & Hc) [_ Hp _ Ha]. destruct (read_fresh _ _ _ _ _ Hh Hw) as [Hd _ Hi _].
  assert (Hm : DeletionTimestamp (WS_Meta ws') = None ∧ WS_Spec ws' = WS_Spec ws).
  { destruct Hc as [[_ ->]|(_ & _ & _ & ->)]; cbn; (split; [|done]).
    - by destruct (RemoveFinalizer_spec (WS_Meta ws) workspaceFinalizer) as [(_ & _ & _ & _ & _ & -> & _) _].
    - by destruct (AddFinalizer_spec (WS_Meta ws) workspaceFinalizer) as [(_ & _ & _ & _ & _ & -> & _) _]. }
  destruct Hm as [Hdel Hspec]. split; [done|]. split; try done.
  unfold idle_of, effectiveIdleTimeout in *. cbn. by rewrite Hspec.
Qed.

(** Only the operator updates Workspaces and deletes pods. *)
Lemma only_operator {X} (e : apiE X) o h x :
  spec_of o h (Call e x) →
  match e with UpdateWorkspace _ | DeletePod _ => o = Operator | _ => True end.
Proof. destruct o, e; cbn; naive_solver. Qed.

Lemma deleted_outdated m h pod x :
  Forall (seen_fresh Operator m) h → justified r key h (Call (DeletePod pod) x) → pod_outdated r pod.
Proof using laws Hbounds.
  intros Hh (ws & Hs & _ & [Ho|He]); [done|]. exfalso.
  eapply not_expired; [exact Hh|exact (active_fetched _ _ _ (secured_active _ _ _ _ Hs))|exact He].
Qed.

(** A server that is fresh shows a fresh Workspace at once. *)
Lemma cluster_cache c touched view :
  cluster_fresh c touched → cl_ws view = cl_ws c → cache_fresh view (cl_now c) (cl_now c).
Proof using Hbounds.
  intros [(ws & Hws & Hf) _ Hn] E. split; [|lia]. intros ws' E'. assert (ws' = ws) as -> by congruence.
  eapply fresh_mono; [|exact Hf]. lia.
Qed.

(** What a thread reads from: the operator's cache, or the server. *)
Lemma view_of th touched at_ cache c :
  cluster_fresh c touched → cache_fresh cache at_ (cl_now c) →
  ∃ at', cache_fresh (if g_cached (th_run th) then cache else c) at' (cl_now c).
Proof using Hbounds.
  intros Hc Hv. destruct (g_cached (th_run th)); [by exists at_|]. exists (cl_now c). by eapply cluster_cache.
Qed.

Lemma view_read_fresh th at_ now view ws :
  cache_fresh view at_ now → th_mark th <= now → cl_ws view = Some ws →
  fresh (match th_origin th with Operator => th_mark th - L - S - D - Second | _ => zeroTime end) ws.
Proof using Hbounds.
  intros [Hv Hn] Hm E. specialize (Hv _ E). destruct (th_origin th).
  - eapply fresh_mono; [|exact Hv]. lia.
  - destruct Hv as [? ? ? [? ?]]. split; try done. lia.
  - destruct Hv as [? ? ? [? ?]]. split; try done. lia.
Qed.

Lemma serve_fresh th touched at_ view X (e : apiE X) c x c' :
  cluster_fresh c touched → cache_fresh view at_ (cl_now c) →
  thread_fresh (cl_now c) th → busy (th_run th) = true →
  match e with WaitOrDone _ => False | _ => True end →
  serve_cached X e view c = (x, c') → spec_of (th_origin th) (g_history (th_run th)) (Call e x) →
  (cluster_fresh c' (touched_with (stored_stamp (th_origin th) e) touched) ∧ cl_now c' = cl_now c) ∧
  seen_fresh (th_origin th) (th_mark th) (Call e x).
Proof using laws Hbounds.
  intros Hc Hv Ht Hbusy Hnw Hs Hj. pose proof Hc as [(ws & Hws & Hf) Hz Hnow].
  pose proof Ht as [Hm Hb Hh _ _]. specialize (Hb Hbusy).
  assert (Hkeep : ∀ c1 o, cl_ws c1 = cl_ws c → cl_now c1 = cl_now c → touched_with o touched = touched →
    cluster_fresh c1 (touched_with o touched) ∧ cl_now c1 = cl_now c).
  { intros c1 o E1 E2 ->. split; [|done]. split; [exists ws; by rewrite E1|done|by rewrite E2]. }
  assert (Hq : match e with PatchStatus _ _ => True
               | _ => touched_with (stored_stamp (th_origin th) e) touched = touched end).
  { destruct e; try done; by destruct (th_origin th). }
  pose proof (only_operator e _ _ _ Hj) as Ho.
  destruct e as [k|k|k|w|pvc|pod|pod|w|base new|T k obj f| |d| |a b|a b|a b]; cbn in Hs;
    rewrite ?Hws in Hs; try done.
  all: split; try done.
  all: try (by injection Hs as <- <-; apply Hkeep).
  - injection Hs as <- <-. cbn. unfold get_by. destruct (cl_ws view) as [ws'|] eqn:Ev; [|done].
    case_bool_decide; [|done]. by eapply view_read_fresh.
  - destruct (cl_pvc c); injection Hs as <- <-; by apply Hkeep.
  - destruct (cl_pod c); injection Hs as <- <-; by apply Hkeep.
  - destruct (cl_pod c); injection Hs as <- <-; by apply Hkeep.
  - rewrite Ho in Hh, Hj. exact (deleted_outdated _ _ _ x Hh Hj).
  - rewrite Ho in Hh, Hj. destruct (update_fresh _ _ _ x _ _ Hh Hj Hf) as [Hd Hu].
    rewrite bool_decide_false in Hs by (by intros []). injection Hs as <- <-. rewrite Hq.
    split; [|done]. split; [eexists; split; [reflexivity|exact Hu]|done|done].
  - destruct (thread_patch _ _ touched ws base new x Ht Hbusy) as [Hn Hle]; [lia|done|done|exact Hj|].
    injection Hs as <- <-.
    split; [|done]. split; [eexists; split; [reflexivity|exact Hn]|cbv zeta in *; lia|cbv zeta in *; cbn [cl_now set_ws]; lia].
  - injection Hs as <- <-. cbn. lia.
Qed.

(** ** Steps *)

Definition clock_read (c : call apiE) : option Time :=
  match c with
  | Call e x => match e in apiE Y return Y → option Time with Now => λ t, Some t | _ => λ _, None end x
  end.

(** A thread whose request was answered. *)
Lemma answered_fresh now th X (e : apiE X) k x :
  thread_fresh now th → busy (th_run th) = true → g_rest (th_run th) = Request e k →
  seen_fresh (th_origin th) (th_mark th) (Call e x) →
  (∀ t, clock_read (Call e x) = Some t → t = now) →
  thread_fresh now (MkThread (th_origin th) (th_mark th) (g_answered (th_run th) e x (k x))).
Proof.
  intros [Hm Hb Hh Hck Hsafe] Hbusy Er Hseen Hclk. rewrite Er in Hsafe. destruct (Hsafe x) as [Hj Hnext].
  split; cbn; [done|auto|by apply Forall_app; auto| |done].
  intros t. rewrite last_snoc. intros E. apply (f_equal (λ o, o ≫= clock_read)) in E.
  apply Hclk in E. lia.
Qed.

Lemma request_fresh th touched at_ cache c g' c' :
  cluster_fresh c touched → cache_fresh cache at_ (cl_now c) → thread_fresh (cl_now c) th →
  busy (th_run th) = true → g_step (th_run th) cache c = (g', c') →
  cluster_fresh c' (touched_with (landing th) touched) ∧ cl_now c' = cl_now c ∧
  thread_fresh (cl_now c) (MkThread (th_origin th) (th_mark th) g').
Proof using laws Hbounds.
  intros Hc Hv Ht Hbusy Hg. unfold g_step in Hg. unfold landing. destruct (g_rest (th_run th)) as [a|X e k] eqn:Er.
  { unfold busy in Hbusy. by rewrite Er in Hbusy. }
  destruct (serve_cached X e _ c) as [x c1] eqn:Es. injection Hg as <- <-.
  assert (Hnw : match e with WaitOrDone _ => False | _ => True end)
    by (unfold busy in Hbusy; rewrite Er in Hbusy; by destruct e).
  pose proof (tf_safe _ _ Ht) as Hsafe. rewrite Er in Hsafe. destruct (Hsafe x) as [Hj _].
  destruct (view_of th touched at_ cache c Hc Hv) as (at' & Hv').
  destruct (serve_fresh th touched at' _ X e c x c1 Hc Hv' Ht Hbusy Hnw Es Hj) as [[Hc' Hn] Hseen].
  split; [done|]. split; [done|]. apply answered_fresh; try done.
  intros t. destruct e; try discriminate. cbn in Es |- *. injection Es as <- _. by intros [= <-].
Qed.

Lemma refused_fresh now th g' :
  thread_fresh now th → g_refused (th_run th) g' → thread_fresh now (MkThread (th_origin th) (th_mark th) g').
Proof using laws Hbounds.
  intros Ht [X e k x Er Hf]. pose proof (tf_safe _ _ Ht) as Hsafe. rewrite Er in Hsafe. destruct (Hsafe x) as [Hj _].
  pose proof (only_operator e _ _ _ Hj) as Ho. pose proof (tf_seen _ _ Ht) as Hh.
  apply answered_fresh; try done.
  - unfold busy. rewrite Er. by destruct e.
  - destruct e; try done; [by destruct x|]. rewrite Ho in Hh, Hj. exact (deleted_outdated _ _ _ x Hh Hj).
  - by destruct e.
Qed.

Lemma TouchLastAccessed_safe ws : safe (stamp_justified ws) [] (TouchLastAccessed ws).
Proof.
  unfold TouchLastAccessed. apply safe_request; [done|]. intros t. apply safe_request; [|by intros [?|?]].
  intros x. split; [done|]. by exists t.
Qed.

Lemma start_fresh now o g : starts o g → thread_fresh now (MkThread o now g).
Proof using laws Hbounds.
  intros Hs. assert (Hh : g_history g = []) by (by destruct Hs).
  split; cbn; rewrite ?Hh; [done|lia|constructor|done|].
  destruct Hs; [apply Reconcile_safe|apply EnsureExists_safe|apply EnsureWorkspace_safe|apply TouchLastAccessed_safe].
Qed.

Lemma resume_fresh now th o g' :
  thread_fresh now th → resumed o (th_run th) = Some g' → thread_fresh now (MkThread (th_origin th) now g').
Proof using laws Hbounds.
  intros [Hm Hb Hh Hck Hsafe] Hr. unfold resumed in Hr. destruct (g_rest (th_run th)) as [a|X e k] eqn:Er; [done|].
  destruct e; try discriminate. injection Hr as <-. destruct (Hsafe o) as [Hj Hnext].
  assert (Hop : th_origin th ≠ Operator) by (intros E; by rewrite E in Hj).
  split; cbn.
  - lia.
  - lia.
  - apply Forall_app. split; [|by constructor]. eapply Forall_impl; [exact Hh|]. intros [X e x]. cbn.
    destruct e; try done; [|lia]. destruct x; [|done]. by destruct (th_origin th).
  - intros t. by rewrite last_snoc.
  - exact Hnext.
Qed.

Lemma thread_fresh_mono now now' th :
  now <= now' → (busy (th_run th) = true → now' <= th_mark th + D) → thread_fresh now th → thread_fresh now' th.
Proof.
  intros Hle Hb' [Hm Hb Hh Hck Hsafe]. split; [lia|done|done| |done].
  intros t Ht. specialize (Hck t Ht). lia.
Qed.

Record timed_fresh (s : timed) : Prop := {
  tmf_cluster : cluster_fresh (tm_cluster s) (tm_touched s);
  tmf_cache : cache_fresh (tm_cache s) (tm_synced s) (now_of s);
  tmf_threads : Forall (thread_fresh (now_of s)) (tm_threads s);
}.

Lemma timed_step_fresh s s' : timed_fresh s → timed_step s s' → timed_fresh s'.
Proof using laws Hbounds.
  intros [Hc Hv Ht] Hs. pose proof Ht as Hall. rewrite Forall_forall in Hall.
  destruct Hs as [s o g Hst|s i th g' c' Hi Hb Hg|s i th g' Hi Hg|s i th o g' Hi Hr|s|s cache Hy Hsame|s|s t Hle Htt Hl Hb];
    unfold now_of in *; cbn in *.
  - split; [done|done|]. apply Forall_app. split; [done|]. constructor; [by apply start_fresh|constructor].
  - destruct (request_fresh th _ _ _ _ _ _ Hc Hv (Hall _ (list_elem_of_lookup_2 _ _ _ Hi)) Hb Hg) as (Hc' & Hn & Hth).
    split; unfold now_of; cbn; [done|by rewrite Hn|]. rewrite Hn. by apply Forall_insert.
  - split; [done|done|]. apply Forall_insert; [done|]. eapply refused_fresh; [|exact Hg].
    apply Hall. by eapply list_elem_of_lookup_2.
  - split; [done|done|]. apply Forall_insert; [done|]. eapply resume_fresh; [|exact Hr].
    apply Hall. by eapply list_elem_of_lookup_2.
  - split; [done| |done]. by apply (cluster_cache _ (tm_touched s)).
  - split; [done| |done]. destruct Hv as [Hv1 Hv2]. split; [|done]. intros ws. cbn. rewrite Hsame. apply Hv1.
  - destruct Hc. by split.
  - destruct Hc as [? ? ?], Hv as [? ?]. split; unfold now_of; cbn.
    + split; cbn; [done|done|lia].
    + split; [done|lia].
    + apply Forall_forall. intros th Hth. rewrite Forall_forall in Hb.
      eapply thread_fresh_mono; [exact Hle|by apply Hb|by apply Hall].
Qed.

Lemma timed_steps_fresh s s' : rtc timed_step s s' → timed_fresh s → timed_fresh s'.
Proof using laws Hbounds. induction 1 as [s|s1 s2 s3 Hs _ IH]; intros Hf; [done|]. by eapply IH, timed_step_fresh. Qed.
End timed.

(** C3. An active session keeps its workspace.  Let a stamp of an open terminal
      session be stored at least every [S], let goroutines of operator and gateway
      take at most [D] between two waits, let the operator's cache of Workspaces
      be at most [L] behind the server, and let the idle timeout be at least
      [S + 2 * D + L] and a second, the precision of stored instants.  Then,
      whatever the interleaving of operator runs, gateway requests, stamps of any
      number of sessions (which may land out of order or be empty), refusals of
      the server, informers, kubelet reports and time, a Workspace that is not
      stopped and was accessed recently is never stopped, what the server holds
      as its last access is never older than [S + D] and a second, and the
      operator deletes no pod but one whose image is outdated. *)
Theorem active_session_kept `{UnicodeTables} `{K8sLib} `{!K8sLaws} r cfg namespace claims S D L c cache ws touched s :
  cl_ws c = Some ws → cl_ws cache = Some ws →
  DeletionTimestamp (WS_Meta ws) = None → phase ws ≠ WorkspacePhaseStopped →
  0 <= S → 0 <= D → 0 <= L → S + 2 * D + L + Second <= idle_of r ws →
  zeroTime < touched - D - Second → touched - D - Second <= lastAccessed ws → touched <= cl_now c <= touched + S →
  rtc (timed_step r cfg namespace claims S D L) (MkTimed c cache (cl_now c) [] touched) s →
  (∃ ws', cl_ws (tm_cluster s) = Some ws' ∧ phase ws' ≠ WorkspacePhaseStopped ∧
    now_of s - lastAccessed ws' <= S + D + Second) ∧
  ∀ th pod x, th ∈ tm_threads s → Call (DeletePod pod) x ∈ g_history (th_run th) → pod_outdated r pod.
Proof.
  intros Hws Hca Hlive Hph HS HD HL Hidle Hz Hla Hnow Hr. set (I := idle_of r ws).
  assert (Hb : 0 <= S ∧ 0 <= D ∧ 0 <= L ∧ S + 2 * D + L + Second <= I) by done.
  assert (Hc : cluster_fresh r S D I c touched).
  { split; [|done|done]. exists ws. split; [done|]. split; [done|done|done|lia]. }
  destruct (timed_steps_fresh r cfg namespace claims S D L I Hb _ _ Hr) as [[(ws' & Hw & [_ Hp _ [_ Ha]]) _ Hn] _ Ht].
  { split; [done| |constructor]. apply (cluster_cache r S D L I Hb c touched cache Hc). by rewrite Hws. }
  split; [exists ws'; split; [done|]; split; [done|unfold now_of; lia]|].
  intros th pod x Hth Hin. rewrite Forall_forall in Ht. pose proof (tf_seen _ _ _ _ _ _ _ _ _ _ (Ht th Hth)) as Hs.
  rewrite Forall_forall in Hs. exact (Hs _ Hin).
Qed.

(** ** Witness: two days with a stamp every twelve hours *)
#[local] Existing Instance ascii_tables.
#[local] Existing Instance RefLib.

Abbreviation day_S := (13 * Hour).
Abbreviation day_D := (1 * Hour).
Abbreviation day_L := (3 * Hour).
Abbreviation day_step := (timed_step demo_r demo_cfg "workspaces" demo_claims day_S day_D day_L).

(** [n] requests of the thread [i]. *)
Fixpoint t_run (n i : nat) (s : timed) : timed :=
  match n with
  | O => s
  | S m =>
    match tm_threads s !! i with
    | Some th =>
      if busy (th_run th) then
        let '(g', c') := g_step (th_run th) (tm_cache s) (tm_cluster s) in
        t_run m i (MkTimed c' (tm_cache s) (tm_synced s)
          (<[i := MkThread (th_origin th) (th_mark th) g']> (tm_threads s)) (touched_with (landing th) (tm_touched s)))
      else s
    | None => s
    end
  end.

Lemma t_run_steps n i s : rtc day_step s (t_run n i s).
Proof.
  revert s. induction n as [|n IH]; intros s; [done|]. cbn [t_run].
  destruct (tm_threads s !! i) as [th|] eqn:Hi; [|done]. destruct (busy (th_run th)) eqn:Hb; [|done].
  destruct (g_step (th_run th) (tm_cache s) (tm_cluster s)) as [g' c'] eqn:Hg.
  eapply rtc_l; [by eapply tm_request|apply IH].
Qed.

Definition t_tick (d : Duration) (s : timed) : timed :=
  let t := now_of s + d in
  if (0 <=? d) && (t <=? tm_touched s + day_S) && (t <=? tm_synced s + day_L) &&
     forallb (λ th, negb (busy (th_run th)) || (t <=? th_mark th + day_D)) (tm_threads s)
  then MkTimed (set_now t (tm_cluster s)) (tm_cache s) (tm_synced s) (tm_threads s) (tm_touched s) else s.

Lemma t_tick_steps d s : rtc day_step s (t_tick d s).
Proof.
  unfold t_tick. destruct (_ && _) eqn:E; [|done]. apply andb_true_iff in E as [[[E1 E2]%andb_true_iff E4]%andb_true_iff E3].
  apply rtc_once, tm_tick; [lia|lia|lia|]. apply Forall_forall. intros th Hth Hb.
  rewrite forallb_forall in E3. specialize (E3 th (proj1 (list_elem_of_In _ _) Hth)). rewrite Hb in E3. cbn in E3. lia.
Qed.

(** The informer of Workspaces catches up. *)
Definition t_sync (s : timed) : timed :=
  MkTimed (tm_cluster s) (set_ws (cl_ws (tm_cluster s)) (tm_cache s)) (now_of s) (tm_threads s) (tm_touched s).

Lemma t_sync_steps s : rtc day_step s (t_sync s).
Proof. apply rtc_once, tm_sync_ws. Qed.

Definition t_start (o : origin) (g : goroutine) (s : timed) : timed :=
  with_threads (tm_threads s ++ [MkThread o (now_of s) g]) s.

(** A session stamps the Workspace as it is stored. *)
Definition t_touch (s : timed) : timed :=
  match cl_ws (tm_cluster s) with
  | Some ws => t_run 2 (length (tm_threads s)) (t_start (Stamp ws) (spawn false (TouchLastAccessed ws)) s)
  | None => s
  end.

Lemma t_touch_steps s : rtc day_step s (t_touch s).
Proof.
  unfold t_touch. destruct (cl_ws (tm_cluster s)) as [ws|]; [|done].
  eapply rtc_l; [apply (tm_start demo_r demo_cfg "workspaces" demo_claims); constructor|apply t_run_steps].
Qed.

Definition t_reconcile (s : timed) : timed :=
  t_run 30 (length (tm_threads s)) (t_start Operator (spawn true (Reconcile demo_r demo_req)) s).

Lemma t_reconcile_steps s : rtc day_step s (t_reconcile s).
Proof.
  unfold t_reconcile. eapply rtc_l; [apply (tm_start demo_r demo_cfg "workspaces" demo_claims)|apply t_run_steps].
  exact (starts_reconcile demo_r demo_cfg "workspaces" demo_claims).
Qed.

(** Two hours with the cache following at their end. *)
Definition two_hours (s : timed) : timed := t_sync (t_tick (2 * Hour) s).
Definition half_day (s : timed) : timed := t_reconcile (t_touch (Nat.iter 6 two_hours s)).
Definition two_days : timed :=
  Nat.iter 4 half_day (MkTimed running_cluster running_cluster demo_now [] demo_now).

Lemma iter_steps (f : timed → timed) n s :
  (∀ s, rtc day_step s (f s)) → rtc day_step s (Nat.iter n f s).
Proof. intros Hf. induction n as [|n IH]; [apply rtc_refl|]. etrans; [exact IH|apply (Hf (Nat.iter n f s))]. Qed.

Lemma two_days_steps : rtc day_step (MkTimed running_cluster running_cluster demo_now [] demo_now) two_days.
Proof.
  apply iter_steps. intros s. etrans; [apply (iter_steps two_hours 6)|].
  - intros s'. etrans; [apply t_tick_steps|apply t_sync_steps].
  - etrans; [apply t_touch_steps|apply t_reconcile_steps].
Qed.

Lemma running_ws :
  ∃ ws, cl_ws running_cluster = Some ws ∧ DeletionTimestamp (WS_Meta ws) = None ∧
    phase ws = WorkspacePhaseRunning ∧ idle_of demo_r ws = 24 * Hour ∧ lastAccessed ws = demo_now.
Proof. eexists. split; [vm_compute; reflexivity|]. vm_compute. by split_and!. Qed.

Lemma active_session_kept_witness :
  now_of two_days = demo_now + 48 * Hour ∧
  (∃ ws', cl_ws (tm_cluster two_days) = Some ws' ∧ phase ws' ≠ WorkspacePhaseStopped) ∧
  phase <$> cl_ws (tm_cluster two_days) = Some WorkspacePhaseRunning.
Proof.
  split; [vm_compute; reflexivity|]. split; [|vm_compute; reflexivity].
  destruct running_ws as (ws & Hws & Hlive & Hph & Hidle & Hla).
  destruct (@active_session_kept _ _ RefLib_laws demo_r demo_cfg "workspaces" demo_claims day_S day_D day_L
    running_cluster running_cluster ws demo_now two_days Hws Hws Hlive) as [(ws' & Hw & Hp & _) _].
  - rewrite Hph. discriminate.
  - discriminate.
  - discriminate.
  - discriminate.
  - rewrite Hidle. discriminate.
  - reflexivity.
  - rewrite Hla. discriminate.
  - split; [vm_compute; discriminate|vm_compute; discriminate].
  - exact two_days_steps.
  - exists ws'. exact (conj Hw Hp).
Defined.
