(* ===== verification/FirstLogin.v ===== *)
(** * A user's first login reaches a running workspace

    [EnsureWorkspace] polls while the operator works: whole runs of the operator
    and reports of the kubelet fall anywhere between the gateway's requests.  In a
    cluster that answers every request, as soon as four runs with a report before
    the last have fallen into the minute the gateway waits, the call returns the
    user's Workspace, created by it and running. *)
From S2P Require Import Prelude GoStrings GoTime Api K8s K8sClient Cluster StatusSummary Resources.
From S2P Require Import Auth Lifecycle LifecycleProps Controller ControllerSpec Fixtures ControllerProps.
From Stdlib Require Import ZArith Lia.
#[local] Open Scope Z_scope.

Section login.
Context `{UnicodeTables} `{K8sLib} {laws : K8sLaws}.
Variable r : WorkspaceReconciler.
Variable cfg : LifecycleConfig.
Variable namespace : string.
Variable claims : Claims.

Abbreviation key := (claims_key namespace claims).
Abbreviation ws0 := (new_workspace cfg namespace claims).

(** ** What happens between the gateway's requests *)

Inductive action := OperatorRun | KubeletReport.

Definition act (a : action) (c : cluster) : cluster :=
  match a with OperatorRun => reconcile r key c | KubeletReport => kubelet c end.
Definition acts (l : list action) (c : cluster) : cluster := fold_left (λ c a, act a c) l c.

(** The API server for the gateway: the schedule holds, for each request, what
    happens before it is served; during a wait, time passes first. *)
Definition live (X : Type) (e : apiE X) (s : cluster * list (list action)) : X * (cluster * list (list action)) :=
  let '(c, sched) := s in
  let now := default [] (head sched) in
  match e in apiE Y return Y * (cluster * list (list action)) with
  | WaitOrDone d => (None, (acts now (set_now (cl_now c + d) c), tl sched))
  | e' => let '(x, c') := serve _ e' (acts now c) in (x, (c', tl sched))
  end.

(** ** The stages of the workspace *)

(** How far the operator has come: created, finalizer, volume, pod, pod ready,
    running. *)
Definition next (a : action) (stage : nat) : nat :=
  match a, stage with
  | OperatorRun, 0 => 1
  | OperatorRun, 1 => 2
  | OperatorRun, 2 => 3
  | OperatorRun, 4 => 5
  | KubeletReport, 3 => 4
  | _, n => n
  end%nat.
Definition nexts (l : list action) (stage : nat) : nat := fold_left (λ n a, next a n) l stage.

(** [t0]: when the Workspace was created. *)
Variable t0 : Time.

Record ours (ws : Workspace) : Prop := {
  our_key : key_of (WS_Meta ws) = key;
  our_live : deletion_set (WS_Meta ws) = false;
  our_spec : WS_Spec ws = WS_Spec ws0;
  our_access : IsZero (lastAccessed ws) = true ∨ wire_time t0 <= lastAccessed ws;
}.

Definition has_finalizer (ws : Workspace) : bool := ContainsFinalizer (WS_Meta ws) workspaceFinalizer.
Definition pending (ws : Workspace) : Prop := phase ws = "" ∨ phase ws = WorkspacePhaseCreating.
Definition our_volume (pvc : PersistentVolumeClaim) : Prop :=
  key_of (PVC_Meta pvc) = pvc_key key ws0 ∧ PVC_Phase pvc ≠ ClaimLost.
Definition our_pod (pod : Pod) : Prop :=
  key_of (Pod_Meta pod) = pod_key key ws0 ∧ outdated (desired_image r) pod = false.

Inductive stage : nat → cluster → Prop :=
  | stage_created ws t :
      ours ws → has_finalizer ws = false → pending ws → stage 0 (MkCluster (Some ws) None None t)
  | stage_finalizer ws t :
      ours ws → has_finalizer ws = true → pending ws → stage 1 (MkCluster (Some ws) None None t)
  | stage_volume ws pvc t :
      ours ws → has_finalizer ws = true → pending ws → our_volume pvc →
      stage 2 (MkCluster (Some ws) (Some pvc) None t)
  | stage_pod ws pvc pod t :
      ours ws → has_finalizer ws = true → pending ws → our_volume pvc → our_pod pod →
      Pod_Status pod = zero_pod_status → stage 3 (MkCluster (Some ws) (Some pvc) (Some pod) t)
  | stage_ready ws pvc pod t :
      ours ws → has_finalizer ws = true → pending ws → our_volume pvc → our_pod pod →
      running_and_ready pod = true → stage 4 (MkCluster (Some ws) (Some pvc) (Some pod) t)
  | stage_running ws pvc pod t :
      ours ws → has_finalizer ws = true → phase ws = WorkspacePhaseRunning → our_volume pvc → our_pod pod →
      running_and_ready pod = true → Status_ServiceEndpoint (WS_Status ws) = endpoint_of key ws0 →
      stage 5 (MkCluster (Some ws) (Some pvc) (Some pod) t).

Hypothesis Hvalid : ValidateSpec (Some ws0) = None.
Hypothesis Hidle : idle_of r ws0 <= 0 ∨ workspaceReadyTimeout + Second <= idle_of r ws0.

Lemma our_valid ws : ours ws → ValidateSpec (Some ws) = None.
Proof using Hvalid.
  intros Ho. apply ValidateSpec_iff. rewrite (our_spec _ Ho). by apply ValidateSpec_iff.
Qed.

Lemma our_names ws : ours ws → pvc_key key ws = pvc_key key ws0 ∧ pod_key key ws = pod_key key ws0 ∧
  endpoint_of key ws = endpoint_of key ws0 ∧ idle_of r ws = idle_of r ws0.
Proof.
  intros Ho. unfold pvc_key, pod_key, endpoint_of, userID, idle_of, effectiveIdleTimeout. by rewrite (our_spec _ Ho).
Qed.

Lemma our_admitted ws :
  ours ws → has_finalizer ws = true → phase ws ≠ WorkspacePhaseStopped → admitted_ws key ws.
Proof using Hvalid. intros Ho Hf Hp. split; [apply Ho|apply Ho|by apply our_valid|done|done]. Qed.

Lemma pending_not_stopped ws : pending ws → phase ws ≠ WorkspacePhaseStopped.
Proof. by intros [-> | ->]. Qed.

(** Within the minute it is not idle. *)
Lemma our_recent ws t : ours ws → t0 <= t < t0 + workspaceReadyTimeout → recently_used r ws t.
Proof using Hidle.
  intros Ho Ht. destruct (our_names ws Ho) as (_ & _ & _ & E). unfold recently_used. rewrite E.
  destruct Hidle as [?|Hi]; [by left|right]. pose proof (wire_time_bounds t0) as Hw.
  change workspaceReadyTimeout with 60000000000 in *. change Second with 1000000000 in *.
  destruct (IsZero (lastAccessed ws)) eqn:Hz; [lia|].
  destruct (our_access _ Ho) as [?|Ha]; [congruence|]. unfold Sub, max_int64, min_int64. lia.
Qed.

(** A summary keeps the Workspace ours. *)
Lemma our_summary now ws sum : ours ws → ours (reported now ws sum).
Proof. intros [? ? ? ?]. split; [done|done|done|by rewrite reported_accessed]. Qed.

Lemma summary_pending now ws sum : Sum_Phase sum = WorkspacePhaseCreating → pending (reported now ws sum).
Proof. intros E. right. by rewrite reported_phase. Qed.

(** ** One action *)

Lemma our_pod_reported pod : our_pod pod → our_pod (MkPod (Pod_Meta pod) (Pod_Spec pod) ready_status).
Proof. by intros [? ?]. Qed.

Lemma stage_kubelet n c : stage n c → stage (next KubeletReport n) (kubelet c) ∧ cl_now (kubelet c) = cl_now c.
Proof.
  intros Hs. split; [|done].
  destruct Hs; cbn [next]; unfold kubelet, set_pod; cbn [cl_ws cl_pvc cl_pod cl_now fmap option_fmap option_map];
    by econstructor; eauto using our_pod_reported.
Qed.

(** The Workspace a run that finds the pod ready leaves. *)
Lemma stage_running_step ws ws' pvc pod t :
  ours ws → has_finalizer ws = true → our_volume pvc → our_pod pod → running_and_ready pod = true → t0 <= t →
  phase ws' = WorkspacePhaseRunning → WS_Spec ws' = WS_Spec ws →
  Status_ServiceEndpoint (WS_Status ws') = endpoint_of key ws → WS_Meta ws' = WS_Meta ws →
  (lastAccessed ws' = lastAccessed ws ∨ lastAccessed ws' = wire_time t) →
  stage 5 (MkCluster (Some ws') (Some pvc) (Some pod) t).
Proof.
  intros Ho Hf Hv Hq Hrr Ht Hph Hsp Hep Hm Hla. destruct (our_names ws Ho) as (_ & _ & En & _).
  constructor; try done; [|unfold has_finalizer; by rewrite Hm|by rewrite Hep].
  destruct Ho as [H1 H2 H3 H4]. split; [by rewrite Hm|by rewrite Hm|by rewrite Hsp|].
  destruct Hla as [-> | ->]; [done|right; by apply wire_time_mono].
Qed.

Lemma stage_operator n c :
  stage n c → t0 <= cl_now c < t0 + workspaceReadyTimeout →
  stage (next OperatorRun n) (reconcile r key c) ∧ cl_now (reconcile r key c) = cl_now c.
Proof using laws Hvalid Hidle.
  intros Hs Ht. destruct Hs as [ws t Ho Hf Hp|ws t Ho Hf Hp|ws pvc t Ho Hf Hp [Hv1 Hv2]|ws pvc pod t Ho Hf Hp [Hv1 Hv2] [Hq1 Hq2] Hst
    |ws pvc pod t Ho Hf Hp [Hv1 Hv2] [Hq1 Hq2] Hrr|ws pvc pod t Ho Hf Hp [Hv1 Hv2] [Hq1 Hq2] Hrr Hep];
    cbn [next cl_now] in *; destruct (our_names ws Ho) as (En1 & En2 & En3 & En4).
  - rewrite (step_finalizer r key ws) by (done || by apply our_valid || apply Ho). split; [|done].
    pose proof (admitted_added key ws (our_key _ Ho) (our_live _ Ho) (our_valid _ Ho) (pending_not_stopped _ Hp)) as [].
    constructor; [|done|done]. split; [done|done|apply Ho|apply Ho].
  - destruct (step_volume r key ws (MkCluster (Some ws) None None t)) as (pvc & sum & Hk & Hph & Hsum & ->);
      [done|by apply our_admitted, pending_not_stopped|done|]. split; [|done].
    constructor; [by apply our_summary|done|by apply summary_pending|]. split; [by rewrite Hk|by rewrite Hph].
  - destruct (step_pod r key ws pvc (MkCluster (Some ws) (Some pvc) None t)) as (pod & Hb & ->);
      [done|by apply our_admitted, pending_not_stopped|done|by rewrite En1|done|done|]. split; [|done].
    pose proof (built_current r pod ws pod Hb eq_refl) as Hout.
    apply BuildPod_inv in Hb as (cpu & mem & m & _ & _ & Hm & <- & Hst & _).
    constructor; [done|done|done|done|split; [|done]|done].
    rewrite <- En2. apply SetControllerReference_ok in Hm as [(Hn & Hns & _) _]. unfold pod_key, key_of.
    rewrite <- (our_key _ Ho). cbn in *. by rewrite Hn, Hns.
  - destruct (step_waiting r key ws pvc pod (MkCluster (Some ws) (Some pvc) (Some pod) t)) as (sum & Hsum & ->);
      [done|by apply our_admitted, pending_not_stopped|done|by rewrite En1|done|done|by rewrite En2|done|done|].
    split; [|done]. constructor; [by apply our_summary|done|by apply summary_pending|done|done|done].
  - destruct (step_running r key ws pvc pod (MkCluster (Some ws) (Some pvc) (Some pod) t))
      as (ws' & -> & Hph & Hsp & Hep & Hm & Hla);
      [done|by apply our_admitted, pending_not_stopped|done|by rewrite En1|done|done|by rewrite En2|done|done|by apply our_recent|].
    split; [|done]. apply (stage_running_step ws); try done; cbn; lia.
  - destruct (step_running r key ws pvc pod (MkCluster (Some ws) (Some pvc) (Some pod) t))
      as (ws' & -> & Hph & Hsp & Hep' & Hm & Hla);
      [done|apply our_admitted; [done|done|by rewrite Hp]|done|by rewrite En1|done|done|by rewrite En2|done|done|by apply our_recent|].
    split; [|done]. apply (stage_running_step ws); try done; cbn; lia.
Qed.

(** ** Many actions *)

Definition in_time (c : cluster) : Prop := t0 <= cl_now c < t0 + workspaceReadyTimeout.

Lemma stage_acts l n c : stage n c → in_time c → stage (nexts l n) (acts l c) ∧ cl_now (acts l c) = cl_now c.
Proof using laws Hvalid Hidle.
  revert n c. induction l as [|a l IH]; intros n c Hs Ht; [done|]. cbn.
  assert (Ha : stage (next a n) (act a c) ∧ cl_now (act a c) = cl_now c).
  { destruct a; [by apply stage_operator|by apply stage_kubelet]. }
  destruct Ha as [Hs' Hn]. destruct (IH _ _ Hs') as [Hs'' Hn']; [unfold in_time in *; by rewrite Hn|].
  split; [done|]. unfold acts in *. by rewrite Hn', Hn.
Qed.

Lemma nexts_app l k n : nexts (l ++ k) n = nexts k (nexts l n).
Proof. apply fold_left_app. Qed.

Lemma nexts_done l : nexts l 5 = 5%nat.
Proof. induction l as [|[] l IH]; [done|exact IH|exact IH]. Qed.

(** Stages are never lost, so further actions in between do not matter. *)
Lemma next_mono a n m : (n <= m <= 5)%nat → (next a n <= next a m <= 5)%nat.
Proof. intros [Hn Hm]. do 6 (destruct m as [|m]; [do 6 (destruct n as [|n]; [destruct a; cbn; lia|]); lia|]). lia. Qed.
Lemma next_up a n : (n <= 5 → n <= next a n <= 5)%nat.
Proof. intros Hn. do 6 (destruct n as [|n]; [destruct a; cbn; lia|]). lia. Qed.

Lemma nexts_bound l n : (n <= 5 → nexts l n <= 5)%nat.
Proof. revert n. induction l as [|a l IH]; intros n Hn; [done|]. cbn. apply IH. by apply next_up. Qed.

Lemma nexts_mono l n m : (n <= m <= 5)%nat → (nexts l n <= nexts l m)%nat.
Proof.
  revert n m. induction l as [|a l IH]; intros n m Hn; cbn; [lia|]. apply IH. by apply next_mono.
Qed.

Lemma nexts_sublist l k n : l `sublist_of` k → (n <= 5)%nat → (nexts l n <= nexts k n)%nat.
Proof.
  intros Hl. revert n. induction Hl as [|a l k _ IH|a l k _ IH]; intros n Hn; cbn; [lia| |].
  - apply IH. by apply next_up.
  - etrans; [|apply IH; by apply next_up]. apply nexts_mono. by apply next_up.
Qed.

(** Four runs of the operator, with a report of the kubelet before the last. *)
Definition enough : list action := [OperatorRun; OperatorRun; OperatorRun; KubeletReport; OperatorRun].

Lemma enough_runs l : enough `sublist_of` l → nexts l 0 = 5%nat.
Proof.
  intros Hl. pose proof (nexts_sublist _ _ 0 Hl ltac:(lia)) as H1. pose proof (nexts_bound l 0 ltac:(lia)) as H2.
  change (nexts enough 0) with 5%nat in H1. lia.
Qed.

(** ** The gateway's loop *)

Lemma concat_take_S {A} (l : list (list A)) n :
  concat (take (S n) l) = default [] (head l) ++ concat (take n (tl l)).
Proof. destruct l; cbn; [by rewrite take_nil|done]. Qed.

Lemma stage_read n c :
  stage n c → (n <= 5)%nat ∧ ∃ ws, cl_ws c = Some ws ∧ get_by WS_Meta (cl_ws c) key = Ok ws ∧
    (n = 5%nat ∧ phase ws = WorkspacePhaseRunning ∧ Status_ServiceEndpoint (WS_Status ws) = endpoint_of key ws0 ∨
     n ≠ 5%nat ∧ pending ws).
Proof.
  destruct 1 as [ws t Ho|ws t Ho|ws pvc t Ho|ws pvc pod t Ho|ws pvc pod t Ho|ws pvc pod t Ho]; (split; [lia|]);
    exists ws; (split; [done|]); (split; [apply get_by_key, Ho|]); try (right; by split). by left.
Qed.

Lemma stage_set_now n c t : stage n c → stage n (set_now t c).
Proof. by destruct 1; econstructor. Qed.

Lemma pending_polls ws : pending ws →
  bool_decide (phase ws = WorkspacePhaseRunning) = false ∧ bool_decide (phase ws = WorkspacePhaseFailed) = false ∧
  bool_decide (phase ws = WorkspacePhaseStopped) = false.
Proof. by intros [-> | ->]. Qed.

Lemma wait_reaches k fuel sched c n :
  stage n c → t0 <= cl_now c → cl_now c + Z.of_nat k * workspaceReadyPoll < t0 + workspaceReadyTimeout → (k < fuel)%nat →
  nexts (concat (take (3 * k + 2) sched)) n = 5%nat →
  ∃ ws c' sched',
    run live (waitLoop fuel key (t0 + workspaceReadyTimeout) false) (c, sched) = (Some (Ok ws, false), (c', sched')) ∧
    stage 5 c' ∧ cl_ws c' = Some ws ∧ cl_now c <= cl_now c' <= cl_now c + Z.of_nat k * workspaceReadyPoll.
Proof using laws Hvalid Hidle.
  revert fuel sched c n. induction k as [|k IH]; intros fuel sched c n Hs Hge Ht Hf Hn;
    (destruct fuel as [|fuel]; [lia|]); cbn [waitLoop];
    change workspaceReadyPoll with 2000000000 in *; change workspaceReadyTimeout with 60000000000 in *.
  all: set (as0 := default [] (head sched)); set (as1 := default [] (head (tl sched))).
  all: destruct (stage_acts as0 n c Hs) as [Hs1 Hn1]; [unfold in_time; change workspaceReadyTimeout with 60000000000; lia|].
  all: destruct (stage_acts as1 _ _ Hs1) as [Hs2 Hn2]; [unfold in_time; change workspaceReadyTimeout with 60000000000; lia|].
  all: destruct (stage_read _ _ Hs2) as (Hle & ws & Hws & Hget & Hph).
  all: rewrite (run_next live Now _ _ (cl_now c) (acts as0 c, tl sched)) by (cbn; by rewrite <- Hn1).
  all: rewrite (proj2 (Z.ltb_lt _ _)) by lia.
  all: rewrite (run_next live (GetWorkspace key) _ _ (Ok ws) (acts as1 (acts as0 c), tl (tl sched)))
    by (change (live _ (GetWorkspace key) (acts as0 c, tl sched)) with
          (get_by WS_Meta (cl_ws (acts as1 (acts as0 c))) key, (acts as1 (acts as0 c), tl (tl sched))); by rewrite Hget).
  - assert (E5 : nexts as1 (nexts as0 n) = 5%nat).
    { rewrite <- nexts_app, <- Hn. f_equal. change (3 * 0 + 2)%nat with 2%nat. rewrite (concat_take_S sched 1), (concat_take_S (tl sched) 0). by rewrite app_nil_r. }
    destruct Hph as [(_ & Hr & _)|[? _]]; [|done]. rewrite bool_decide_true by done.
    exists ws, (acts as1 (acts as0 c)), (tl (tl sched)). rewrite E5 in Hs2. split_and!; try done; lia.
  - destruct Hph as [(E5 & Hr & _)|[Hne Hp]].
    { rewrite bool_decide_true by done. exists ws, (acts as1 (acts as0 c)), (tl (tl sched)).
      rewrite E5 in Hs2. split_and!; try done; lia. }
    destruct (pending_polls ws Hp) as (-> & -> & ->).
    set (as2 := default [] (head (tl (tl sched)))). set (c2 := set_now (cl_now (acts as1 (acts as0 c)) + 2000000000) (acts as1 (acts as0 c))).
    rewrite (run_next live (WaitOrDone 2000000000) _ _ None (acts as2 c2, tl (tl (tl sched)))) by done.
    assert (Ec2 : cl_now c2 = cl_now c + 2000000000) by (cbn; lia).
    destruct (stage_acts as2 _ c2 (stage_set_now _ _ _ Hs2)) as [Hs3 Hn3];
      [unfold in_time; change workspaceReadyTimeout with 60000000000; lia|].
    destruct (IH fuel (tl (tl (tl sched))) _ _ Hs3) as (ws' & c' & sched' & E & Hs' & Hw' & Hnow); [lia|lia|lia| |].
    { rewrite <- Hn. replace (3 * S k + 2)%nat with (S (S (S (3 * k + 2)))) by lia.
      rewrite !concat_take_S, !nexts_app. done. }
    exists ws', c', sched'. split; [exact E|]. split_and!; try done; lia.
Qed.

Lemma touch_running c sched ws :
  stage 5 c → in_time c →
  ∃ ws' c' sched', run live (TouchLastAccessed ws) (c, sched) = (ws', (c', sched')) ∧ cl_ws c' = Some ws' ∧
    phase ws' = WorkspacePhaseRunning ∧ Status_ServiceEndpoint (WS_Status ws') = endpoint_of key ws0 ∧
    cl_now c' = cl_now c.
Proof using laws Hvalid Hidle.
  intros Hs Ht. unfold TouchLastAccessed. set (as0 := default [] (head sched)). set (as1 := default [] (head (tl sched))).
  destruct (stage_acts as0 5 c Hs Ht) as [Hs1 Hn1]. rewrite nexts_done in Hs1.
  destruct (stage_acts as1 5 _ Hs1) as [Hs2 Hn2]; [unfold in_time in *; by rewrite Hn1|]. rewrite nexts_done in Hs2.
  rewrite (run_next live Now _ _ (cl_now (acts as0 c)) (acts as0 c, tl sched)) by done.
  destruct (stage_read _ _ Hs2) as (_ & stored & Hst & _ & Hph). destruct Hph as [(_ & Hr & He)|[? _]]; [|done].
  set (new := set_LastAccessed (cl_now (acts as0 c)) ws). set (c2 := acts as1 (acts as0 c)).
  set (ws' := patched ws new stored).
  rewrite (run_next live (PatchStatus ws new) _ _ (Ok ws') (set_ws (Some ws') c2, tl (tl sched))).
  2: { change (live _ (PatchStatus ws new) (acts as0 c, tl sched)) with
         (let '(x, c') := serve _ (PatchStatus ws new) c2 in (x, (c', tl (tl sched)))).
       unfold serve. unfold c2. rewrite Hst. done. }
  exists ws', (set_ws (Some ws') c2), (tl (tl sched)).
  assert (Hkeep : phase ws' = phase stored ∧ Status_ServiceEndpoint (WS_Status ws') = Status_ServiceEndpoint (WS_Status stored)).
  { split; cbn; unfold merge_field; by rewrite decide_True by done. }
  destruct Hkeep as [Ep Ee]. rewrite Ep, Ee. split_and!; try done. cbn. unfold c2. by rewrite Hn2, Hn1.
Qed.

Lemma absent_acts l t : acts l (MkCluster None None None t) = MkCluster None None None t.
Proof. induction l as [|[] l IH]; [done|exact IH|exact IH]. Qed.

Lemma created_stage : stage 0 (MkCluster (Some ws0) None None t0).
Proof using laws.
  constructor; [|unfold has_finalizer|by left].
  - split; [done|done|done|by left].
  - destruct (ContainsFinalizer (WS_Meta ws0) workspaceFinalizer) eqn:E; [|done].
    apply ContainsFinalizer_spec in E. by apply elem_of_nil in E.
Qed.

(** A user's first login ends in a running workspace: when nothing of the user
      exists, and while the gateway waits (its [k]-th poll is within the minute)
      four runs of the operator, with a report of the kubelet before the last,
      fall anywhere between the gateway's requests, mixed with any number of
      others, then [EnsureWorkspace] returns the Workspace it created, running
      and with its endpoint, before that poll is over.  Whatever the operator's
      idle timeout is, it must not be below that minute and a second.  Each run of the
      operator sees the cluster as it is. *)
Theorem first_login k fuel sched :
  Z.of_nat k * workspaceReadyPoll < workspaceReadyTimeout → (k < fuel)%nat →
  enough `sublist_of` concat (take (3 * k + 3) (drop 2 sched)) →
  ∃ ws c' sched',
    run live (EnsureWorkspace fuel cfg namespace claims) (MkCluster None None None t0, sched) =
      (Some (Ok ws, MkDetails true false), (c', sched')) ∧
    cl_ws c' = Some ws ∧ phase ws = WorkspacePhaseRunning ∧
    Status_ServiceEndpoint (WS_Status ws) = endpoint_of key ws0 ∧
    t0 <= cl_now c' <= t0 + Z.of_nat k * workspaceReadyPoll.
Proof using laws Hvalid Hidle.
  intros Hk Hf Hen%enough_runs. unfold EnsureWorkspace.
  set (as2 := default [] (head (tl (tl sched)))). set (c0 := MkCluster (Some ws0) None None t0).
  assert (E1 : live _ (GetWorkspace key) (MkCluster None None None t0, sched) =
    (Err not_found, (MkCluster None None None t0, tl sched))).
  { unfold live, serve. by rewrite absent_acts. }
  rewrite (run_next live _ _ _ _ _ E1). change (negb (IsNotFound not_found)) with false. cbv iota.
  assert (E2 : live _ (CreateWorkspace ws0) (MkCluster None None None t0, tl sched) = (Ok ws0, (c0, tl (tl sched)))).
  { unfold live, serve. by rewrite absent_acts. }
  rewrite (run_next live _ _ _ _ _ E2). unfold waitAndStamp, waitForRunning.
  assert (Hin : in_time c0) by (unfold in_time; cbn; change workspaceReadyTimeout with 60000000000; lia).
  destruct (stage_acts as2 0 c0 created_stage Hin) as [Hs Hn].
  rewrite run_bind, (run_next live Now _ _ t0 (acts as2 c0, tl (tl (tl sched))))
    by (change (live _ Now (c0, tl (tl sched))) with (cl_now (acts as2 c0), (acts as2 c0, tl (tl (tl sched)))); by rewrite Hn).
  replace (drop 2 sched) with (tl (tl sched)) in Hen by (by destruct sched as [|? [|? ?]]).
  replace (3 * k + 3)%nat with (S (3 * k + 2)) in Hen by lia. rewrite concat_take_S, nexts_app in Hen.
  destruct (wait_reaches k fuel (tl (tl (tl sched))) _ _ Hs) as (ws & c' & sched' & E & Hs' & Hws & Hnow);
    [rewrite Hn; cbn; lia|rewrite Hn; cbn; lia|done|done|].
  rewrite E. rewrite Hn in Hnow. cbn [cl_now c0] in Hnow.
  destruct (touch_running c' sched' ws Hs') as (ws' & c'' & sched'' & Et & Hw & Hp & He & Hnt); [unfold in_time; lia|].
  rewrite run_bind, Et. exists ws', c'', sched''. cbn. split_and!; try done; rewrite Hnt; lia.
Qed.
End login.

(** ** Witness: a run of the operator and a report during every wait *)
#[local] Existing Instance ascii_tables.
#[local] Existing Instance RefLib.

Definition poll_sched : list (list action) := [[]; []; [OperatorRun; KubeletReport]].
Definition demo_sched : list (list action) := [[]; []; []] ++ concat (repeat poll_sched 5).

Lemma demo_enough : enough `sublist_of` concat (take (3 * 4 + 3) (drop 2 demo_sched)).
Proof. vm_compute. repeat first [apply sublist_skip|apply sublist_cons|constructor]. Qed.

Lemma demo_idle : idle_of demo_r (new_workspace demo_cfg "workspaces" demo_claims) = 24 * Hour.
Proof. vm_compute. reflexivity. Qed.

Lemma first_login_witness :
  ∃ ws c' sched',
    run (live demo_r "workspaces" demo_claims) (EnsureWorkspace 31 demo_cfg "workspaces" demo_claims)
      (MkCluster None None None demo_now, demo_sched) = (Some (Ok ws, MkDetails true false), (c', sched')) ∧
    phase ws = WorkspacePhaseRunning ∧ cl_now c' <= demo_now + 8 * Second.
Proof.
  destruct (@first_login _ _ RefLib_laws demo_r demo_cfg "workspaces" demo_claims demo_now) with (k := 4%nat) (fuel := 31%nat)
    (sched := demo_sched) as (ws & c' & sched' & E & _ & Hp & _ & Hn).
  - vm_compute. reflexivity.
  - right. rewrite demo_idle. discriminate.
  - reflexivity.
  - repeat constructor.
  - exact demo_enough.
  - exists ws, c', sched'. exact (conj E (conj Hp (proj2 Hn))).
Defined.
