(* ===== verification/GoFloat.v ===== *)
(** * [strconv.ParseFloat]

    The decimal and hexadecimal syntax with underscores, the special values, and
    the correctly rounded binary64 value. *)
From S2P Require Import Prelude GoStrings GoTime.
From Stdlib Require Import ZArith Lia.
From Stdlib Require Import SpecFloat.
#[local] Open Scope Z_scope.

Abbreviation float64 := spec_float.
Definition f64_zero : float64 := S754_zero false.

(** [x > 0] and [x <= 0]: both are false of a NaN. *)
Definition f64_positive (x : float64) : bool := SFltb f64_zero x.
Definition f64_nonpositive (x : float64) : bool := SFleb x f64_zero.

Definition is_hex_letter (c : ascii) : bool := in_range 97 102 (lower_byte c).
Definition hex_value (c : ascii) : Z := if is_digit c then bval c - 48 else bval (lower_byte c) - 87.
Definition is_underscore (c : ascii) : bool := Ascii.eqb c "_".

(** ** Syntax *)

(** [strconv.underscoreOK]: an underscore stands between digits, or after the
    base prefix.  [seen] is what came last: a digit, an underscore or neither. *)
Inductive seen := SeenNone | SeenDigit | SeenUnderscore | SeenOther.

Fixpoint underscores_ok (hex : bool) (last : seen) (s : bytes) : bool :=
  match s with
  | [] => match last with SeenUnderscore => false | _ => true end
  | c :: s' =>
    if is_digit c || hex && is_hex_letter c then underscores_ok hex SeenDigit s'
    else if is_underscore c then
      match last with SeenDigit => underscores_ok hex SeenUnderscore s' | _ => false end
    else match last with SeenUnderscore => false | _ => underscores_ok hex SeenOther s' end
  end.

(** Digits with at most one period, skipping underscores: the mantissa read, the
    number of digits after the period, whether a period and a digit were seen. *)
Fixpoint read_mantissa (base m frac : Z) (dot digits : bool) (s : bytes) : Z * Z * bool * bytes :=
  match s with
  | [] => (m, frac, digits, [])
  | c :: s' =>
    if is_underscore c then read_mantissa base m frac dot digits s'
    else if Ascii.eqb c "." then
      if dot then (m, frac, digits, s) else read_mantissa base m frac true digits s'
    else if is_digit c || (base =? 16) && is_hex_letter c then
      read_mantissa base (m * base + hex_value c) (if dot then frac + 1 else frac) dot true s'
    else (m, frac, digits, s)
  end.

(** Exponent digits; past ten thousand the value no longer grows. *)
Fixpoint read_exponent (e : Z) (s : bytes) : Z * bytes :=
  match s with
  | [] => (e, [])
  | c :: s' =>
    if is_digit c then read_exponent (if e <? 10000 then e * 10 + (bval c - 48) else e) s'
    else if is_underscore c then read_exponent e s'
    else (e, s)
  end.

(** The optional exponent after [expChar]; [None] when it is malformed, or
    missing from a hexadecimal number. *)
Definition exponent_part (hex : bool) (s : bytes) : option (Z * bytes) :=
  match s with
  | c :: s1 =>
    if Ascii.eqb (lower_byte c) (if hex then "p" else "e")%char then
      let '(esign, s2) := match s1 with
                          | "-"%char :: s2 => (-1, s2) | "+"%char :: s2 => (1, s2) | _ => (1, s1)
                          end in
      match s2 with
      | d :: _ => if is_digit d then let '(e, s3) := read_exponent 0 s2 in Some (esign * e, s3) else None
      | [] => None
      end
    else if hex then None else Some (0, s)
  | [] => if hex then None else Some (0, [])
  end.

(** The base prefix, honoured when something follows it. *)
Definition hex_prefix (s : bytes) : option bytes :=
  match s with
  | "0"%char :: x :: c :: s' => if Ascii.eqb (lower_byte x) "x" then Some (c :: s') else None
  | _ => None
  end.

(** ** Value *)

(** [m * 10^e] and [m * 2^e], rounded to the nearest binary64. *)
Definition round_decimal (neg : bool) (m e : Z) : float64 :=
  match m with
  | Zpos p =>
    if 0 <=? e then binary_normalize 53 1024 (if neg then - (m * 10 ^ e) else m * 10 ^ e) 0 neg
    else SFdiv 53 1024 (S754_finite neg p 0) (S754_finite false (Z.to_pos (10 ^ (- e))) 0)
  | _ => S754_zero neg
  end.
Definition round_binary (neg : bool) (m e : Z) : float64 :=
  match m with
  | Zpos _ => binary_normalize 53 1024 (if neg then - m else m) e neg
  | _ => S754_zero neg
  end.

Definition is_infinite (f : float64) : bool := match f with S754_infinity _ => true | _ => false end.

(** A finite number that rounds out of range is an error. *)
Definition in_f64_range (f : float64) : option float64 := if is_infinite f then None else Some f.

Definition split_float_sign (s : bytes) : bool * bytes :=
  match s with
  | "+"%char :: s' => (false, s') | "-"%char :: s' => (true, s') | _ => (false, s)
  end.

Definition parse_number (s : bytes) : option float64 :=
  let '(neg, s1) := split_float_sign s in
  let '(hex, s2) := match hex_prefix s1 with Some s2 => (true, s2) | None => (false, s1) end in
  let '(m, frac, digits, s3) := read_mantissa (if hex then 16 else 10) 0 0 false false s2 in
  if negb digits then None
  else match exponent_part hex s3 with
       | Some (e, []) =>
         if existsb is_underscore s2 && negb (underscores_ok hex (if hex then SeenDigit else SeenNone) s2)
         then None
         else in_f64_range (if hex then round_binary neg m (e - 4 * frac) else round_decimal neg m (e - frac))
       | _ => None
       end.

(** [inf], [infinity] with an optional sign, and [nan], in any case. *)
Definition special (s : bytes) : option float64 :=
  let '(neg, s1) := split_float_sign s in
  let low := of_bytes (map lower_byte s1) in
  if bool_decide (low = "inf") || bool_decide (low = "infinity") then Some (S754_infinity neg)
  else if bool_decide (of_bytes (map lower_byte s) = "nan") then Some S754_nan
  else None.

(** [None] for a syntax or range error. *)
Definition ParseFloat (s : string) : option float64 :=
  match special (bytes_of s) with
  | Some f => Some f
  | None => parse_number (bytes_of s)
  end.

Example ParseFloat_half : ParseFloat "0.5" = Some (S754_finite false 4503599627370496 (-53)).
Proof. vm_compute. reflexivity. Qed.
Example ParseFloat_hex : ParseFloat "0x1p-1" = ParseFloat "5e-1".
Proof. vm_compute. reflexivity. Qed.
Example ParseFloat_underscore : ParseFloat "1_000" = ParseFloat "1e3" ∧ ParseFloat "1__0" = None
  ∧ ParseFloat "_10" = None ∧ ParseFloat "" = None ∧ ParseFloat "1e400" = None ∧ ParseFloat "0x_1p0" = ParseFloat "1".
Proof. vm_compute. repeat split. Qed.
