(* ===== verification/RateLimit.v ===== *)
(** * Rate limiting ([pkg/gateway/ratelimit.go])

    The optional global and per-identity token buckets of an endpoint, asked by
    concurrent requests.  The bucket itself is [golang.org/x/time/rate]: a
    parameter. *)
From S2P Require Import Prelude GoStrings GoTime GoFloat.
From Stdlib Require Import ZArith Lia.
#[local] Open Scope Z_scope.

(** [*rate.Limiter]: made for a rate and a burst, asked at a time. *)
Class TokenBucket := {
  Limiter : Type;
  NewLimiter : float64 → Z → Limiter;
  limiter_allow : Time → Limiter → bool * Limiter;
}.

(** [os.Getenv]. *)
Definition parseFloatEnv (getenv : string → string) (key : string) : float64 :=
  let v := getenv key in
  if bool_decide (v = "") then f64_zero
  else match ParseFloat v with Some f => f | None => f64_zero end.

Definition parseIntEnv (getenv : string → string) (key : string) : Z :=
  let v := getenv key in
  if bool_decide (v = "") then 0
  else match Atoi v with Some n => n | None => 0 end.

Section limiter.
Context `{TokenBucket}.

Record EndpointLimiter := MkEndpointLimiter {
  global : option Limiter;
  userRPS : float64;
  userBurst : Z;
  users : gmap string Limiter;
}.

(** A nil limiter is [None]. *)
Definition NewEndpointLimiter (globalRPS : float64) (globalBurst : Z) (userRPS : float64)
    (userBurst : Z) : option EndpointLimiter :=
  let g := if f64_positive globalRPS && (0 <? globalBurst) then Some (NewLimiter globalRPS globalBurst)
           else None in
  if f64_nonpositive userRPS && bool_decide (g = None) then None
  else
    let userBurst := if userBurst <=? 0 then 1 else userBurst in
    Some (MkEndpointLimiter g userRPS userBurst ∅).

Definition LoadEndpointLimiterFromEnv (getenv : string → string) (prefix : string) :
    option EndpointLimiter :=
  let globalRPS := parseFloatEnv getenv (prefix +:+ "GLOBAL_RPS") in
  let globalBurst := parseIntEnv getenv (prefix +:+ "GLOBAL_BURST") in
  let userRPS := parseFloatEnv getenv (prefix +:+ "PER_USER_RPS") in
  let userBurst := parseIntEnv getenv (prefix +:+ "PER_USER_BURST") in
  NewEndpointLimiter globalRPS globalBurst userRPS userBurst.

(** [e.global.Allow()], at time [t]; no global bucket allows. *)
Definition global_allow (t : Time) (e : EndpointLimiter) : bool * EndpointLimiter :=
  match global e with
  | Some g =>
    let '(ok, g') := limiter_allow t g in
    (ok, MkEndpointLimiter (Some g') (userRPS e) (userBurst e) (users e))
  | None => (true, e)
  end.

(** [e.users.LoadOrStore(userKey, rate.NewLimiter(...))] and its [Allow()]. *)
Definition user_allow (t : Time) (userKey : string) (e : EndpointLimiter) : bool * EndpointLimiter :=
  let lim := default (NewLimiter (userRPS e) (userBurst e)) (users e !! userKey) in
  let '(ok, lim') := limiter_allow t lim in
  (ok, MkEndpointLimiter (global e) (userRPS e) (userBurst e) (<[userKey := lim']> (users e))).

(** [LoadOrStore] alone: the user's bucket is there afterwards. *)
Definition load_user (userKey : string) (e : EndpointLimiter) : EndpointLimiter :=
  MkEndpointLimiter (global e) (userRPS e) (userBurst e)
    (<[userKey := default (NewLimiter (userRPS e) (userBurst e)) (users e !! userKey)]> (users e)).

(** ** Requests

    Requests run [Allow] at the same time: asking a bucket (its mutex) and
    [LoadOrStore] (of a [sync.Map]) are the atomic steps.  A stored bucket is
    never replaced, so the pointer [Allow] holds is the one under its key. *)
Inductive limE : Type → Type :=
  | GlobalAllow : limE bool
  | LoadOrStore (userKey : string) : limE unit
  | UserAllow (userKey : string) : limE bool.

Definition decision : Type := bool * string.

(** After [LoadOrStore], and after the global bucket. *)
Definition ask_user (userKey : string) : prog limE decision :=
  ok ← request (UserAllow userKey);
  mret (if (ok : bool) then (true, "") else (false, "user")).
Definition past_global (e : EndpointLimiter) (userKey : string) : prog limE decision :=
  if f64_nonpositive (userRPS e) then mret (true, "")
  else _ ← request (LoadOrStore userKey); ask_user userKey.

Definition Allow (e : option EndpointLimiter) (userKey : string) : prog limE decision :=
  match e with
  | None => mret (true, "")
  | Some e =>
    ok ← (if bool_decide (global e = None) then mret true else request GlobalAllow);
    if (ok : bool) then past_global e userKey else mret (false, "global")
  end.

(** What a step does to the limiter at time [t]. *)
Definition handle {X} (c : limE X) (t : Time) (e : EndpointLimiter) : X * EndpointLimiter :=
  match c in limE Y return Y * EndpointLimiter with
  | GlobalAllow => global_allow t e
  | LoadOrStore u => ((), load_user u e)
  | UserAllow u => user_allow t u e
  end.

Inductive caller :=
  | Asking (userKey : string) (p : prog limE decision)
  | Answered (userKey : string) (d : decision).

(** The callers by number, and what was asked of the buckets: by whom, when and
    the answer. *)
Record gate := MkGate {
  g_limiter : EndpointLimiter;
  g_now : Time;
  g_callers : gmap nat caller;
  g_global : list (nat * (Time * bool));
  g_users : list (nat * string * (Time * bool));
}.

Definition gate_start (now : Time) (e : EndpointLimiter) : gate := MkGate e now ∅ [] [].

Definition call_global (i : nat) (t : Time) (c : call limE) : list (nat * (Time * bool)) :=
  match c with
  | Call e x =>
    match e in limE Y return Y → list _ with GlobalAllow => λ ok, [(i, (t, ok))] | _ => λ _, [] end x
  end.
Definition call_user (i : nat) (t : Time) (c : call limE) : list (nat * string * (Time * bool)) :=
  match c with
  | Call e x =>
    match e in limE Y return Y → list _ with UserAllow u => λ ok, [(i, u, (t, ok))] | _ => λ _, [] end x
  end.

Inductive gate_step (e0 : EndpointLimiter) : gate → gate → Prop :=
  | Gate_arrive s i u :
      g_callers s !! i = None →
      gate_step e0 s (MkGate (g_limiter s) (g_now s) (<[i := Asking u (Allow (Some e0) u)]> (g_callers s))
        (g_global s) (g_users s))
  | Gate_ask s i u X (c : limE X) k x l :
      g_callers s !! i = Some (Asking u (Request c k)) → handle c (g_now s) (g_limiter s) = (x, l) →
      gate_step e0 s (MkGate l (g_now s) (<[i := Asking u (k x)]> (g_callers s))
        (g_global s ++ call_global i (g_now s) (Call c x)) (g_users s ++ call_user i (g_now s) (Call c x)))
  | Gate_answer s i u d :
      g_callers s !! i = Some (Asking u (Return d)) →
      gate_step e0 s (MkGate (g_limiter s) (g_now s) (<[i := Answered u d]> (g_callers s))
        (g_global s) (g_users s))
  | Gate_tick s t : g_now s <= t →
      gate_step e0 s (MkGate (g_limiter s) t (g_callers s) (g_global s) (g_users s)).

Definition gate_runs (now : Time) (e0 : EndpointLimiter) : gate → Prop := rtc (gate_step e0) (gate_start now e0).

(** ** What the limiter promises *)

(** The bucket after being asked at the given times, and its answers. *)
Fixpoint bucket_after (l : Limiter) (ts : list Time) : Limiter :=
  match ts with [] => l | t :: ts' => bucket_after (limiter_allow t l).2 ts' end.
Fixpoint bucket_answers (l : Limiter) (ts : list Time) : list bool :=
  match ts with
  | [] => []
  | t :: ts' => let '(ok, l') := limiter_allow t l in ok :: bucket_answers l' ts'
  end.

Definition user_bucket (u : string) (e : EndpointLimiter) : Limiter :=
  default (NewLimiter (userRPS e) (userBurst e)) (users e !! u).
Definition asked_of (u : string) (l : list (nat * string * (Time * bool))) : list (Time * bool) :=
  map snd (filter (λ x, x.1.2 = u) l).

(** A log of asks is the behaviour of one bucket. *)
Definition bucket_log (l0 l : Limiter) (asks : list (Time * bool)) : Prop :=
  l = bucket_after l0 (map fst asks) ∧ map snd asks = bucket_answers l0 (map fst asks).

Lemma bucket_log_snoc l0 l asks t ok l' :
  bucket_log l0 l asks → limiter_allow t l = (ok, l') → bucket_log l0 l' (asks ++ [(t, ok)]).
Proof.
  unfold bucket_log. rewrite !map_app. cbn [map fst snd]. generalize (map fst asks) (map snd asks).
  intros ts. revert l0. induction ts as [|t0 ts IH]; intros l0 oks [-> ->] Hl; cbn in *.
  - by rewrite Hl.
  - destruct (limiter_allow t0 l0) as [ok0 l1] eqn:E0. cbn in *.
    destruct (IH l1 _ (conj eq_refl eq_refl) Hl) as [-> Heq]. split; [done|]. by rewrite <- Heq.
Qed.

Lemma asked_of_snoc u l i v a :
  asked_of u (l ++ [(i, v, a)]) = if decide (v = u) then asked_of u l ++ [a] else asked_of u l.
Proof.
  unfold asked_of. rewrite filter_app, filter_cons, filter_nil, map_app. cbn.
  case_decide; [done|]. by rewrite app_nil_r.
Qed.

(** ** Callers *)

Section callers.
Variable e0 : EndpointLimiter.

(** The asks of one caller. *)
Definition global_asks (i : nat) (l : list (nat * (Time * bool))) : list (Time * bool) :=
  map snd (filter (λ x, x.1 = i) l).
Definition user_asks (i : nat) (l : list (nat * string * (Time * bool))) : list (string * (Time * bool)) :=
  map (λ x, (x.1.2, x.2)) (filter (λ x, x.1.1 = i) l).

Definition passed (G : list (Time * bool)) : Prop :=
  (global e0 = None ∧ G = []) ∨ ∃ t, G = [(t, true)].

(** What a caller was told, by what its asks of the buckets gave. *)
Definition decided (u : string) (G : list (Time * bool)) (U : list (string * (Time * bool))) (d : decision) : Prop :=
  (∃ t, G = [(t, false)] ∧ U = [] ∧ d = (false, "global")) ∨
  (passed G ∧ f64_nonpositive (userRPS e0) = true ∧ U = [] ∧ d = (true, "")) ∨
  (passed G ∧ f64_nonpositive (userRPS e0) = false ∧ ∃ t ok, U = [(u, (t, ok))] ∧
    d = if ok : bool then (true, "") else (false, "user")).

Inductive stage (u : string) : list (Time * bool) → list (string * (Time * bool)) → prog limE decision → Prop :=
  | Stage_fresh : stage u [] [] (Allow (Some e0) u)
  | Stage_past_global G : passed G → stage u G [] (past_global e0 u)
  | Stage_user G : passed G → f64_nonpositive (userRPS e0) = false → stage u G [] (ask_user u)
  | Stage_decided G U d : decided u G U d → stage u G U (Return d).

Lemma past_global_next u G :
  passed G →
  match past_global e0 u with
  | Return d => decided u G [] d
  | Request c k => ∀ i t x, stage u (G ++ map snd (call_global i t (Call c x)))
      (map (λ x, (x.1.2, x.2)) (call_user i t (Call c x))) (k x)
  end.
Proof.
  intros Hp. unfold past_global. destruct (f64_nonpositive (userRPS e0)) eqn:Hr; [right; by left|].
  intros i t []. cbn. rewrite app_nil_r. by apply Stage_user.
Qed.

Lemma caller_stage_next u G U p :
  stage u G U p →
  match p with
  | Return d => decided u G U d
  | Request c k => ∀ i t x, stage u (G ++ map snd (call_global i t (Call c x)))
      (U ++ map (λ x, (x.1.2, x.2)) (call_user i t (Call c x))) (k x)
  end.
Proof.
  intros [|G' Hp|G' Hp Hr|G' U' d Hd]; [|by apply past_global_next| |done].
  - unfold Allow. case_bool_decide as Hg; [apply past_global_next; by left|].
    intros i t [|]; [apply Stage_past_global; right; by exists t|].
    apply Stage_decided. left. by exists t.
  - intros i t ok. cbn. rewrite app_nil_r. apply Stage_decided. right. right. split; [done|]. split; [done|].
    by exists t, ok.
Qed.

(** A caller that has not come has asked nothing. *)
Definition caller_ok (G : list (Time * bool)) (U : list (string * (Time * bool))) (c : option caller) : Prop :=
  match c with
  | None => G = [] ∧ U = []
  | Some (Asking u p) => stage u G U p
  | Some (Answered u d) => decided u G U d
  end.

Record gate_inv (s : gate) : Prop := {
  gi_config : userRPS (g_limiter s) = userRPS e0 ∧ userBurst (g_limiter s) = userBurst e0;
  gi_global :
    match global e0 with
    | Some g0 => ∃ g, global (g_limiter s) = Some g ∧ bucket_log g0 g (map snd (g_global s))
    | None => global (g_limiter s) = None ∧ g_global s = []
    end;
  gi_users u : bucket_log (NewLimiter (userRPS e0) (userBurst e0)) (user_bucket u (g_limiter s))
    (asked_of u (g_users s));
  gi_callers i : caller_ok (global_asks i (g_global s)) (user_asks i (g_users s)) (g_callers s !! i);
}.

Lemma global_asks_app i j t c l :
  global_asks i (l ++ call_global j t c) =
  if decide (j = i) then global_asks i l ++ map snd (call_global j t c) else global_asks i l.
Proof.
  unfold global_asks. rewrite filter_app, map_app. f_equal. destruct c as [X e x], e; cbn;
    case_decide; rewrite ?app_nil_r; try done; rewrite filter_cons; cbn; case_decide; done || by rewrite app_nil_r.
Qed.

Lemma user_asks_app i j t c l :
  user_asks i (l ++ call_user j t c) =
  if decide (j = i) then user_asks i l ++ map (λ x, (x.1.2, x.2)) (call_user j t c) else user_asks i l.
Proof.
  unfold user_asks. rewrite filter_app, map_app. f_equal. destruct c as [X e x], e; cbn;
    case_decide; rewrite ?app_nil_r; try done; rewrite filter_cons; cbn; case_decide; done || by rewrite app_nil_r.
Qed.

(** Only a limiter with a global bucket asks it. *)
Lemma caller_stage_global u G U p :
  stage u G U p →
  match p with
  | Request c _ => match c with GlobalAllow => global e0 ≠ None | _ => True end
  | Return _ => True
  end.
Proof.
  intros [|G' _|G' _ _|]; [..|done]; unfold Allow, ask_user; try done;
    [case_bool_decide as Hg; [|done]|]; unfold past_global; by destruct (f64_nonpositive _).
Qed.

Lemma global_allow_effect t e :
  let '(ok, e1) := global_allow t e in
  (userRPS e1 = userRPS e ∧ userBurst e1 = userBurst e) ∧ users e1 = users e ∧
  match global e with
  | Some g => ∃ g', global e1 = Some g' ∧ limiter_allow t g = (ok, g')
  | None => global e1 = None
  end.
Proof.
  unfold global_allow. destruct (global e) as [g|] eqn:Hg; [|done].
  destruct (limiter_allow t g) as [ok g']. cbn. split_and!; eauto.
Qed.

Lemma user_bucket_load u v e : user_bucket v (load_user u e) = user_bucket v e.
Proof.
  unfold user_bucket, load_user. cbn. destruct (decide (u = v)) as [->|Hv].
  - by rewrite lookup_insert_eq.
  - by rewrite lookup_insert_ne.
Qed.

Lemma user_allow_effect t u e :
  let '(ok, e1) := user_allow t u e in
  (userRPS e1 = userRPS e ∧ userBurst e1 = userBurst e) ∧ global e1 = global e ∧
  limiter_allow t (user_bucket u e) = (ok, user_bucket u e1) ∧
  ∀ v, v ≠ u → user_bucket v e1 = user_bucket v e.
Proof.
  unfold user_allow. fold (user_bucket u e). destruct (limiter_allow t (user_bucket u e)) as [ok l].
  unfold user_bucket. cbn. rewrite lookup_insert_eq. split_and!; try done.
  intros v Hv. by rewrite lookup_insert_ne.
Qed.

Lemma gate_inv_start now : users e0 = ∅ → gate_inv (gate_start now e0).
Proof.
  intros Hu. constructor; cbn; [done| | |by split].
  - destruct (global e0) as [g|]; [exists g; by split|done].
  - intros u. unfold user_bucket. rewrite Hu, lookup_empty. by split.
Qed.

(** The callers, after one of them has asked. *)
Lemma callers_ask s i u X (c : limE X) k x :
  gate_inv s → g_callers s !! i = Some (Asking u (Request c k)) → ∀ j,
  caller_ok (global_asks j (g_global s ++ call_global i (g_now s) (Call c x)))
    (user_asks j (g_users s ++ call_user i (g_now s) (Call c x))) (<[i := Asking u (k x)]> (g_callers s) !! j).
Proof.
  intros Hs Hi j. rewrite global_asks_app, user_asks_app. pose proof (gi_callers _ Hs j) as Hj.
  destruct (decide (i = j)) as [<-|Hij].
  - rewrite lookup_insert_eq. rewrite Hi in Hj. exact (caller_stage_next _ _ _ _ Hj i (g_now s) x).
  - by rewrite lookup_insert_ne.
Qed.

(** A caller moves without asking. *)
Lemma gate_inv_move s i c :
  gate_inv s → caller_ok (global_asks i (g_global s)) (user_asks i (g_users s)) (Some c) →
  gate_inv (MkGate (g_limiter s) (g_now s) (<[i := c]> (g_callers s)) (g_global s) (g_users s)).
Proof.
  intros [H1 H2 H3 H4] Hc. constructor; [done..|]. intros j. cbn [g_callers g_global g_users].
  destruct (decide (i = j)) as [<-|Hij]; [by rewrite lookup_insert_eq|by rewrite lookup_insert_ne].
Qed.

Lemma gate_inv_ask s i u X (c : limE X) k x l :
  gate_inv s → g_callers s !! i = Some (Asking u (Request c k)) → handle c (g_now s) (g_limiter s) = (x, l) →
  gate_inv (MkGate l (g_now s) (<[i := Asking u (k x)]> (g_callers s))
    (g_global s ++ call_global i (g_now s) (Call c x)) (g_users s ++ call_user i (g_now s) (Call c x))).
Proof.
  intros Hs Hi Hh. pose proof (callers_ask _ _ _ _ _ _ x Hs Hi) as Hcallers.
  pose proof (gi_callers _ Hs i) as Hst. rewrite Hi in Hst. apply caller_stage_global in Hst.
  destruct Hs as [[C1 C2] Hg Hu _]. destruct c as [|v|v]; cbn in Hh.
  - pose proof (global_allow_effect (g_now s) (g_limiter s)) as He. rewrite Hh in He.
    destruct He as ([E1 E2] & E3 & E4). constructor; cbn [g_limiter g_global g_users g_callers call_global call_user];
      [by split; congruence| | |exact Hcallers].
    + destruct (global e0) as [g0|]; [|done]. destruct Hg as (g & Hg & Hl). rewrite Hg in E4.
      destruct E4 as (g' & E4 & E5). exists g'. split; [done|]. rewrite map_app. by eapply bucket_log_snoc.
    + intros w. rewrite app_nil_r. unfold user_bucket. rewrite E1, E2, E3. apply Hu.
  - injection Hh as <- <-. constructor; cbn [g_limiter g_global g_users g_callers call_global call_user];
      rewrite ?app_nil_r; [by split| | |].
    + exact Hg.
    + intros w. rewrite user_bucket_load. apply Hu.
    + intros j. specialize (Hcallers j). cbn [call_global call_user] in Hcallers. by rewrite !app_nil_r in Hcallers.
  - pose proof (user_allow_effect (g_now s) v (g_limiter s)) as He. rewrite Hh in He.
    destruct He as ([E1 E2] & E3 & E4 & E5). constructor; cbn [g_limiter g_global g_users g_callers call_global call_user];
      [by split; congruence| | |exact Hcallers].
    + rewrite app_nil_r, E3. exact Hg.
    + intros w. rewrite asked_of_snoc. case_decide as Hw; [subst w; by eapply bucket_log_snoc|].
      rewrite E5 by done. apply Hu.
Qed.

Lemma gate_inv_step s s' : gate_step e0 s s' → gate_inv s → gate_inv s'.
Proof.
  intros Hstep Hs. destruct Hstep as [s i u Hi|s i u X c k x l Hi Hh|s i u d Hi|s t Ht].
  - apply gate_inv_move; [done|]. pose proof (gi_callers _ Hs i) as Hc. rewrite Hi in Hc.
    destruct Hc as [-> ->]. apply Stage_fresh.
  - by eapply gate_inv_ask.
  - apply gate_inv_move; [done|]. pose proof (gi_callers _ Hs i) as Hc. rewrite Hi in Hc.
    exact (caller_stage_next _ _ _ _ Hc).
  - destruct Hs. by constructor.
Qed.

Lemma gate_reachable now s : users e0 = ∅ → gate_runs now e0 s → gate_inv s.
Proof.
  intros Hu. revert s. apply rtc_ind_r; [by apply gate_inv_start|]. intros s s' _ Hstep. by apply gate_inv_step.
Qed.
End callers.

(** C27. The limiter refines its specification, under every interleaving of
      concurrent requests at any times.  All asks of the global bucket together
      are answered as one bucket of the global rate answers them in turn; all
      asks for one user as a bucket of the per-user rate made for that user
      alone answers them, so that no other user's traffic can exhaust it and
      racing first requests do not get a bucket each; and a caller is told what
      its own asks gave: refused with scope "global" after one refusal there
      and without touching its user's bucket, refused with scope "user" after
      passing the former and being refused by the latter, and else allowed,
      having passed each bucket there is exactly once. *)
Theorem limiter_refines globalRPS globalBurst rps burst e now s :
  NewEndpointLimiter globalRPS globalBurst rps burst = Some e → gate_runs now e s →
  (if f64_positive globalRPS && (0 <? globalBurst)
   then map (λ x, x.2.2) (g_global s) =
     bucket_answers (NewLimiter globalRPS globalBurst) (map (λ x, x.2.1) (g_global s))
   else g_global s = []) ∧
  (∀ u, map snd (asked_of u (g_users s)) =
    bucket_answers (NewLimiter rps (if burst <=? 0 then 1 else burst)) (map fst (asked_of u (g_users s)))) ∧
  ∀ i u d, g_callers s !! i = Some (Answered u d) →
    decided e u (global_asks i (g_global s)) (user_asks i (g_users s)) d.
Proof.
  unfold NewEndpointLimiter. intros Hn Hr. destruct (_ && bool_decide _); [done|]. injection Hn as <-.
  apply gate_reachable in Hr as [_ Hg Hu Hc]; [|done]. cbn in Hg, Hu. split_and!.
  - destruct (_ && _); [|apply Hg]. destruct Hg as (g & _ & _ & Ha). by rewrite !map_map in Ha.
  - intros u. apply Hu.
  - intros i u d Hi. specialize (Hc i). by rewrite Hi in Hc.
Qed.

(** A global rate without a burst is no limit at all: with [GLOBAL_BURST] unset
    and no per-user rate, any value of [GLOBAL_RPS] yields the nil limiter, which
    allows every request without asking anything. *)
Theorem global_rate_needs_burst getenv prefix u :
  getenv (prefix +:+ "GLOBAL_BURST") = "" →
  f64_nonpositive (parseFloatEnv getenv (prefix +:+ "PER_USER_RPS")) = true →
  Allow (LoadEndpointLimiterFromEnv getenv prefix) u = Return (true, "").
Proof.
  intros Hb Hu. unfold LoadEndpointLimiterFromEnv, NewEndpointLimiter.
  assert (parseIntEnv getenv (prefix +:+ "GLOBAL_BURST") = 0) as ->
    by (unfold parseIntEnv; by rewrite Hb).
  rewrite andb_false_r, Hu. done.
Qed.

(** ** A scheduler *)

(** The next step of a caller, or its arrival. *)
Definition gate_go (e0 : EndpointLimiter) (i : nat) (u : string) (s : gate) : gate :=
  match g_callers s !! i with
  | None => MkGate (g_limiter s) (g_now s) (<[i := Asking u (Allow (Some e0) u)]> (g_callers s)) (g_global s) (g_users s)
  | Some (Asking v (Request c k)) =>
    let r := handle c (g_now s) (g_limiter s) in
    MkGate r.2 (g_now s) (<[i := Asking v (k r.1)]> (g_callers s))
      (g_global s ++ call_global i (g_now s) (Call c r.1)) (g_users s ++ call_user i (g_now s) (Call c r.1))
  | Some (Asking v (Return d)) =>
    MkGate (g_limiter s) (g_now s) (<[i := Answered v d]> (g_callers s)) (g_global s) (g_users s)
  | Some (Answered _ _) => s
  end.

Lemma gate_go_runs now e0 i u s : gate_runs now e0 s → gate_runs now e0 (gate_go e0 i u s).
Proof.
  intros Hr. unfold gate_go. destruct (g_callers s !! i) as [[v [d|X c k]|v d]|] eqn:Hi; [..|done|].
  - eapply rtc_r; [exact Hr|]. by eapply Gate_answer.
  - eapply rtc_r; [exact Hr|]. eapply Gate_ask; [exact Hi|]. apply surjective_pairing.
  - eapply rtc_r; [exact Hr|]. by apply Gate_arrive.
Qed.
End limiter.

(** ** Examples *)

(** A bucket that never refills: it holds the tokens left. *)
Definition plain_bucket : TokenBucket := {|
  Limiter := Z;
  NewLimiter := λ _ b, b;
  limiter_allow := λ _ n, if 0 <? n then (true, n - 1) else (false, 0);
|}.

Definition one_per_user : @EndpointLimiter plain_bucket :=
  @MkEndpointLimiter plain_bucket (Some 3) (f64_of_Z 1) 1 ∅.

(** Two requests of alice race to her bucket, then bob's two; each arrives and
    makes its steps in turns with the next. *)
Definition racing : list (nat * string) :=
  let two i u j v := concat (repeat [(i, u); (j, v)] 5) in
  two 0%nat "alice" 1%nat "alice" ++ two 2%nat "bob" 3%nat "bob".
Definition contested : @gate plain_bucket :=
  fold_left (λ s x, @gate_go plain_bucket one_per_user x.1 x.2 s) racing (@gate_start plain_bucket 0 one_per_user).

Lemma contested_runs : @gate_runs plain_bucket 0 one_per_user contested.
Proof.
  unfold contested. assert (Hr : ∀ l s, @gate_runs plain_bucket 0 one_per_user s →
    @gate_runs plain_bucket 0 one_per_user (fold_left (λ s x, @gate_go plain_bucket one_per_user x.1 x.2 s) l s)).
  { induction l as [|x l IH]; intros s Hs; [done|]. by apply IH, gate_go_runs. }
  apply Hr, rtc_refl.
Qed.

Example contested_answers :
  map (λ i, @g_callers plain_bucket contested !! i) [0%nat; 1%nat; 2%nat; 3%nat] =
    [Some (Answered "alice" (true, "")); Some (Answered "alice" (false, "user"));
     Some (Answered "bob" (true, "")); Some (Answered "bob" (false, "global"))].
Proof. vm_compute. reflexivity. Qed.

Lemma limiter_refines_witness :
  map snd (asked_of "alice" (@g_users plain_bucket contested)) = [true; false] ∧
  @decided plain_bucket one_per_user "alice" (global_asks 1%nat (@g_global plain_bucket contested))
    (user_asks 1%nat (@g_users plain_bucket contested)) (false, "user").
Proof.
  destruct (@limiter_refines plain_bucket (f64_of_Z 10) 3 (f64_of_Z 1) 0 one_per_user 0 contested eq_refl contested_runs)
    as (_ & Hu & Hd).
  split; [rewrite Hu; vm_compute; reflexivity|]. apply Hd. vm_compute. reflexivity.
Defined.

Lemma global_rate_needs_burst_witness :
  @Allow plain_bucket (@LoadEndpointLimiterFromEnv plain_bucket
    (λ k, if bool_decide (k = "P_GLOBAL_RPS") then "0.5" else "") "P_") "alice" = Return (true, "").
Proof. apply global_rate_needs_burst; vm_compute; reflexivity. Defined.
