(* ===== verification/Proxy.v ===== *)
(** * The WebSocket proxy ([pkg/gateway/proxy.go])

    Backend URLs, the loop that copies frames one way, opening the two
    connections, and the tunnel: two copying goroutines and the handler that
    waits for the first of them to stop. *)
From S2P Require Import Prelude GoStrings GoTime.
From Stdlib Require Import ZArith Lia.
#[local] Open Scope Z_scope.

Definition gateway_ttydPort : Z := 7681.
Definition backendDialTimeout : Duration := 30 * Second.
Definition maxWSFrameBytes : Z := Z.shiftl 1 20.
Definition backendReadyTimeout : Duration := 5 * Second.

(** ** URLs *)

(** [net/url]'s [shouldEscape(c, encodeHost)]. *)
Definition host_char (c : ascii) : bool :=
  is_alnum c || is_upper c ||
  existsb (Ascii.eqb c) (bytes_of "!$&'()*+,;=:[]<>-_.~" ++ [ascii_of_nat 34]).

Definition upper_hex (c : ascii) : bytes :=
  map (λ d, if is_lower d then byte_of (bval d - 32) else d) (hex_byte c).

Definition escape_host (s : string) : string :=
  of_bytes (concat (map (λ c, if host_char c then [c] else "%"%char :: upper_hex c) (bytes_of s))).

(** [url.URL{Scheme: scheme, Host: host}.String()]. *)
Definition URL_String (scheme host : string) : string :=
  scheme +:+ ":" +:+ (if bool_decide (host = "") then "" else "//" +:+ escape_host host).

Definition backend_host (serviceEndpoint : string) : string :=
  serviceEndpoint +:+ ":" +:+ pretty gateway_ttydPort.
Definition BackendURL (serviceEndpoint : string) : string := URL_String "ws" (backend_host serviceEndpoint).
Definition BackendHTTPURL (serviceEndpoint : string) : string :=
  URL_String "http" (backend_host serviceEndpoint).

(** [net.JoinHostPort]. *)
Definition JoinHostPort (host port : string) : string :=
  if existsb (Ascii.eqb ":") (bytes_of host) then "[" +:+ host +:+ "]:" +:+ port
  else host +:+ ":" +:+ port.
(** The address [BackendReady] dials. *)
Definition probe_addr (serviceEndpoint : string) : string := JoinHostPort serviceEndpoint (pretty gateway_ttydPort).

(** ** Connections *)

Inductive conn := ClientConn | BackendConn.
#[export] Instance conn_eq_dec : EqDecision conn.
Proof. solve_decision. Defined.

(** [src.ReadMessage()]; a close error carries its code. *)
Inductive read_result :=
  | ReadFrame (msgType : Z) (data : bytes)
  | ReadError (code : option Z) (err : error).

Definition CloseMessage : Z := 8.
Definition CloseNormalClosure : Z := 1000.
Definition CloseGoingAway : Z := 1001.

(** [websocket.FormatCloseMessage(code, "")]: the code, big endian. *)
Definition FormatCloseMessage (code : Z) : bytes := [byte_of (code / 256); byte_of code].

(** [websocket.IsCloseError(err, CloseNormalClosure, CloseGoingAway)]. *)
Definition is_normal_close (code : option Z) : bool :=
  match code with
  | Some c => (c =? CloseNormalClosure) || (c =? CloseGoingAway)
  | None => false
  end.

Inductive wsE : Type → Type :=
  (** upgrade the client's request: the negotiated subprotocol *)
  | Upgrade : wsE (result string)
  (** dial the backend within a time, with the offered subprotocols *)
  | Dial (url : string) (timeout : Duration) (subprotocols : list string) : wsE (option error)
  | SetReadLimit (c : conn) (limit : Z) : wsE unit
  | CloseConn (c : conn) : wsE unit
  | ReadMessage (c : conn) : wsE read_result
  | WriteMessage (c : conn) (msgType : Z) (data : bytes) : wsE (option error)
  | OnActivity : wsE unit
  | OnFrame (direction : string) (msgType : Z) (data : bytes) : wsE unit.

(** ** Copying one way *)

Section copy.
(** Whether the callbacks are not nil. *)
Context (onActivity onFrame : bool).

(** The end of an iteration, after the frame was written. *)
Definition observed (direction : string) (msgType : Z) (data : bytes) : prog wsE (option error) :=
  _ ← (if onFrame then request (OnFrame direction msgType data) else mret ());
  mret None.
Definition forwarded (direction : string) (msgType : Z) (data : bytes) : prog wsE (option error) :=
  _ ← (if onActivity then request OnActivity else mret ());
  observed direction msgType data.

Definition written_frame (direction : string) (msgType : Z) (data : bytes) (w : option error) :
    prog wsE (option error) :=
  match w with
  | Some err => mret (Some err)
  | None => forwarded direction msgType data
  end.

Definition read_frame (dst : conn) (direction : string) (r : read_result) : prog wsE (option error) :=
  match r with
  | ReadError code err =>
    _ ← (if is_normal_close code
         then _ ← request (WriteMessage dst CloseMessage (FormatCloseMessage CloseNormalClosure)); mret ()
         else mret ());
    mret (Some err)
  | ReadFrame msgType data =>
    w ← request (WriteMessage dst msgType data);
    written_frame direction msgType data w
  end.

(** One iteration: the error to send on [errc] before returning, or [None] to
    go round again. *)
Definition copyFrames_iter (dst src : conn) (direction : string) : prog wsE (option error) :=
  r ← request (ReadMessage src);
  read_frame dst direction r.
End copy.

(** ** The tunnel *)

(** The two goroutines [ServeWS] starts: destination, source and label. *)
Inductive pump := Pump1 | Pump2.
#[export] Instance pump_eq_dec : EqDecision pump.
Proof. solve_decision. Defined.

Definition dst (i : pump) : conn := match i with Pump1 => ClientConn | Pump2 => BackendConn end.
Definition src (i : pump) : conn := match i with Pump1 => BackendConn | Pump2 => ClientConn end.
Definition label (i : pump) : string :=
  match i with Pump1 => "client_to_backend" | Pump2 => "backend_to_client" end.

Definition body (i : pump) : prog wsE (option error) := copyFrames_iter true true (dst i) (src i) (label i).

Inductive thread := Looping (p : prog wsE (option error)) | Finished.

(** The channel is a queue with room for two; [open] until the handler has
    received from it and closed the connections. *)
Record tunnel := MkTunnel {
  threads : pump → thread;
  errc : list error;
  open : bool;
  log : list (pump * call wsE);
}.

Definition errc_capacity : nat := 2.

Definition tunnel_start : tunnel := MkTunnel (λ i, Looping (body i)) [] true [].

Definition set_thread (i : pump) (t : thread) (s : tunnel) : tunnel :=
  MkTunnel (λ j, if decide (j = i) then t else threads s j) (errc s) (open s) (log s).
Definition log_call (i : pump) (c : call wsE) (s : tunnel) : tunnel :=
  MkTunnel (threads s) (errc s) (open s) (log s ++ [(i, c)]).

(** A step, by a goroutine or ([None]) by the handler. *)
Inductive tunnel_step : option pump → tunnel → tunnel → Prop :=
  (** a goroutine makes its next request, answered in any way *)
  | Step_request s i X (e : wsE X) k x :
      threads s i = Looping (Request e k) →
      tunnel_step (Some i) s (log_call i (Call e x) (set_thread i (Looping (k x)) s))
  (** the end of an iteration *)
  | Step_loop s i :
      threads s i = Looping (Return None) → tunnel_step (Some i) s (set_thread i (Looping (body i)) s)
  (** [errc <- err; return], possible when the channel has room *)
  | Step_send s i err :
      threads s i = Looping (Return (Some err)) → (length (errc s) < errc_capacity)%nat →
      tunnel_step (Some i) s
        (let s' := set_thread i Finished s in MkTunnel (threads s') (errc s ++ [err]) (open s) (log s))
  (** [err = <-errc], the deferred [Close]s and the return of [ServeWS] *)
  | Step_receive s err q :
      errc s = err :: q → open s = true →
      tunnel_step None s (MkTunnel (threads s) q false (log s)).

Definition tunnel_runs : tunnel → tunnel → Prop := rtc (λ s s', ∃ who, tunnel_step who s s').

(** Before the tunnel: [Some err] is returned; [None] starts the goroutines. *)
Definition ServeWS_open `{UnicodeTables} (backendURL : string) : prog wsE (option error) :=
  u ← request Upgrade;
  match u with
  | Err err => mret (Some (errorf_w "upgrade client connection: " err))
  | Ok subproto =>
    d ← request (Dial backendURL backendDialTimeout (if bool_decide (subproto = "") then [] else [subproto]));
    match d with
    | Some err =>
      _ ← request (CloseConn ClientConn);
      mret (Some (errorf_w ("dial backend " +:+ Quote backendURL +:+ ": ") err))
    | None =>
      _ ← request (SetReadLimit ClientConn maxWSFrameBytes);
      _ ← request (SetReadLimit BackendConn maxWSFrameBytes);
      mret None
    end
  end.
