(* ===== verification/ProxyProps.v ===== *)
(** * Properties of the WebSocket proxy

    Under every interleaving of the two copying goroutines and the handler,
    frames are passed on unchanged and in order, each to the other side only;
    no goroutine can be stuck sending its error; and what the observer is told
    about directions. *)
From S2P Require Import Prelude GoStrings GoTime Proxy.
From Stdlib Require Import ZArith Lia.
#[local] Open Scope Z_scope.

(** ** Reading the log of one goroutine *)

Definition wsframe : Type := Z * bytes.

Definition call_received (c : call wsE) : list wsframe :=
  match c with
  | Call e x =>
    match e in wsE Y return Y → list wsframe with
    | ReadMessage _ => λ r, match r with ReadFrame t d => [(t, d)] | ReadError _ _ => [] end
    | _ => λ _, []
    end x
  end.

Definition call_failed (c : call wsE) : bool :=
  match c with
  | Call e x =>
    match e in wsE Y return Y → bool with
    | ReadMessage _ => λ r, match r with ReadFrame _ _ => false | ReadError _ _ => true end
    | _ => λ _, false
    end x
  end.

Definition call_written (c : call wsE) : list wsframe :=
  match c with
  | Call e x =>
    match e in wsE Y return Y → list wsframe with
    | WriteMessage _ t d => λ w, match w with None => [(t, d)] | Some _ => [] end
    | _ => λ _, []
    end x
  end.

Definition call_observed (c : call wsE) : list (string * wsframe) :=
  match c with Call e _ => match e with OnFrame dir t d => [(dir, (t, d))] | _ => [] end end.

(** Frames read; frames written before a read failed (what follows is the
    closing handshake); frames shown to the observer. *)
Definition received (tr : list (call wsE)) : list wsframe := concat (map call_received tr).
Fixpoint delivered (tr : list (call wsE)) : list wsframe :=
  match tr with
  | [] => []
  | c :: tr' => if call_failed c then [] else call_written c ++ delivered tr'
  end.
Definition shown (tr : list (call wsE)) : list (string * wsframe) := concat (map call_observed tr).
Definition read_failed (tr : list (call wsE)) : bool := existsb call_failed tr.

Lemma received_snoc tr c : received (tr ++ [c]) = received tr ++ call_received c.
Proof. unfold received. rewrite map_app, concat_app. cbn. by rewrite app_nil_r. Qed.
Lemma shown_snoc tr c : shown (tr ++ [c]) = shown tr ++ call_observed c.
Proof. unfold shown. rewrite map_app, concat_app. cbn. by rewrite app_nil_r. Qed.
Lemma read_failed_snoc tr c : read_failed (tr ++ [c]) = read_failed tr || call_failed c.
Proof. unfold read_failed. rewrite existsb_app. cbn. by rewrite orb_false_r. Qed.
Lemma delivered_snoc tr c :
  delivered (tr ++ [c]) = if read_failed tr || call_failed c then delivered tr else delivered tr ++ call_written c.
Proof.
  induction tr as [|d tr IH]; cbn.
  - destruct (call_failed c); [done|]. by rewrite app_nil_r.
  - destruct (call_failed d); [done|]. rewrite IH. fold (read_failed tr). cbn [orb].
    destruct (read_failed tr || call_failed c); [done|]. by rewrite app_assoc.
Qed.

Definition proj (i : pump) (l : list (pump * call wsE)) : list (call wsE) :=
  map snd (filter (λ x, x.1 = i) l).

Lemma proj_snoc i j c l : proj i (l ++ [(j, c)]) = if decide (j = i) then proj i l ++ [c] else proj i l.
Proof.
  unfold proj. rewrite filter_app, filter_cons, filter_nil, map_app. cbn.
  case_decide; [done|]. by rewrite app_nil_r.
Qed.

(** The side a request reads from or writes to. *)
Definition reads_from (c : call wsE) : option conn :=
  match c with Call e _ => match e with ReadMessage c => Some c | _ => None end end.
Definition writes_to (c : call wsE) : option conn :=
  match c with Call e _ => match e with WriteMessage c _ _ => Some c | _ => None end end.
Definition one_way (i : pump) (c : call wsE) : Prop :=
  (∀ k, reads_from c = Some k → k = src i) ∧ (∀ k, writes_to c = Some k → k = dst i).

(** ** Where a goroutine stands *)

Record at_stage (tr : list (call wsE)) (i : pump) (failed : bool) (pending unseen : list wsframe) : Prop := {
  st_failed : read_failed tr = failed;
  st_received : received tr = delivered tr ++ pending;
  st_shown : map (pair (label i)) (delivered tr) = shown tr ++ map (pair (label i)) unseen;
  st_one_way : Forall (one_way i) tr;
}.

Inductive stage (i : pump) (tr : list (call wsE)) : prog wsE (option error) → Prop :=
  | Stage_start : at_stage tr i false [] [] → stage i tr (body i)
  | Stage_read t d : at_stage tr i false [(t, d)] [] →
      stage i tr (read_frame true true (dst i) (label i) (ReadFrame t d))
  | Stage_closing code err : at_stage tr i true [] [] →
      stage i tr (read_frame true true (dst i) (label i) (ReadError code err))
  | Stage_forwarded t d : at_stage tr i false [] [(t, d)] →
      stage i tr (forwarded true true (label i) t d)
  | Stage_observed t d : at_stage tr i false [] [(t, d)] → stage i tr (observed true (label i) t d)
  | Stage_next : at_stage tr i false [] [] → stage i tr (Return None)
  | Stage_end failed pending err : at_stage tr i failed pending [] → (length pending <= 1)%nat →
      stage i tr (Return (Some err)).

(** One more call, by what it reads, writes and shows. *)
Lemma at_stage_snoc tr i failed pending unseen c failed' pending' unseen' :
  at_stage tr i failed pending unseen → one_way i c → failed || call_failed c = failed' →
  (delivered tr ++ pending) ++ call_received c = delivered (tr ++ [c]) ++ pending' →
  map (pair (label i)) (delivered (tr ++ [c])) =
    (shown tr ++ call_observed c) ++ map (pair (label i)) unseen' →
  at_stage (tr ++ [c]) i failed' pending' unseen'.
Proof.
  intros [H1 H2 H3 H4] Hc <- Hr Hs. constructor.
  - by rewrite read_failed_snoc, H1.
  - by rewrite received_snoc, H2.
  - by rewrite shown_snoc.
  - apply Forall_app. split; [done|by constructor].
Qed.

(** One more call, computed. *)
Ltac extend Ha :=
  let Hf := fresh in let Hr := fresh in let Hs := fresh in
  destruct Ha as [Hf Hr Hs ?];
  eapply (at_stage_snoc _ _ _ _ _ _ _ _ _ (Build_at_stage _ _ _ _ _ Hf Hr Hs ltac:(assumption)));
  [by split; cbn; intros ? [= <-]|done
  |rewrite delivered_snoc, Hf; cbn; rewrite ?app_nil_r; try done
  |rewrite delivered_snoc, Hf; cbn; rewrite ?map_app, ?Hs; cbn; rewrite ?app_nil_r; try done].

(** Every answer takes a goroutine to a further stage. *)
Lemma stage_next i tr p :
  stage i tr p →
  match p with Request e k => ∀ x, stage i (tr ++ [Call e x]) (k x) | Return _ => True end.
Proof.
  intros [Ha|t d Ha|code err Ha|t d Ha|t d Ha|Ha|failed pending err Ha Hp]; [..|done|done].
  - intros [t d|code err]; [apply Stage_read|apply Stage_closing]; extend Ha.
  - intros [err|]; [apply (Stage_end _ _ false [(t, d)]); [|done]|apply Stage_forwarded]; extend Ha.
  - cbn. destruct (is_normal_close code); [|done]. intros w.
    apply (Stage_end _ _ true []); [|cbn; lia]. extend Ha.
  - intros ?. apply Stage_observed. extend Ha.
  - intros ?. apply Stage_next. extend Ha.
Qed.

(** What every stage amounts to: at most one frame in flight. *)
Definition in_flight (i : pump) (tr : list (call wsE)) : Prop :=
  ∃ failed pending unseen, at_stage tr i failed pending unseen ∧ (length pending + length unseen <= 1)%nat.

Lemma stage_in_flight i tr p : stage i tr p → in_flight i tr.
Proof.
  intros [Ha|t d Ha|code err Ha|t d Ha|t d Ha|Ha|failed pending err Ha Hp]; do 3 eexists;
    (split; [exact Ha|cbn; lia]).
Qed.

(** ** The invariant of the tunnel *)

Definition finished (t : thread) : nat := match t with Finished => 1 | Looping _ => 0 end.

Definition count_finished (s : tunnel) : nat :=
  finished (threads s Pump1) + finished (threads s Pump2).

Record tunnel_inv (s : tunnel) : Prop := {
  inv_threads i : match threads s i with
                  | Looping p => stage i (proj i (log s)) p
                  | Finished => in_flight i (proj i (log s))
                  end;
  inv_errc : (length (errc s) <= count_finished s)%nat;
}.

Lemma tunnel_inv_start : tunnel_inv tunnel_start.
Proof. constructor; [|cbn; lia]. intros i. apply Stage_start. by constructor. Qed.

Lemma stage_round i tr p :
  stage i tr p → match p with Return None => stage i tr (body i) | _ => True end.
Proof.
  intros [Ha|t d Ha|code err Ha|t d Ha|t d Ha|Ha|failed pending err Ha Hp]; try done.
  - cbn. by destruct (is_normal_close code).
  - by apply Stage_start.
Qed.

Lemma count_finished_set i t s :
  (count_finished (set_thread i t s) + finished (threads s i) = count_finished s + finished t)%nat.
Proof. unfold count_finished. destruct i; cbn; repeat case_decide; (done || lia). Qed.

Lemma tunnel_inv_step who s s' : tunnel_step who s s' → tunnel_inv s → tunnel_inv s'.
Proof.
  intros Hstep [Ht He]. destruct Hstep as [s i X e k x Hi|s i Hi|s i err Hi Hroom|s err q Hq Ho].
  - constructor; cbn [threads errc open log log_call set_thread].
    + intros j. rewrite proj_snoc. specialize (Ht j). case_decide as Hj.
      * subst j. rewrite decide_True by done. rewrite Hi in Ht. exact (stage_next _ _ _ Ht x).
      * rewrite decide_False by done. exact Ht.
    + pose proof (count_finished_set i (Looping (k x)) s) as Hc. rewrite Hi in Hc. unfold count_finished in *.
      cbn [threads log_call set_thread finished] in *. lia.
  - constructor; cbn [threads errc open log log_call set_thread].
    + intros j. specialize (Ht j). case_decide as Hj; [|done]. subst j. rewrite Hi in Ht.
      exact (stage_round _ _ _ Ht).
    + pose proof (count_finished_set i (Looping (body i)) s) as Hc. rewrite Hi in Hc. unfold count_finished in *.
      cbn [threads log_call set_thread finished] in *. lia.
  - constructor; cbn [threads errc open log log_call set_thread].
    + intros j. specialize (Ht j). case_decide as Hj; [|done]. subst j. rewrite Hi in Ht.
      by eapply stage_in_flight.
    + pose proof (count_finished_set i Finished s) as Hc. rewrite Hi in Hc. unfold count_finished in *.
      rewrite length_app. cbn [threads log_call set_thread finished length] in *. lia.
  - constructor; cbn [threads errc open log]; [exact Ht|]. rewrite Hq in He. unfold count_finished in *.
    cbn [threads length] in *. lia.
Qed.

Lemma tunnel_reachable s : tunnel_runs tunnel_start s → tunnel_inv s.
Proof.
  intros Hr. pose proof tunnel_inv_start as H0. revert H0. unfold tunnel_runs in Hr.
  induction Hr as [s|s1 s2 s3 [who Hstep] _ IH]; [done|]. intros H1.
  by eapply IH, tunnel_inv_step.
Qed.

Lemma reachable_in_flight s i : tunnel_runs tunnel_start s → in_flight i (proj i (log s)).
Proof.
  intros Hr. pose proof (inv_threads _ (tunnel_reachable s Hr) i) as Hi.
  destruct (threads s i); [by eapply stage_in_flight|done].
Qed.

(** C24. The tunnel is transparent under every interleaving: each goroutine only
      reads from its source and only writes to its destination; the frames it
      has written are, unchanged and in order, the frames it has read, but for
      one in flight (or refused by the destination); and the observer has been
      shown, in order and with the goroutine's label, the frames written, but
      for one in flight. *)
Theorem tunnel_transparent s i :
  tunnel_runs tunnel_start s →
  let tr := proj i (log s) in
  Forall (one_way i) tr ∧
  ∃ pending unseen, received tr = delivered tr ++ pending ∧
    map (pair (label i)) (delivered tr) = shown tr ++ map (pair (label i)) unseen ∧
    (length pending + length unseen <= 1)%nat.
Proof.
  intros Hr. destruct (reachable_in_flight s i Hr) as (failed & pending & unseen & [_ H2 H3 H4] & Hlen).
  split; [done|]. by exists pending, unseen.
Qed.

(** Every request has an answer. *)
Definition some_answer {X} (e : wsE X) : X :=
  match e with
  | Upgrade => Ok "" | Dial _ _ _ => None | SetReadLimit _ _ => () | CloseConn _ => ()
  | ReadMessage _ => ReadError None (errors_new "closed") | WriteMessage _ _ _ => None
  | OnActivity => () | OnFrame _ _ _ => ()
  end.

(** No goroutine of the tunnel is ever stuck: in every reachable state (also
      after the handler has received one error and left) a goroutine that has
      not returned can make a step of its own; in particular the channel has
      room for its error. *)
Theorem tunnel_never_stuck s i p :
  tunnel_runs tunnel_start s → threads s i = Looping p →
  ∃ s', tunnel_step (Some i) s s'.
Proof.
  intros Hr Hi. pose proof (inv_errc _ (tunnel_reachable s Hr)) as He.
  pose proof (f_equal finished Hi) as Hf.
  assert (Hroom : (length (errc s) < errc_capacity)%nat).
  { unfold errc_capacity, count_finished in *. destruct i, (threads s Pump1), (threads s Pump2); cbn in *; lia. }
  destruct p as [[err|]|X e k].
  - eexists. by apply (Step_send s i err).
  - eexists. by apply (Step_loop s i).
  - eexists. apply (Step_request s i X e k (some_answer e)), Hi.
Qed.

(** ** What the observer is told *)

(** Frames shown under a label were read by the goroutine with that label. *)
Lemma shown_read s i dir f :
  tunnel_runs tunnel_start s → (dir, f) ∈ shown (proj i (log s)) →
  dir = label i ∧ f ∈ received (proj i (log s)).
Proof.
  intros Hr Hin. destruct (reachable_in_flight s i Hr) as (failed & pending & unseen & [_ H2 H3 _] & _).
  assert (Hd : (dir, f) ∈ map (pair (label i)) (delivered (proj i (log s)))).
  { rewrite H3. apply elem_of_app. by left. }
  apply list_elem_of_fmap in Hd as (g & [= -> ->] & Hg). split; [done|].
  rewrite H2. apply elem_of_app. by left.
Qed.

(** One step of the chosen goroutine, with given answers. *)
Definition tstep (answer : ∀ X, wsE X → X) (i : pump) (s : tunnel) : tunnel :=
  match threads s i with
  | Looping (Request e k) =>
    let x := answer _ e in log_call i (Call e x) (set_thread i (Looping (k x)) s)
  | Looping (Return None) => set_thread i (Looping (body i)) s
  | Looping (Return (Some err)) =>
    if (length (errc s) <? errc_capacity)%nat then
      let s' := set_thread i Finished s in MkTunnel (threads s') (errc s ++ [err]) (open s) (log s)
    else s
  | Finished => s
  end.

Lemma tstep_runs answer i s0 s : tunnel_runs s0 s → tunnel_runs s0 (tstep answer i s).
Proof.
  intros Hr. unfold tstep. destruct (threads s i) as [[[err|]|X e k]|] eqn:Hi; [| | |done].
  - destruct (length (errc s) <? errc_capacity)%nat eqn:Hl; [|done].
    eapply rtc_r; [exact Hr|]. exists (Some i). apply Step_send; [done|]. by apply Nat.ltb_lt.
  - eapply rtc_r; [exact Hr|]. exists (Some i). by apply Step_loop.
  - eapply rtc_r; [exact Hr|]. exists (Some i). by apply Step_request.
Qed.

(** The peer sends one text frame; everything else succeeds. *)
Definition typed (d : bytes) (X : Type) (e : wsE X) : X :=
  match e in wsE Y return Y with
  | ReadMessage _ => ReadFrame 1 d
  | e' => some_answer e'
  end.

Definition demo_tunnel : tunnel :=
  Nat.iter 4 (tstep (typed (bytes_of "ls")) Pump2) tunnel_start.

Lemma demo_tunnel_runs : tunnel_runs tunnel_start demo_tunnel.
Proof. unfold demo_tunnel. cbn [Nat.iter]. repeat apply tstep_runs. apply rtc_refl. Qed.

(** C34. The direction labels are the wrong way round: in every reachable state, a
      frame shown to the observer (and so recorded) as "client_to_backend" was
      read from the backend by a goroutine that reads nothing else, and one
      shown as "backend_to_client" was read from the client; and that happens:
      what a user types is recorded as coming from the backend. *)
Theorem directions_swapped :
  (∀ s i f, tunnel_runs tunnel_start s →
    (("client_to_backend", f) ∈ shown (proj i (log s)) →
       f ∈ received (proj i (log s)) ∧
       ∀ c k, c ∈ proj i (log s) → reads_from c = Some k → k = BackendConn) ∧
    (("backend_to_client", f) ∈ shown (proj i (log s)) →
       f ∈ received (proj i (log s)) ∧
       ∀ c k, c ∈ proj i (log s) → reads_from c = Some k → k = ClientConn)) ∧
  ∃ s, tunnel_runs tunnel_start s ∧
    ("backend_to_client", (1, bytes_of "ls")) ∈ shown (proj Pump2 (log s)) ∧
    (1, bytes_of "ls") ∈ delivered (proj Pump2 (log s)).
Proof.
  split.
  - intros s i f Hr.
    assert (Hw : ∀ c k, c ∈ proj i (log s) → reads_from c = Some k → k = src i).
    { destruct (reachable_in_flight s i Hr) as (? & ? & ? & [_ _ _ H4] & _).
      intros c k Hc Hk. rewrite Forall_forall in H4. by apply (H4 c Hc). }
    split; intros Hin; destruct (shown_read s i _ f Hr Hin) as [Hl Hf]; (split; [done|]);
      intros c k Hc Hk; rewrite (Hw c k Hc Hk); by destruct i.
  - exists demo_tunnel. split; [apply demo_tunnel_runs|]. split; vm_compute; left.
Qed.

Lemma tunnel_transparent_witness :
  ∃ pending unseen, received (proj Pump2 (log demo_tunnel)) = delivered (proj Pump2 (log demo_tunnel)) ++ pending ∧
    map (pair (label Pump2)) (delivered (proj Pump2 (log demo_tunnel))) =
      shown (proj Pump2 (log demo_tunnel)) ++ map (pair (label Pump2)) unseen ∧
    (length pending + length unseen <= 1)%nat.
Proof. exact (proj2 (tunnel_transparent demo_tunnel Pump2 demo_tunnel_runs)). Defined.

Lemma tunnel_never_stuck_witness : ∃ s', tunnel_step (Some Pump1) demo_tunnel s'.
Proof.
  apply (tunnel_never_stuck demo_tunnel Pump1 (body Pump1)); [apply demo_tunnel_runs|reflexivity].
Defined.
