(* ===== verification/SessionRecording.v ===== *)
(** * Session recording ([pkg/gateway/session_recording.go])

    The hash-chained record of a terminal session: configuration, setup, one
    record per frame, and the closing manifest.  The clock's formatted time, the
    uuid generator and the file system are requests to the environment. *)
From S2P Require Import Prelude GoStrings GoTime Sha256.
From Stdlib Require Import ZArith Lia.
#[local] Open Scope Z_scope.

(** [type SessionRecordingMode string]. *)
Definition SessionRecordingMode := string.
Definition SessionRecordingOff : SessionRecordingMode := "off".
Definition SessionRecordingMetadataOnly : SessionRecordingMode := "metadata".
Definition SessionRecordingFull : SessionRecordingMode := "full".

Record SessionRecordingConfig := MkRecordingConfig {
  Rec_Enabled : bool;
  Rec_Mode : SessionRecordingMode;
  Rec_Dir : string;
}.

Record SessionMeta := MkSessionMeta {
  SessionID : string;
  RequestID_ : string;
  Meta_Subject : string;
  Meta_UserID : string;
  Meta_Namespace : string;
  Meta_Workspace : string;
  Meta_Backend : string;
  Meta_Remote : string;
  StartedAt : string;
}.

Definition set_session (id started : string) (m : SessionMeta) : SessionMeta :=
  MkSessionMeta id (RequestID_ m) (Meta_Subject m) (Meta_UserID m) (Meta_Namespace m)
    (Meta_Workspace m) (Meta_Backend m) (Meta_Remote m) started.

Record SessionFrameRecord := MkFrameRecord {
  TimestampUTC : string;
  Seq : Z;
  Direction : string;
  MessageType : Z;
  PayloadBytes : Z;
  PayloadSHA : string;
  PrevHash : string;
  EntryHash : string;
  PayloadB64 : string;
}.

Record SessionManifest := MkManifest {
  SchemaVersion : string;
  Man_Mode : string;
  Man_Meta : SessionMeta;
  FrameCount : Z;
  FinalHash : string;
  ClosedAt : string;
  CloseReason : string;
}.

(** [file == nil] once closed; [seq] is a [uint64]. *)
Record SessionRecorder := MkRecorder {
  r_cfg : SessionRecordingConfig;
  r_meta : SessionMeta;
  r_open : bool;
  r_seq : Z;
  r_prev : string;
}.

Definition uint64 (z : Z) : Z := z mod 2 ^ 64.

(** ** [encoding/base64], the standard alphabet with padding *)

Definition b64_alphabet : bytes :=
  bytes_of "ABCDEFGHIJKLMNOPQRSTUVWXYZabcdefghijklmnopqrstuvwxyz0123456789+/".
Definition b64_char (n : Z) : ascii := default "="%char (b64_alphabet !! Z.to_nat n).

(** The four characters of three bytes. *)
Definition b64_group (a b c : ascii) : bytes :=
  let v := bval a * 65536 + bval b * 256 + bval c in
  [b64_char (v / 262144 mod 64); b64_char (v / 4096 mod 64); b64_char (v / 64 mod 64);
   b64_char (v mod 64)].

Fixpoint b64_encode (s : bytes) : bytes :=
  match s with
  | [] => []
  | [a] => take 2 (b64_group a (byte_of 0) (byte_of 0)) ++ ["="%char; "="%char]
  | [a; b] => take 3 (b64_group a b (byte_of 0)) ++ ["="%char]
  | a :: b :: c :: s' => b64_group a b c ++ b64_encode s'
  end.

Definition base64_EncodeToString (b : bytes) : string := of_bytes (b64_encode b).

(** ** Configuration *)

(** [strings.EqualFold(s, t)] for a [t] of ASCII letters none of which is [k]
    or [s] (the two with a non-ASCII case variant). *)
Definition EqualFold_ascii (s t : string) : bool :=
  bool_decide (map lower_byte (bytes_of s) = map lower_byte (bytes_of t)).

Section config.
Context `{UnicodeTables}.

Definition SessionRecordingConfigFromEnv (getenv : string → string) : SessionRecordingConfig :=
  let enabled := EqualFold_ascii (TrimSpace (getenv "SESSION_RECORDING_ENABLED")) "true" in
  let raw := ToLower (TrimSpace (getenv "SESSION_RECORDING_MODE")) in
  let mode := if bool_decide (raw = "") || bool_decide (raw = "metadata") then SessionRecordingMetadataOnly
              else if bool_decide (raw = "full") then SessionRecordingFull
              else if bool_decide (raw = "off") then SessionRecordingOff
              else SessionRecordingMetadataOnly in
  let dir := TrimSpace (getenv "SESSION_RECORDING_DIR") in
  let dir := if bool_decide (dir = "") then "/tmp/devplane-sessions" else dir in
  let mode := if enabled then mode else SessionRecordingOff in
  MkRecordingConfig (enabled && negb (bool_decide (mode = SessionRecordingOff))) mode dir.
End config.

(** ** The recorder *)

Inductive recE : Type → Type :=
  (** [time.Now().UTC().Format(time.RFC3339Nano)] *)
  | Timestamp : recE string
  | NewUUID : recE string
  | MkdirAll (dir : string) : recE (option error)
  (** create or truncate a file of the directory *)
  | OpenFile (dir name : string) : recE (option error)
  (** [enc.Encode(rec)] into the record file *)
  | WriteRecord (rec : SessionFrameRecord) : recE (option error)
  | CloseRecordFile : recE unit
  (** [enc.Encode(manifest)] into the manifest file *)
  | WriteManifest (man : SessionManifest) : recE (option error).

(** A nil recorder is [None]. *)
Definition NewSessionRecorder (cfg : SessionRecordingConfig) (meta : SessionMeta) :
    prog recE (option SessionRecorder) :=
  if negb (Rec_Enabled cfg) || bool_decide (Rec_Mode cfg = SessionRecordingOff) then mret None
  else
    id ← (if bool_decide (SessionID meta = "") then request NewUUID else mret (SessionID meta));
    started ← (if bool_decide (StartedAt meta = "") then request Timestamp else mret (StartedAt meta));
    let meta := set_session id started meta in
    e1 ← request (MkdirAll (Rec_Dir cfg));
    match e1 with
    | Some _ => mret None
    | None =>
      e2 ← request (OpenFile (Rec_Dir cfg) (SessionID meta +:+ ".ndjson"));
      match e2 with
      | Some _ => mret None
      | None => mret (Some (MkRecorder cfg meta true 0 ""))
      end
    end.

(** [fmt.Sprintf("%s|%d|%s|%d|%s|%s", ...)]. *)
Definition sum_input (prev : string) (seq : Z) (direction : string) (messageType : Z)
    (payloadSHA ts : string) : string :=
  prev +:+ "|" +:+ pretty seq +:+ "|" +:+ direction +:+ "|" +:+ pretty messageType +:+ "|"
    +:+ payloadSHA +:+ "|" +:+ ts.

Definition RecordFrame (r : option SessionRecorder) (direction : string) (messageType : Z)
    (payload : bytes) : prog recE (option SessionRecorder) :=
  match r with
  | None => mret None
  | Some r =>
    let seq := uint64 (r_seq r + 1) in
    let payloadSHA := sha256_hex payload in
    ts ← request Timestamp;
    let entryHash :=
      sha256_hex (bytes_of (sum_input (r_prev r) seq direction messageType payloadSHA ts)) in
    let rec := MkFrameRecord ts seq direction messageType (Z.of_nat (length payload)) payloadSHA
      (r_prev r) entryHash
      (if bool_decide (Rec_Mode (r_cfg r) = SessionRecordingFull)
       then base64_EncodeToString payload else "") in
    e ← request (WriteRecord rec);
    match e with
    | Some _ => mret (Some (MkRecorder (r_cfg r) (r_meta r) (r_open r) seq (r_prev r)))
    | None => mret (Some (MkRecorder (r_cfg r) (r_meta r) (r_open r) seq entryHash))
    end
  end.

Definition Close (r : option SessionRecorder) (closeErr : option error) :
    prog recE (option SessionRecorder) :=
  match r with
  | None => mret None
  | Some r =>
    if negb (r_open r) then mret (Some r)
    else
      _ ← request CloseRecordFile;
      e ← request (OpenFile (Rec_Dir (r_cfg r)) (SessionID (r_meta r) +:+ ".manifest.json"));
      _ ← match e with
          | None =>
            ts ← request Timestamp;
            (* the error of [Encode] is ignored *)
            _ ← request (WriteManifest (MkManifest "1" (Rec_Mode (r_cfg r)) (r_meta r) (r_seq r) (r_prev r)
              ts (match closeErr with Some e => Error e | None => "" end)));
            mret ()
          | Some _ => mret ()
          end;
      mret (Some (MkRecorder (r_cfg r) (r_meta r) false (r_seq r) (r_prev r)))
  end.

(** A frame, as the observer receives it. *)
Record frame := MkFrame { fr_direction : string; fr_type : Z; fr_payload : bytes }.
