(* ===== verification/SessionRecordingProps.v ===== *)
(** * Properties of session recording

    The records on disk always form a hash chain, whatever writes fail; two
    chains with the same final hash hold the same frames unless SHA-256 was
    broken; a full recording gives the payload back. *)
From S2P Require Import Prelude GoStrings GoTime Sha256 SessionRecording.
From Stdlib Require Import ZArith Lia.
#[local] Open Scope Z_scope.

(** ** Fields joined by a separator *)

Definition bar : ascii := "|".
Definition bar_free (s : string) : Prop := Forall (λ c, c ≠ bar) (bytes_of s).

Lemma digit_bar_free x : is_digit x = true → x ≠ bar.
Proof. by intros Hx ->. Qed.

Lemma bar_free_N (n : N) : bar_free (pretty n).
Proof.
  destruct (pretty_digits n) as [Hd _]. eapply Forall_impl; [exact Hd|]. apply digit_bar_free.
Qed.

Lemma bar_free_Z (z : Z) : bar_free (pretty z).
Proof.
  unfold pretty, pretty_Z. destruct z as [|p|p]; [by repeat constructor|apply bar_free_N|].
  unfold bar_free. rewrite bytes_of_app. apply Forall_app. split; [by repeat constructor|apply bar_free_N].
Qed.

Lemma bar_free_hex b : bar_free (EncodeToString b).
Proof.
  unfold bar_free, EncodeToString. rewrite bytes_of_of. apply Forall_concat, Forall_fmap.
  apply Forall_true. intros c. apply Forall_forall. intros x Hx%hex_byte_nodash ->. done.
Qed.

Lemma sum_input_join prev seq dir mt sha ts :
  bytes_of (sum_input prev seq dir mt sha ts) =
    bytes_join bar (map bytes_of [prev; pretty seq; dir; pretty mt; sha; ts]).
Proof. unfold sum_input. by rewrite !bytes_of_app. Qed.

(** Separators in a text; a joined text has one between each two fields. *)
Definition bars (s : bytes) : nat := length (filter (λ c, c = bar) s).

Lemma bars_app s t : bars (s ++ t) = (bars s + bars t)%nat.
Proof. unfold bars. by rewrite filter_app, length_app. Qed.

Lemma bars_free f : bars f = 0%nat ↔ Forall (λ c, c ≠ bar) f.
Proof.
  unfold bars. induction f as [|c f IH]; [split; [constructor|done]|].
  rewrite filter_cons, Forall_cons. case_decide as Hc; cbn; [naive_solver lia|naive_solver].
Qed.

Lemma bars_sum_input prev seq dir mt sha ts :
  bars (bytes_of (sum_input prev seq dir mt sha ts)) =
    (5 + (bars (bytes_of prev) + (bars (bytes_of dir) + (bars (bytes_of sha) + bars (bytes_of ts)))))%nat.
Proof.
  pose proof (proj2 (bars_free _) (bar_free_Z seq)). pose proof (proj2 (bars_free _) (bar_free_Z mt)).
  rewrite sum_input_join. cbn [bytes_join map].
  assert (Hb : ∀ l, bars (bar :: l) = S (bars l)) by done.
  repeat rewrite ?bars_app, ?Hb. lia.
Qed.

(** The hashed text determines its fields, as soon as one of the two ways to
    read it has no separator inside a field. *)
Lemma sum_input_inj prev seq dir mt sha ts prev' seq' dir' mt' sha' ts' :
  bar_free prev → bar_free dir → bar_free sha → bar_free ts →
  sum_input prev seq dir mt sha ts = sum_input prev' seq' dir' mt' sha' ts' →
  prev = prev' ∧ seq = seq' ∧ dir = dir' ∧ mt = mt' ∧ sha = sha' ∧ ts = ts'.
Proof.
  intros H1 H2 H3 H4 E%(f_equal bytes_of). pose proof (f_equal bars E) as Hc.
  rewrite !bars_sum_input in Hc.
  rewrite (proj2 (bars_free _) H1), (proj2 (bars_free _) H2), (proj2 (bars_free _) H3),
    (proj2 (bars_free _) H4) in Hc.
  assert (bar_free prev' ∧ bar_free dir' ∧ bar_free sha' ∧ bar_free ts') as (? & ? & ? & ?)
    by (split_and!; apply bars_free; lia).
  rewrite !sum_input_join in E. apply (f_equal (bytes_split bar)) in E.
  rewrite !split_join in E by (try done; repeat (constructor; [first [done|apply bar_free_Z]|]); constructor).
  injection E as E1 E2 E3 E4 E5 E6. apply bytes_of_inj in E1, E2, E3, E4, E5, E6.
  apply (inj pretty) in E2, E4. by split_and!.
Qed.

(** ** The chain *)

(** What the entry hash covers. *)
Definition entry_input (rec : SessionFrameRecord) : string :=
  sum_input (PrevHash rec) (Seq rec) (Direction rec) (MessageType rec) (PayloadSHA rec) (TimestampUTC rec).

(** Records linked from [prev] to [final], as an auditor would check them. *)
Fixpoint linked (prev : string) (recs : list SessionFrameRecord) (final : string) : Prop :=
  match recs with
  | [] => final = prev
  | rec :: recs' =>
    PrevHash rec = prev ∧ EntryHash rec = sha256_hex (bytes_of (entry_input rec)) ∧
    linked (EntryHash rec) recs' final
  end.

Lemma linked_snoc prev recs rec final :
  linked prev (recs ++ [rec]) final ↔
  ∃ mid, linked prev recs mid ∧ PrevHash rec = mid ∧
    EntryHash rec = sha256_hex (bytes_of (entry_input rec)) ∧ final = EntryHash rec.
Proof.
  revert prev. induction recs as [|r recs IH]; intros prev; cbn.
  - naive_solver.
  - rewrite IH. naive_solver.
Qed.

(** The records a run wrote, in order. *)
Fixpoint written (tr : list (call recE)) : list SessionFrameRecord :=
  match tr with
  | [] => []
  | Call e x :: tr' =>
    match e in recE Y return Y → list SessionFrameRecord with
    | WriteRecord rec => λ x, match x with None => [rec] | Some _ => [] end
    | _ => λ _, []
    end x ++ written tr'
  end.

Lemma written_app tr1 tr2 : written (tr1 ++ tr2) = written tr1 ++ written tr2.
Proof. induction tr1 as [|[X e x] tr1 IH]; [done|]. cbn. by rewrite IH, app_assoc. Qed.

(** A record describes the frame it was made for. *)
Definition describes (full : bool) (rec : SessionFrameRecord) (f : frame) : Prop :=
  Direction rec = fr_direction f ∧ MessageType rec = fr_type f ∧
  PayloadBytes rec = Z.of_nat (length (fr_payload f)) ∧ PayloadSHA rec = sha256_hex (fr_payload f) ∧
  PayloadB64 rec = (if full then base64_EncodeToString (fr_payload f) else "").

Definition is_full (r : SessionRecorder) : bool :=
  bool_decide (Rec_Mode (r_cfg r) = SessionRecordingFull).

(** The records given to the encoder, written or not. *)
Definition call_attempted (c : call recE) : list SessionFrameRecord :=
  match c with Call e _ => match e with WriteRecord rec => [rec] | _ => [] end end.
Definition attempted (tr : list (call recE)) : list SessionFrameRecord := concat (map call_attempted tr).

Lemma attempted_app tr1 tr2 : attempted (tr1 ++ tr2) = attempted tr1 ++ attempted tr2.
Proof. unfold attempted. by rewrite map_app, concat_app. Qed.

Lemma unattempted_unwritten tr : attempted tr = [] → written tr = [].
Proof.
  induction tr as [|[X e x] tr IH]; [done|]. change (attempted (Call e x :: tr)) with (call_attempted (Call e x) ++ attempted tr).
  intros [H1 H2]%app_nil. cbn. rewrite (IH H2). by destruct e.
Qed.

(** The requests of one call of [RecordFrame]: the clock, and one record, whose
    number is counted whether or not it is written. *)
Lemma RecordFrame_requests r f :
  post (RecordFrame (Some r) (fr_direction f) (fr_type f) (fr_payload f)) (λ tr r', ∃ ts rec answer r1,
    tr = [Call Timestamp ts; Call (WriteRecord rec) answer] ∧ TimestampUTC rec = ts ∧ describes (is_full r) rec f ∧
    PrevHash rec = r_prev r ∧ EntryHash rec = sha256_hex (bytes_of (entry_input rec)) ∧
    Seq rec = uint64 (r_seq r + 1) ∧ r' = Some r1 ∧ (r_cfg r1 = r_cfg r ∧ r_meta r1 = r_meta r ∧ r_open r1 = r_open r) ∧
    r_seq r1 = Seq rec ∧ r_prev r1 = (match answer with None => EntryHash rec | Some _ => r_prev r end)).
Proof.
  unfold RecordFrame. apply post_bind, post_request. intros ts. apply post_bind, post_request.
  intros [e|]; cbn; eexists _, _, _, _; (split; [reflexivity|]); by split_and!.
Qed.

(** ** Recording *)

(** The end of the chain. *)
Definition chain_end (recs : list SessionFrameRecord) : string := default "" (EntryHash <$> last recs).

Lemma linked_end recs final : linked "" recs final → final = chain_end recs.
Proof.
  destruct recs as [|rec recs _] using rev_ind; [done|]. intros (_ & _ & _ & _ & ->)%linked_snoc.
  unfold chain_end. by rewrite last_snoc.
Qed.

Lemma linked_cons_snoc prev recs mid rec :
  linked prev recs mid → PrevHash rec = mid →
  EntryHash rec = sha256_hex (bytes_of (entry_input rec)) →
  linked prev (recs ++ [rec]) (EntryHash rec).
Proof. intros. apply linked_snoc. eauto. Qed.

(** ** Tampering *)

(** The timestamps the clock gave. *)
Fixpoint timestamps (tr : list (call recE)) : list string :=
  match tr with
  | [] => []
  | Call e x :: tr' =>
    match e in recE Y return Y → list string with
    | Timestamp => λ ts, [ts]
    | _ => λ _, []
    end x ++ timestamps tr'
  end.

Lemma timestamps_app tr1 tr2 : timestamps (tr1 ++ tr2) = timestamps tr1 ++ timestamps tr2.
Proof. induction tr1 as [|[X e x] tr1 IH]; [done|]. cbn. by rewrite IH, app_assoc. Qed.

(** No separator inside a field: the direction is one of two constants, the
    timestamp is RFC 3339, the digest hexadecimal. *)
Definition clean (rec : SessionFrameRecord) : Prop :=
  bar_free (Direction rec) ∧ bar_free (PayloadSHA rec) ∧ bar_free (TimestampUTC rec).

(** Equal in everything the entry hash covers. *)
Definition same_entry (a b : SessionFrameRecord) : Prop :=
  PrevHash a = PrevHash b ∧ Seq a = Seq b ∧ Direction a = Direction b ∧
  MessageType a = MessageType b ∧ PayloadSHA a = PayloadSHA b ∧ TimestampUTC a = TimestampUTC b ∧
  EntryHash a = EntryHash b.

Lemma linked_bar_free prev recs final : bar_free prev → linked prev recs final → bar_free final.
Proof.
  revert prev. induction recs as [|r recs IH]; intros prev Hp; cbn; [by intros ->|].
  intros (_ & Hh & Hl). eapply IH; [|exact Hl]. rewrite Hh. apply bar_free_hex.
Qed.

Lemma sha256_hex_nonempty m : sha256_hex m ≠ "".
Proof. intros E%(f_equal len). by rewrite len_sha256_hex in E. Qed.

Lemma linked_nonempty recs rec : ¬ linked "" (recs ++ [rec]) "".
Proof.
  intros (? & _ & _ & Hh & Hf)%linked_snoc.
  apply (sha256_hex_nonempty (bytes_of (entry_input rec))). congruence.
Qed.

(** Two inputs of the two chains with one digest. *)
Definition colliding (recs recs' : list SessionFrameRecord) : Prop :=
  ∃ a b, a ∈ recs ∧ b ∈ recs' ∧ collision (bytes_of (entry_input a)) (bytes_of (entry_input b)).

Lemma colliding_app recs recs' l l' : colliding recs recs' → colliding (recs ++ l) (recs' ++ l').
Proof.
  intros (a & b & Ha & Hb & Hc). exists a, b. rewrite !elem_of_app. split_and!; [by left|by left|done].
Qed.

Lemma linked_unique recs recs' final :
  linked "" recs final → linked "" recs' final → Forall clean recs →
  Forall2 same_entry recs recs' ∨ colliding recs recs'.
Proof.
  revert recs' final. induction recs as [|x recs IH] using rev_ind;
    intros recs' final H1 H2 C1; destruct recs' as [|x' recs' _] using rev_ind.
  - by left.
  - cbn in H1. subst final. by apply linked_nonempty in H2.
  - cbn in H2. subst final. by apply linked_nonempty in H1.
  - apply linked_snoc in H1 as (m & L1 & P1 & E1 & ->).
    apply linked_snoc in H2 as (m' & L2 & P2 & E2 & F).
    apply Forall_app in C1 as [C1 [(D1 & S1 & T1) _]%Forall_cons].
    destruct (sha256_hex_eq (bytes_of (entry_input x)) (bytes_of (entry_input x'))) as [E|Hcol];
      [congruence| |].
    2: { right. exists x, x'. rewrite !elem_of_app. split_and!; [right; by left|right; by left|done]. }
    apply bytes_of_inj, sum_input_inj in E as (Ep & Es & Ed & Em & Eh & Et); try done.
    2: { rewrite P1. eapply linked_bar_free; [|exact L1]. constructor. }
    assert (m' = m) as -> by congruence.
    destruct (IH recs' m L1 L2 C1) as [Hall|Hcol]; [|right; by apply colliding_app].
    left. apply Forall2_app; [done|]. constructor; [|constructor]. by split_and!.
Qed.

Lemma recorded_clean full recs fs stamps :
  Forall2 (describes full) recs fs → Forall (λ f, bar_free (fr_direction f)) fs →
  Forall (λ rec, TimestampUTC rec ∈ stamps) recs → Forall bar_free stamps → Forall clean recs.
Proof.
  intros Hd Hf Hs Hb. induction Hd as [|rec f recs fs (Ed & _ & _ & Eh & _) _ IH]; [constructor|].
  apply Forall_cons in Hf as [Hf1 Hf2], Hs as [Hs1 Hs2]. constructor; [|by apply IH].
  unfold clean. rewrite Ed, Eh. split_and!; [done|apply bar_free_hex|].
  by eapply Forall_forall in Hb.
Qed.

(** ** Base64 *)

Definition b64_val (c : ascii) : Z :=
  match list_find (λ d, d = c) b64_alphabet with Some (n, _) => Z.of_nat n | None => 0 end.

Definition b64_ungroup (w x y z : ascii) : bytes :=
  let v := b64_val w * 262144 + b64_val x * 4096 + b64_val y * 64 + b64_val z in
  [byte_of (v / 65536 mod 256); byte_of (v / 256 mod 256); byte_of (v mod 256)].

(** Decoding, as RFC 4648 describes it. *)
Fixpoint b64_decode (s : bytes) : bytes :=
  match s with
  | w :: x :: y :: z :: s' =>
    (if bool_decide (y = "="%char) then take 1 (b64_ungroup w x "A" "A")
     else if bool_decide (z = "="%char) then take 2 (b64_ungroup w x y "A")
     else b64_ungroup w x y z) ++ b64_decode s'
  | _ => []
  end.

Lemma b64_char_spec n : 0 <= n < 64 → b64_val (b64_char n) = n ∧ b64_char n ≠ "="%char.
Proof.
  intros Hn. replace n with (Z.of_nat (Z.to_nat n)) by lia.
  assert (Hk : (Z.to_nat n < 64)%nat) by lia. generalize dependent (Z.to_nat n). intros k Hk.
  do 64 (destruct k as [|k]; [split; [vm_compute; reflexivity|done]|]). lia.
Qed.

Lemma b64_val_char n : b64_val (b64_char (n mod 64)) = n mod 64.
Proof. apply b64_char_spec, Z.mod_pos_bound. lia. Qed.
Lemma b64_char_pad n : b64_char (n mod 64) ≠ "="%char.
Proof. apply b64_char_spec, Z.mod_pos_bound. lia. Qed.

Lemma digits64 v : 0 <= v < 2 ^ 24 →
  v / 262144 mod 64 * 262144 + v / 4096 mod 64 * 4096 + v / 64 mod 64 * 64 + v mod 64 = v.
Proof. intros Hv. change (2 ^ 24) with 16777216 in Hv. Z.to_euclidean_division_equations. lia. Qed.

Lemma ungroup_group a b c :
  match b64_group a b c with
  | [w; x; y; z] => b64_ungroup w x y z
  | _ => []
  end = [a; b; c].
Proof.
  unfold b64_group, b64_ungroup. rewrite !b64_val_char.
  pose proof (bval_range a). pose proof (bval_range b). pose proof (bval_range c).
  rewrite digits64 by (change (2 ^ 24) with 16777216; lia).
  set (v := bval a * 65536 + bval b * 256 + bval c).
  assert (v / 65536 mod 256 = bval a) as -> by (unfold v; Z.to_euclidean_division_equations; lia).
  assert (v / 256 mod 256 = bval b) as -> by (unfold v; Z.to_euclidean_division_equations; lia).
  assert (v mod 256 = bval c) as -> by (unfold v; Z.to_euclidean_division_equations; lia).
  by rewrite !byte_of_bval.
Qed.

(** With zero bytes for the missing ones the last characters are [A], the ones
    the padding stands for. *)
Lemma group_pad a b :
  b64_group a b (byte_of 0) = take 3 (b64_group a b (byte_of 0)) ++ ["A"%char].
Proof.
  unfold b64_group. change (bval (byte_of 0)) with 0.
  assert ((bval a * 65536 + bval b * 256 + 0) mod 64 = 0) as Hz
    by (Z.to_euclidean_division_equations; lia).
  by rewrite Hz.
Qed.

Lemma group_pad2 a :
  b64_group a (byte_of 0) (byte_of 0) =
    take 2 (b64_group a (byte_of 0) (byte_of 0)) ++ ["A"%char; "A"%char].
Proof.
  rewrite group_pad at 1. unfold b64_group. change (bval (byte_of 0)) with 0.
  assert ((bval a * 65536 + 0 * 256 + 0) / 64 mod 64 = 0) as Hz
    by (Z.to_euclidean_division_equations; lia).
  cbn [take app]. by rewrite Hz.
Qed.

Lemma b64_decode_encode s : b64_decode (b64_encode s) = s.
Proof.
  induction s as [s IH] using (induction_ltof1 _ (@length ascii)). unfold ltof in IH.
  destruct s as [|a [|b [|c s]]]; [done| | |].
  - pose proof (ungroup_group a (byte_of 0) (byte_of 0)) as E. rewrite group_pad2 in E.
    unfold b64_group in E. cbn [take app] in E. cbn -[b64_char b64_ungroup bool_decide].
    rewrite bool_decide_eq_true_2 by done. by rewrite E.
  - pose proof (ungroup_group a b (byte_of 0)) as E. rewrite group_pad in E.
    unfold b64_group in E. cbn [take app] in E. cbn -[b64_char b64_ungroup bool_decide].
    rewrite bool_decide_eq_false_2 by apply b64_char_pad. rewrite bool_decide_eq_true_2 by done.
    by rewrite E.
  - pose proof (ungroup_group a b c) as E.
    change (b64_encode (a :: b :: c :: s)) with (b64_group a b c ++ b64_encode s).
    unfold b64_group in *. cbn -[b64_char b64_ungroup bool_decide b64_encode].
    rewrite !bool_decide_eq_false_2 by apply b64_char_pad. rewrite E.
    rewrite IH by (cbn; lia). done.
Qed.

(** ** Replaying *)

Definition replay (rec : SessionFrameRecord) : frame :=
  MkFrame (Direction rec) (MessageType rec) (b64_decode (bytes_of (PayloadB64 rec))).

Lemma replay_describes rec f : describes true rec f → replay rec = f.
Proof.
  intros (Hd & Hm & _ & _ & Hb). unfold replay. rewrite Hd, Hm, Hb. unfold base64_EncodeToString.
  rewrite bytes_of_of, b64_decode_encode. by destruct f.
Qed.

Lemma replay_all recs fs : Forall2 (describes true) recs fs → map replay recs = fs.
Proof. induction 1 as [|rec f recs fs Hr _ IH]; [done|]. cbn. by rewrite (replay_describes _ _ Hr), IH. Qed.

(** ** Setting up and closing *)

(** The manifests a run wrote. *)
Fixpoint manifests (tr : list (call recE)) : list SessionManifest :=
  match tr with
  | [] => []
  | Call e x :: tr' =>
    match e with WriteManifest man => [man] | _ => [] end ++ manifests tr'
  end.

Lemma manifests_app tr1 tr2 : manifests (tr1 ++ tr2) = manifests tr1 ++ manifests tr2.
Proof. induction tr1 as [|[X e x] tr1 IH]; [done|]. cbn. by rewrite IH, app_assoc. Qed.

(** The manifests with the answers of their writes. *)
Fixpoint manifest_writes (tr : list (call recE)) : list (SessionManifest * option error) :=
  match tr with
  | [] => []
  | Call e x :: tr' =>
    match e in recE Y return Y → list (SessionManifest * option error) with
    | WriteManifest man => λ answer, [(man, answer)]
    | _ => λ _, []
    end x ++ manifest_writes tr'
  end.

Lemma manifest_writes_fst tr : (manifest_writes tr).*1 = manifests tr.
Proof. induction tr as [|[X e x] tr IH]; [done|]. cbn. rewrite fmap_app, IH. by destruct e. Qed.

(** Setting up writes nothing; it gives no recorder, or a fresh one for the
    given session. *)
Lemma NewSessionRecorder_fresh cfg meta :
  post (NewSessionRecorder cfg meta) (λ tr r,
    written tr = [] ∧ manifests tr = [] ∧
    (r = None ∨ Rec_Enabled cfg = true ∧ Rec_Mode cfg ≠ SessionRecordingOff ∧
      ∃ id at_, r = Some (MkRecorder cfg (set_session id at_ meta) true 0 ""))).
Proof.
  unfold NewSessionRecorder. destruct (Rec_Enabled cfg); cbn [negb orb]; [|by cbn; auto].
  case_bool_decide as Hm; [by cbn; auto|].
  apply post_bind. eapply (post_mono _ (λ tr _, written tr = [] ∧ manifests tr = [])).
  { by destruct (bool_decide _). }
  intros tr1 id [W1 M1]. apply post_bind.
  eapply (post_mono _ (λ tr _, written tr = [] ∧ manifests tr = [])).
  { by destruct (bool_decide _). }
  intros tr2 at_ [W2 M2]. apply post_bind, post_request. intros [e|].
  { cbn [post mret prog_mret]. rewrite !written_app, !manifests_app, W1, M1, W2, M2. auto. }
  apply post_bind, post_request. intros [e|]; cbn [post mret prog_mret];
    rewrite !written_app, !manifests_app, W1, M1, W2, M2; [auto|].
  split; [done|]. split; [done|]. right. split; [done|]. split; [done|]. by exists id, at_.
Qed.

(** A file could not be opened. *)
Definition open_refused (tr : list (call recE)) : Prop :=
  ∃ dir name e, Call (OpenFile dir name) (Some e) ∈ tr.

(** Closing an open recorder gives the encoder of the manifest one, last and from
    the recorder's state, unless its file cannot be opened; a closed recorder is
    left alone. *)
Lemma Close_requests r closeErr :
  post (Close (Some r) closeErr) (λ tr r', attempted tr = [] ∧ ∃ r1, r' = Some r1 ∧
    (r_cfg r1 = r_cfg r ∧ r_meta r1 = r_meta r ∧ r_seq r1 = r_seq r ∧ r_prev r1 = r_prev r) ∧
    r_open r1 = false ∧
    (manifests tr = [] ∧ (r_open r = false ∨ open_refused tr) ∨ r_open r = true ∧ ∃ man pre answer,
      tr = pre ++ [Call (WriteManifest man) answer] ∧ manifests tr = [man] ∧ attempted pre = [] ∧
      FinalHash man = r_prev r ∧ FrameCount man = r_seq r ∧ Man_Meta man = r_meta r ∧
      Man_Mode man = Rec_Mode (r_cfg r))).
Proof.
  unfold Close. destruct (r_open r) eqn:Ho; cbn [negb]; [|by cbn; eauto 12].
  apply post_bind, post_request. intros ?. apply post_bind, post_request. intros [e|].
  - apply post_bind. cbn. split; [done|]. eexists. split; [done|]. split; [done|]. split; [done|]. left. split; [done|].
    right. eexists _, _, e. right. left.
  - apply post_bind, post_bind, post_request. intros ts. apply post_bind, post_request. intros answer. cbn.
    split; [done|]. eexists. split; [done|]. split; [done|]. split; [done|]. right. split; [done|].
    eexists _, [_; _; _], answer. by split_and!.
Qed.

(** ** Examples *)

(** A file system on which everything succeeds but the writes listed. *)
Definition disk (X : Type) (e : recE X) (s : list bool) : X * list bool :=
  match e in recE Y return Y * list bool with
  | Timestamp => ("2025-01-01T00:00:00Z", s)
  | NewUUID => ("id", s)
  | MkdirAll _ => (None, s)
  | OpenFile _ _ => (None, s)
  | WriteRecord _ =>
    (match s with true :: _ => Some (errors_new "disk full") | _ => None end, tl s)
  | CloseRecordFile => ((), s)
  | WriteManifest _ => (None, s)
  end.

Definition full_cfg : SessionRecordingConfig := MkRecordingConfig true SessionRecordingFull "/tmp".
Definition some_meta : SessionMeta := MkSessionMeta "s1" "" "alice" "alice" "ns" "alice" "" "" "".
