(* ===== verification/Session.v ===== *)
(** * A WebSocket session ([handleWS] with [ServeWS] and [copyFrames])

    The tunnel of [Proxy] with the callbacks [handleWS] gives it: the two copying
    goroutines run the activity callback and the frame observer themselves, so
    they share the time of the last stamp, the Workspace object and the
    recorder.  Statements of the callbacks are the steps; the recorder's methods
    hold its mutex and are one step each.  The handler waits for the first
    error, closes the connections and the recorder while the other goroutine
    may still run.  An assignment such as [lastTouch = time.Now()] is one step: a
    goroutine does not lose the processor for long between reading the clock and
    the store after it.  The answer to a patch arrives in the shared object in one
    step as well, though the client decodes it field by field. *)
From S2P Require Import Prelude GoStrings GoTime Api K8s Proxy SessionRecording.
From Stdlib Require Import ZArith Lia.
#[local] Open Scope Z_scope.

(** ** The goroutines' requests *)

Inductive sesE : Type → Type :=
  (** reading and writing the connections *)
  | SWs (X : Type) (e : wsE X) : sesE X
  (** [time.Since(lastTouch) < time.Minute] *)
  | TouchedRecently : sesE bool
  (** [lastTouch = time.Now()] *)
  | SetLastTouch : sesE unit
  (** [patchBase := ws.DeepCopy()] *)
  | CopyWorkspace : sesE Workspace
  (** [ws.Status.LastAccessed = metav1.Now()] *)
  | StampWorkspace : sesE unit
  (** [client.Status().Patch(ctx, ws, client.MergeFrom(patchBase))]: the patch is
      made from the object and sent; the answer is written into the object *)
  | SendPatch (patchBase : Workspace) : sesE unit
  | ReceivePatch : sesE (result Workspace)
  (** [recorder.RecordFrame(...)] *)
  | Record_ (direction : string) (msgType : Z) (payload : bytes) : sesE unit.
Arguments SWs {X} e.

(** [lifecycle.TouchLastAccessed(r.Context(), ws)]. *)
Definition touch_receive : prog sesE unit := _ ← request ReceivePatch; Return ().
Definition touch_patch (patchBase : Workspace) : prog sesE unit :=
  _ ← request (SendPatch patchBase); touch_receive.
Definition touch_stamp (patchBase : Workspace) : prog sesE unit :=
  _ ← request StampWorkspace; touch_patch patchBase.
Definition touch : prog sesE unit :=
  patchBase ← request CopyWorkspace; touch_stamp patchBase.

(** The closure [onActivity]. *)
Definition activity_stamp : prog sesE unit := _ ← request SetLastTouch; touch.
Definition onActivity : prog sesE unit :=
  recent ← request TouchedRecently;
  if (recent : bool) then Return () else activity_stamp.

(** The callbacks of the tunnel. *)
Definition callback (X : Type) (e : wsE X) : prog sesE X :=
  match e in wsE Y return prog sesE Y with
  | OnActivity => onActivity
  | OnFrame direction msgType payload => request (Record_ direction msgType payload)
  | e' => request (SWs e')
  end.

Definition session_body (i : pump) : prog sesE (option error) := interp callback (body i).

(** ** The shared state *)

Inductive session_thread := SLooping (p : prog sesE (option error)) | SFinished.

(** Where the handler is: in [err = <-errc], before [recorder.Close(nil)], after it. *)
Inductive handler_phase := Waiting | Closing | Closed.
#[export] Instance handler_phase_eq_dec : EqDecision handler_phase.
Proof. solve_decision. Defined.

Record session := MkSession {
  se_threads : pump → session_thread;
  se_errc : list error;
  se_handler : handler_phase;
  se_now : Time;
  se_lastTouch : Time;
  se_ws : Workspace;
  se_recorder : option SessionRecorder;
  (** what has happened: requests of the tunnel, stamps, patches (base and new
      object), objects the server answered, requests of the recorder *)
  se_log : list (pump * call wsE);
  se_stamps : list (pump * Time);
  se_patches : list (Workspace * Workspace);
  se_answers : list Workspace;
  se_rec_log : list (call recE);
}.

Definition session_start (now : Time) (recorder : option SessionRecorder) (ws : Workspace) : session :=
  MkSession (λ i, SLooping (session_body i)) [] Waiting now zeroTime ws recorder [] [] [] [] [].

(** ** Steps *)

Definition on_thread (i : pump) (t : session_thread) (s : session) : session :=
  MkSession (λ j, if decide (j = i) then t else se_threads s j) (se_errc s) (se_handler s) (se_now s)
    (se_lastTouch s) (se_ws s) (se_recorder s) (se_log s) (se_stamps s) (se_patches s) (se_answers s) (se_rec_log s).
Definition logged (i : pump) (c : call wsE) (s : session) : session :=
  MkSession (se_threads s) (se_errc s) (se_handler s) (se_now s) (se_lastTouch s) (se_ws s)
    (se_recorder s) (se_log s ++ [(i, c)]) (se_stamps s) (se_patches s) (se_answers s) (se_rec_log s).
Definition with_touch (i : pump) (s : session) : session :=
  MkSession (se_threads s) (se_errc s) (se_handler s) (se_now s) (se_now s) (se_ws s)
    (se_recorder s) (se_log s) (se_stamps s ++ [(i, se_now s)]) (se_patches s) (se_answers s) (se_rec_log s).
Definition with_ws (ws : Workspace) (s : session) : session :=
  MkSession (se_threads s) (se_errc s) (se_handler s) (se_now s) (se_lastTouch s) ws
    (se_recorder s) (se_log s) (se_stamps s) (se_patches s) (se_answers s) (se_rec_log s).
Definition patched (base : Workspace) (s : session) : session :=
  MkSession (se_threads s) (se_errc s) (se_handler s) (se_now s) (se_lastTouch s) (se_ws s)
    (se_recorder s) (se_log s) (se_stamps s) (se_patches s ++ [(base, se_ws s)]) (se_answers s) (se_rec_log s).
Definition answered (x : result Workspace) (s : session) : session :=
  match x with
  | Ok ws => MkSession (se_threads s) (se_errc s) (se_handler s) (se_now s) (se_lastTouch s) ws
      (se_recorder s) (se_log s) (se_stamps s) (se_patches s) (se_answers s ++ [ws]) (se_rec_log s)
  | Err _ => s
  end.
Definition recorded (r : option SessionRecorder) (tr : list (call recE)) (s : session) : session :=
  MkSession (se_threads s) (se_errc s) (se_handler s) (se_now s) (se_lastTouch s) (se_ws s)
    r (se_log s) (se_stamps s) (se_patches s) (se_answers s) (se_rec_log s ++ tr).
Definition with_handler (errc : list error) (h : handler_phase) (s : session) : session :=
  MkSession (se_threads s) errc h (se_now s) (se_lastTouch s) (se_ws s)
    (se_recorder s) (se_log s) (se_stamps s) (se_patches s) (se_answers s) (se_rec_log s).
Definition at_time (t : Time) (s : session) : session :=
  MkSession (se_threads s) (se_errc s) (se_handler s) t (se_lastTouch s) (se_ws s)
    (se_recorder s) (se_log s) (se_stamps s) (se_patches s) (se_answers s) (se_rec_log s).

(** A write to the record file fails once it is closed, and once a write has
    failed. *)
Definition file_open (r : option SessionRecorder) : bool :=
  match r with Some r => r_open r | None => false end.
Definition write_refused (c : call recE) : Prop :=
  match c with
  | Call e x =>
    match e in recE Y return Y → Prop with WriteRecord _ => λ w, w ≠ None | _ => λ _, True end x
  end.
(** The encoder keeps the error of a failed write and gives it to every later
    [Encode]. *)
Definition call_failed (c : call recE) : bool :=
  match c with
  | Call e x =>
    match e in recE Y return Y → bool with
    | WriteRecord _ => λ w, match w with Some _ => true | None => false end
    | _ => λ _, false
    end x
  end.
Definition write_failed (log : list (call recE)) : bool := existsb call_failed log.

Definition file_respected (r : option SessionRecorder) (log tr : list (call recE)) : Prop :=
  file_open r = false ∨ write_failed log = true → Forall write_refused tr.

Inductive session_step : session → session → Prop :=
  | Ses_ws s i X (e : wsE X) k x :
      se_threads s i = SLooping (Request (SWs e) k) →
      session_step s (logged i (Call e x) (on_thread i (SLooping (k x)) s))
  | Ses_recent s i k :
      se_threads s i = SLooping (Request TouchedRecently k) →
      session_step s (logged i (Call OnActivity ())
        (on_thread i (SLooping (k (Sub (se_now s) (se_lastTouch s) <? Minute))) s))
  | Ses_set s i k :
      se_threads s i = SLooping (Request SetLastTouch k) →
      session_step s (with_touch i (on_thread i (SLooping (k ())) s))
  | Ses_copy s i k :
      se_threads s i = SLooping (Request CopyWorkspace k) →
      session_step s (on_thread i (SLooping (k (se_ws s))) s)
  | Ses_stamp s i k :
      se_threads s i = SLooping (Request StampWorkspace k) →
      session_step s (with_ws (set_LastAccessed (se_now s) (se_ws s)) (on_thread i (SLooping (k ())) s))
  | Ses_patch s i base k :
      se_threads s i = SLooping (Request (SendPatch base) k) →
      session_step s (patched base (on_thread i (SLooping (k ())) s))
  (** the client writes a successful answer into the object *)
  | Ses_answer s i k x :
      se_threads s i = SLooping (Request ReceivePatch k) →
      session_step s (answered x (on_thread i (SLooping (k x)) s))
  | Ses_record s i dir t d k tr r :
      se_threads s i = SLooping (Request (Record_ dir t d) k) →
      exec (RecordFrame (se_recorder s) dir t d) tr r → file_respected (se_recorder s) (se_rec_log s) tr →
      session_step s (recorded r tr (logged i (Call (OnFrame dir t d) ()) (on_thread i (SLooping (k ())) s)))
  | Ses_loop s i :
      se_threads s i = SLooping (Return None) →
      session_step s (on_thread i (SLooping (session_body i)) s)
  | Ses_send s i err :
      se_threads s i = SLooping (Return (Some err)) → (length (se_errc s) < errc_capacity)%nat →
      session_step s (with_handler (se_errc s ++ [err]) (se_handler s) (on_thread i SFinished s))
  | Ses_receive s err q :
      se_errc s = err :: q → se_handler s = Waiting → session_step s (with_handler q Closing s)
  | Ses_close s tr r :
      se_handler s = Closing → exec (Close (se_recorder s) None) tr r →
      session_step s (recorded r tr (with_handler (se_errc s) Closed s))
  (** time passes *)
  | Ses_tick s t : se_now s <= t → session_step s (at_time t s).

Definition session_runs : session → session → Prop := rtc session_step.
