(* ===== verification/SessionProps.v ===== *)
(** * Properties of a WebSocket session

    A session is the tunnel of [Proxy], the stamping of the last access and the
    recorder, run together by the goroutines: every run of the session is a run
    of the tunnel, of a machine for the stamps and of one for the recorder.  The
    properties follow on each machine by induction on its steps: how often the
    last access is stamped, what a patch carries, and that the recording stays
    one hash chain although both goroutines write it and the handler closes it. *)
From S2P Require Import Prelude GoStrings GoTime Api K8s Proxy ProxyProps.
From S2P Require Import SessionRecording SessionRecordingProps Session.
From Stdlib Require Import ZArith Lia.
#[local] Open Scope Z_scope.

(** ** The two machines beside the tunnel *)

(** Where a goroutine is in the activity callback. *)
Inductive touch_stage :=
  | Idle
  | Stamping
  | Copying
  | Writing (patchBase : Workspace)
  | Sending (patchBase : Workspace)
  | Receiving.

Definition touch_prog (st : touch_stage) : prog sesE unit :=
  match st with
  | Idle => Return ()
  | Stamping => activity_stamp
  | Copying => touch
  | Writing base => touch_stamp base
  | Sending base => touch_patch base
  | Receiving => touch_receive
  end.

Record activity := MkActivity {
  ac_stage : pump → touch_stage;
  ac_now : Time;
  ac_lastTouch : Time;
  ac_ws : Workspace;
  ac_stamps : list (pump * Time);
  ac_patches : list (Workspace * Workspace);
  ac_answers : list Workspace;
}.

Definition stage_set (i : pump) (st : touch_stage) (f : pump → touch_stage) : pump → touch_stage :=
  λ j, if decide (j = i) then st else f j.

Inductive activity_step : activity → activity → Prop :=
  | Act_tick f now now' last ws st pa an : now <= now' →
      activity_step (MkActivity f now last ws st pa an) (MkActivity f now' last ws st pa an)
  | Act_begin i f now last ws st pa an : f i = Idle → Minute <= Sub now last →
      activity_step (MkActivity f now last ws st pa an)
        (MkActivity (stage_set i Stamping f) now last ws st pa an)
  | Act_set i f now last ws st pa an : f i = Stamping →
      activity_step (MkActivity f now last ws st pa an)
        (MkActivity (stage_set i Copying f) now now ws (st ++ [(i, now)]) pa an)
  | Act_copy i f now last ws st pa an : f i = Copying →
      activity_step (MkActivity f now last ws st pa an)
        (MkActivity (stage_set i (Writing ws) f) now last ws st pa an)
  | Act_write i base f now last ws st pa an : f i = Writing base →
      activity_step (MkActivity f now last ws st pa an)
        (MkActivity (stage_set i (Sending base) f) now last (set_LastAccessed now ws) st pa an)
  | Act_send i base f now last ws st pa an : f i = Sending base →
      activity_step (MkActivity f now last ws st pa an)
        (MkActivity (stage_set i Receiving f) now last ws st (pa ++ [(base, ws)]) an)
  | Act_accepted i f now last ws ws' st pa an : f i = Receiving →
      activity_step (MkActivity f now last ws st pa an)
        (MkActivity (stage_set i Idle f) now last ws' st pa (an ++ [ws']))
  | Act_refused i f now last ws st pa an : f i = Receiving →
      activity_step (MkActivity f now last ws st pa an)
        (MkActivity (stage_set i Idle f) now last ws st pa an).

Definition activity_start (now : Time) (ws : Workspace) : activity :=
  MkActivity (λ _, Idle) now zeroTime ws [] [] [].

(** The recorder, what it did, the frames it was given and whether the handler
    has closed it. *)
Record recording := MkRecording {
  re_recorder : option SessionRecorder;
  re_log : list (call recE);
  re_frames : list frame;
  re_closed : bool;
}.

Inductive recording_step : recording → recording → Prop :=
  | Recd_frame r tr tr' r' f fs closed :
      exec (RecordFrame r (fr_direction f) (fr_type f) (fr_payload f)) tr' r' → file_respected r tr tr' →
      recording_step (MkRecording r tr fs closed) (MkRecording r' (tr ++ tr') (fs ++ [f]) closed)
  | Recd_close r tr tr' r' fs :
      exec (Close r None) tr' r' →
      recording_step (MkRecording r tr fs false) (MkRecording r' (tr ++ tr') fs true).

Definition recording_start (r : option SessionRecorder) : recording := MkRecording r [] [] false.

(** ** A session runs the three together *)

Definition call_frame (c : call wsE) : list frame :=
  match c with Call e _ => match e with OnFrame dir t d => [MkFrame dir t d] | _ => [] end end.
(** The frames shown to the observer, in the order of the calls. *)
Definition frames_seen (l : list (pump * call wsE)) : list frame := concat (map (call_frame ∘ snd) l).

Lemma frames_seen_snoc l i c : frames_seen (l ++ [(i, c)]) = frames_seen l ++ call_frame c.
Proof. unfold frames_seen. rewrite map_app, concat_app. cbn. by rewrite app_nil_r. Qed.

#[global] Arguments frames_seen : simpl never.

Definition recording_of (s : session) : recording :=
  MkRecording (se_recorder s) (se_rec_log s) (frames_seen (se_log s)) (bool_decide (se_handler s = Closed)).
Definition activity_of (f : pump → touch_stage) (s : session) : activity :=
  MkActivity f (se_now s) (se_lastTouch s) (se_ws s) (se_stamps s) (se_patches s) (se_answers s).

(** A goroutine of the session, seen as one of the tunnel and a callback under way. *)
Definition thread_sim (st : touch_stage) (t : session_thread) (u : thread) : Prop :=
  match t with
  | SLooping p => ∃ q, u = Looping q ∧ p = prog_bind (λ _, interp callback q) (touch_prog st)
  | SFinished => u = Finished ∧ st = Idle
  end.

Record tunnel_sim (s : session) (f : pump → touch_stage) (t : tunnel) : Prop := {
  sim_threads i : thread_sim (f i) (se_threads s i) (threads t i);
  sim_errc : errc t = se_errc s;
  sim_open : open t = bool_decide (se_handler s = Waiting);
  sim_log : log t = se_log s;
}.

(** The next request of a goroutine, by the callback it is in. *)
Lemma sim_next st p q :
  p = prog_bind (λ _, interp callback q) (touch_prog st) →
  match p with
  | Return a => st = Idle ∧ q = Return a
  | Request e k =>
    match e in sesE X return (X → prog sesE (option error)) → Prop with
    | SWs e' => λ k, st = Idle ∧ ∃ k', q = Request e' k' ∧
        ∀ x, call_frame (Call e' x) = [] ∧ k x = interp callback (k' x)
    | TouchedRecently => λ k, st = Idle ∧ ∃ k', q = Request OnActivity k' ∧
        ∀ b, k b = prog_bind (λ _, interp callback (k' ())) (touch_prog (if b then Idle else Stamping))
    | Record_ dir t d => λ k, st = Idle ∧ ∃ k', q = Request (OnFrame dir t d) k' ∧
        ∀ x, k x = interp callback (k' x)
    | SetLastTouch => λ k, st = Stamping ∧
        k () = prog_bind (λ _, interp callback q) (touch_prog Copying)
    | CopyWorkspace => λ k, st = Copying ∧
        ∀ ws, k ws = prog_bind (λ _, interp callback q) (touch_prog (Writing ws))
    | StampWorkspace => λ k, ∃ base, st = Writing base ∧
        k () = prog_bind (λ _, interp callback q) (touch_prog (Sending base))
    | SendPatch base => λ k, st = Sending base ∧
        k () = prog_bind (λ _, interp callback q) (touch_prog Receiving)
    | ReceivePatch => λ k, st = Receiving ∧
        ∀ x, k x = prog_bind (λ _, interp callback q) (touch_prog Idle)
    end k
  end.
Proof.
  intros ->. destruct st; [|cbn; eauto 10..].
  destruct q as [a|X e k]; [done|]. destruct e; cbn; eauto.
  split; [done|]. eexists. split; [done|]. by intros [].
Qed.

(** One goroutine moves, the other stays where it is. *)
Lemma sim_update s f t s' f' t' i :
  tunnel_sim s f t →
  (∀ j, j ≠ i → se_threads s' j = se_threads s j ∧ f' j = f j ∧ threads t' j = threads t j) →
  thread_sim (f' i) (se_threads s' i) (threads t' i) →
  errc t' = se_errc s' → open t' = bool_decide (se_handler s' = Waiting) → log t' = se_log s' →
  tunnel_sim s' f' t'.
Proof.
  intros Hs Hother Hi. constructor; [|done..]. intros j. destruct (decide (j = i)) as [->|Hj]; [done|].
  destruct (Hother j Hj) as (-> & -> & ->). apply Hs.
Qed.

Definition tunnel_steps : tunnel → tunnel → Prop := rtc (λ s s', ∃ who, tunnel_step who s s').

(** The step of a session, seen on each of the three. *)
Definition decomposed (f : pump → touch_stage) (s s' : session) (t : tunnel) : Prop :=
  ∃ f' t', tunnel_sim s' f' t' ∧ tunnel_steps t t' ∧
    rtc activity_step (activity_of f s) (activity_of f' s') ∧
    rtc recording_step (recording_of s) (recording_of s').

Ltac other_thread :=
  let j := fresh "j" in let Hj := fresh "Hj" in
  intros j Hj; cbn; unfold stage_set; rewrite ?(decide_False (P := j = _)) by done; done.
Ltac this_thread := cbn; unfold stage_set; rewrite ?decide_True by done; cbn; eauto.

(** A goroutine of the tunnel makes its request. *)
Lemma tunnel_request t i X (e : wsE X) k x :
  threads t i = Looping (Request e k) →
  tunnel_steps t (log_call i (Call e x) (set_thread i (Looping (k x)) t)).
Proof. intros Hi. apply rtc_once. exists (Some i). by apply Step_request. Qed.

Lemma recording_of_same s i e :
  call_frame e = [] → recording_of (logged i e s) = recording_of s.
Proof. intros He. unfold recording_of. cbn. by rewrite frames_seen_snoc, He, app_nil_r. Qed.

(** A goroutine inside the activity callback: only the stamps machine moves. *)
Lemma touch_decomposed s s' f t i p q st :
  tunnel_sim s f t → threads t i = Looping q →
  p = prog_bind (λ _, interp callback q) (touch_prog st) →
  (∀ j, se_threads s' j = if decide (j = i) then SLooping p else se_threads s j) →
  se_errc s' = se_errc s → se_handler s' = se_handler s → se_log s' = se_log s →
  recording_of s' = recording_of s →
  activity_step (activity_of f s) (activity_of (stage_set i st f) s') →
  decomposed f s s' t.
Proof.
  intros Hs Hq Hp Hth He Hh Hl Hr Ha. exists (stage_set i st f), t. rewrite Hr.
  split; [|split; [apply rtc_refl|split; [by apply rtc_once|apply rtc_refl]]].
  eapply (sim_update s f t s' _ t i Hs).
  - intros j Hj. unfold stage_set. rewrite Hth, !decide_False by done. done.
  - unfold stage_set. rewrite Hth, !decide_True, Hq by done. by exists q.
  - by rewrite He, (sim_errc _ _ _ Hs).
  - by rewrite Hh, (sim_open _ _ _ Hs).
  - by rewrite Hl, (sim_log _ _ _ Hs).
Qed.

(** A goroutine outside it: the tunnel moves. *)
Lemma request_decomposed s s' f t i X (e : wsE X) k x p st :
  tunnel_sim s f t → threads t i = Looping (Request e k) →
  p = prog_bind (λ _, interp callback (k x)) (touch_prog st) →
  (∀ j, se_threads s' j = if decide (j = i) then SLooping p else se_threads s j) →
  se_errc s' = se_errc s → se_handler s' = se_handler s → se_log s' = se_log s ++ [(i, Call e x)] →
  rtc recording_step (recording_of s) (recording_of s') →
  (∃ f', (∀ j, f' j = if decide (j = i) then st else f j) ∧
    rtc activity_step (activity_of f s) (activity_of f' s')) →
  decomposed f s s' t.
Proof.
  intros Hs Hq Hp Hth He Hh Hl Hr (f' & Hf & Ha). exists f'. eexists.
  split; [|split; [by apply tunnel_request|done]].
  eapply (sim_update s f t s' _ _ i Hs).
  - intros j Hj. cbn. rewrite Hth, Hf, !decide_False by done. done.
  - cbn. rewrite Hth, Hf, !decide_True by done. by eexists.
  - cbn. by rewrite He, (sim_errc _ _ _ Hs).
  - cbn. by rewrite Hh, (sim_open _ _ _ Hs).
  - cbn. by rewrite Hl, (sim_log _ _ _ Hs).
Qed.

(** The goroutine that moves, its tunnel program and its next request. *)
Lemma sim_looping s f t i p :
  tunnel_sim s f t → se_threads s i = SLooping p →
  ∃ q, threads t i = Looping q ∧ p = prog_bind (λ _, interp callback q) (touch_prog (f i)).
Proof. intros Hs Hi. pose proof (sim_threads _ _ _ Hs i) as Ht. by rewrite Hi in Ht. Qed.

Lemma loop_decomposed s f t i :
  tunnel_sim s f t → se_threads s i = SLooping (Return None) →
  decomposed f s (on_thread i (SLooping (session_body i)) s) t.
Proof.
  intros Hs Hi. destruct (sim_looping _ _ _ _ _ Hs Hi) as (q & Hq & Hp).
  destruct (sim_next _ _ _ Hp) as [Hidle ->]. exists f, (set_thread i (Looping (body i)) t).
  split; [|split; [apply rtc_once; exists (Some i); by apply Step_loop|split; apply rtc_refl]].
  eapply (sim_update s f t _ _ _ i Hs); [other_thread| |apply Hs..]. this_thread.
  rewrite Hidle. by eexists.
Qed.

Lemma send_decomposed s f t i err :
  tunnel_sim s f t → se_threads s i = SLooping (Return (Some err)) → (length (se_errc s) < errc_capacity)%nat →
  decomposed f s (with_handler (se_errc s ++ [err]) (se_handler s) (on_thread i SFinished s)) t.
Proof.
  intros Hs Hi Hroom. destruct (sim_looping _ _ _ _ _ Hs Hi) as (q & Hq & Hp).
  destruct (sim_next _ _ _ Hp) as [Hidle ->]. exists f. eexists.
  split; [|split; [apply rtc_once; exists (Some i); apply Step_send; [exact Hq|]|split; apply rtc_refl]].
  - eapply (sim_update s f t _ _ _ i Hs); [other_thread|this_thread| |apply Hs..]. cbn.
    by rewrite (sim_errc _ _ _ Hs).
  - by rewrite (sim_errc _ _ _ Hs).
Qed.

Lemma receive_decomposed s f t err q :
  tunnel_sim s f t → se_errc s = err :: q → se_handler s = Waiting →
  decomposed f s (with_handler q Closing s) t.
Proof.
  intros Hs Hq Hw. exists f, (MkTunnel (threads t) q false (log t)).
  split; [constructor; [apply Hs|done|done|apply Hs]|].
  split; [apply rtc_once; exists None; eapply (Step_receive t err)|split; [apply rtc_refl|]].
  - by rewrite (sim_errc _ _ _ Hs).
  - by rewrite (sim_open _ _ _ Hs), Hw.
  - unfold recording_of. cbn. rewrite Hw. apply rtc_refl.
Qed.

(** Every step of a session is a step of each of the three, or nothing to it. *)
Lemma session_decomposes s s' f t : session_step s s' → tunnel_sim s f t → decomposed f s s' t.
Proof.
  intros Hstep Hs. destruct Hstep as [s i X e k x Hi|s i k Hi|s i k Hi|s i k Hi|s i k Hi|s i base k Hi
    |s i k x Hi|s i dir ty d k tr r Hi Hex Hf|s i Hi|s i err Hi Hroom|s err q Hq Hw|s tr r Hc Hex|s t' Ht].
  1-8: destruct (sim_looping _ _ _ _ _ Hs Hi) as (q & Hq & Hp); pose proof (sim_next _ _ _ Hp) as Hn; cbv beta iota in Hn.
  - destruct Hn as (Hidle & k' & -> & Hk). destruct (Hk x) as [Hx Hkx].
    eapply (request_decomposed s _ f t i X e k' x _ Idle Hs Hq Hkx); try done.
    + rewrite recording_of_same by done. apply rtc_refl.
    + exists f. split; [|apply rtc_refl]. intros j. case_decide; [by subst|done].
  - destruct Hn as (Hidle & k' & -> & Hk).
    eapply (request_decomposed s _ f t i _ OnActivity k' () _ _ Hs Hq (Hk _)); try done.
    + rewrite recording_of_same by done. apply rtc_refl.
    + exists (if Sub (se_now s) (se_lastTouch s) <? Minute then f else stage_set i Stamping f).
      destruct (Z.ltb_spec (Sub (se_now s) (se_lastTouch s)) Minute).
      * split; [|apply rtc_refl]. intros j. case_decide; [by subst|done].
      * split; [done|]. by apply rtc_once, Act_begin.
  - destruct Hn as (Hst & Hk). eapply (touch_decomposed s _ f t i _ q Copying Hs Hq Hk); try done.
    by apply Act_set.
  - destruct Hn as (Hst & Hk). eapply (touch_decomposed s _ f t i _ q _ Hs Hq (Hk _)); try done.
    by apply Act_copy.
  - destruct Hn as (base & Hst & Hk). eapply (touch_decomposed s _ f t i _ q _ Hs Hq Hk); try done.
    by apply Act_write.
  - destruct Hn as (Hst & Hk). eapply (touch_decomposed s _ f t i _ q _ Hs Hq Hk); try done.
    by apply Act_send.
  - destruct Hn as (Hst & Hk). destruct x as [ws|err];
      eapply (touch_decomposed s _ f t i _ q _ Hs Hq (Hk _)); try done.
    + by apply Act_accepted.
    + by apply Act_refused.
  - destruct Hn as (Hidle & k' & -> & Hk).
    eapply (request_decomposed s _ f t i _ (OnFrame dir ty d) k' () _ Idle Hs Hq (Hk ())); try done.
    + apply rtc_once. unfold recording_of. cbn. rewrite frames_seen_snoc.
      by apply (Recd_frame _ _ _ _ (MkFrame dir ty d)).
    + exists f. split; [|apply rtc_refl]. intros j. case_decide; [by subst|done].
  - by apply loop_decomposed.
  - by apply send_decomposed.
  - by eapply receive_decomposed.
  - exists f, t. split; [|split; [apply rtc_refl|split; [apply rtc_refl|apply rtc_once]]].
    + constructor; try apply Hs. cbn. by rewrite (sim_open _ _ _ Hs), Hc.
    + unfold recording_of. cbn. rewrite Hc. by apply Recd_close.
  - exists f, t. split; [|split; [apply rtc_refl|split; [by apply rtc_once, Act_tick|apply rtc_refl]]].
    constructor; apply Hs.
Qed.

Lemma tunnel_sim_start now r ws : tunnel_sim (session_start now r ws) (λ _, Idle) tunnel_start.
Proof. constructor; [|done..]. intros i. by exists (body i). Qed.

(** Every run of a session is a run of each of the three. *)
Lemma session_reachable now r ws s :
  session_runs (session_start now r ws) s →
  ∃ f t, tunnel_sim s f t ∧ tunnel_runs tunnel_start t ∧
    rtc activity_step (activity_start now ws) (activity_of f s) ∧
    rtc recording_step (recording_start r) (recording_of s).
Proof.
  unfold session_runs. revert s. apply rtc_ind_r; [|intros s1 s2 _ Hstep (f & t & Hs & Ht & Ha & Hrec)].
  - exists (λ _, Idle), tunnel_start. split; [apply tunnel_sim_start|]. split_and!; apply rtc_refl.
  - destruct (session_decomposes _ _ _ _ Hstep Hs) as (f' & t' & Hs' & Ht' & Ha' & Hr').
    exists f', t'. split; [done|]. split; [by etrans|]. split; by etrans.
Qed.

(** ** How often the last access is stamped *)

(** Stamps by a goroutine. *)
Definition stamps_by (i : pump) (l : list (pump * Time)) : Z :=
  Z.of_nat (length (filter (λ x, x.1 = i) l)).

Lemma stamps_by_snoc i j t l : stamps_by i (l ++ [(j, t)]) = stamps_by i l + if decide (j = i) then 1 else 0.
Proof.
  unfold stamps_by. rewrite filter_app, filter_cons, filter_nil, length_app. cbn.
  case_decide; cbn; lia.
Qed.

Lemma stamps_split l : Z.of_nat (length l) = stamps_by Pump1 l + stamps_by Pump2 l.
Proof.
  induction l as [|[j t] l IH] using rev_ind; [done|]. rewrite !stamps_by_snoc, length_app. cbn [length].
  destruct j; repeat case_decide; try done; lia.
Qed.

Lemma Sub_recent now last : Sub now last < Minute → now - last < Minute.
Proof.
  unfold Sub. change Minute with 60000000000. change max_int64 with 9223372036854775807.
  change min_int64 with (-9223372036854775808). lia.
Qed.

Lemma Sub_minute now last : Minute <= Sub now last → Minute <= now - last.
Proof.
  unfold Sub. change Minute with 60000000000. change max_int64 with 9223372036854775807.
  change min_int64 with (-9223372036854775808). lia.
Qed.

(** Stamped but not yet patched. *)
Definition unpatched (st : touch_stage) : nat :=
  match st with Copying | Writing _ | Sending _ => 1 | _ => 0 end.

Record activity_inv (lo : Time) (a : activity) : Prop := {
  ai_now : lo <= ac_now a;
  ai_last : ac_stamps a ≠ [] → lo <= ac_lastTouch a <= ac_now a;
  ai_spaced i : stamps_by i (ac_stamps a) = 0 ∨
    stamps_by i (ac_stamps a) * Minute <= ac_lastTouch a - lo + Minute;
  ai_stamping i : ac_stage a i = Stamping → stamps_by i (ac_stamps a) * Minute <= ac_now a - lo;
  ai_patches : (length (ac_patches a) + unpatched (ac_stage a Pump1) + unpatched (ac_stage a Pump2) =
    length (ac_stamps a))%nat;
}.

Lemma stamps_by_nonempty i l : stamps_by i l ≠ 0 → l ≠ [].
Proof. by intros Hi ->. Qed.

(** The stages of the goroutines after one has moved. *)
Ltac staged i := unfold stage_set in *; destruct i; cbn in *; repeat case_decide; subst; try done.

Lemma activity_inv_step lo a a' : activity_step a a' → activity_inv lo a → activity_inv lo a'.
Proof.
  pose proof (eq_refl : Minute = 60000000000) as HM.
  intros Hstep [H1 H2 H3 H4 H5].
  destruct Hstep as [f now now' last ws st pa an Ht|i f now last ws st pa an Hi Hm|i f now last ws st pa an Hi
    |i f now last ws st pa an Hi|i base f now last ws st pa an Hi|i base f now last ws st pa an Hi
    |i f now last ws ws' st pa an Hi|i f now last ws st pa an Hi]; cbn in *.
  1: constructor; cbn; [lia|intros Hne; specialize (H2 Hne); lia|done|intros i Hi; specialize (H4 i Hi); lia|done].
  2: { specialize (H4 i Hi) as H4i. constructor; cbn; [done|lia| | |].
    + intros j. rewrite stamps_by_snoc. right. case_decide as Hj; [subst j; lia|].
      destruct (H3 j) as [->|Hs]; [lia|]. destruct (decide (stamps_by j st = 0)) as [->|Hne]; [lia|].
      apply stamps_by_nonempty in Hne. specialize (H2 Hne). lia.
    + intros j Hj. rewrite stamps_by_snoc. unfold stage_set in Hj. case_decide as Hd; [done|].
      case_decide; [done|]. specialize (H4 j Hj). lia.
    + rewrite length_app. staged i; rewrite Hi in *; cbn in *; lia. }
  all: constructor; cbn; [done..| |rewrite ?length_app; staged i; rewrite Hi in *; cbn in *; lia].
  all: intros j; unfold stage_set; case_decide as Hj; [|apply H4]; try done.
  subst j. intros _. apply Sub_minute in Hm.
  destruct (H3 i) as [->|Hs]; [lia|]. destruct (decide (stamps_by i st = 0)) as [->|Hne]; [lia|].
  apply stamps_by_nonempty in Hne. specialize (H2 Hne). lia.
Qed.

Lemma activity_reachable now ws a :
  rtc activity_step (activity_start now ws) a → activity_inv now a.
Proof.
  revert a. apply rtc_ind_r.
  - constructor; cbn; [lia|done|by left|done|done].
  - intros a b _ Hstep. by apply activity_inv_step.
Qed.

(** What a run stamps: per goroutine, in all, and patches sent. *)
Lemma session_stamps now r ws s :
  session_runs (session_start now r ws) s →
  (∀ i, stamps_by i (se_stamps s) <= 1 + (se_now s - now) / Minute) ∧
  Z.of_nat (length (se_patches s)) <= Z.of_nat (length (se_stamps s)) <= 2 * (1 + (se_now s - now) / Minute).
Proof.
  intros Hr. destruct (session_reachable _ _ _ _ Hr) as (f & t & _ & _ & Ha & _).
  apply activity_reachable in Ha as [H1 H2 H3 H4 H5]. cbn in *.
  assert (Hi : ∀ i, stamps_by i (se_stamps s) <= 1 + (se_now s - now) / Minute).
  { intros i. change Minute with 60000000000 in *.
    assert (stamps_by i (se_stamps s) - 1 <= (se_now s - now) / 60000000000); [|lia].
    apply Z.div_le_lower_bound; [lia|]. destruct (H3 i) as [->|Hs]; [lia|].
    destruct (decide (stamps_by i (se_stamps s) = 0)) as [->|Hne]; [lia|].
    apply stamps_by_nonempty in Hne. specialize (H2 Hne). lia. }
  split; [done|]. rewrite (stamps_split (se_stamps s)) in *.
  pose proof (Hi Pump1). pose proof (Hi Pump2). pose proof (stamps_split (se_stamps s)). lia.
Qed.

(** [lastTouch] is the time of a stamp, if there was one. *)
Lemma lastTouch_stamp now ws a :
  rtc activity_step (activity_start now ws) a →
  ac_lastTouch a = zeroTime ∨ ∃ j, (j, ac_lastTouch a) ∈ ac_stamps a.
Proof.
  revert a. apply rtc_ind_r; [by left|]. intros a b _ Hstep IH. destruct Hstep; cbn in *; try done.
  right. exists i. apply elem_of_app. right. by left.
Qed.

(** A frame was passed on: a stamp is less than a minute old, or the goroutine that
    passed it on stamps next. *)
Lemma session_activity now r ws s i k :
  session_runs (session_start now r ws) s → zeroTime + Minute <= now →
  se_threads s i = SLooping (Request TouchedRecently k) →
  (∃ j t, (j, t) ∈ se_stamps s ∧ se_now s - t < Minute) ∨
  ∃ k', k (Sub (se_now s) (se_lastTouch s) <? Minute) = Request SetLastTouch k'.
Proof.
  intros Hr Hlo Hi. destruct (session_reachable _ _ _ _ Hr) as (f & t & Hs & _ & Ha & _).
  pose proof (activity_reachable _ _ _ Ha) as [Hnow _ _ _ _]. cbn in Hnow.
  pose proof (sim_threads _ _ _ Hs i) as Hth. rewrite Hi in Hth. destruct Hth as (q & _ & Hq).
  apply sim_next in Hq as (_ & k' & _ & Hk). rewrite Hk.
  destruct (Z.ltb_spec (Sub (se_now s) (se_lastTouch s)) Minute) as [Hlt|Hge]; [left|right; by eexists].
  apply Sub_recent in Hlt. apply lastTouch_stamp in Ha as [E|[j Hj]]; cbn in *; [rewrite E in Hlt; lia|].
  by exists j, (se_lastTouch s).
Qed.

(** ** What a patch carries *)

Section frame.
Context {B : Type} (field : Workspace → B) (ws0 : Workspace).
Hypothesis field_stamp : ∀ t ws, field (set_LastAccessed t ws) = field ws.

(** The base a goroutine holds. *)
Definition held (st : touch_stage) : list Workspace :=
  match st with Writing base | Sending base => [base] | _ => [] end.

(** Objects of the session, with the field as the server last reported it. *)
Definition field_kept (a : activity) : Prop :=
  (∀ w, w ∈ ac_answers a → field w = field ws0) →
  field (ac_ws a) = field ws0 ∧
  (∀ i w, w ∈ held (ac_stage a i) → field w = field ws0) ∧
  (∀ base new, (base, new) ∈ ac_patches a → field base = field ws0 ∧ field new = field ws0).

Lemma field_kept_step a a' : activity_step a a' → field_kept a → field_kept a'.
Proof using field_stamp.
  unfold field_kept.
  intros [f now now' last ws st pa an Ht|i f now last ws st pa an Hi Hm|i f now last ws st pa an Hi
    |i f now last ws st pa an Hi|i base f now last ws st pa an Hi|i base f now last ws st pa an Hi
    |i f now last ws ws' st pa an Hi|i f now last ws st pa an Hi] IH Ha; cbn in *;
    (assert (Ha' : ∀ w, w ∈ an → field w = field ws0) by (intros w Hw; apply Ha; rewrite ?elem_of_app; eauto));
    destruct (IH Ha') as (H1 & H2 & H3); rewrite ?field_stamp; unfold stage_set.
  all: split; [try done; try (by apply Ha, elem_of_app; right; left)|split; [intros j w|]].
  all: try (case_decide as Hj; [subst j; cbn|apply H2]); try done.
  all: try by intros ?%not_elem_of_nil.
  all: try (apply H2).
  - by intros ->%list_elem_of_singleton.
  - intros ->%list_elem_of_singleton. apply (H2 i). rewrite Hi. left.
  - intros base' new [Hin|[= -> ->]%list_elem_of_singleton]%elem_of_app; [by apply H3|].
    split; [|done]. apply (H2 i). rewrite Hi. left.
Qed.

Lemma field_kept_reachable now a : rtc activity_step (activity_start now ws0) a → field_kept a.
Proof using field_stamp.
  revert a. apply rtc_ind_r.
  - intros _. cbn. split; [done|]. split; [by intros i w ?%not_elem_of_nil|by intros b n ?%not_elem_of_nil].
  - intros a b _ Hstep. by apply field_kept_step.
Qed.
End frame.
