(* ===== verification/SessionRecords.v ===== *)
(** * The recording of a WebSocket session

    The recorder is shared: both copying goroutines give it frames, and the
    handler closes it while one of them may still be running.  Under every such
    interleaving its file is one hash chain over frames of the session, and its
    manifest holds the end of that chain; so a file that an auditor accepts is
    the recorded one, and a full recording replays. *)
From S2P Require Import Prelude GoStrings GoTime Sha256 Api K8s Proxy ProxyProps.
From S2P Require Import SessionRecording SessionRecordingProps Session SessionProps.
From Stdlib Require Import ZArith Lia.
#[local] Open Scope Z_scope.

(** ** The invariant of the recorder *)

Section recorder.
Context (cfg : SessionRecordingConfig) (meta : SessionMeta).

Definition fresh_recorder : SessionRecorder := MkRecorder cfg meta true 0 "".
Definition full : bool := bool_decide (Rec_Mode cfg = SessionRecordingFull).

(** What the manifest says, and when: it is made from the frames given to the
    recorder before it ([pre]), and no record is written after it. *)
Definition sealed (tr : list (call recE)) (r : SessionRecorder) : Prop :=
  ∃ man pre answer post, tr = pre ++ Call (WriteManifest man) answer :: post ∧ manifests tr = [man] ∧
    written post = [] ∧ FinalHash man = r_prev r ∧
    FrameCount man = uint64 (Z.of_nat (length (attempted pre))) ∧ Man_Meta man = meta ∧ Man_Mode man = Rec_Mode cfg.

(** The numbers of the first [n] records. *)
Definition numbers (n : nat) : list Z := map (uint64 ∘ Z.of_nat) (seq 1 n).

Record recording_inv (R : recording) (r : SessionRecorder) : Prop := {
  ri_recorder : re_recorder R = Some r;
  ri_identity : r_cfg r = cfg ∧ r_meta r = meta;
  ri_open : r_open r = negb (re_closed R);
  ri_seq : r_seq r = uint64 (Z.of_nat (length (re_frames R)));
  (** one record for each frame, numbered from 1 *)
  ri_describes : Forall2 (describes full) (attempted (re_log R)) (re_frames R);
  ri_numbers : Seq <$> attempted (re_log R) = numbers (length (re_frames R));
  (** the first of them are written, and all while no write fails *)
  ri_written : written (re_log R) `prefix_of` attempted (re_log R);
  ri_all : write_failed (re_log R) = false → written (re_log R) = attempted (re_log R);
  ri_linked : linked "" (written (re_log R)) (r_prev r);
  ri_stamped : Forall (λ rec, TimestampUTC rec ∈ timestamps (re_log R)) (written (re_log R));
  ri_sealed : if re_closed R then manifests (re_log R) = [] ∧ open_refused (re_log R) ∨ sealed (re_log R) r
              else manifests (re_log R) = [];
}.

Definition recording_ok (R : recording) : Prop := ∃ r, recording_inv R r.

Lemma recording_ok_start : recording_ok (recording_start (Some fresh_recorder)).
Proof. exists fresh_recorder. constructor; cbn; try done; try constructor; done. Qed.

Lemma uint64_succ n : uint64 (uint64 (Z.of_nat n) + 1) = uint64 (Z.of_nat (n + 1)).
Proof. unfold uint64. rewrite Z.add_mod_idemp_l by done. f_equal. lia. Qed.

Lemma numbers_snoc n : numbers (n + 1) = numbers n ++ [uint64 (Z.of_nat (n + 1))].
Proof. unfold numbers. rewrite seq_app, map_app. cbn. do 4 f_equal. lia. Qed.

Lemma stamped_weaken tr tr' recs :
  Forall (λ rec, TimestampUTC rec ∈ timestamps tr) recs →
  Forall (λ rec, TimestampUTC rec ∈ timestamps (tr ++ tr')) recs.
Proof. intros H1. eapply Forall_impl; [exact H1|]. intros rec Hr. rewrite timestamps_app. apply elem_of_app. by left. Qed.

Lemma write_failed_app tr tr' : write_failed (tr ++ tr') = write_failed tr || write_failed tr'.
Proof. apply existsb_app. Qed.

(** A manifest stays what it was made from when nothing more is written. *)
Lemma sealed_app tr tr' r r' :
  sealed tr r → manifests tr' = [] → written tr' = [] → r_prev r' = r_prev r → sealed (tr ++ tr') r'.
Proof.
  intros (man & pre & x & post & -> & Hm & Hw & HF & Hrest) Hm' Hw' Hp. exists man, pre, x, (post ++ tr').
  rewrite manifests_app, Hm, Hm', written_app, Hw, Hw', HF, Hp, <- app_assoc. split_and!; try done; naive_solver.
Qed.

Lemma open_refused_app tr tr' : open_refused tr → open_refused (tr ++ tr').
Proof. intros (d & n & e & Hin). exists d, n, e. apply elem_of_app. by left. Qed.

(** What showing a frame and writing its record adds to what holds of the file. *)
Lemma recording_ok_frame r tr tr' r' f frames closed :
  exec (RecordFrame r (fr_direction f) (fr_type f) (fr_payload f)) tr' r' → file_respected r tr tr' →
  recording_ok (MkRecording r tr frames closed) →
  recording_ok (MkRecording r' (tr ++ tr') (frames ++ [f]) closed).
Proof.
  intros Hex Hf (r0 & [Hr [Hcfg Hmeta] Ho Hs Hd Hnum Hpre Hall Hl Hst Hseal]). cbn -[attempted] in *. subst r.
  destruct (exec_post _ _ _ _ Hex (RecordFrame_requests r0 f)) as
    (ts & rec & answer & r1 & -> & <- & Hdesc & Hprev & Hh & Hseq & -> & (Hc1 & Hm1 & Ho1) & Hs1 & Hp).
  rewrite Hs, uint64_succ in Hseq. exists r1.
  set (tr' := [Call Timestamp (TimestampUTC rec); Call (WriteRecord rec) answer]) in *.
  assert (Hw : written tr' = match answer with None => [rec] | Some _ => [] end) by (by destruct answer).
  assert (Hok : answer = None → closed = false ∧ write_failed tr = false).
  { intros ->. destruct closed, (write_failed tr) eqn:Hwf; try done;
      (assert (Hre : Forall write_refused tr') by (apply Hf; cbn; rewrite Ho; auto));
      by apply Forall_inv_tail, Forall_inv in Hre. }
  constructor; cbn [re_recorder re_log re_frames re_closed]; rewrite ?attempted_app, ?written_app, ?length_app;
    change (attempted tr') with [rec]; cbn [length]; try done.
  - split; congruence.
  - congruence.
  - by rewrite Hs1, Hseq.
  - apply Forall2_app; [done|]. constructor; [|done]. unfold is_full, full in *. by rewrite Hcfg in Hdesc.
  - rewrite fmap_app, numbers_snoc, Hnum. cbn. by rewrite Hseq.
  - rewrite Hw. destruct answer as [e|]; [rewrite app_nil_r; by apply prefix_app_r|].
    destruct (Hok eq_refl) as [_ ?]. by rewrite Hall.
  - rewrite write_failed_app, Hw. intros [Hf1 Hf2]%orb_false_iff. rewrite Hall by done. by destruct answer.
  - rewrite Hw, Hp. destruct answer as [e|]; [by rewrite app_nil_r|]. by eapply linked_cons_snoc.
  - apply Forall_app. split; [by apply stamped_weaken|]. rewrite Hw. destruct answer; [constructor|].
    constructor; [|constructor]. rewrite timestamps_app. apply elem_of_app. right. left.
  - rewrite manifests_app. cbn [manifests tr' app]. rewrite app_nil_r. destruct closed; [|done].
    destruct answer as [e|]; [|by destruct (Hok eq_refl)].
    destruct Hseal as [[? Ho']|Hseal]; [left; split; [done|by apply open_refused_app]|right]. by eapply sealed_app.
Qed.

Lemma recording_ok_close r tr tr' r' frames :
  exec (Close r None) tr' r' → recording_ok (MkRecording r tr frames false) →
  recording_ok (MkRecording r' (tr ++ tr') frames true).
Proof.
  intros Hex (r0 & [Hr [Hcfg Hmeta] Ho Hs Hd Hnum Hpre Hall Hl Hst Hseal]). cbn -[attempted] in *. subst r.
  destruct (exec_post _ _ _ _ Hex (Close_requests r0 None)) as (Ha & r1 & -> & (Hc & Hm & Hq & Hp) & Ho1 & Hman).
  pose proof (unattempted_unwritten _ Ha) as Hw. exists r1.
  constructor; cbn [re_recorder re_log re_frames re_closed]; rewrite ?attempted_app, ?written_app, ?Ha, ?Hw, ?app_nil_r, ?Hp;
    try done; [split; congruence|congruence| |by apply stamped_weaken|].
  { rewrite write_failed_app. intros [? _]%orb_false_iff. auto. }
  rewrite manifests_app, Hseal. cbn [app].
  destruct Hman as [[? [?|Hor]]|(_ & man & pre & x & -> & HM & Hpr & HF & HC & HMeta & HMode)]; [congruence| |right].
  { left. split; [done|]. destruct Hor as (d & n & e & Hin). exists d, n, e. apply elem_of_app. by right. }
  exists man, (tr ++ pre), x, []. rewrite <- app_assoc, manifests_app, Hseal, attempted_app, Hpr, app_nil_r.
  rewrite (Forall2_length _ _ _ Hd), HF, Hp, HC, Hs, HMeta, HMode, Hcfg. by split_and!.
Qed.

Lemma recording_ok_reachable R :
  rtc recording_step (recording_start (Some fresh_recorder)) R → recording_ok R.
Proof.
  revert R. apply rtc_ind_r; [apply recording_ok_start|]. intros R R' _ Hstep IH.
  destruct Hstep; [by eapply recording_ok_frame|by eapply recording_ok_close].
Qed.
End recorder.

(** Without a recorder nothing is recorded. *)
Lemma recording_none R :
  rtc recording_step (recording_start None) R → re_recorder R = None ∧ re_log R = [].
Proof.
  revert R. apply rtc_ind_r; [done|]. intros R R' _ Hstep [H1 H2].
  destruct Hstep as [r tr tr' r' f fs closed Hex _|r tr tr' r' fs Hex]; cbn in *; subst;
    by destruct Hex as [-> ->].
Qed.

(** ** Sessions *)

Section session.
Context (cfg : SessionRecordingConfig) (meta : SessionMeta).
Context (tr0 : list (call recE)) (r0 : option SessionRecorder).
Context (now : Time) (ws : Workspace) (s : session).
Hypothesis Hnew : exec (NewSessionRecorder cfg meta) tr0 r0.
Hypothesis Hruns : session_runs (session_start now r0 ws) s.

(** The recorder's state in a session: none, with nothing written, or a fresh
    one taken further. *)
Lemma session_recorder :
  (r0 = None ∧ written (tr0 ++ se_rec_log s) = [] ∧ manifests (tr0 ++ se_rec_log s) = [] ∧ write_failed (se_rec_log s) = false) ∨
  (r0 ≠ None ∧ Rec_Enabled cfg = true) ∧ ∃ id at_ r,
    recording_inv cfg (set_session id at_ meta) (recording_of s) r ∧
    written (tr0 ++ se_rec_log s) = written (se_rec_log s) ∧
    manifests (tr0 ++ se_rec_log s) = manifests (se_rec_log s).
Proof using Hnew Hruns.
  destruct (exec_post _ _ _ _ Hnew (NewSessionRecorder_fresh cfg meta)) as (W0 & M0 & Hr).
  rewrite written_app, manifests_app, W0, M0.
  destruct (session_reachable _ _ _ _ Hruns) as (f & t & _ & _ & _ & HR).
  destruct Hr as [-> |(Hen & _ & id & at_ & ->)].
  - left. apply recording_none in HR as [_ E]. cbn in E. by rewrite E.
  - right. split; [done|]. apply recording_ok_reachable in HR as (r & HR). by exists id, at_, r.
Qed.

Definition session_records : list SessionFrameRecord := written (tr0 ++ se_rec_log s).
Definition session_manifests : list SessionManifest := manifests (tr0 ++ se_rec_log s).

(** The recorder's requests are those of [recording_inv]. *)
Lemma session_outcome :
  (r0 = None → session_records = [] ∧ session_manifests = []) ∧
  (r0 ≠ None →
    let given := attempted (se_rec_log s) in
    Rec_Enabled cfg = true ∧
    Forall2 (describes (bool_decide (Rec_Mode cfg = SessionRecordingFull))) given (frames_seen (se_log s)) ∧
    Seq <$> given = numbers (length given) ∧
    session_records `prefix_of` given ∧ (write_failed (se_rec_log s) = false → session_records = given) ∧
    linked "" session_records (chain_end session_records) ∧
    (if decide (se_handler s = Closed) then
       session_manifests = [] ∧ open_refused (se_rec_log s) ∨
       ∃ man pre answer post, se_rec_log s = pre ++ Call (WriteManifest man) answer :: post ∧
         session_manifests = [man] ∧ written post = [] ∧ FinalHash man = chain_end session_records ∧
         FrameCount man = uint64 (Z.of_nat (length (attempted pre))) ∧ Man_Mode man = Rec_Mode cfg ∧
         ∃ id at_, Man_Meta man = set_session id at_ meta
     else session_manifests = [])).
Proof using Hnew Hruns.
  unfold session_records, session_manifests.
  destruct session_recorder as [(Hr & -> & -> & _)|([Hr Hen] & id & at_ & r & HR & -> & ->)]; [done|].
  split; [done|]. intros _. destruct HR as [H1 H2 H3 H4 H5 H6 H7 H8 H9 H10 H11]. cbn -[attempted] in *.
  pose proof (linked_end _ _ H9) as He. rewrite He in H9. rewrite (Forall2_length _ _ _ H5).
  split_and!; try done. case_decide as Hc; [|by rewrite bool_decide_eq_false_2 in H11].
  rewrite bool_decide_eq_true_2 in H11 by done. destruct H11 as [?|H11]; [by left|right].
  destruct H11 as (man & pre & x & post & HE & HM & HW & HF & HC & HMeta & HMode). exists man, pre, x, post.
  rewrite HF, He. split_and!; eauto.
Qed.

(** The records are those of the first frames shown. *)
Lemma session_described :
  Forall2 (describes (bool_decide (Rec_Mode cfg = SessionRecordingFull))) session_records
    (take (length session_records) (frames_seen (se_log s))).
Proof using Hnew Hruns.
  destruct session_outcome as [Hnone Hsome]. destruct r0 as [r|]; [|by destruct Hnone as [-> _]].
  destruct Hsome as (_ & Hd & _ & Hp & _); [done|]. destruct Hp as [post Hp]. rewrite Hp in Hd.
  apply Forall2_app_inv_l in Hd as (l1 & l2 & H1 & _ & ->). by rewrite (Forall2_length _ _ _ H1), take_app_length.
Qed.

Lemma session_complete :
  r0 ≠ None → write_failed (se_rec_log s) = false → length session_records = length (frames_seen (se_log s)).
Proof using Hnew Hruns.
  intros Hr Hf. destruct session_outcome as [_ Hsome]. destruct (Hsome Hr) as (_ & Hd & _ & _ & Hall & _).
  rewrite Hall by done. by eapply Forall2_length.
Qed.

Lemma session_unsealed : se_handler s ≠ Closed → session_manifests = [].
Proof using Hnew Hruns.
  intros Hc. destruct session_outcome as [Hnone Hsome]. destruct r0 as [r|]; [|by destruct Hnone].
  destruct Hsome as (_ & _ & _ & _ & _ & _ & Hs); [done|]. by rewrite decide_False in Hs.
Qed.

(** A manifest is for this session, at the end of its chain. *)
Lemma session_manifest man :
  man ∈ session_manifests → linked "" session_records (FinalHash man) ∧ Man_Mode man = Rec_Mode cfg.
Proof using Hnew Hruns.
  intros Hman. destruct session_outcome as [Hnone Hsome].
  assert (H0 : r0 ≠ None) by (intros [_ E]%Hnone; rewrite E in Hman; by apply elem_of_nil in Hman).
  destruct (Hsome H0) as (_ & _ & _ & _ & _ & Hl & Hs). case_decide; [|rewrite Hs in Hman; by apply elem_of_nil in Hman].
  destruct Hs as [[E _]|(m & pre & x & post & _ & E & _ & HF & _ & HM & _)]; rewrite E in Hman; [by apply elem_of_nil in Hman|].
  apply list_elem_of_singleton in Hman as ->. by rewrite HF.
Qed.

Lemma session_linked man : man ∈ session_manifests → linked "" session_records (FinalHash man).
Proof using Hnew Hruns. by intros [? _]%session_manifest. Qed.

Lemma frames_seen_label f : f ∈ frames_seen (se_log s) → ∃ i, fr_direction f = label i.
Proof using Hruns.
  clear Hnew. intros Hf. destruct (session_reachable _ _ _ _ Hruns) as (g & t & Hs & Ht & _).
  rewrite <- (sim_log _ _ _ Hs) in Hf. unfold frames_seen in Hf.
  apply list_elem_of_In, in_concat in Hf as (l & Hl & Hf%list_elem_of_In).
  apply list_elem_of_In, list_elem_of_fmap in Hl as ([i c] & -> & Hc). cbn in Hf.
  assert (Hin : (fr_direction f, (fr_type f, fr_payload f)) ∈ shown (proj i (log t))).
  { unfold shown. apply list_elem_of_In, in_concat. exists (call_observed c). split.
    - apply list_elem_of_In, list_elem_of_fmap. exists c. split; [done|]. unfold proj.
      apply list_elem_of_fmap. exists (i, c). split; [done|]. by apply list_elem_of_filter.
    - apply list_elem_of_In. destruct c as [X e x], e; cbn in *; try by apply elem_of_nil in Hf.
      apply list_elem_of_singleton in Hf as ->. left. }
  apply (shown_read _ _ _ _ Ht) in Hin as [-> _]. by exists i.
Qed.

Lemma frames_seen_labelled f : f ∈ frames_seen (se_log s) → bar_free (fr_direction f).
Proof using Hruns. intros [[] ->]%frames_seen_label; apply (bool_decide_unpack _); done. Qed.
End session.

(** C25. What a session records is a faithful hash chain, under every
      interleaving of the two copying goroutines (which share the recorder) with
      the handler (which closes it while one of them may still show it frames).
      The recorder makes one record for each frame shown to the observer, in that
      order, describing it, numbered 1, 2, 3, ... (as a [uint64]) without a gap
      also where a write fails; the records written are the first of these, all of
      them while no write has failed; and at every moment they form one hash chain
      from the empty hash.  The close, and nothing else, writes the manifest, unless
      its file cannot be opened: its final hash is the end of the chain, since
      no record is written after it; it counts exactly the frames recorded
      before it, written or not; and it names the session it was set up for.
      Without a recorder nothing is written. *)
Theorem session_recorded cfg meta tr0 r0 now ws s :
  exec (NewSessionRecorder cfg meta) tr0 r0 → session_runs (session_start now r0 ws) s →
  let recs := session_records tr0 s in
  let given := attempted (se_rec_log s) in
  (r0 = None → recs = [] ∧ session_manifests tr0 s = []) ∧
  (r0 ≠ None →
    Rec_Enabled cfg = true ∧
    Forall2 (describes (bool_decide (Rec_Mode cfg = SessionRecordingFull))) given (frames_seen (se_log s)) ∧
    Seq <$> given = numbers (length given) ∧
    recs `prefix_of` given ∧ (write_failed (se_rec_log s) = false → recs = given) ∧
    linked "" recs (chain_end recs) ∧
    (if decide (se_handler s = Closed) then
       session_manifests tr0 s = [] ∧ open_refused (se_rec_log s) ∨
       ∃ man pre answer post, se_rec_log s = pre ++ Call (WriteManifest man) answer :: post ∧
         session_manifests tr0 s = [man] ∧ written post = [] ∧ FinalHash man = chain_end recs ∧
         FrameCount man = uint64 (Z.of_nat (length (attempted pre))) ∧ Man_Mode man = Rec_Mode cfg ∧
         ∃ id at_, Man_Meta man = set_session id at_ meta
     else session_manifests tr0 s = [])).
Proof. apply session_outcome. Qed.

(** Recordings of sessions are tamper-evident: any file an auditor accepts as
      a chain from the empty hash to the final hash of the session's manifest
      agrees with what was recorded, entry by entry, on sequence number,
      direction, message type, payload digest and timestamp, and has as many
      entries, unless an entry of the one and an entry of the other are a
      SHA-256 collision.  The timestamps the clock gave hold no separator (they
      are RFC 3339); nothing is assumed of the file.  The byte count and the
      base64 text are not covered by the entry hash. *)
Theorem session_tamper_evident cfg meta tr0 r0 now ws s man recs' :
  exec (NewSessionRecorder cfg meta) tr0 r0 → session_runs (session_start now r0 ws) s →
  man ∈ session_manifests tr0 s → Forall bar_free (timestamps (se_rec_log s)) →
  linked "" recs' (FinalHash man) →
  Forall2 same_entry (session_records tr0 s) recs' ∨ colliding (session_records tr0 s) recs'.
Proof.
  intros Hnew Hruns Hman Ht Haudit.
  pose proof (session_linked _ _ _ _ _ _ _ Hnew Hruns man Hman) as Hl.
  eapply linked_unique; [exact Hl|exact Haudit|]. unfold session_records.
  pose proof (session_described _ _ _ _ _ _ _ Hnew Hruns) as Hd. unfold session_records in Hd.
  destruct (session_recorder _ _ _ _ _ _ _ Hnew Hruns) as [(_ & E & _)|(_ & id & at_ & r & HR & E & _)];
    rewrite E in *; [constructor|].
  eapply recorded_clean; [exact Hd| |exact (ri_stamped _ _ _ _ HR)|exact Ht].
  apply Forall_forall. intros f Hin. eapply frames_seen_labelled; [exact Hruns|].
  eapply elem_of_sublist; [exact Hin|apply sublist_take].
Qed.

(** A full recording of a session replays: decoding its records gives the first
      frames shown to the observer, direction, message type and every payload
      byte; and all that its manifest counts when it counts as many as there are
      records. *)
Theorem full_recording_replays cfg meta tr0 r0 now ws s :
  Rec_Mode cfg = SessionRecordingFull →
  exec (NewSessionRecorder cfg meta) tr0 r0 → session_runs (session_start now r0 ws) s →
  map replay (session_records tr0 s) = take (length (session_records tr0 s)) (frames_seen (se_log s)) ∧
  ∀ man, man ∈ session_manifests tr0 s → FrameCount man = Z.of_nat (length (session_records tr0 s)) →
    map replay (session_records tr0 s) = take (Z.to_nat (FrameCount man)) (frames_seen (se_log s)).
Proof.
  intros Hm Hnew Hruns.
  pose proof (session_described _ _ _ _ _ _ _ Hnew Hruns) as Hd.
  rewrite bool_decide_eq_true_2 in Hd by done. pose proof (replay_all _ _ Hd) as ->. split; [done|].
  intros man _ ->. by rewrite Nat2Z.id.
Qed.
