(* ===== verification/SessionWitnesses.v ===== *)
(** * Runs of WebSocket sessions

    A scheduler that carries out steps of a session, runs built with it, and the
    properties of sessions at those runs. *)
From S2P Require Import Prelude GoStrings GoTime Sha256 Api K8s Fixtures Proxy ProxyProps.
From S2P Require Import SessionRecording SessionRecordingProps Session SessionProps SessionRecords.
From Stdlib Require Import ZArith Lia.
#[local] Open Scope Z_scope.

(** ** A scheduler *)

(** What the environment answers: the connections, the API server, the disk. *)
Record world := MkWorld {
  w_ws : ∀ X, wsE X → X;
  w_patch : result Workspace;
  w_full : bool;
}.

Inductive move :=
  | Go (i : pump) (w : world)
  | Receive
  | CloseIt
  | Tick (t : Time).

(** A write fails when the disk is full, the file closed or a write has failed. *)
Definition disk_for (w : world) (s : session) : list bool :=
  [w_full w || negb (file_open (se_recorder s)) || write_failed (se_rec_log s)].

Definition go (i : pump) (w : world) (s : session) : session :=
  match se_threads s i with
  | SLooping (Request e k) =>
    match e in sesE X return (X → prog sesE (option error)) → session with
    | SWs e' => λ k, let x := w_ws w _ e' in logged i (Call e' x) (on_thread i (SLooping (k x)) s)
    | TouchedRecently => λ k, logged i (Call OnActivity ())
        (on_thread i (SLooping (k (Sub (se_now s) (se_lastTouch s) <? Minute))) s)
    | SetLastTouch => λ k, with_touch i (on_thread i (SLooping (k ())) s)
    | CopyWorkspace => λ k, on_thread i (SLooping (k (se_ws s))) s
    | StampWorkspace => λ k,
        with_ws (set_LastAccessed (se_now s) (se_ws s)) (on_thread i (SLooping (k ())) s)
    | SendPatch base => λ k, patched base (on_thread i (SLooping (k ())) s)
    | ReceivePatch => λ k, answered (w_patch w) (on_thread i (SLooping (k (w_patch w))) s)
    | Record_ dir t d => λ k,
        let p := RecordFrame (se_recorder s) dir t d in
        let st := disk_for w s in
        recorded (run disk p st).1 (run_trace disk p st)
          (logged i (Call (OnFrame dir t d) ()) (on_thread i (SLooping (k ())) s))
    end k
  | SLooping (Return None) => on_thread i (SLooping (session_body i)) s
  | SLooping (Return (Some err)) =>
    if (length (se_errc s) <? errc_capacity)%nat
    then with_handler (se_errc s ++ [err]) (se_handler s) (on_thread i SFinished s) else s
  | SFinished => s
  end.

Definition moved (m : move) (s : session) : session :=
  match m with
  | Go i w => go i w s
  | Receive =>
    match se_errc s, se_handler s with
    | _ :: q, Waiting => with_handler q Closing s
    | _, _ => s
    end
  | CloseIt =>
    match se_handler s with
    | Closing => let p := Close (se_recorder s) None in
        recorded (run disk p []).1 (run_trace disk p []) (with_handler (se_errc s) Closed s)
    | _ => s
    end
  | Tick t => if se_now s <=? t then at_time t s else s
  end.

Lemma disk_respects w s dir t d :
  file_respected (se_recorder s) (se_rec_log s)
    (run_trace disk (RecordFrame (se_recorder s) dir t d) (disk_for w s)).
Proof.
  unfold file_respected, disk_for. intros Ho.
  assert (E : w_full w || negb (file_open (se_recorder s)) || write_failed (se_rec_log s) = true)
    by (destruct Ho as [-> | ->]; [by rewrite orb_true_r|apply orb_true_r]).
  rewrite E. destruct (se_recorder s) as [r|]; [|constructor].
  apply Forall_cons. split; [done|]. apply Forall_cons. split; [done|constructor].
Qed.

Lemma go_runs i w s0 s : session_runs s0 s → session_runs s0 (go i w s).
Proof.
  intros Hr. unfold go. destruct (se_threads s i) as [[[err|]|X e k]|] eqn:Hi; [| | |done].
  - destruct (length (se_errc s) <? errc_capacity)%nat eqn:Hl; [|done].
    eapply rtc_r; [exact Hr|]. apply Ses_send; [done|]. by apply Nat.ltb_lt.
  - eapply rtc_r; [exact Hr|]. by apply Ses_loop.
  - eapply rtc_r; [exact Hr|]. revert k Hi. destruct e; intros k Hi.
    + by apply Ses_ws.
    + by apply Ses_recent.
    + by apply Ses_set.
    + by apply Ses_copy.
    + by apply Ses_stamp.
    + by apply Ses_patch.
    + by apply Ses_answer.
    + apply Ses_record; [done|apply run_exec|apply disk_respects].
Qed.

Lemma moved_runs m s0 s : session_runs s0 s → session_runs s0 (moved m s).
Proof.
  intros Hr. destruct m as [i w| | |t]; cbn [moved].
  - by apply go_runs.
  - destruct (se_errc s) as [|err q] eqn:He; [done|]. destruct (se_handler s) eqn:Hh; try done.
    eapply rtc_r; [exact Hr|]. by eapply Ses_receive.
  - destruct (se_handler s) eqn:Hh; try done. eapply rtc_r; [exact Hr|].
    apply Ses_close; [done|apply run_exec].
  - destruct (Z.leb_spec (se_now s) t); [|done]. eapply rtc_r; [exact Hr|]. by apply Ses_tick.
Qed.

Definition play (ms : list move) (s : session) : session := fold_left (λ s m, moved m s) ms s.

Lemma play_runs ms s0 s : session_runs s0 s → session_runs s0 (play ms s).
Proof. revert s. induction ms as [|m ms IH]; intros s Hr; [done|]. by apply IH, moved_runs. Qed.

(** ** Stamping from both sides *)

Definition open_ws : Workspace := demo_ws [] "Running" demo_now.
(** The peer sends "ls"; the server answers a patch with the given object. *)
Definition typing (ws : Workspace) : world := MkWorld (typed (bytes_of "ls")) (Ok ws) false.
Definition gone : world := MkWorld (λ X, @some_answer X) (Ok open_ws) false.
Definition full_disk : world := MkWorld (typed (bytes_of "ls")) (Ok open_ws) true.

Definition times (n : nat) (m : move) : list move := repeat m n.

(** Each goroutine passes a frame on and finds the last stamp old; then both stamp. *)
Definition both_sides : session :=
  play (times 3 (Go Pump1 (typing open_ws)) ++ times 3 (Go Pump2 (typing open_ws)) ++
        times 4 (Go Pump1 (typing open_ws)) ++ times 4 (Go Pump2 (typing open_ws)))
    (session_start demo_now None open_ws).

Lemma both_sides_runs : session_runs (session_start demo_now None open_ws) both_sides.
Proof. apply play_runs, rtc_refl. Qed.

(** C31. How often a session stamps the last access, under every interleaving of the
      goroutines that share the time of the last stamp: each goroutine at most
      once, plus once for every full minute of the session; so the session at
      most twice as often, with at most one patch per stamp (a goroutine stores the
      time it has read before another stamps).  And often enough:
      whenever a goroutine has passed on a frame, a stamp is less than a minute
      old or that goroutine stamps next.  The upper bound is reached: both
      goroutines can find the last stamp old and stamp, and patch, at the same
      moment. *)
Theorem stamps_twice_a_minute :
  (∀ now r ws s, session_runs (session_start now r ws) s →
    (∀ i, stamps_by i (se_stamps s) <= 1 + (se_now s - now) / Minute) ∧
    Z.of_nat (length (se_patches s)) <= Z.of_nat (length (se_stamps s)) <= 2 * (1 + (se_now s - now) / Minute)) ∧
  (∀ now r ws s i k, session_runs (session_start now r ws) s → zeroTime + Minute <= now →
    se_threads s i = SLooping (Request TouchedRecently k) →
    (∃ j t, (j, t) ∈ se_stamps s ∧ se_now s - t < Minute) ∨
    ∃ k', k (Sub (se_now s) (se_lastTouch s) <? Minute) = Request SetLastTouch k') ∧
  ∃ now r ws s, session_runs (session_start now r ws) s ∧ se_now s = now ∧
    length (se_stamps s) = 2%nat ∧ length (se_patches s) = 2%nat.
Proof.
  split; [apply session_stamps|]. split; [apply session_activity|]. exists demo_now, None, open_ws, both_sides.
  split; [apply both_sides_runs|]. split; [reflexivity|]. split; reflexivity.
Qed.

(** One goroutine takes its base; the other's patch is answered with the phase the
    operator has set meanwhile; the first sends the difference. *)
Definition stopped_ws : Workspace := demo_ws [] "Stopped" demo_now.
Definition raced : session :=
  play (times 3 (Go Pump1 (typing open_ws)) ++ times 3 (Go Pump2 (typing open_ws)) ++
        times 2 (Go Pump1 (typing open_ws)) ++ times 5 (Go Pump2 (typing stopped_ws)) ++
        times 2 (Go Pump1 (typing open_ws)))
    (session_start demo_now None open_ws).

Lemma raced_runs : session_runs (session_start demo_now None open_ws) raced.
Proof. apply play_runs, rtc_refl. Qed.

Lemma raced_patches :
  map (λ p, (phase p.1, phase p.2)) (se_patches raced) = [("Running", "Running"); ("Running", "Stopped")].
Proof. vm_compute. reflexivity. Qed.

Lemma patch_phases (l : list (Workspace * Workspace)) a b c :
  map (λ p, (phase p.1, phase p.2)) l = [a; (b, c)] →
  ∃ base new, (base, new) ∈ l ∧ phase base = b ∧ phase new = c.
Proof.
  intros Hl. assert (Hin : (b, c) ∈ map (λ p, (phase p.1, phase p.2)) l) by (rewrite Hl; right; left).
  apply list_elem_of_fmap in Hin as ([base new] & [= -> ->] & Hin). eauto.
Qed.

(** C32. What the session's patches carry: a field of the Workspace other than the
      last access is the same in the object and in the base of every patch, so
      not in the patch, as long as the server's answers do not change it.  When
      they do (the operator has moved the phase), the goroutines' unsynchronised
      use of one object lets a patch write the phase. *)
Theorem patch_frame :
  (∀ {B : Type} (field : Workspace → B) now r ws s,
    (∀ t w, field (set_LastAccessed t w) = field w) →
    session_runs (session_start now r ws) s → (∀ w, w ∈ se_answers s → field w = field ws) →
    ∀ base new, (base, new) ∈ se_patches s → field new = field base) ∧
  ∃ now ws s base new, session_runs (session_start now None ws) s ∧ (base, new) ∈ se_patches s ∧
    phase base = WorkspacePhaseRunning ∧ phase new = WorkspacePhaseStopped.
Proof.
  split.
  - intros B field now r ws s Hst Hr Ha base new Hin.
    destruct (session_reachable _ _ _ _ Hr) as (f & t & _ & _ & Hact & _).
    destruct (field_kept_reachable field ws Hst now _ Hact Ha) as (_ & _ & Hp).
    by destruct (Hp base new Hin) as [-> ->].
  - destruct (patch_phases _ _ _ _ raced_patches) as (base & new & Hin & Hb & Hn).
    exists demo_now, open_ws, raced, base, new. exact (conj raced_runs (conj Hin (conj Hb Hn))).
Qed.

(** ** Recorded sessions *)

Definition new_trace : list (call recE) := run_trace disk (NewSessionRecorder full_cfg some_meta) [].
Definition new_recorder : option SessionRecorder := (run disk (NewSessionRecorder full_cfg some_meta) []).1.

(** A frame from the client is passed on, stamped and recorded; one from the
    backend is passed on; the client leaves and the handler closes the recorder;
    the backend's frame is shown after that. *)
Definition recorded_moves : list move :=
  times 10 (Go Pump2 (typing open_ws)) ++ times 3 (Go Pump1 (typing open_ws)) ++
  times 2 (Go Pump2 gone) ++ [Receive; CloseIt] ++ times 1 (Go Pump1 (typing open_ws)).
Definition demo_session : session := play recorded_moves (session_start demo_now new_recorder open_ws).

(** The first frame is recorded; the disk is full for the second, and has room
    again for the third. *)
Definition unlucky_session : session :=
  play (times 10 (Go Pump2 (typing open_ws)) ++ times 4 (Go Pump1 full_disk) ++
        times 5 (Go Pump2 (typing open_ws)) ++ times 2 (Go Pump2 gone) ++ [Receive; CloseIt])
    (session_start demo_now new_recorder open_ws).

Lemma new_recorder_exec : exec (NewSessionRecorder full_cfg some_meta) new_trace new_recorder.
Proof. apply run_exec. Qed.
Lemma demo_session_runs : session_runs (session_start demo_now new_recorder open_ws) demo_session.
Proof. apply play_runs, rtc_refl. Qed.
Lemma unlucky_session_runs : session_runs (session_start demo_now new_recorder open_ws) unlucky_session.
Proof. apply play_runs, rtc_refl. Qed.

Lemma demo_session_counts :
  length (session_records new_trace demo_session) = 1%nat ∧
  map FrameCount (session_manifests new_trace demo_session) = [1] ∧
  length (frames_seen (se_log demo_session)) = 2%nat.
Proof. vm_compute. split; [reflexivity|]. split; reflexivity. Qed.

Lemma unlucky_session_counts :
  length (session_records new_trace unlucky_session) = 1%nat ∧
  map FrameCount (session_manifests new_trace unlucky_session) = [3] ∧
  length (frames_seen (se_log unlucky_session)) = 3%nat.
Proof. vm_compute. split; [reflexivity|]. split; reflexivity. Qed.

Lemma one_manifest (l : list SessionManifest) c :
  map FrameCount l = [c] → ∃ man, l = [man] ∧ FrameCount man = c.
Proof. destruct l as [|m [|]]; intros [=]; eauto. Qed.

Lemma demo_manifest :
  ∃ man, session_manifests new_trace demo_session = [man] ∧ FrameCount man = 1.
Proof. destruct demo_session_counts as (_ & Hm & _). by apply one_manifest. Qed.

Lemma demo_stamps : Forall bar_free (timestamps (se_rec_log demo_session)).
Proof.
  apply Forall_forall. intros f Hf. unfold bar_free. apply (bool_decide_unpack _). revert f Hf.
  apply Forall_forall. vm_compute. by repeat constructor.
Qed.

(** The session whose second record did not fit: three frames numbered, one
    written, and a manifest that counts three. *)
Lemma session_recorded_witness :
  Seq <$> attempted (se_rec_log unlucky_session) = [1; 2; 3] ∧
  length (session_records new_trace unlucky_session) = 1%nat ∧
  session_records new_trace unlucky_session `prefix_of` attempted (se_rec_log unlucky_session) ∧
  ∃ man, session_manifests new_trace unlucky_session = [man] ∧
    FinalHash man = chain_end (session_records new_trace unlucky_session).
Proof.
  destruct (session_recorded full_cfg some_meta new_trace new_recorder demo_now open_ws unlucky_session
    new_recorder_exec unlucky_session_runs) as [_ Hsome].
  destruct unlucky_session_counts as (Hlen & Hcount & Hseen). destruct (one_manifest _ _ Hcount) as (m & Hm & _).
  destruct Hsome as (_ & Hd & Hn & Hp & _ & _ & Hs); [discriminate|].
  rewrite (Forall2_length _ _ _ Hd), Hseen in Hn. split; [exact Hn|]. split; [exact Hlen|]. split; [exact Hp|].
  destruct (decide (se_handler unlucky_session = Closed)) as [_|Hc]; [|rewrite Hm in Hs; discriminate Hs].
  destruct Hs as [[E _]|(man & pre & x & post & _ & E & _ & HF & _)]; [rewrite Hm in E; discriminate E|].
  exists man. exact (conj E HF).
Defined.

Lemma session_tamper_evident_witness :
  ∃ man, man ∈ session_manifests new_trace demo_session ∧
    (Forall2 same_entry (session_records new_trace demo_session) (session_records new_trace demo_session) ∨
     colliding (session_records new_trace demo_session) (session_records new_trace demo_session)).
Proof.
  destruct demo_manifest as (man & Hm & _).
  assert (Hin : man ∈ session_manifests new_trace demo_session) by (rewrite Hm; left).
  exists man. split; [exact Hin|].
  apply (session_tamper_evident full_cfg some_meta new_trace new_recorder demo_now open_ws demo_session man _
    new_recorder_exec demo_session_runs Hin demo_stamps).
  exact (session_linked full_cfg some_meta new_trace new_recorder demo_now open_ws demo_session
    new_recorder_exec demo_session_runs man Hin).
Defined.

Lemma full_recording_replays_witness :
  map replay (session_records new_trace demo_session) = take 1 (frames_seen (se_log demo_session)).
Proof.
  destruct demo_manifest as (man & Hm & Hc).
  destruct (full_recording_replays full_cfg some_meta new_trace new_recorder demo_now open_ws demo_session
    eq_refl new_recorder_exec demo_session_runs) as [_ Hr].
  destruct demo_session_counts as (Hlen & _).
  specialize (Hr man). rewrite Hm, Hc, Hlen in Hr. apply Hr; [left|reflexivity].
Defined.

(** One failed write ends the recording: the encoder keeps the error, so that
    frames shown later are not recorded either, though the disk has room again;
    [seq] counts them all, so that the manifest's frame count is not the number
    of records, and the chain ends before the failure. *)
Theorem failed_write_ends_recording :
  ∃ man, session_manifests new_trace unlucky_session = [man] ∧ FrameCount man = 3 ∧
    length (frames_seen (se_log unlucky_session)) = 3%nat ∧
    length (session_records new_trace unlucky_session) = 1%nat ∧
    linked "" (session_records new_trace unlucky_session) (FinalHash man).
Proof.
  destruct unlucky_session_counts as (Hlen & Hcount & Hseen). destruct (one_manifest _ _ Hcount) as (man & Hm & Hc).
  assert (Hin : man ∈ session_manifests new_trace unlucky_session) by (rewrite Hm; left).
  pose proof (session_linked full_cfg some_meta new_trace new_recorder demo_now open_ws unlucky_session
    new_recorder_exec unlucky_session_runs man Hin) as Hl.
  exists man. exact (conj Hm (conj Hc (conj Hseen (conj Hlen Hl)))).
Qed.

(** A frame passed on and shown to the observer is missing from the recording,
    and from the manifest's count, when the handler closes the recorder first. *)
Theorem frame_lost_at_close :
  ∃ man, session_manifests new_trace demo_session = [man] ∧ FrameCount man = 1 ∧
    length (frames_seen (se_log demo_session)) = 2%nat.
Proof.
  destruct demo_manifest as (man & Hm & Hc). destruct demo_session_counts as (_ & _ & Hseen).
  exists man. exact (conj Hm (conj Hc Hseen)).
Qed.
