(* ===== verification/RecordFiles.v ===== *)
(** * The record file on disk ([pkg/gateway/session_recording.go])

    What the file of a session holds, byte for byte: [json.Encoder] writes a
    record as one line; a write that fails may leave part of its line, and the
    encoder keeps the error, so that it is the last thing in the file.  Reading
    the complete lines back gives the records the recorder believes it wrote, and
    they are those of the first frames of the session, none left out. *)
From S2P Require Import Prelude GoStrings GoTime Utf8 Sha256 Json JsonDecode JsonRoundTrip JsonStruct Api K8s Proxy ProxyProps.
From S2P Require Import SessionRecording SessionRecordingProps Session SessionProps SessionRecords Fixtures SessionWitnesses.
From Stdlib Require Import ZArith Lia.
#[local] Open Scope Z_scope.

(** ** One record *)

(** The fields of [SessionFrameRecord] with their tags. *)
Definition record_fields (rec : SessionFrameRecord) : list (string * scalar) :=
  [("timestampUtc", SString (TimestampUTC rec)); ("seq", SInt (Seq rec));
   ("direction", SString (Direction rec)); ("messageType", SInt (MessageType rec));
   ("payloadBytes", SInt (PayloadBytes rec)); ("payloadSha256", SString (PayloadSHA rec));
   ("prevHash", SString (PrevHash rec)); ("entryHash", SString (EntryHash rec))] ++
  omitempty "payloadBase64" (PayloadB64 rec).

(** [enc.Encode(rec)]. *)
Definition record_text (rec : SessionFrameRecord) : bytes := bytes_of (json_struct (record_fields rec)).
Definition record_line (rec : SessionFrameRecord) : bytes := record_text rec ++ [newline].

(** A reader of such a line. *)
Definition read_record (line : bytes) : option SessionFrameRecord :=
  match parse_document (of_bytes line) with
  | Some (JObject ms) =>
    ts ← string_member ms "timestampUtc"; seq ← int_member ms "seq";
    dir ← string_member ms "direction"; mt ← int_member ms "messageType";
    n ← int_member ms "payloadBytes"; sha ← string_member ms "payloadSha256";
    prev ← string_member ms "prevHash"; hash ← string_member ms "entryHash";
    b64 ← string_member ms "payloadBase64";
    Some (MkFrameRecord ts seq dir mt n sha prev hash b64)
  | _ => None
  end.

(** Reading a file: its complete lines. *)
Definition read_file (content : bytes) : option (list SessionFrameRecord) :=
  mapM read_record (lines_of content).1.

Definition valid_record (rec : SessionFrameRecord) : Prop := Forall valid_field (record_fields rec).

Lemma read_record_text rec : valid_record rec → read_record (record_text rec) = Some rec.
Proof.
  intros Hv. unfold read_record, record_text. rewrite of_bytes_of, (parse_struct _ Hv) by done.
  unfold valid_record, record_fields in *. read_members Hv. by destruct rec.
Qed.

(** ** The file *)

(** One request of the recorder, as the encoder and the file see it: the error
    [enc.err] before, the bytes appended, the error after.  A failed [Write] has
    written less than it was given; after it the encoder writes nothing. *)
Definition encode_step (err : option error) (c : call recE) (b : bytes) (err' : option error) : Prop :=
  match c with
  | Call e x =>
    match e in recE Y return Y → Prop with
    | WriteRecord rec => λ answer,
      match err, answer with
      | Some e, _ => answer = Some e ∧ b = [] ∧ err' = Some e
      | None, None => b = record_line rec ∧ err' = None
      | None, Some e => (∃ c b', record_line rec = b ++ c :: b') ∧ err' = Some e
      end
    | _ => λ _, b = [] ∧ err' = err
    end x
  end.

Fixpoint encodes (err : option error) (tr : list (call recE)) (content : bytes) (err' : option error) : Prop :=
  match tr with
  | [] => content = [] ∧ err' = err
  | c :: tr' => ∃ b content' err1,
      content = b ++ content' ∧ encode_step err c b err1 ∧ encodes err1 tr' content' err'
  end.

Lemma encodes_app err tr1 tr2 content err' :
  encodes err (tr1 ++ tr2) content err' ↔
  ∃ c1 c2 err1, content = c1 ++ c2 ∧ encodes err tr1 c1 err1 ∧ encodes err1 tr2 c2 err'.
Proof.
  revert err content. induction tr1 as [|c tr1 IH]; intros err content; cbn.
  - split; [by exists [], content, err|by intros (? & ? & ? & -> & [-> ->] & ?)].
  - split.
    + intros (b & c' & err1 & -> & Hs & (c1 & c2 & err2 & -> & H1 & H2)%IH).
      exists (b ++ c1), c2, err2. split; [by rewrite app_assoc|]. eauto 10.
    + intros (c1 & c2 & err1 & -> & (b & c' & err2 & -> & Hs & H1) & H2).
      exists b, (c' ++ c2), err2. split; [by rewrite app_assoc|]. split; [done|]. apply IH. eauto 10.
Qed.

(** Once the encoder has an error nothing more is written. *)
Lemma encodes_stuck e tr content err' :
  encodes (Some e) tr content err' → content = [] ∧ err' = Some e ∧ written tr = [].
Proof.
  revert content. induction tr as [|[X ev x] tr IH]; intros content; cbn; [by intros [-> ->]|].
  intros (b & c' & err1 & -> & Hs & Ht).
  assert (Hstep : b = [] ∧ err1 = Some e ∧
    match ev in recE Y return Y → list SessionFrameRecord with
    | WriteRecord rec => λ x, match x with None => [rec] | Some _ => [] end
    | _ => λ _, []
    end x = []).
  { destruct ev; cbn in Hs; try (by destruct Hs as [-> ->]). by destruct Hs as (-> & -> & ->). }
  destruct Hstep as (-> & -> & ->). by apply IH in Ht as (-> & -> & ->).
Qed.

(** The file of a run: one line for each record written, and part of one more
    when a write failed. *)
Lemma encodes_lines tr content err :
  Forall valid_record (attempted tr) → encodes None tr content err →
  ∃ rest, lines_of content = (map record_text (written tr), rest) ∧ Forall valid_record (written tr) ∧
    (err = None → rest = []).
Proof.
  revert content. induction tr as [|[X ev x] tr IH]; intros content Hv; cbn; [by intros [-> ->]; exists []|].
  change (attempted (Call ev x :: tr)) with (call_attempted (Call ev x) ++ attempted tr) in Hv.
  apply Forall_app in Hv as [Hv1 Hv2]. intros (b & c' & err1 & -> & Hs & Ht).
  destruct ev; cbn in Hs, Hv1; try (by destruct Hs as [-> ->]; apply IH). rename x into answer.
  pose proof (struct_one_line _ (Forall_inv Hv1)) as H1. destruct answer as [e|].
  - destruct Hs as [(c & b' & Hp) ->]. apply encodes_stuck in Ht as (-> & -> & ->). exists b.
    rewrite app_nil_r. split_and!; [|constructor|done]. apply lines_of_rest.
    unfold record_line in Hp. destruct (decide (b' = [])) as [->|Hne].
    + apply app_inj_tail in Hp as [<- _]. done.
    + destruct (exists_last Hne) as (b0 & z & ->). change (b ++ c :: b0 ++ [z]) with (b ++ (c :: b0) ++ [z]) in Hp.
      rewrite app_assoc in Hp. apply app_inj_tail in Hp as [Hp _]. unfold record_text in Hp. rewrite Hp in H1.
      by apply one_line_app in H1 as [? _].
  - destruct Hs as [-> ->]. destruct (IH _ Hv2 Ht) as (rest & E & Hw & Hr). exists rest.
    unfold record_line. rewrite <- app_assoc. cbn [app]. rewrite (lines_of_line (record_text rec)) by done.
    rewrite E. cbn. split_and!; [done|by constructor; [inversion Hv1|]|done].
Qed.

(** The encoder has an error when a write has failed. *)
Lemma encodes_failed tr content err : encodes None tr content err → err = None → write_failed tr = false.
Proof.
  revert content. induction tr as [|[X ev x] tr IH]; intros content; cbn; [done|].
  intros (b & c' & err1 & -> & Hs & Ht) ->. destruct ev; cbn in Hs |- *; try (by destruct Hs as [-> ->]; apply (IH _ Ht)).
  destruct x as [e|]; [|by destruct Hs as [-> ->]; apply (IH _ Ht)].
  destruct Hs as [_ ->]. by apply encodes_stuck in Ht as (_ & ? & _).
Qed.

Lemma read_records recs : Forall valid_record recs → mapM read_record (map record_text recs) = Some recs.
Proof. induction 1 as [|rec recs Hr _ IH]; [done|]. cbn. rewrite read_record_text by done. cbn. by rewrite IH. Qed.

(** ** Everything in a record is text *)

Lemma utf8_ascii s : Forall (λ c, is_ascii c = true) (bytes_of s) → utf8_ValidString s = true.
Proof.
  unfold utf8_ValidString. induction 1 as [|c l Hc _ IH]; [done|]. cbn. rewrite Hc. cbn. rewrite IH, andb_true_r.
  apply in_range_spec in Hc. unfold invalid_piece, RuneError. cbn. lia.
Qed.

Lemma utf8_hex b : utf8_ValidString (EncodeToString b) = true.
Proof.
  apply utf8_ascii. unfold EncodeToString. rewrite bytes_of_of. apply Forall_concat, Forall_fmap, Forall_true.
  intros c. by destruct c as [[] [] [] [] [] [] [] []]; repeat constructor.
Qed.

Lemma b64_char_ascii n : is_ascii (b64_char n) = true.
Proof.
  unfold b64_char. destruct (b64_alphabet !! Z.to_nat n) as [c|] eqn:E; [|done]. cbn.
  assert (H : Forall (λ c, is_ascii c = true) b64_alphabet) by (apply (bool_decide_unpack _); vm_compute; exact I).
  by eapply (Forall_lookup_1 _ _ _ _ H).
Qed.

Lemma utf8_base64 b : utf8_ValidString (base64_EncodeToString b) = true.
Proof.
  apply utf8_ascii. unfold base64_EncodeToString. rewrite bytes_of_of.
  induction b as [b IH] using (induction_ltof1 _ (@length ascii)). unfold ltof in IH.
  destruct b as [|a [|b1 [|c b]]]; cbn; repeat (constructor; [first [apply b64_char_ascii|done]|]); try constructor.
  apply IH. cbn. lia.
Qed.

Lemma describes_valid full rec f :
  describes full rec f → utf8_ValidString (fr_direction f) = true → utf8_ValidString (TimestampUTC rec) = true →
  utf8_ValidString (PrevHash rec) = true → utf8_ValidString (EntryHash rec) = true → valid_record rec.
Proof.
  intros (Hd & _ & _ & Hs & Hb) H1 H2 H3 H4. unfold valid_record, record_fields, valid_field.
  assert (Hsha : utf8_ValidString (PayloadSHA rec) = true) by (rewrite Hs; apply utf8_hex).
  assert (Hb64 : utf8_ValidString (PayloadB64 rec) = true) by (rewrite Hb; destruct full; [apply utf8_base64|done]).
  apply Forall_app. split; [repeat constructor; cbn; try done; by rewrite Hd|]. by apply omitempty_valid.
Qed.

(** ** The recorder's file *)

Lemma NewSessionRecorder_unattempted cfg meta :
  post (NewSessionRecorder cfg meta) (λ tr r, attempted tr = [] ∧
    (r = None ∨ ∃ id at_, r = Some (MkRecorder cfg (set_session id at_ meta) true 0 ""))).
Proof.
  unfold NewSessionRecorder. destruct (_ || _); [by cbn; auto|].
  apply post_bind. apply (post_mono _ (λ tr _, attempted tr = [])); [by destruct (bool_decide _)|].
  intros tr1 id A1. apply post_bind. apply (post_mono _ (λ tr _, attempted tr = [])); [by destruct (bool_decide _)|].
  intros tr2 at_ A2. apply post_bind, post_request. intros [e|]; [|apply post_bind, post_request; intros [e|]];
    cbn [post mret prog_mret]; rewrite !attempted_app, A1, A2; cbn; eauto.
Qed.

(** Every record given to the encoder is text. *)
Record text_inv (R : recording) (r : SessionRecorder) : Prop := {
  ti_recorder : re_recorder R = Some r;
  ti_prev : utf8_ValidString (r_prev r) = true;
  ti_valid : Forall valid_record (attempted (re_log R));
}.

Lemma text_inv_frame r tr tr' r' f frames closed :
  exec (RecordFrame (Some r) (fr_direction f) (fr_type f) (fr_payload f)) tr' r' →
  utf8_ValidString (fr_direction f) = true → Forall (λ ts, utf8_ValidString ts = true) (timestamps tr') →
  text_inv (MkRecording (Some r) tr frames closed) r →
  ∃ r1, text_inv (MkRecording r' (tr ++ tr') (frames ++ [f]) closed) r1.
Proof.
  intros Hex Hdir Hts [_ Hp Hv]. cbn in Hv.
  destruct (exec_post _ _ _ _ Hex (RecordFrame_requests r f)) as
    (ts & rec & answer & r1 & -> & <- & Hd & Hprev & Hh & _ & -> & _ & _ & Hr1).
  assert (Hhash : utf8_ValidString (EntryHash rec) = true) by (rewrite Hh; apply utf8_hex).
  apply Forall_inv in Hts. exists r1. constructor; cbn [re_recorder re_log re_frames].
  - done.
  - rewrite Hr1. by destruct answer.
  - rewrite attempted_app. apply Forall_app. split; [done|]. constructor; [|constructor].
    eapply describes_valid; [exact Hd|done..|by rewrite Hprev|done].
Qed.

Lemma text_inv_close r tr tr' r' frames :
  exec (Close (Some r) None) tr' r' → text_inv (MkRecording (Some r) tr frames false) r →
  ∃ r1, text_inv (MkRecording r' (tr ++ tr') frames true) r1.
Proof.
  intros Hex [_ Hp Hv]. cbn in Hv.
  destruct (exec_post _ _ _ _ Hex (Close_requests r None)) as (Ha & r1 & -> & (_ & _ & _ & Hr1) & _).
  exists r1. constructor; cbn [re_recorder re_log re_frames]; [done|by rewrite Hr1|].
  by rewrite attempted_app, Ha, app_nil_r.
Qed.

Lemma recording_text r0 R :
  utf8_ValidString (r_prev r0) = true →
  rtc recording_step (recording_start (Some r0)) R →
  Forall (λ f, utf8_ValidString (fr_direction f) = true) (re_frames R) →
  Forall (λ ts, utf8_ValidString ts = true) (timestamps (re_log R)) →
  ∃ r, text_inv R r.
Proof.
  intros H0. revert R. apply (rtc_ind_r (λ R, Forall (λ f, utf8_ValidString (fr_direction f) = true) (re_frames R) →
    Forall (λ ts, utf8_ValidString ts = true) (timestamps (re_log R)) → ∃ r, text_inv R r)).
  - intros _ _. exists r0. constructor; cbn; done.
  - intros R R' _ Hstep IH.
    destruct Hstep as [r tr tr' r' f fs closed Hex _|r tr tr' r' fs Hex]; cbn [re_frames re_log] in *; intros Hd Ht.
    + rewrite timestamps_app in Ht. apply Forall_app in Hd as [Hd1 Hd2], Ht as [Ht1 Ht2].
      destruct (IH Hd1 Ht1) as (r1 & HR). pose proof (ti_recorder _ _ HR) as E. cbn in E. subst r.
      eapply text_inv_frame; [exact Hex|by inversion Hd2|done|done].
    + rewrite timestamps_app in Ht. apply Forall_app in Ht as [Ht1 Ht2].
      destruct (IH Hd Ht1) as (r1 & HR). pose proof (ti_recorder _ _ HR) as E. cbn in E. subst r.
      by eapply text_inv_close.
Qed.

(** ** The file of a session *)

(** A record given to the encoder of a session is text. *)
Lemma session_attempted cfg meta tr0 r0 now ws s :
  exec (NewSessionRecorder cfg meta) tr0 r0 → session_runs (session_start now r0 ws) s →
  Forall (λ ts, utf8_ValidString ts = true) (timestamps (se_rec_log s)) →
  attempted tr0 = [] ∧ Forall valid_record (attempted (se_rec_log s)).
Proof.
  intros Hnew Hruns Hts. destruct (session_reachable _ _ _ _ Hruns) as (g & t & _ & _ & _ & HR).
  pose proof (frames_seen_label _ _ _ _ Hruns) as Hlab.
  assert (Hd : Forall (λ f, utf8_ValidString (fr_direction f) = true) (frames_seen (se_log s))).
  { apply Forall_forall. intros f [[] ->]%Hlab; reflexivity. }
  destruct (exec_post _ _ _ _ Hnew (NewSessionRecorder_unattempted cfg meta)) as (Ha & Hr). split; [done|].
  destruct Hr as [-> |(id & at_ & ->)].
  { apply recording_none in HR as [_ E]. cbn in E. rewrite E. constructor. }
  destruct (recording_text (MkRecorder cfg (set_session id at_ meta) true 0 "") _ eq_refl HR Hd Hts) as (r & [_ _ Hv]).
  exact Hv.
Qed.

(** Its file reads back. *)
Lemma session_file cfg meta tr0 r0 now ws s content err :
  exec (NewSessionRecorder cfg meta) tr0 r0 → session_runs (session_start now r0 ws) s →
  Forall (λ ts, utf8_ValidString ts = true) (timestamps (se_rec_log s)) →
  encodes None (tr0 ++ se_rec_log s) content err → read_file content = Some (session_records tr0 s).
Proof.
  intros Hnew Hruns Hts Henc. destruct (session_attempted _ _ _ _ _ _ _ Hnew Hruns Hts) as [Ha Hv].
  destruct (encodes_lines _ _ _ ltac:(rewrite attempted_app, Ha; exact Hv) Henc) as (rest & El & Hvw & _).
  unfold read_file. rewrite El. by apply read_records.
Qed.

(** C30. The file a session leaves on disk, byte for byte: whatever the
      interleaving of the goroutines and wherever a write fails (leaving any part
      of its line), reading the complete lines of the file gives back exactly the
      records the recorder has written; they describe, one by one, the first
      frames shown to the observer, with no frame left out in between, and in a
      full recording they replay those frames; every manifest's final hash is the
      end of their chain; and as long as no write has failed every frame is there
      and the file ends with a complete line.  The clock's timestamps are
      UTF-8. *)
Theorem record_file_replays cfg meta tr0 r0 now ws s content err :
  exec (NewSessionRecorder cfg meta) tr0 r0 → session_runs (session_start now r0 ws) s →
  Forall (λ ts, utf8_ValidString ts = true) (timestamps (se_rec_log s)) →
  encodes None (tr0 ++ se_rec_log s) content err →
  let recs := session_records tr0 s in
  read_file content = Some recs ∧
  Forall2 (describes (bool_decide (Rec_Mode cfg = SessionRecordingFull))) recs
    (take (length recs) (frames_seen (se_log s))) ∧
  (Rec_Mode cfg = SessionRecordingFull → map replay recs = take (length recs) (frames_seen (se_log s))) ∧
  (∀ man, man ∈ session_manifests tr0 s → linked "" recs (FinalHash man)) ∧
  (err = None → (lines_of content).2 = [] ∧ (r0 ≠ None → length recs = length (frames_seen (se_log s)))).
Proof.
  intros Hnew Hruns Hts Henc recs. destruct (session_attempted _ _ _ _ _ _ _ Hnew Hruns Hts) as [Ha Hv].
  pose proof (session_described _ _ _ _ _ _ _ Hnew Hruns) as Hdesc.
  pose proof (encodes_failed _ _ _ Henc) as Hfail. rewrite write_failed_app in Hfail.
  destruct (encodes_lines _ _ _ ltac:(rewrite attempted_app, Ha; exact Hv) Henc) as (rest & El & Hvw & Hrest).
  rewrite El. cbn [fst snd]. split; [by eapply session_file|]. split; [done|]. split.
  { intros Hm. rewrite bool_decide_eq_true_2 in Hdesc by done. by apply replay_all. }
  split; [by eapply session_linked|]. intros He. split; [by apply Hrest|]. intros Hr. apply (session_complete _ _ _ _ _ _ _ Hnew Hruns); [done|].
  by apply Hfail, orb_false_iff in He as [_ ?].
Qed.

(** ** Running the encoder *)

(** A disk on which a failed write leaves [k] bytes; [None] when the answers are
    not those of one encoder. *)
Definition encode_call (k : nat) (err : option error) (c : call recE) : option (bytes * option error) :=
  match c with
  | Call e x =>
    match e in recE Y return Y → option (bytes * option error) with
    | WriteRecord rec => λ answer,
      match err, answer with
      | Some e, _ => if bool_decide (answer = Some e) then Some ([], Some e) else None
      | None, None => Some (record_line rec, None)
      | None, Some e =>
        if bool_decide (drop k (record_line rec) = []) then None else Some (take k (record_line rec), Some e)
      end
    | _ => λ _, Some ([], err)
    end x
  end.

Fixpoint encode_all (k : nat) (err : option error) (tr : list (call recE)) : option (bytes * option error) :=
  match tr with
  | [] => Some ([], err)
  | c :: tr' =>
    '(b, err1) ← encode_call k err c;
    '(b', err') ← encode_all k err1 tr';
    Some (b ++ b', err')
  end.

Lemma encode_all_encodes k err tr content err' :
  encode_all k err tr = Some (content, err') → encodes err tr content err'.
Proof.
  revert err content err'. induction tr as [|c tr IH]; intros err content err'; cbn; [by intros [= <- <-]|].
  intros ([b err1] & Hc & ([b' e'] & Ht%IH & [= <- <-])%bind_Some)%bind_Some.
  exists b, b', err1. split; [done|]. split; [|done]. clear IH Ht. destruct c as [X e x], e; cbn in Hc |- *;
    try (by injection Hc as <- <-). destruct err as [e|].
  - case_bool_decide as Hx; [|done]. injection Hc as <- <-. done.
  - destruct x as [e|]; [|by injection Hc as <- <-]. case_bool_decide as Hd; [done|]. injection Hc as <- <-.
    split; [|done]. destruct (drop k (record_line rec)) as [|c b''] eqn:E; [done|]. exists c, b''.
    rewrite <- E. by rewrite take_drop.
Qed.

(** The session whose second record did not fit: the file ends with 20 bytes of it. *)
Definition unlucky_file : option (bytes * option error) :=
  encode_all 20 None (new_trace ++ se_rec_log unlucky_session).

Lemma unlucky_file_written :
  ∃ content e, unlucky_file = Some (content, Some e) ∧ length (lines_of content).2 = 20%nat.
Proof.
  assert (H : match unlucky_file with Some (content, Some _) => length (lines_of content).2 =? 20 | _ => false end%nat = true)
    by (vm_compute; reflexivity).
  destruct unlucky_file as [[content [e|]]|]; try done. exists content, e. split; [done|]. by apply Nat.eqb_eq.
Qed.

Lemma unlucky_stamps : Forall (λ ts, utf8_ValidString ts = true) (timestamps (se_rec_log unlucky_session)).
Proof.
  assert (H : forallb utf8_ValidString (timestamps (se_rec_log unlucky_session)) = true) by (vm_compute; reflexivity).
  rewrite forallb_forall in H. apply Forall_forall. intros ts Hts%list_elem_of_In. exact (H ts Hts).
Qed.

Lemma record_file_replays_witness :
  ∃ content e, encodes None (new_trace ++ se_rec_log unlucky_session) content (Some e) ∧
    length (lines_of content).2 = 20%nat ∧
    read_file content = Some (session_records new_trace unlucky_session) ∧
    map replay (session_records new_trace unlucky_session) = take 1 (frames_seen (se_log unlucky_session)).
Proof.
  destruct unlucky_file_written as (content & e & Hf%encode_all_encodes & Hl).
  destruct (record_file_replays full_cfg some_meta new_trace new_recorder demo_now open_ws unlucky_session content (Some e)
    new_recorder_exec unlucky_session_runs unlucky_stamps Hf) as (Hr & _ & Hm & _).
  destruct unlucky_session_counts as (Hlen & _). rewrite Hlen in Hm.
  exists content, e. exact (conj Hf (conj Hl (conj Hr (Hm eq_refl)))).
Defined.
