(* ===== verification/RecordAudit.v ===== *)
(** * Auditing a recording from its two files

    The manifest as it is on disk (indented JSON), and an auditor who has only the
    bytes of the record file and of the manifest: it reads both and checks the
    hash chain and the payloads.  It accepts what a session leaves, wherever a write
    of a record failed, if the manifest was written; and a record file it accepts
    together with a session's manifest holds that session's records, unless SHA-256
    was broken.  [Close] ignores the error of the manifest's write. *)
From S2P Require Import Prelude GoStrings GoTime Utf8 Sha256 Json JsonDecode JsonRoundTrip JsonStruct Api K8s Proxy ProxyProps.
From S2P Require Import SessionRecording SessionRecordingProps Session SessionProps SessionRecords Fixtures SessionWitnesses.
From S2P Require Import RecordFiles.
From Stdlib Require Import ZArith Lia.
#[local] Open Scope Z_scope.

(** ** The manifest on disk *)

(** The fields of [SessionMeta] with their tags. *)
Definition meta_fields (m : SessionMeta) : list (string * scalar) :=
  [("sessionId", SString (SessionID m))] ++
  omitempty "requestId" (RequestID_ m) ++ omitempty "subject" (Meta_Subject m) ++
  omitempty "userId" (Meta_UserID m) ++ omitempty "namespace" (Meta_Namespace m) ++
  omitempty "workspace" (Meta_Workspace m) ++ omitempty "backend" (Meta_Backend m) ++
  omitempty "remote" (Meta_Remote m) ++ [("startedAt", SString (StartedAt m))].

(** The fields of [SessionManifest] around [meta]. *)
Definition manifest_head (man : SessionManifest) : list (string * scalar) :=
  [("schemaVersion", SString (SchemaVersion man)); ("mode", SString (Man_Mode man))].
Definition manifest_tail (man : SessionManifest) : list (string * scalar) :=
  [("frameCount", SInt (FrameCount man)); ("finalHash", SString (FinalHash man));
   ("closedAt", SString (ClosedAt man))] ++ omitempty "closeReason" (CloseReason man).

(** [enc.SetIndent("", "  "); enc.Encode(manifest)]. *)
Definition manifest_json (man : SessionManifest) : string :=
  indent_object 0 (scalar_texts (manifest_head man) ++
    [("meta", indent_object 1 (scalar_texts (meta_fields (Man_Meta man))))] ++
    scalar_texts (manifest_tail man)).
Definition manifest_text (man : SessionManifest) : bytes := bytes_of (manifest_json man) ++ [newline].

Definition read_meta (ms : list (list Z * json)) : option SessionMeta :=
  match member ms "meta" with
  | JObject m =>
    id ← string_member m "sessionId"; req ← string_member m "requestId"; sub ← string_member m "subject";
    uid ← string_member m "userId"; ns ← string_member m "namespace"; ws ← string_member m "workspace";
    back ← string_member m "backend"; rem ← string_member m "remote"; st ← string_member m "startedAt";
    Some (MkSessionMeta id req sub uid ns ws back rem st)
  | _ => None
  end.
Definition read_manifest (b : bytes) : option SessionManifest :=
  match parse_document (of_bytes b) with
  | Some (JObject ms) =>
    v ← string_member ms "schemaVersion"; mode ← string_member ms "mode"; meta ← read_meta ms;
    n ← int_member ms "frameCount"; h ← string_member ms "finalHash"; at_ ← string_member ms "closedAt";
    why ← string_member ms "closeReason";
    Some (MkManifest v mode meta n h at_ why)
  | _ => None
  end.

Definition valid_manifest (man : SessionManifest) : Prop :=
  Forall valid_field (manifest_head man) ∧ Forall valid_field (meta_fields (Man_Meta man)) ∧
  Forall valid_field (manifest_tail man).

(** The members the text parses to. *)
Definition manifest_values (man : SessionManifest) : list (string * json) :=
  scalar_values (manifest_head man) ++
  [("meta", JObject (named (scalar_values (meta_fields (Man_Meta man)))))] ++
  scalar_values (manifest_tail man).

Lemma parse_manifest man :
  valid_manifest man → parse_document (of_bytes (manifest_text man)) = Some (JObject (named (manifest_values man))).
Proof.
  intros (H1 & H2 & H3). assert (E : of_bytes (manifest_text man) = manifest_json man +:+ of_bytes [newline]).
  { apply bytes_of_inj. unfold manifest_text. by rewrite bytes_of_app, !bytes_of_of. }
  rewrite E. apply (parse_document_white 2); [done| |done]. unfold manifest_json.
  apply (parses_indented 1); [done| |done]. unfold manifest_values, named. rewrite !map_app.
  apply Forall2_app; [by apply fields_parse|]. apply Forall2_app; [|by apply fields_parse].
  constructor; [|constructor]. split_and!; [done|done|]. cbn [snd].
  apply (parses_indented 0); [done|by apply fields_parse|done].
Qed.

Lemma manifest_names man : valid_manifest man → utf8_names (manifest_values man).
Proof.
  intros (H1 & _ & H3). unfold manifest_values, utf8_names. rewrite !Forall_app.
  split_and!; [by apply valid_names|by repeat constructor|by apply valid_names].
Qed.

(** A string that is left out when it is empty reads back all the same. *)
Lemma read_meta_ok man : valid_manifest man → read_meta (named (manifest_values man)) = Some (Man_Meta man).
Proof.
  intros Hv. unfold read_meta. rewrite member_named by (done || by apply manifest_names).
  assert (E : field_at (manifest_values man) "meta" = Some (JObject (named (scalar_values (meta_fields (Man_Meta man)))))).
  { unfold manifest_values, manifest_head, manifest_tail, omitempty. by case_bool_decide. }
  rewrite E. cbn [default from_option id]. rewrite <- struct_members_named. clear E. destruct Hv as (_ & Hm & _).
  unfold meta_fields in *. read_members Hm. by destruct (Man_Meta man).
Qed.

(** The other members are scalars. *)
Lemma manifest_string man name s :
  valid_manifest man → utf8_ValidString name = true → name ≠ "meta" →
  reads (manifest_head man ++ manifest_tail man) name s →
  string_member (named (manifest_values man)) name = Some s.
Proof.
  intros Hv Hn Hm Hr. pose proof Hv as (H1 & _ & H3).
  assert (Hall : Forall valid_field (manifest_head man ++ manifest_tail man)) by (by apply Forall_app).
  rewrite <- (string_member_reads _ _ _ Hall Hn Hr). unfold string_member. rewrite struct_members_named.
  rewrite !member_named by first [done|by apply manifest_names|by apply valid_names].
  unfold manifest_values, scalar_values. rewrite map_app, !field_at_app.
  assert (E : field_at [("meta", JObject (named (map (λ f, (f.1, scalar_value f.2)) (meta_fields (Man_Meta man)))))] name = None).
  { unfold field_at. by rewrite filter_cons, decide_False. }
  rewrite E. by destruct (field_at (map _ (manifest_tail man)) name).
Qed.

(** The manifest on disk reads back. *)
Lemma read_manifest_text man : valid_manifest man → read_manifest (manifest_text man) = Some man.
Proof.
  intros Hv. unfold read_manifest. rewrite (parse_manifest _ Hv).
  repeat (erewrite (manifest_string _ _ _ Hv) by first [reflexivity|done|unfold manifest_head, manifest_tail; solve_reads];
    cbn [mbind option_bind]). rewrite (read_meta_ok _ Hv). cbn [mbind option_bind].
  rewrite (int_value_at _ (manifest_names _ Hv) "frameCount" (FrameCount man)) by
    (first [reflexivity|unfold manifest_values, manifest_head, manifest_tail, omitempty; case_bool_decide; reflexivity]).
  cbn [mbind option_bind].
  repeat (erewrite (manifest_string _ _ _ Hv) by first [reflexivity|done|unfold manifest_head, manifest_tail; solve_reads];
    cbn [mbind option_bind]). by destruct man.
Qed.

(** ** The auditor *)

(** [linked], as a computation. *)
Fixpoint check_chain (prev : string) (recs : list SessionFrameRecord) (final : string) : bool :=
  match recs with
  | [] => bool_decide (final = prev)
  | rec :: recs' =>
    bool_decide (PrevHash rec = prev) && bool_decide (EntryHash rec = sha256_hex (bytes_of (entry_input rec))) &&
    check_chain (EntryHash rec) recs' final
  end.

Lemma check_chain_spec prev recs final : check_chain prev recs final = true ↔ linked prev recs final.
Proof.
  revert prev. induction recs as [|rec recs IH]; intros prev; cbn; [apply bool_decide_eq_true|].
  rewrite !andb_true_iff, !bool_decide_eq_true, IH. tauto.
Qed.

(** The payload a record holds, and the rest of what the auditor can check in a
    record: in a full recording the payload is canonical base64 of as many bytes as
    it says, with the digest it says; in any other there is none. *)
Definition payload_of (rec : SessionFrameRecord) : bytes := b64_decode (bytes_of (PayloadB64 rec)).
Definition payload_ok (mode : SessionRecordingMode) (rec : SessionFrameRecord) : bool :=
  if bool_decide (mode = SessionRecordingFull) then
    bool_decide (PayloadB64 rec = base64_EncodeToString (payload_of rec)) &&
    bool_decide (PayloadSHA rec = sha256_hex (payload_of rec)) &&
    bool_decide (PayloadBytes rec = Z.of_nat (length (payload_of rec)))
  else bool_decide (PayloadB64 rec = "").

(** Both files, as bytes: do the complete lines of the one form a chain from the
    empty hash to the final hash in the other, with payloads as its mode has
    them? *)
Definition audit (records manifest : bytes) : bool :=
  match read_file records, read_manifest manifest with
  | Some recs, Some man => check_chain "" recs (FinalHash man) && forallb (payload_ok (Man_Mode man)) recs
  | _, _ => false
  end.

(** What is left in the manifest's file: [Close] ignores the error of [Encode], so
    that it may be any part of the text. *)
Definition manifest_left (man : SessionManifest) (answer : option error) (file : bytes) : Prop :=
  match answer with
  | None => file = manifest_text man
  | Some _ => ∃ c b, manifest_text man = file ++ c :: b
  end.

Lemma describes_payload mode rec f :
  describes (bool_decide (mode = SessionRecordingFull)) rec f → payload_ok mode rec = true.
Proof.
  intros (_ & _ & Hn & Hs & Hb). unfold payload_ok, payload_of. destruct (bool_decide (mode = _)); [|by apply bool_decide_eq_true_2].
  rewrite Hb.
  assert (E : b64_decode (bytes_of (base64_EncodeToString (fr_payload f))) = fr_payload f).
  { unfold base64_EncodeToString. by rewrite bytes_of_of, b64_decode_encode. }
  rewrite E, Hs, Hn. by rewrite !(bool_decide_eq_true_2 (_ = _)) by done.
Qed.

Lemma described_payloads mode recs fs :
  Forall2 (describes (bool_decide (mode = SessionRecordingFull))) recs fs → forallb (payload_ok mode) recs = true.
Proof. induction 1 as [|rec f recs fs Hd _ IH]; [done|]. cbn. by rewrite (describes_payload _ _ _ Hd), IH. Qed.

(** The record with another byte count. *)
Definition with_size (n : Z) (rec : SessionFrameRecord) : SessionFrameRecord :=
  MkFrameRecord (TimestampUTC rec) (Seq rec) (Direction rec) (MessageType rec) n (PayloadSHA rec)
    (PrevHash rec) (EntryHash rec) (PayloadB64 rec).

(** Two payloads with one digest. *)
Definition payloads_colliding (recs recs' : list SessionFrameRecord) : Prop :=
  ∃ a b, a ∈ recs ∧ b ∈ recs' ∧ collision (payload_of a) (payload_of b).

Lemma audited_payload a b :
  same_entry a b → payload_ok SessionRecordingFull a = true → payload_ok SessionRecordingFull b = true →
  b = a ∨ collision (payload_of a) (payload_of b).
Proof.
  unfold payload_ok. rewrite bool_decide_eq_true_2 by done.
  intros (E1 & E2 & E3 & E4 & E5 & E6 & E7) [[Ha1 Ha2]%andb_true_iff Ha3]%andb_true_iff [[Hb1 Hb2]%andb_true_iff Hb3]%andb_true_iff.
  apply bool_decide_eq_true in Ha1, Ha2, Ha3, Hb1, Hb2, Hb3.
  destruct (sha256_hex_eq (payload_of a) (payload_of b)) as [E|?]; [congruence|left|by right].
  rewrite <- E in Hb1, Hb3. destruct a, b. cbn in *. congruence.
Qed.

(** Entries that agree are equal when their payloads are checked as well. *)
Lemma audited_full recs recs' :
  Forall2 same_entry recs recs' → forallb (payload_ok SessionRecordingFull) recs = true →
  forallb (payload_ok SessionRecordingFull) recs' = true → recs' = recs ∨ payloads_colliding recs recs'.
Proof.
  induction 1 as [|a b recs recs' Hab _ IH]; [by left|]. cbn. intros [Ha Has]%andb_true_iff [Hb Hbs]%andb_true_iff.
  destruct (audited_payload _ _ Hab Ha Hb) as [->|Hc]; [|right; exists a, b; split_and!; [left|left|done]].
  destruct (IH Has Hbs) as [->|(x & y & Hx & Hy & Hc)]; [by left|right].
  exists x, y. split_and!; [by right|by right|done].
Qed.

Lemma audited_metadata mode recs recs' :
  mode ≠ SessionRecordingFull → Forall2 same_entry recs recs' → forallb (payload_ok mode) recs = true →
  forallb (payload_ok mode) recs' = true → Forall2 (λ a b, b = with_size (PayloadBytes b) a) recs recs'.
Proof.
  intros Hm. induction 1 as [|a b recs recs' (E1 & E2 & E3 & E4 & E5 & E6 & E7) _ IH]; [constructor|]. cbn.
  unfold payload_ok at 1 3. rewrite bool_decide_eq_false_2 by done.
  intros [Ha%bool_decide_eq_true Has]%andb_true_iff [Hb%bool_decide_eq_true Hbs]%andb_true_iff.
  constructor; [|auto]. destruct a, b. cbn in *. unfold with_size. cbn. congruence.
Qed.

Lemma manifest_written s tr0 man answer :
  (man, answer) ∈ manifest_writes (se_rec_log s) → man ∈ session_manifests tr0 s.
Proof.
  intros Hin. unfold session_manifests. rewrite manifests_app. apply elem_of_app. right.
  rewrite <- manifest_writes_fst. apply list_elem_of_fmap. by exists (man, answer).
Qed.

(** C26. Auditing a session from its files alone, byte for byte.  When the write of
      its manifest did not fail, the audit accepts the record file and the manifest
      file a session leaves, under every interleaving of its goroutines and
      wherever a write of a record failed.  Whatever record file it accepts
      together with that manifest holds, in a full recording, exactly the records
      of the session, every field and payload byte of them; in a recording of
      metadata all but their byte counts, which nothing protects; unless
      an entry, or a payload, of the one and of the other are a SHA-256
      collision.  The clock's timestamps are UTF-8 without the separator, and what
      the manifest says of the session is UTF-8. *)
Theorem audit_detects_tampering cfg meta tr0 r0 now ws s man answer content err file :
  exec (NewSessionRecorder cfg meta) tr0 r0 → session_runs (session_start now r0 ws) s →
  (man, answer) ∈ manifest_writes (se_rec_log s) → valid_manifest man →
  Forall (λ ts, utf8_ValidString ts = true ∧ bar_free ts) (timestamps (se_rec_log s)) →
  encodes None (tr0 ++ se_rec_log s) content err → manifest_left man answer file → answer = None →
  let recs := session_records tr0 s in
  audit content file = true ∧
  ∀ content', audit content' file = true →
    ∃ recs', read_file content' = Some recs' ∧
      (colliding recs recs' ∨
       if decide (Rec_Mode cfg = SessionRecordingFull) then recs' = recs ∨ payloads_colliding recs recs'
       else Forall2 (λ a b, b = with_size (PayloadBytes b) a) recs recs').
Proof.
  intros Hnew Hruns Hman%(manifest_written _ tr0) Hv Hts Henc Hfile -> recs. cbn in Hfile. subst file.
  apply Forall_and in Hts as [Hu Hb]. unfold audit. rewrite (read_manifest_text _ Hv).
  destruct (session_manifest _ _ _ _ _ _ _ Hnew Hruns _ Hman) as [Hl ->].
  pose proof (described_payloads _ _ _ (session_described _ _ _ _ _ _ _ Hnew Hruns)) as Hp. split.
  - rewrite (session_file _ _ _ _ _ _ _ _ _ Hnew Hruns Hu Henc), Hp, andb_true_r. by apply check_chain_spec.
  - intros content' Ha. destruct (read_file content') as [recs'|]; [|done]. exists recs'. split; [done|].
    apply andb_true_iff in Ha as [Ha%check_chain_spec Hp'].
    destruct (session_tamper_evident _ _ _ _ _ _ _ _ _ Hnew Hruns Hman Hb Ha) as [Hs|?]; [right|by left].
    case_decide as Hm; [rewrite Hm in *; by apply audited_full|by eapply audited_metadata].
Qed.

(** A manifest for the session whose second record did not fit. *)
Lemma unlucky_manifest : ∃ man, (man, None) ∈ manifest_writes (se_rec_log unlucky_session) ∧ valid_manifest man.
Proof.
  assert (H : match manifest_writes (se_rec_log unlucky_session) with
    | [(man, None)] => forallb (λ f, utf8_ValidString f.1 && match f.2 with SString s => utf8_ValidString s | _ => true end)
        (manifest_head man ++ meta_fields (Man_Meta man) ++ manifest_tail man)
    | _ => false end = true) by (vm_compute; reflexivity).
  destruct (manifest_writes (se_rec_log unlucky_session)) as [|[man [e|]] [|]]; try done. exists man. split; [left|].
  rewrite forallb_forall in H.
  assert (Hv : Forall valid_field (manifest_head man ++ meta_fields (Man_Meta man) ++ manifest_tail man)).
  { apply Forall_forall. intros [k v] Hin%list_elem_of_In%H. apply andb_true_iff in Hin as [? Hs]. split; [done|].
    by destruct v. }
  rewrite !Forall_app in Hv. exact Hv.
Qed.

Lemma unlucky_clock :
  Forall (λ ts, utf8_ValidString ts = true ∧ bar_free ts) (timestamps (se_rec_log unlucky_session)).
Proof.
  apply Forall_and. split; [apply unlucky_stamps|].
  assert (H : bool_decide (Forall (λ ts, Forall (λ c, c ≠ bar) (bytes_of ts)) (timestamps (se_rec_log unlucky_session))) = true)
    by (vm_compute; reflexivity).
  exact (bool_decide_eq_true_1 _ H).
Qed.

Lemma audit_detects_tampering_witness :
  ∃ content man, audit content (manifest_text man) = true ∧ length (lines_of content).2 = 20%nat ∧
    ∀ content', audit content' (manifest_text man) = true →
      ∃ recs', read_file content' = Some recs' ∧
        (colliding (session_records new_trace unlucky_session) recs' ∨ recs' = session_records new_trace unlucky_session ∨
         payloads_colliding (session_records new_trace unlucky_session) recs').
Proof.
  destruct unlucky_file_written as (content & e & Hf%encode_all_encodes & Hl).
  destruct unlucky_manifest as (man & Hin & Hv).
  destruct (audit_detects_tampering full_cfg some_meta new_trace new_recorder demo_now open_ws unlucky_session man None content
    (Some e) (manifest_text man) new_recorder_exec unlucky_session_runs Hin Hv unlucky_clock Hf eq_refl eq_refl) as (Ha & Ht).
  exists content, man. exact (conj Ha (conj Hl Ht)).
Defined.

(** ** What the audit does not get *)

(** Replaying the hash chain alone, as the documentation has it, accepts a file in
    which every payload and byte count was replaced. *)
Definition replaced (rec : SessionFrameRecord) : SessionFrameRecord :=
  MkFrameRecord (TimestampUTC rec) (Seq rec) (Direction rec) (MessageType rec) 0 (PayloadSHA rec)
    (PrevHash rec) (EntryHash rec) "".

Theorem chain_misses_payloads prev recs final :
  linked prev recs final → linked prev (map replaced recs) final.
Proof. revert prev. induction recs as [|rec recs IH]; intros prev; cbn; [done|]. intros (? & ? & ?). auto. Qed.

(** A file system on which the manifest does not fit. *)
Definition full_at_close (X : Type) (e : recE X) (st : unit) : X * unit :=
  match e in recE Y return Y * unit with
  | WriteManifest _ => (Some (errors_new "disk full"), st)
  | Timestamp => ("2025-01-01T00:00:00Z", st)
  | NewUUID => ("id", st)
  | MkdirAll _ => (None, st)
  | OpenFile _ _ => (None, st)
  | WriteRecord _ => (None, st)
  | CloseRecordFile => ((), st)
  end.

Definition before_close : session :=
  play (times 10 (Go Pump2 (typing open_ws)) ++ times 2 (Go Pump2 gone) ++ [Receive])
    (session_start demo_now new_recorder open_ws).
Definition manifest_unsaved : session :=
  let p := Close (se_recorder before_close) None in
  recorded (run full_at_close p ()).1 (run_trace full_at_close p ()) (with_handler (se_errc before_close) Closed before_close).

Lemma before_close_closing : se_handler before_close = Closing.
Proof. vm_compute. reflexivity. Qed.
Lemma manifest_unsaved_runs : session_runs (session_start demo_now new_recorder open_ws) manifest_unsaved.
Proof.
  apply (rtc_r _ before_close); [unfold before_close; apply play_runs, rtc_refl|].
  exact (Ses_close before_close _ _ before_close_closing (run_exec full_at_close (Close (se_recorder before_close) None) ())).
Qed.
Lemma manifest_unsaved_counts :
  write_failed (se_rec_log manifest_unsaved) = false ∧ length (session_records new_trace manifest_unsaved) = 1%nat ∧
  match manifest_writes (se_rec_log manifest_unsaved) with [(_, Some _)] => true | _ => false end = true.
Proof. vm_compute. split; [reflexivity|]. split; reflexivity. Qed.

Lemma one_failed_write (l : list (SessionManifest * option error)) :
  match l with [(_, Some _)] => true | _ => false end = true → ∃ man e, (man, Some e) ∈ l.
Proof. destruct l as [|[man [e|]] [|]]; intros H; try discriminate H. exists man, e. left. Qed.

(** The ignored error of the manifest's [Encode]: a session whose records were all
    written and whose recorder was closed can leave a manifest file from which no
    audit of any record file succeeds. *)
Theorem manifest_lost_silently :
  ∃ s man e file, session_runs (session_start demo_now new_recorder open_ws) s ∧ se_handler s = Closed ∧
    write_failed (se_rec_log s) = false ∧ length (session_records new_trace s) = 1%nat ∧
    (man, Some e) ∈ manifest_writes (se_rec_log s) ∧ manifest_left man (Some e) file ∧
    ∀ content, audit content file = false.
Proof.
  destruct manifest_unsaved_counts as (Hf & Hr & (man & e & Hw)%one_failed_write).
  assert (Hfile : manifest_left man (Some e) []).
  { cbn. destruct (manifest_text man) as [|c b] eqn:Et; [|by exists c, b]. by apply app_eq_nil in Et as [_ ?]. }
  assert (Haudit : ∀ content, audit content [] = false) by (intros content; unfold audit; by destruct (read_file content)).
  exists manifest_unsaved, man, e, [].
  exact (conj manifest_unsaved_runs (conj eq_refl (conj Hf (conj Hr (conj Hw (conj Hfile Haudit)))))).
Qed.
