(* ===== verification/AuditLog.v ===== *)
(** * The gateway's audit log ([pkg/gateway/audit.go], [metrics.go], [requestid.go])

    Audit lines with their stable fields, and the correlation id of a request. *)
From S2P Require Import Prelude GoTime Api K8s Resources Auth Lifecycle Observability.
From Stdlib Require Import ZArith.

Definition ComponentGateway : string := "gateway".
Definition LogKeyRequestID : string := "devplane.request_id".
Definition LogKeyActorSubject : string := "actor.subject".
Definition LogKeyAuditAction : string := "action".
Definition LogKeyAuditOutcome : string := "outcome".
Definition LogKeyAuditReason : string := "reason".

Definition OutcomeSuccess : string := "success".
Definition OutcomeFailure : string := "failure".
Definition OutcomeDenied : string := "denied".

Definition EventAuditOIDCLoginRedirect : string := "devplane.audit.oidc.login.redirect".
Definition EventAuditOIDCCallbackSuccess : string := "devplane.audit.oidc.callback.success".
Definition EventAuditOIDCCallbackFailure : string := "devplane.audit.oidc.callback.failure".
Definition EventAuditWorkspaceEnsureExists : string := "devplane.audit.workspace.ensure_exists".
Definition EventAuditWorkspaceEnsureRunning : string := "devplane.audit.workspace.ensure_running".
Definition EventAuditWSSessionStart : string := "devplane.audit.ws.session.start".
Definition EventAuditWSSessionEnd : string := "devplane.audit.ws.session.end".
Definition EventAuditAuthTokenRejected : string := "devplane.audit.auth.token.rejected".
Definition EventAuditRateLimitExceeded : string := "devplane.audit.rate_limit.exceeded".

(** A value of a structured log line. *)
Inductive log_value := LStr (s : string) | LInt (z : Z).

Record audit_line := MkLine { line_msg : string; line_fields : list (string * log_value) }.

Definition line_event (l : audit_line) : option log_value :=
  snd <$> List.find (λ kv, bool_decide (kv.1 = LogKeyEvent)) (line_fields l).

Definition EnsureAction (d : EnsureDetails) : string :=
  if Created d then "create" else if RestartedFromStopped d then "restart" else "get".

Definition LogAudit (msg requestID event : string) (keysAndValues : list (string * log_value)) : audit_line :=
  MkLine msg
    ([(LogKeyAuditSchema, LStr AuditSchemaVersion); (LogKeyComponent, LStr ComponentGateway);
      (LogKeyEvent, LStr event)]
     ++ (if bool_decide (requestID = "") then [] else [(LogKeyRequestID, LStr requestID)])
     ++ keysAndValues).

Section lines.
Context `{K8sLib}.

Definition LogWorkspaceLifecycleAudit (msg requestID event namespace : string) (claims : Claims)
    (ws : Workspace) (d : EnsureDetails) : audit_line :=
  LogAudit msg requestID event
    [(LogKeyActorSubject, LStr (Claims_Sub claims)); (LogKeyUserID, LStr (Claims_UserID claims));
     (LogKeyNamespace, LStr namespace); (LogKeyWorkspace, LStr (Name (WS_Meta ws)));
     (LogKeyAuditAction, LStr (EnsureAction d)); (LogKeyAuditOutcome, LStr OutcomeSuccess)].
End lines.

Definition LogOIDCCallbackSuccess (requestID : string) (claims : Claims) : audit_line :=
  LogAudit "audit: OIDC callback succeeded" requestID EventAuditOIDCCallbackSuccess
    [(LogKeyActorSubject, LStr (Claims_Sub claims)); (LogKeyUserID, LStr (Claims_UserID claims));
     (LogKeyAuditOutcome, LStr OutcomeSuccess)].

Definition LogOIDCCallbackFailure (requestID reason : string) : audit_line :=
  LogAudit "audit: OIDC callback failed" requestID EventAuditOIDCCallbackFailure
    [(LogKeyAuditOutcome, LStr OutcomeFailure); (LogKeyAuditReason, LStr reason)].

Definition LogAuthTokenRejected (requestID remote reason : string) (httpStatus : Z) (code : string) :
    audit_line :=
  LogAudit "audit: token rejected" requestID EventAuditAuthTokenRejected
    [(LogKeyAuditOutcome, LStr OutcomeDenied); ("remote", LStr remote); (LogKeyAuditReason, LStr reason);
     ("httpStatus", LInt httpStatus); ("errorCode", LStr code)].

Definition LogRateLimitAudit (requestID endpoint scope userID : string) : audit_line :=
  LogAudit "audit: rate limit exceeded" requestID EventAuditRateLimitExceeded
    [(LogKeyAuditOutcome, LStr OutcomeDenied); ("endpoint", LStr endpoint); ("scope", LStr scope);
     (LogKeyUserID, LStr userID)].
