(* ===== verification/GatewayHttp.v ===== *)
(** * The gateway's HTTP handlers ([cmd/gateway/main.go])

    The REST endpoint, the login flow, the reverse proxy and the WebSocket
    endpoint, with the token validator, the lifecycle manager, the recorder and
    the proxy as parts of one program.  Log lines that are not audit lines are
    left out. *)
From S2P Require Import Prelude GoStrings GoTime Json Api K8s K8sClient Resources.
From S2P Require Import Auth Lifecycle Proxy SessionRecording Observability AuditLog.
From Stdlib Require Import ZArith Lia.
#[local] Open Scope Z_scope.

(** ** Requests and responses *)

(** What the handlers read of an [*http.Request]. *)
Record HttpRequest := MkHttpRequest {
  Method : string;
  (** [r.Header.Get(name)], canonical names *)
  Header_Get : string → string;
  (** [r.Cookie(name)] *)
  Cookie_Get : string → option string;
  (** [r.URL.Query().Get(name)] *)
  Query_Get : string → string;
  RemoteAddr : string;
}.

Inductive SameSite := SameSiteUnset | SameSiteLaxMode.

Record Cookie := MkCookie {
  Cookie_Name : string;
  Cookie_Value : string;
  Cookie_Path : string;
  MaxAge : Z;
  Expires : option Time;
  HttpOnly : bool;
  Secure : bool;
  Cookie_SameSite : SameSite;
}.

(** What the reverse proxy received from the backend. *)
Record HttpResponse := MkHttpResponse {
  Resp_Status : Z;
  Resp_Header : gmap string string;
  (** what reading the body gives *)
  Resp_Body : result bytes;
  ContentLength : Z;
}.

Record OAuthToken := MkOAuthToken {
  (** [token.Extra("id_token").(string)] *)
  id_token : option string;
  Expiry : Time;
}.

Record workspaceAPIResponse := MkWorkspaceAPIResponse {
  Api_Name : string;
  Api_Namespace : string;
  Api_UserID : string;
  Api_Email : string;
  Api_Phase : string;
  Api_ServiceEndpoint : string;
  Api_PodName : string;
  Api_Message : string;
  TTYDReady : bool;
}.

Inductive response_body :=
  | JSONError (code : string)
  | JSONWorkspace (r : workspaceAPIResponse)
  | LoadingPage (displayName phase : string)
  | Plain (s : string).

Section requests.
Context `{K8sLib}.

Inductive gwE : Type → Type :=
  | AuthReq (X : Type) (e : authE X) : gwE X
  | ApiReq (X : Type) (e : apiE X) : gwE X
  | RecReq (X : Type) (e : recE X) : gwE X
  | WsReq (X : Type) (e : wsE X) : gwE X
  (** one rate-limiter decision for an endpoint and a subject *)
  | AllowReq (endpoint sub : string) : gwE (bool * string)
  (** [net.DialTimeout]: [None], or the error; a connection made is closed again *)
  | DialTimeout (network addr : string) (timeout : Duration) : gwE (option error)
  (** the open tunnel with its callbacks, until one side stops (its steps are in
      [Session]): the recorder as the callbacks have left it *)
  | RunTunnel (backendURL : string) (recorder : option SessionRecorder) (ws : Workspace) :
      gwE (option SessionRecorder)
  (** [url.Parse]: nil, or why it refuses the text *)
  | ParseURL (rawURL : string) : gwE (option error)
  (** a panic of the handler: the server recovers it and closes the connection *)
  | Panic (value : string) : gwE unit
  (** the reverse proxy's round trip, and copying its response to the client *)
  | RoundTrip (target : string) : gwE (result HttpResponse)
  | CopyResponse (r : HttpResponse) : gwE unit
  | AuthCodeURL (state : string) : gwE string
  | Exchange (code : string) : gwE (result OAuthToken)
  | UUID : gwE string
  | AuditReq (l : audit_line) : gwE unit
  | RecordRateLimitHit (endpoint scope : string) : gwE unit
  | RecordJSONAPIError (status : Z) (code : string) : gwE unit
  | SetHeader (name value : string) : gwE unit
  | SetCookie (c : Cookie) : gwE unit
  | WriteHeader (status : Z) : gwE unit
  | WriteBody (b : response_body) : gwE unit
  (** [http.Error] and [http.Redirect] *)
  | HttpError (msg : string) (status : Z) : gwE unit
  | Redirect (url : string) (status : Z) : gwE unit.
End requests.
Arguments AuthReq {_ X} e.
Arguments ApiReq {_ X} e.
Arguments RecReq {_ X} e.
Arguments WsReq {_ X} e.

Definition StatusFound : Z := 302.
Definition StatusBadRequest : Z := 400.
Definition StatusMethodNotAllowed : Z := 405.
Definition StatusTooManyRequests : Z := 429.
Definition StatusInternalServerError : Z := 500.
Definition StatusBadGateway : Z := 502.
Definition StatusServiceUnavailable : Z := 503.
Definition WorkspaceErrorCodeUnavailable : string := "workspace_unavailable".
Definition WorkspaceErrorCodeNotReady : string := "workspace_not_ready".
Definition RateLimitErrorCode : string := "rate_limited".

(** ** Environment variables *)

Definition envOr (getenv : string → string) (key def : string) : string :=
  if bool_decide (getenv key = "") then def else getenv key.

Definition parseOIDCClockSkew (getenv : string → string) : result Duration :=
  let s := TrimSpace (getenv "OIDC_CLOCK_SKEW") in
  if bool_decide (s = "") then Ok (60 * Second)
  else match ParseDuration s with
       | Err err => Err err
       | Ok d => if d <? 0 then Err (errors_new "duration must be >= 0") else Ok d
       end.

(** The parts of [main]'s configuration that need no library. *)
Definition main_cookieSecure (redirectURL : string) : bool := HasPrefix redirectURL "https://".

Definition main_lifecycle_config (getenv : string → string) (aiProviders : list AIProvider) : LifecycleConfig :=
  MkLifecycleConfig aiProviders (envOr getenv "DEFAULT_CPU" "2") (envOr getenv "DEFAULT_MEMORY" "4Gi")
    (envOr getenv "DEFAULT_STORAGE" "20Gi") (getenv "DEFAULT_STORAGE_CLASS").

(** ** The token of a request *)

Definition extractToken (r : HttpRequest) : result string :=
  let auth := Header_Get r "Authorization" in
  if HasPrefix auth "Bearer " then Ok (TrimPrefix auth "Bearer ")
  else
    let query :=
      let token := Query_Get r "token" in
      if bool_decide (token = "")
      then Err (errors_new "no token in Authorization header, devplane_token cookie, or ?token query param")
      else Ok token in
    match Cookie_Get r "devplane_token" with
    | Some v => if bool_decide (v = "") then query else Ok v
    | None => query
    end.

(** ** The page injected into the terminal *)

Definition fullWidthTerminalCSS : bytes := bytes_of
  "<style>html,body{width:100%;height:100%;margin:0;padding:0;overflow:hidden;box-sizing:border-box}body>div,#terminal{width:100%!important;height:100%!important;margin:0!important;padding:0!important;box-sizing:border-box}</style>".

(** [bytes.Replace(s, old, new, 1)]. *)
Fixpoint replace_first (old new s : bytes) : bytes :=
  if bytes_prefix old s then new ++ drop (length old) s
  else match s with
       | [] => []
       | c :: s' => c :: replace_first old new s'
       end.

Definition headClose : bytes := bytes_of "</head>".

Definition injectFullWidthTerminalCSS (resp : HttpResponse) : result HttpResponse :=
  if negb (Resp_Status resp =? StatusOK) then Ok resp
  else
    let ct := default "" (Resp_Header resp !! "Content-Type") in
    if negb (Contains ct "text/html") then Ok resp
    else match Resp_Body resp with
         | Err err => Err err
         | Ok body =>
           if negb (bytes_contains body headClose) then Ok resp
           else
             let injected := replace_first headClose (fullWidthTerminalCSS ++ headClose) body in
             Ok (MkHttpResponse (Resp_Status resp)
                   (delete "Transfer-Encoding"
                      (<["Content-Length" := pretty (Z.of_nat (length injected))]> (Resp_Header resp)))
                   (Ok injected) (Z.of_nat (length injected)))
         end.

(** ** Handlers *)

Section handlers.
Context `{UnicodeTables} `{K8sLib}.
Abbreviation gw := (prog gwE).

Definition lift_auth {A} : prog authE A → gw A := embed (@AuthReq _).
Definition lift_api {A} : prog apiE A → gw A := embed (@ApiReq _).
Definition lift_rec {A} : prog recE A → gw A := embed (@RecReq _).
Definition lift_ws {A} : prog wsE A → gw A := embed (@WsReq _).

Definition audit (l : audit_line) : gw unit := request (AuditReq l).

(** The interface [tokenValidator]: it may only ask for what token validation
    asks for. *)
Definition is_auth (c : call gwE) : bool := match c with Call e _ => match e with AuthReq _ => true | _ => false end end.

Class tokenValidator := {
  Validator_Validate : string → gw (result Claims);
  Validator_confined h tok : safe (λ _ c, is_auth c = true) h (Validator_Validate tok);
}.

(** [gw.RequestID(w, r)]. *)
Definition RequestID (r : HttpRequest) : gw string :=
  let id := Header_Get r "X-Request-ID" in
  if bool_decide (id = "") then
    id ← request UUID;
    _ ← request (SetHeader "X-Request-ID" id);
    mret id
  else
    _ ← request (SetHeader "X-Request-ID" id);
    mret id.

Definition WriteJSONError (status : Z) (code : string) : gw unit :=
  _ ← request (RecordJSONAPIError status code);
  _ ← request (SetHeader "Content-Type" "application/json; charset=utf-8");
  _ ← request (WriteHeader status);
  request (WriteBody (JSONError code)).
Definition WriteJSONAuthError : Z → string → gw unit := WriteJSONError.

Definition serveLoadingPage (displayName phase : string) : gw unit :=
  _ ← request (SetHeader "Content-Type" "text/html; charset=utf-8");
  _ ← request (WriteHeader StatusOK);
  request (WriteBody (LoadingPage displayName phase)).

(** The cookie that removes [name]. *)
Definition expired_cookie (name : string) (secure : bool) : Cookie :=
  MkCookie name "" "/" (-1) None true secure SameSiteUnset.

(** [StartedAt] and the id are filled in by the recorder. *)
Definition session_meta (reqID : string) (claims : Claims) (namespace : string) (ws : Workspace)
    (remote : string) : SessionMeta :=
  MkSessionMeta "" reqID (Claims_Sub claims) (Claims_UserID claims) namespace (Name (WS_Meta ws))
    (Status_ServiceEndpoint (WS_Status ws)) remote "".

Definition handleHealth : gw unit :=
  _ ← request (WriteHeader StatusOK);
  request (WriteBody (Plain "ok")).

Definition handleLogin (r : HttpRequest) (secure : bool) : gw unit :=
  reqID ← RequestID r;
  state ← request UUID;
  _ ← request (SetCookie (MkCookie "devplane_state" state "/" 600 None true secure SameSiteLaxMode));
  _ ← audit (LogAudit "audit: OIDC login redirect" reqID EventAuditOIDCLoginRedirect
               [(LogKeyAuditOutcome, LStr OutcomeSuccess); ("remote", LStr (RemoteAddr r))]);
  url ← request (AuthCodeURL state);
  request (Redirect url StatusFound).

Section with_validator.
Context `{!tokenValidator}.

(** The audit line and answer of a callback that failed. *)
Definition callback_failed (reqID reason msg : string) (status : Z) : gw unit :=
  _ ← audit (LogOIDCCallbackFailure reqID reason);
  request (HttpError msg status).

(** After the code was exchanged. *)
Definition callback_token (reqID : string) (secure : bool) (token : OAuthToken) : gw unit :=
  let rawIDToken := default "" (id_token token) in
  if bool_decide (rawIDToken = "") then
    callback_failed reqID "missing_id_token" "Missing id_token in token response" StatusBadGateway
  else
    v ← Validator_Validate rawIDToken;
    match v with
    | Err _ => callback_failed reqID "invalid_id_token" "Invalid ID token" StatusUnauthorized
    | Ok claims =>
      expiry ← (if IsZero (Expiry token)
                then now ← request (ApiReq Now); mret (now + Hour)
                else mret (Expiry token));
      _ ← request (SetCookie (MkCookie "devplane_token" rawIDToken "/" 0 (Some expiry) true secure SameSiteLaxMode));
      _ ← audit (LogOIDCCallbackSuccess reqID claims);
      request (Redirect "/" StatusFound)
    end.

Definition handleCallback (r : HttpRequest) (secure : bool) : gw unit :=
  reqID ← RequestID r;
  match Cookie_Get r "devplane_state" with
  | None => callback_failed reqID "missing_state_cookie" "Missing state cookie" StatusBadRequest
  | Some stateCookie =>
    if negb (bool_decide (Query_Get r "state" = stateCookie)) then
      callback_failed reqID "state_mismatch" "State mismatch" StatusBadRequest
    else
      _ ← request (SetCookie (expired_cookie "devplane_state" secure));
      t ← request (Exchange (Query_Get r "code"));
      match t with
      | Err _ => callback_failed reqID "token_exchange_failed" "Token exchange failed" StatusBadGateway
      | Ok token => callback_token reqID secure token
      end
  end.

Context (cfg : LifecycleConfig) (namespace : string).

(** The answer of the REST endpoint for a workspace. *)
Definition api_answer (claims : Claims) (ws : Workspace) (ready : bool) : workspaceAPIResponse :=
  let s := WS_Status ws in
  MkWorkspaceAPIResponse (Name (WS_Meta ws)) (Namespace (WS_Meta ws)) (Claims_UserID claims)
    (Claims_Email claims) (Status_Phase s) (Status_ServiceEndpoint s) (Status_PodName s)
    (Status_Message s) ready.

Definition rate_limited (reqID endpoint scope : string) (claims : Claims) : gw unit :=
  _ ← request (RecordRateLimitHit endpoint scope);
  _ ← audit (LogRateLimitAudit reqID endpoint scope (Claims_UserID claims));
  WriteJSONError StatusTooManyRequests RateLimitErrorCode.

Definition missing_token (r : HttpRequest) (reqID : string) : gw unit :=
  _ ← audit (LogAuthTokenRejected reqID (RemoteAddr r) "missing_token" StatusUnauthorized AuthErrorCodeUnauthorized);
  WriteJSONAuthError StatusUnauthorized AuthErrorCodeUnauthorized.

Definition invalid_token (r : HttpRequest) (reqID : string) (err : error) : gw unit :=
  let '(st, code) := AuthErrorResponse (Some err) in
  _ ← audit (LogAuthTokenRejected reqID (RemoteAddr r) "invalid_token" st code);
  WriteJSONAuthError st code.

Definition BackendReady (serviceEndpoint : string) : gw bool :=
  err ← request (DialTimeout "tcp" (probe_addr serviceEndpoint) backendReadyTimeout);
  match err with
  | Some _ => mret false
  | None => mret true
  end.

(** An authenticated, admitted call of the REST endpoint. *)
Definition workspace_ensured (reqID : string) (claims : Claims) : gw unit :=
  e ← lift_api (EnsureExists cfg namespace claims);
  match e with
  | (Err _, _) => WriteJSONError StatusInternalServerError WorkspaceErrorCodeUnavailable
  | (Ok ws, details) =>
    _ ← audit (LogWorkspaceLifecycleAudit "audit: workspace ensure (API)" reqID
                 EventAuditWorkspaceEnsureExists namespace claims ws details);
    let ep := Status_ServiceEndpoint (WS_Status ws) in
    ready ← (if bool_decide (phase ws = WorkspacePhaseRunning) && negb (bool_decide (ep = ""))
             then BackendReady ep else mret false);
    _ ← request (SetHeader "Content-Type" "application/json; charset=utf-8");
    _ ← request (WriteHeader StatusOK);
    request (WriteBody (JSONWorkspace (api_answer claims ws ready)))
  end.

Definition handleWorkspaceAPI (r : HttpRequest) (secure : bool) : gw unit :=
  if negb (bool_decide (Method r = "GET")) && negb (bool_decide (Method r = "POST")) then
    request (HttpError "Method not allowed" StatusMethodNotAllowed)
  else
    reqID ← RequestID r;
    match extractToken r with
    | Err _ => missing_token r reqID
    | Ok rawToken =>
      v ← Validator_Validate rawToken;
      match v with
      | Err err =>
        _ ← request (SetCookie (expired_cookie "devplane_token" secure));
        invalid_token r reqID err
      | Ok claims =>
        a ← request (AllowReq "lifecycle" (Claims_Sub claims));
        if negb a.1 then rate_limited reqID "lifecycle" a.2 claims
        else workspace_ensured reqID claims
      end
    end.

(** The reverse proxy to the workspace, with its two hooks. *)
Definition proxy_through (displayName : string) (ws : Workspace) (target : string) : gw unit :=
  let unreachable := serveLoadingPage displayName (phase ws) in
  t ← request (RoundTrip target);
  match t with
  | Err _ => unreachable
  | Ok resp =>
    match injectFullWidthTerminalCSS resp with
    | Err _ => unreachable
    | Ok resp => request (CopyResponse resp)
    end
  end.

(** The error of [url.Parse] is dropped: with a nil target the proxy's director
    panics before anything is sent. *)
Definition proxy_to (displayName : string) (ws : Workspace) : gw unit :=
  let url := BackendHTTPURL (Status_ServiceEndpoint (WS_Status ws)) in
  refused ← request (ParseURL url);
  match refused with
  | Some _ => request (Panic "invalid memory address or nil pointer dereference")
  | None => proxy_through displayName ws url
  end.

Definition handleProxy (r : HttpRequest) (secure : bool) : gw unit :=
  match extractToken r with
  | Err _ => request (Redirect "/login" StatusFound)
  | Ok rawToken =>
    v ← Validator_Validate rawToken;
    match v with
    | Err _ =>
      _ ← request (SetCookie (expired_cookie "devplane_token" secure));
      request (Redirect "/login" StatusFound)
    | Ok claims =>
      e ← lift_api (EnsureExists cfg namespace claims);
      match e.1 with
      | Err _ => request (HttpError "Failed to provision workspace" StatusInternalServerError)
      | Ok ws =>
        let displayName := if bool_decide (Claims_Email claims = "") then Claims_UserID claims
                           else Claims_Email claims in
        if negb (bool_decide (phase ws = WorkspacePhaseRunning))
           || bool_decide (Status_ServiceEndpoint (WS_Status ws) = "")
        then serveLoadingPage displayName (phase ws)
        else proxy_to displayName ws
      end
    end
  end.

(** ** The WebSocket endpoint *)

(** [proxy.ServeWS]: after an error before the tunnel it returns the error, after
    the tunnel it returns nil. *)
Definition ServeWS (backendURL : string) (recorder : option SessionRecorder) (ws : Workspace) :
    gw (option error * option SessionRecorder) :=
  o ← lift_ws (ServeWS_open backendURL);
  match o with
  | Some err => mret (Some err, recorder)
  | None =>
    recorder' ← request (RunTunnel backendURL recorder ws);
    _ ← request (WsReq (CloseConn BackendConn));
    _ ← request (WsReq (CloseConn ClientConn));
    mret (None, recorder')
  end.

Definition session_fields (claims : Claims) (ws : Workspace) : list (string * log_value) :=
  [(LogKeyActorSubject, LStr (Claims_Sub claims)); (LogKeyUserID, LStr (Claims_UserID claims));
   (LogKeyNamespace, LStr namespace); (LogKeyWorkspace, LStr (Name (WS_Meta ws)));
   (LogKeyAuditOutcome, LStr OutcomeSuccess)].

(** From the ready backend to the end of the session. *)
Definition ws_session (r : HttpRequest) (reqID : string) (recording : SessionRecordingConfig)
    (claims : Claims) (ws : Workspace) : gw unit :=
  let ep := Status_ServiceEndpoint (WS_Status ws) in
  let backendURL := BackendURL ep in
  recorder ← lift_rec (NewSessionRecorder recording (session_meta reqID claims namespace ws (RemoteAddr r)));
  _ ← audit (LogAudit "audit: WebSocket session start" reqID EventAuditWSSessionStart
               (session_fields claims ws ++ [("backendHost", LStr ep)]));
  o ← ServeWS backendURL recorder ws;
  match o with
  | (Some err, recorder) =>
    _ ← lift_rec (Close recorder (Some err));
    audit (LogAudit "audit: WebSocket session end" reqID EventAuditWSSessionEnd
             (session_fields claims ws ++ [(LogKeyAuditReason, LStr (Error err))]))
  | (None, recorder) =>
    _ ← lift_rec (Close recorder None);
    mret ()
  end.

(** [None]: the fuel of the wait ran out. *)
Definition handleWS (fuel : nat) (getenv : string → string) (r : HttpRequest) : gw (option unit) :=
  reqID ← RequestID r;
  match extractToken r with
  | Err _ => _ ← missing_token r reqID; mret (Some ())
  | Ok rawToken =>
    v ← Validator_Validate rawToken;
    match v with
    | Err err => _ ← invalid_token r reqID err; mret (Some ())
    | Ok claims =>
      a ← request (AllowReq "websocket" (Claims_Sub claims));
      if negb a.1 then _ ← rate_limited reqID "websocket" a.2 claims; mret (Some ())
      else
        e ← lift_api (EnsureWorkspace fuel cfg namespace claims);
        match e with
        | None => mret None
        | Some (Err _, _) =>
          _ ← WriteJSONError StatusInternalServerError WorkspaceErrorCodeUnavailable; mret (Some ())
        | Some (Ok ws, details) =>
          _ ← audit (LogWorkspaceLifecycleAudit "audit: workspace ensure (WebSocket)" reqID
                       EventAuditWorkspaceEnsureRunning namespace claims ws details);
          ready ← BackendReady (Status_ServiceEndpoint (WS_Status ws));
          if negb ready then
            _ ← WriteJSONError StatusServiceUnavailable WorkspaceErrorCodeNotReady; mret (Some ())
          else
            _ ← ws_session r reqID (SessionRecordingConfigFromEnv getenv) claims ws; mret (Some ())
        end
    end
  end.
End with_validator.
End handlers.

(** ** The two validators *)

Section validators.
Context `{UnicodeTables} `{K8sLib}.

(** [*gw.Validator]. *)
Definition oidc_validator : tokenValidator.
Proof.
  refine {| Validator_Validate := λ tok, lift_auth (Validate tok) |}.
  intros h tok. unfold lift_auth. eapply (safe_embed _ (λ _ _, True) _ []); [apply safe_true|].
  by intros t [X e x] _.
Defined.

(** [*gw.FixedIdentityValidator]. *)
Definition fixed_validator (f : Claims) : tokenValidator.
Proof. refine {| Validator_Validate := λ tok, mret (Fixed_Validate f tok) |}. done. Defined.

(** The validator [main] installs; an [Err] ends the program.  [discover] is
    [gooidc.NewProvider]. *)
Definition mustEnv (getenv : string → string) (key : string) : result string :=
  let v := getenv key in
  if bool_decide (v = "") then Err (errors_new ("required env var " +:+ Quote key +:+ " is not set")) else Ok v.

Definition main_validator (getenv : string → string) (discover : string → option error)
    (issuerURL clientID : string) : result (Claims + verifier_config * cache) :=
  if bool_decide (getenv "GATEWAY_DEV_INSECURE_FIXED_IDENTITY" = "1") then
    Ok (inl (NewFixedIdentityValidator (envOr getenv "GATEWAY_DEV_USER_SUB" "dev-user")
               (envOr getenv "GATEWAY_DEV_USER_EMAIL" "dev@localhost")))
  else
    let audienceOverride := TrimSpace (getenv "OIDC_AUDIENCE") in
    clockSkew ← parseOIDCClockSkew getenv;
    v ← NewValidatorWithOIDC discover (MkOIDCConfig issuerURL clientID audienceOverride clockSkew);
    Ok (inr v).

Definition installed (v : Claims + verifier_config * cache) : tokenValidator :=
  match v with
  | inl f => fixed_validator f
  | inr _ => oidc_validator
  end.
End validators.
