(* ===== verification/GatewayConfig.v ===== *)
(** * The gateway's configuration ([main] of [cmd/gateway/main.go])

    The providers decoded from [AI_PROVIDERS_JSON], and everything [main] reads
    from the environment before it serves. *)
From S2P Require Import Prelude GoStrings GoTime Utf8 Json JsonDecode JsonRoundTrip Api K8s K8sClient Resources.
From S2P Require Import Auth Lifecycle LifecycleProps Proxy SessionRecording AuditLog GatewayHttp.
From Stdlib Require Import ZArith Lia.
#[local] Open Scope Z_scope.

(** ** [json.Unmarshal] into [\[\]AIProvider] *)

(** [foldName]: keys match the field names up to simple case folding; of the runes
    beyond ASCII only two fold to an ASCII letter. *)
Definition fold_rune (r : Z) : Z :=
  if (97 <=? r) && (r <=? 122) then r - 32
  else if r =? 383 then 83
  else if r =? 8490 then 75
  else r.
Definition same_name (key : list Z) (name : string) : bool :=
  bool_decide (map fold_rune key = map fold_rune (runes (bytes_of name))).

Definition json_error : error := errors_new "json: cannot unmarshal".

(** A string; [null] leaves what is there. *)
Definition decode_string (old : string) (v : json) : result string :=
  match v with
  | JString s => Ok (of_runes s)
  | JNull => Ok old
  | _ => Err json_error
  end.

(** A slice of strings, decoded element by element over what is there. *)
Fixpoint decode_strings (old : list string) (l : list json) : result (list string) :=
  match l with
  | [] => Ok []
  | v :: l' =>
    s ← decode_string (default "" (head old)) v;
    ss ← decode_strings (tl old) l';
    Ok (s :: ss)
  end.
Definition decode_models (old : list string) (v : json) : result (list string) :=
  match v with
  | JArray l => decode_strings old l
  | JNull => Ok []
  | _ => Err json_error
  end.

(** One member of the object; unknown keys are ignored. *)
Definition decode_member (p : AIProvider) (m : list Z * json) : result AIProvider :=
  let '(key, v) := m in
  if same_name key "name" then
    s ← decode_string (Provider_Name p) v; Ok (MkAIProvider s (Provider_Endpoint p) (Provider_Models p))
  else if same_name key "endpoint" then
    s ← decode_string (Provider_Endpoint p) v; Ok (MkAIProvider (Provider_Name p) s (Provider_Models p))
  else if same_name key "models" then
    l ← decode_models (Provider_Models p) v; Ok (MkAIProvider (Provider_Name p) (Provider_Endpoint p) l)
  else Ok p.

Fixpoint decode_members (p : AIProvider) (ms : list (list Z * json)) : result AIProvider :=
  match ms with
  | [] => Ok p
  | m :: ms' => p' ← decode_member p m; decode_members p' ms'
  end.

Definition decode_provider (v : json) : result AIProvider :=
  match v with
  | JObject ms => decode_members (MkAIProvider "" "" []) ms
  | JNull => Ok (MkAIProvider "" "" [])
  | _ => Err json_error
  end.

Fixpoint decode_providers (l : list json) : result (list AIProvider) :=
  match l with
  | [] => Ok []
  | v :: l' => p ← decode_provider v; ps ← decode_providers l'; Ok (p :: ps)
  end.

Definition Unmarshal_providers (s : string) : result (list AIProvider) :=
  match parse_document s with
  | Some (JArray l) => decode_providers l
  | Some JNull => Ok []
  | Some _ => Err json_error
  | None => Err (errors_new "invalid character")
  end.

(** ** The round trip *)

Record utf8_provider (p : AIProvider) : Prop := {
  utf8_name : utf8_ValidString (Provider_Name p) = true;
  utf8_endpoint : utf8_ValidString (Provider_Endpoint p) = true;
  utf8_models : Forall (λ m, utf8_ValidString m = true) (Provider_Models p);
}.

(** The value a provider's text parses to. *)
Definition models_value (ms : list string) : json :=
  match ms with [] => JNull | _ => JArray (map (λ m, JString (runes (bytes_of m))) ms) end.
Definition provider_value (p : AIProvider) : json :=
  JObject [(runes (bytes_of "name"), JString (runes (bytes_of (Provider_Name p))));
           (runes (bytes_of "endpoint"), JString (runes (bytes_of (Provider_Endpoint p))));
           (runes (bytes_of "models"), models_value (Provider_Models p))].

Lemma parses_models ms :
  Forall (λ m, utf8_ValidString m = true) ms →
  parses 1 (bytes_of (json_array (map json_string ms))) (models_value ms).
Proof.
  intros Hm. destruct ms as [|m ms]; [apply parses_null|]. apply (parses_array 0); [done| |done].
  induction Hm as [|x l Hx _ IH]; [constructor|]. constructor; [by apply parses_string|done].
Qed.

Lemma parses_provider p : utf8_provider p → parses 2 (bytes_of (provider_json p)) (provider_value p).
Proof.
  intros [Hn He Hm]. apply (parses_object 1); [done| |done].
  repeat constructor; try reflexivity; cbn [snd];
    [by apply (parses_mono 0), parses_string..|by apply parses_models].
Qed.

Lemma decode_strings_valid old ms :
  Forall (λ m, utf8_ValidString m = true) ms →
  decode_strings old (map (λ m, JString (runes (bytes_of m))) ms) = Ok ms.
Proof.
  intros Hm. revert old. induction Hm as [|m ms Hx _ IH]; intros old; [done|].
  cbn. rewrite of_runes_valid, IH by done. done.
Qed.

Lemma decode_models_valid ms :
  Forall (λ m, utf8_ValidString m = true) ms → decode_models [] (models_value ms) = Ok ms.
Proof. intros Hm. destruct ms as [|m ms]; [done|]. by apply decode_strings_valid. Qed.

Lemma decode_provider_valid p : utf8_provider p → decode_provider (provider_value p) = Ok p.
Proof.
  intros [Hn He Hm]. destruct p as [name endpoint models]. cbn in Hn, He, Hm.
  cbn -[of_runes runes bytes_of decode_models models_value same_name].
  assert (Es : ∀ n, same_name (runes (bytes_of n)) n = true) by (intros n; by apply bool_decide_eq_true).
  assert (E1 : same_name (runes (bytes_of "endpoint")) "name" = false) by reflexivity.
  assert (E2 : same_name (runes (bytes_of "models")) "name" = false) by reflexivity.
  assert (E3 : same_name (runes (bytes_of "models")) "endpoint" = false) by reflexivity.
  rewrite !Es, E1, E2, E3. cbn -[of_runes runes bytes_of decode_models models_value].
  by rewrite decode_models_valid, !of_runes_valid.
Qed.

(** C36. The round trip of the provider list: for all providers whose strings are
      valid UTF-8, whatever characters need escaping, the JSON text the operator
      puts into a workspace pod's environment ([AI_PROVIDERS_JSON]) decodes with
      [json.Unmarshal], as the gateway decodes the variable of that name, to
      exactly those providers. *)
Theorem providers_roundtrip ps :
  Forall utf8_provider ps → Unmarshal_providers (json_array (map provider_json ps)) = Ok ps.
Proof.
  intros Hps. destruct ps as [|p ps]; [reflexivity|].
  assert (Hd : parse_document (json_array (map provider_json (p :: ps))) =
    Some (JArray (map provider_value (p :: ps)))).
  { apply (parse_document_ok 3); [done|]. apply (parses_array 2); [done| |done].
    clear -Hps. induction Hps as [|x l Hx _ IH]; [constructor|]. constructor; [by apply parses_provider|done]. }
  unfold Unmarshal_providers. rewrite Hd. clear Hd. induction Hps as [|x l Hx _ IH]; [done|].
  cbn -[decode_provider provider_value]. by rewrite decode_provider_valid, IH.
Qed.

(** ** Reading the environment *)

Definition default_providers : string :=
  quoted "[{'name':'local','endpoint':'http://vllm.ai-system.svc:8000','models':['deepseek-coder-33b-instruct']}]".

Record gateway_config := MkGatewayConfig {
  gc_issuerURL : string;
  gc_clientID : string;
  gc_clientSecret : string;
  gc_redirectURL : string;
  gc_namespace : string;
  gc_port : string;
  gc_lifecycle : LifecycleConfig;
  gc_cookieSecure : bool;
}.

Section config.
Context `{UnicodeTables} `{K8sLib}.

(** Lines 78-92 and 152-158; an [Err] ends the program. *)
Definition main_config (getenv : string → string) : result gateway_config :=
  issuerURL ← mustEnv getenv "OIDC_ISSUER_URL";
  clientID ← mustEnv getenv "OIDC_CLIENT_ID";
  clientSecret ← mustEnv getenv "OIDC_CLIENT_SECRET";
  redirectURL ← mustEnv getenv "OIDC_REDIRECT_URL";
  aiProviders ← Unmarshal_providers (envOr getenv "AI_PROVIDERS_JSON" default_providers);
  Ok (MkGatewayConfig issuerURL clientID clientSecret redirectURL
        (envOr getenv "NAMESPACE" "default") (envOr getenv "PORT" "8080")
        (main_lifecycle_config getenv aiProviders) (main_cookieSecure redirectURL)).

(** The whole start-up: configuration, validator, the provider for the OAuth2
    flow (a second discovery, with the result [oauth]), the Kubernetes client
    ([kube] is its error, if any). *)
Definition main_start (getenv : string → string) (discover : string → option error)
    (oauth kube : option error) : result (gateway_config * tokenValidator) :=
  cfg ← main_config getenv;
  v ← main_validator getenv discover (gc_issuerURL cfg) (gc_clientID cfg);
  _ ← match oauth with Some e => Err e | None => Ok () end;
  _ ← match kube with Some e => Err e | None => Ok () end;
  Ok (cfg, installed v).

Lemma default_providers_decoded :
  Unmarshal_providers default_providers =
    Ok [MkAIProvider "local" "http://vllm.ai-system.svc:8000" ["deepseek-coder-33b-instruct"]].
Proof. vm_compute. reflexivity. Qed.

(** The variables for resources and providers, or the built-in values where they are
    unset, are what the operator accepts. *)
Record env_acceptable (getenv : string → string) : Prop := {
  env_cpu : quantity_ok (envOr getenv "DEFAULT_CPU" "2");
  env_memory : quantity_ok (envOr getenv "DEFAULT_MEMORY" "4Gi");
  env_storage : quantity_ok (envOr getenv "DEFAULT_STORAGE" "20Gi");
  env_providers : ∃ ps, Unmarshal_providers (envOr getenv "AI_PROVIDERS_JSON" default_providers) = Ok ps ∧
    ps ≠ [] ∧ Forall provider_ok ps;
}.

(** What [main] has read when it gets through its configuration. *)
Lemma main_config_ok getenv cfg :
  main_config getenv = Ok cfg →
  ∃ ps, Unmarshal_providers (envOr getenv "AI_PROVIDERS_JSON" default_providers) = Ok ps ∧
    gc_lifecycle cfg = main_lifecycle_config getenv ps.
Proof.
  intros Hcfg. unfold main_config in Hcfg.
  apply result_bind_ok in Hcfg as (i & _ & Hcfg). apply result_bind_ok in Hcfg as (c & _ & Hcfg).
  apply result_bind_ok in Hcfg as (k & _ & Hcfg). apply result_bind_ok in Hcfg as (u & _ & Hcfg).
  apply result_bind_ok in Hcfg as (ps & Hps & [= <-]). by exists ps.
Qed.

Lemma env_acceptable_config getenv cfg :
  main_config getenv = Ok cfg → env_acceptable getenv ↔ config_ok (gc_lifecycle cfg).
Proof.
  intros (ps & Hps & ->)%main_config_ok. split.
  - intros [? ? ? (ps' & E & ?)]. rewrite Hps in E. injection E as <-. by split.
  - intros [? ? ? ?]. split; [done..|]. by exists ps.
Qed.

(** The environment with one variable changed. *)
Definition env_with (key value : string) (getenv : string → string) (k : string) : string :=
  if bool_decide (k = key) then value else getenv k.

(** C21. The contract between the gateway's environment and the operator.  When
      [main] gets through its configuration, a Workspace the gateway creates for a
      verified token passes the operator's validation exactly when the subject
      leaves a non-empty user id, the token carries an email, and the variables
      for CPU, memory, storage and providers hold what the operator accepts; they
      do when they are unset (and the built-in quantities parse).  [main] itself
      does not look: it gets through whatever [DEFAULT_CPU] holds. *)
Theorem gateway_contract getenv cfg :
  main_config getenv = Ok cfg →
  (∀ namespace t email,
    ValidateSpec (Some (new_workspace (gc_lifecycle cfg) namespace (claims_of t email))) = None ↔
    sanitizeUserID (Subject_ t) ≠ "" ∧ email ≠ "" ∧ env_acceptable getenv) ∧
  (getenv "AI_PROVIDERS_JSON" = "" → getenv "DEFAULT_CPU" = "" → getenv "DEFAULT_MEMORY" = "" →
   getenv "DEFAULT_STORAGE" = "" →
   quantity_ok "2" → quantity_ok "4Gi" → quantity_ok "20Gi" → env_acceptable getenv) ∧
  ∀ v, is_ok (main_config (env_with "DEFAULT_CPU" v getenv)) = true.
Proof.
  intros Hcfg. split; [|split].
  - intros namespace t email. rewrite (env_acceptable_config _ _ Hcfg). apply new_workspace_valid.
  - intros E1 E2 E3 E4 Q1 Q2 Q3. constructor; unfold envOr; rewrite ?E1, ?E2, ?E3, ?E4; [done..|].
    rewrite bool_decide_eq_true_2, default_providers_decoded by done. eexists. split; [reflexivity|].
    split; [done|]. constructor; [|constructor]. by split_and!.
  - intros v. unfold main_config in *.
    change (mustEnv (env_with "DEFAULT_CPU" v getenv) ?k) with (mustEnv getenv k).
    change (envOr (env_with "DEFAULT_CPU" v getenv) "AI_PROVIDERS_JSON") with (envOr getenv "AI_PROVIDERS_JSON").
    apply result_bind_ok in Hcfg as (i & -> & Hcfg). apply result_bind_ok in Hcfg as (c & -> & Hcfg).
    apply result_bind_ok in Hcfg as (k & -> & Hcfg). apply result_bind_ok in Hcfg as (u & -> & Hcfg).
    by apply result_bind_ok in Hcfg as (ps & -> & _).
Qed.
End config.

(** ** Witnesses *)

#[local] Existing Instance ascii_tables.
#[local] Existing Instance RefLib.

Definition odd_provider : AIProvider :=
  MkAIProvider (quoted "a'b\c") "http://x/?a=1&b=<2>" ["λ"; of_bytes [byte_of 10; byte_of 1; byte_of 127]].

Lemma providers_roundtrip_witness :
  utf8_provider odd_provider ∧ Unmarshal_providers (json_array (map provider_json [odd_provider])) = Ok [odd_provider].
Proof.
  assert (Hu : utf8_provider odd_provider) by (constructor; [reflexivity..|repeat constructor]).
  split; [exact Hu|]. apply (providers_roundtrip [odd_provider]). constructor; [exact Hu|constructor].
Defined.

Definition minimal_env (key : string) : string := if HasPrefix key "OIDC_" then "https://idp" else "".

Lemma gateway_contract_witness :
  ∃ cfg, main_config minimal_env = Ok cfg ∧ env_acceptable minimal_env ∧
    ValidateSpec (Some (new_workspace (gc_lifecycle cfg) "workspaces"
      (claims_of (MkIDToken "alice" (Ok "a@example.com")) "a@example.com"))) = None.
Proof.
  eexists. split; [reflexivity|].
  destruct (gateway_contract minimal_env _ eq_refl) as (Hiff & Hdef & _).
  assert (He : env_acceptable minimal_env) by (apply Hdef; try reflexivity; split; (discriminate || reflexivity)).
  split; [exact He|]. apply Hiff. split; [discriminate|]. split; [discriminate|exact He].
Defined.

(** A gateway that starts, and none of whose Workspaces the operator accepts. *)
Example lots_of_cpu :
  is_ok (main_config (env_with "DEFAULT_CPU" "lots" minimal_env)) = true ∧
  ¬ env_acceptable (env_with "DEFAULT_CPU" "lots" minimal_env).
Proof. split; [reflexivity|]. intros [[_ Hq] _ _ _]. discriminate Hq. Qed.
