(* ===== verification/ResponseBodies.v ===== *)
(** * The bodies of the gateway's answers

    What the handlers' answers hold, byte for byte: the JSON of an error and of
    the workspace API, and the page shown while a workspace starts.  The page is
    an [html/template]: the user's display name and the phase are escaped, so that
    whatever they hold the browser finds the same tags and shows the values as
    text. *)
From S2P Require Import Prelude GoStrings GoTime Utf8 Json JsonDecode JsonRoundTrip JsonStruct.
From S2P Require Import Api K8s K8sClient Auth Lifecycle Proxy SessionRecording AuditLog GatewayHttp.
From Stdlib Require Import ZArith Lia.
#[local] Open Scope Z_scope.

(** ** The template *)

Definition loadingPageTmpl : string := quoted "<!DOCTYPE html>
<html lang='en'>
<head>
  <meta charset='UTF-8'>
  <meta http-equiv='refresh' content='3'>
  <meta name='viewport' content='width=device-width, initial-scale=1.0'>
  <title>DevPlane – Workspace Starting</title>
  <style>
    *, *::before, *::after { box-sizing: border-box; margin: 0; padding: 0; }
    body {
      display: flex; flex-direction: column; align-items: center;
      justify-content: center; min-height: 100vh;
      background: #0d1117; color: #e6edf3;
      font-family: ui-monospace, SFMono-Regular, Menlo, Consolas, monospace;
    }
    .spinner {
      width: 56px; height: 56px;
      border: 5px solid #30363d; border-top-color: #58a6ff;
      border-radius: 50%; animation: spin 0.9s linear infinite;
      margin-bottom: 2rem;
    }
    @keyframes spin { to { transform: rotate(360deg); } }
    h1 { font-size: 1.25rem; font-weight: 600; margin-bottom: 0.5rem; }
    p  { font-size: 0.875rem; color: #8b949e; }
  </style>
</head>
<body>
  <div class='spinner'></div>
  <h1>Hello {{.DisplayName}}, your workspace is spawning&hellip;</h1>
  <p>Phase: {{.Phase}}</p>
</body>
</html>".

(** [template.Parse], for templates whose actions are fields of the data: the
    text up to an opening delimiter, the action up to the closing one. *)
Inductive template_node := Text (t : bytes) | Field (name : string).

Inductive lex_state := InText (t : bytes) | InAction (a : bytes).

Fixpoint parse_template (st : lex_state) (s : bytes) : option (list template_node) :=
  match st, s with
  | InText t, [] => Some [Text t]
  | InText t, c :: s' =>
    match s' with
    | d :: s'' =>
      if Ascii.eqb c "{" && Ascii.eqb d "{" then
        nodes ← parse_template (InAction []) s''; Some (Text t :: nodes)
      else parse_template (InText (t ++ [c])) s'
    | [] => parse_template (InText (t ++ [c])) s'
    end
  | InAction _, [] => None
  | InAction a, c :: s' =>
    match s' with
    | d :: s'' =>
      if Ascii.eqb c "}" && Ascii.eqb d "}" then
        match a with
        | "."%char :: name => nodes ← parse_template (InText []) s''; Some (Field (of_bytes name) :: nodes)
        | _ => None
        end
      else parse_template (InAction (a ++ [c])) s'
    | [] => None
    end
  end.

(** [template.Must(template.New("loading").Parse(loadingPageTmpl))]. *)
Definition loadingTmpl : option (list template_node) := parse_template (InText []) (bytes_of loadingPageTmpl).

Record loadingPageData := MkLoadingPageData { DisplayName : string; Page_Phase : string }.

Definition data_field (d : loadingPageData) (name : string) : option string :=
  if bool_decide (name = "DisplayName") then Some (DisplayName d)
  else if bool_decide (name = "Phase") then Some (Page_Phase d)
  else None.

(** *** [html/template]'s escaping of a value between tags *)

Definition html_escape_byte (c : ascii) : bytes :=
  let z := bval c in
  if z =? 0 then map byte_of [239; 191; 189]
  else if z =? 34 then bytes_of "&#34;"
  else if z =? 38 then bytes_of "&amp;"
  else if z =? 39 then bytes_of "&#39;"
  else if z =? 43 then bytes_of "&#43;"
  else if z =? 60 then bytes_of "&lt;"
  else if z =? 62 then bytes_of "&gt;"
  else [c].
Definition html_escape (s : bytes) : bytes := concat (map html_escape_byte s).

(** [loadingTmpl.Execute(w, data)]: what reaches the client; a field the data has
    not stops it. *)
Fixpoint execute (d : loadingPageData) (nodes : list template_node) : bytes :=
  match nodes with
  | [] => []
  | Text t :: nodes' => t ++ execute d nodes'
  | Field name :: nodes' =>
    match data_field d name with
    | Some v => html_escape (bytes_of v) ++ execute d nodes'
    | None => []
    end
  end.

Definition loading_page (displayName phase : string) : bytes :=
  execute (MkLoadingPageData displayName phase) (default [] loadingTmpl).

(** ** What a browser makes of a page

    The tags of a page and the text between them, with its character references
    replaced.  Every [<] outside a tag starts one, so that no tag a browser finds
    is missed. *)

Inductive html_token := Tag (t : bytes) | Chars (t : bytes).
Inductive html_state := Data (t : bytes) | InTag (t : bytes) | InQuotes (q : ascii) (t : bytes).

Definition character_references : list (bytes * bytes) :=
  [(bytes_of "&#34;", [quote_mark]); (bytes_of "&amp;", bytes_of "&"); (bytes_of "&#39;", bytes_of "'");
   (bytes_of "&#43;", bytes_of "+"); (bytes_of "&lt;", bytes_of "<"); (bytes_of "&gt;", bytes_of ">");
   (bytes_of "&hellip;", bytes_of "…")].

Fixpoint find_reference (refs : list (bytes * bytes)) (s : bytes) : option (bytes * nat) :=
  match refs with
  | [] => None
  | (r, v) :: refs' => if bytes_prefix r s then Some (v, length r) else find_reference refs' s
  end.

(** [skip] bytes belong to a reference already replaced. *)
Fixpoint html_unescape (skip : nat) (s : bytes) : bytes :=
  match s with
  | [] => []
  | c :: s' =>
    match skip with
    | S k => html_unescape k s'
    | O => match find_reference character_references s with
           | Some (v, n) => v ++ html_unescape (n - 1) s'
           | None => c :: html_unescape 0 s'
           end
    end
  end.

Definition text_token (t : bytes) : list html_token := match t with [] => [] | _ => [Chars (html_unescape 0 t)] end.

Definition html_step (st : html_state) (c : ascii) : list html_token * html_state :=
  match st with
  | Data t => if Ascii.eqb c "<" then (text_token t, InTag []) else ([], Data (t ++ [c]))
  | InTag t =>
    if Ascii.eqb c ">" then ([Tag t], Data [])
    else if Ascii.eqb c quote_mark || Ascii.eqb c "'" then ([], InQuotes c (t ++ [c]))
    else ([], InTag (t ++ [c]))
  | InQuotes q t => if Ascii.eqb c q then ([], InTag (t ++ [c])) else ([], InQuotes q (t ++ [c]))
  end.

Fixpoint html_run (st : html_state) (s : bytes) : list html_token * html_state :=
  match s with
  | [] => ([], st)
  | c :: s' =>
    let '(ts, st1) := html_step st c in
    let '(ts', st') := html_run st1 s' in (ts ++ ts', st')
  end.

Definition html_tokens (s : bytes) : list html_token :=
  let '(ts, st) := html_run (Data []) s in
  ts ++ match st with Data t => text_token t | _ => [] end.

Definition html_tags (ts : list html_token) : list bytes :=
  concat (map (λ t, match t with Tag b => [b] | Chars _ => [] end) ts).

Lemma html_run_app st s s' :
  html_run st (s ++ s') =
    ((html_run st s).1 ++ (html_run (html_run st s).2 s').1, (html_run (html_run st s).2 s').2).
Proof.
  revert st. induction s as [|c s IH]; intros st; cbn; [by destruct (html_run st s')|].
  destruct (html_step st c) as [ts st1]. rewrite IH. destruct (html_run st1 s) as [ts1 st2]. cbn.
  by rewrite <- app_assoc.
Qed.

(** Text without [<] starts no tag. *)
Lemma html_run_text t s : Forall (λ c, c ≠ "<"%char) s → html_run (Data t) s = ([], Data (t ++ s)).
Proof.
  intros Hs. revert t. induction Hs as [|c s Hc _ IH]; intros t; cbn; [by rewrite app_nil_r|].
  rewrite (proj2 (Ascii.eqb_neq c "<")) by done. cbn. by rewrite IH, <- app_assoc.
Qed.

Lemma html_escape_no_tag s : Forall (λ c, c ≠ "<"%char) (html_escape s).
Proof.
  unfold html_escape. apply Forall_concat, Forall_fmap, Forall_true. intros c.
  destruct c as [[] [] [] [] [] [] [] []]; repeat (constructor; [discriminate|]); constructor.
Qed.

(** The value as the browser shows it: a NUL is replaced. *)
Definition displayed_byte (c : ascii) : bytes := if bval c =? 0 then map byte_of [239; 191; 189] else [c].
Definition displayed (s : string) : bytes := concat (map displayed_byte (bytes_of s)).

Lemma unescape_escape_byte c rest : html_unescape 0 (html_escape_byte c ++ rest) = displayed_byte c ++ html_unescape 0 rest.
Proof. destruct c as [[] [] [] [] [] [] [] []]; reflexivity. Qed.

Lemma unescape_escape s rest :
  html_unescape 0 (html_escape (bytes_of s) ++ rest) = displayed s ++ html_unescape 0 rest.
Proof.
  unfold displayed, html_escape. induction (bytes_of s) as [|c l IH]; [done|]. cbn -[html_escape_byte displayed_byte html_unescape].
  by rewrite <- !app_assoc, unescape_escape_byte, IH.
Qed.

Lemma unescape_plain_byte c rest : c ≠ "&"%char → html_unescape 0 (c :: rest) = c :: html_unescape 0 rest.
Proof. destruct c as [[] [] [] [] [] [] [] []]; intros Hc; first [reflexivity|by destruct Hc]. Qed.

Lemma unescape_plain t rest :
  forallb (λ c, negb (Ascii.eqb c "&")) t = true → html_unescape 0 (t ++ rest) = t ++ html_unescape 0 rest.
Proof.
  induction t as [|c t IH]; [done|]. cbn [forallb app]. intros [Hc Ht]%andb_true_iff.
  rewrite unescape_plain_byte, IH by (try done; intros ->; done). done.
Qed.

(** ** The loading page *)

(** The texts of the template around its two fields. *)
Definition tmpl_text (i : nat) : bytes :=
  match loadingTmpl with
  | Some nodes => match nodes !! i with Some (Text t) => t | _ => [] end
  | None => []
  end.

Lemma loadingTmpl_nodes :
  loadingTmpl = Some [Text (tmpl_text 0); Field "DisplayName"; Text (tmpl_text 2); Field "Phase"; Text (tmpl_text 4)].
Proof. vm_compute. reflexivity. Qed.

Lemma loading_page_text name phase :
  loading_page name phase =
    tmpl_text 0 ++ html_escape (bytes_of name) ++ tmpl_text 2 ++ html_escape (bytes_of phase) ++ tmpl_text 4.
Proof. unfold loading_page. rewrite loadingTmpl_nodes. cbn -[html_escape tmpl_text bytes_of]. by rewrite app_nil_r. Qed.

(** What the browser has read when a value starts. *)
Lemma html_run_head : (html_run (Data []) (tmpl_text 0)).2 = Data (bytes_of "Hello ").
Proof. vm_compute. reflexivity. Qed.

(** Reading on after a value: the text of the template up to the next tag. *)
Lemma html_run_value t name rest :
  html_run (Data t) (html_escape (bytes_of name) ++ rest) = html_run (Data (t ++ html_escape (bytes_of name))) rest.
Proof.
  rewrite html_run_app, (html_run_text t) by apply html_escape_no_tag. cbn. by destruct (html_run _ rest).
Qed.

Lemma html_run_mid t :
  html_run (Data t) (tmpl_text 2) =
    (text_token (t ++ bytes_of ", your workspace is spawning&hellip;") ++
       [Tag (bytes_of "/h1"); Chars (newline :: bytes_of "  "); Tag (bytes_of "p")], Data (bytes_of "Phase: ")).
Proof.
  assert (E : tmpl_text 2 = bytes_of ", your workspace is spawning&hellip;" ++ bytes_of "</h1>
  <p>Phase: ") by (vm_compute; reflexivity).
  rewrite E, html_run_app, html_run_text by (apply (bool_decide_unpack _); vm_compute; exact I). reflexivity.
Qed.

Lemma html_run_tail t :
  html_run (Data t) (tmpl_text 4) =
    (text_token t ++ [Tag (bytes_of "/p"); Chars [newline]; Tag (bytes_of "/body"); Chars [newline]; Tag (bytes_of "/html")], Data []).
Proof. reflexivity. Qed.

Lemma text_token_prefix c t : text_token (c :: t) = [Chars (html_unescape 0 (c :: t))].
Proof. done. Qed.

Lemma greeting_text name :
  text_token ((bytes_of "Hello " ++ html_escape (bytes_of name)) ++ bytes_of ", your workspace is spawning&hellip;") =
    [Chars (bytes_of "Hello " ++ displayed name ++ bytes_of ", your workspace is spawning…")].
Proof.
  change (bytes_of "Hello ") with ("H"%char :: bytes_of "ello ") at 1. cbn [app]. rewrite text_token_prefix.
  rewrite unescape_plain_byte by done. rewrite <- app_assoc, unescape_plain, unescape_escape by done. reflexivity.
Qed.

Lemma phase_text phase :
  text_token (bytes_of "Phase: " ++ html_escape (bytes_of phase)) = [Chars (bytes_of "Phase: " ++ displayed phase)].
Proof.
  change (bytes_of "Phase: ") with ("P"%char :: bytes_of "hase: ") at 1. cbn [app]. rewrite text_token_prefix.
  rewrite unescape_plain_byte by done. rewrite <- (app_nil_r (html_escape _)), unescape_plain, unescape_escape by done.
  cbn [html_unescape]. by rewrite app_nil_r.
Qed.

(** C9. The loading page is inert: whatever the display name (a claim of the user's
      token) and the phase hold, the browser finds the tags of the template and no
      others, and shows the two values as text where the template has them, byte
      for byte (a NUL byte, which HTML forbids, as U+FFFD). *)
Theorem loading_page_inert :
  ∃ before,
    html_tags before = map (bytes_of ∘ quoted)
      ["!DOCTYPE html"; "html lang='en'"; "head"; "meta charset='UTF-8'";
       "meta http-equiv='refresh' content='3'";
       "meta name='viewport' content='width=device-width, initial-scale=1.0'";
       "title"; "/title"; "style"; "/style"; "/head"; "body"; "div class='spinner'"; "/div"; "h1"] ∧
    ∀ displayName phase, html_tokens (loading_page displayName phase) = before ++
      [Chars (bytes_of "Hello " ++ displayed displayName ++ bytes_of ", your workspace is spawning…");
       Tag (bytes_of "/h1"); Chars (newline :: bytes_of "  "); Tag (bytes_of "p");
       Chars (bytes_of "Phase: " ++ displayed phase);
       Tag (bytes_of "/p"); Chars [newline]; Tag (bytes_of "/body"); Chars [newline]; Tag (bytes_of "/html")].
Proof.
  exists (html_run (Data []) (tmpl_text 0)).1. split; [vm_compute; reflexivity|]. intros name phase.
  unfold html_tokens. rewrite loading_page_text, html_run_app, html_run_head, html_run_value, html_run_app, html_run_mid.
  cbn [fst snd]. rewrite html_run_value, html_run_tail. cbn [fst snd].
  rewrite greeting_text, phase_text. rewrite app_nil_r. reflexivity.
Qed.

(** ** JSON bodies *)

(** The fields of [workspaceAPIResponse] with their tags. *)
Definition api_fields (r : workspaceAPIResponse) : list (string * scalar) :=
  [("name", SString (Api_Name r)); ("namespace", SString (Api_Namespace r)); ("userId", SString (Api_UserID r));
   ("email", SString (Api_Email r)); ("phase", SString (Api_Phase r))] ++
  omitempty "serviceEndpoint" (Api_ServiceEndpoint r) ++ omitempty "podName" (Api_PodName r) ++
  omitempty "message" (Api_Message r) ++ [("ttydReady", SBool (TTYDReady r))].

(** [enc.Encode] ends its text with a newline. *)
Definition Encode (fs : list (string * scalar)) : bytes := bytes_of (json_struct fs) ++ [newline].

(** What [WriteBody] sends. *)
Definition body_text (b : response_body) : bytes :=
  match b with
  | JSONError code => Encode [("error", SString code)]
  | JSONWorkspace r => Encode (api_fields r)
  | LoadingPage displayName phase => loading_page displayName phase
  | Plain s => bytes_of s
  end.

(** A client's reading of a JSON body: one line, an object. *)
Definition read_object (body : bytes) : option (list (list Z * json)) :=
  match lines_of body with
  | ([line], []) => match parse_document (of_bytes line) with Some (JObject ms) => Some ms | _ => None end
  | _ => None
  end.
Definition read_error (body : bytes) : option string := ms ← read_object body; string_member ms "error".
Definition read_api (body : bytes) : option workspaceAPIResponse :=
  ms ← read_object body;
  name ← string_member ms "name"; ns ← string_member ms "namespace"; uid ← string_member ms "userId";
  email ← string_member ms "email"; ph ← string_member ms "phase"; ep ← string_member ms "serviceEndpoint";
  pod ← string_member ms "podName"; msg ← string_member ms "message"; ready ← bool_member ms "ttydReady";
  Some (MkWorkspaceAPIResponse name ns uid email ph ep pod msg ready).

Lemma read_object_Encode fs :
  Forall valid_field fs → fs ≠ [] → read_object (Encode fs) = Some (struct_members fs).
Proof.
  intros Hv Hne. unfold read_object, Encode. rewrite lines_of_line by (by apply struct_one_line). cbn [lines_of fst snd].
  by rewrite of_bytes_of, parse_struct.
Qed.

Record utf8_response (r : workspaceAPIResponse) : Prop := {
  utf8_Name : utf8_ValidString (Api_Name r) = true;
  utf8_Namespace : utf8_ValidString (Api_Namespace r) = true;
  utf8_UserID : utf8_ValidString (Api_UserID r) = true;
  utf8_Email : utf8_ValidString (Api_Email r) = true;
  utf8_Phase : utf8_ValidString (Api_Phase r) = true;
  utf8_ServiceEndpoint : utf8_ValidString (Api_ServiceEndpoint r) = true;
  utf8_PodName : utf8_ValidString (Api_PodName r) = true;
  utf8_Message : utf8_ValidString (Api_Message r) = true;
}.

Lemma api_fields_valid r : utf8_response r → Forall valid_field (api_fields r).
Proof.
  intros []. unfold api_fields. rewrite !Forall_app. split_and!; try (by apply omitempty_valid); by repeat constructor.
Qed.

(** The JSON answers round trip, whatever characters their strings hold and
    whichever optional fields are empty and left out. *)
Theorem json_bodies_read :
  (∀ code, utf8_ValidString code = true → read_error (body_text (JSONError code)) = Some code) ∧
  (∀ r, utf8_response r → read_api (body_text (JSONWorkspace r)) = Some r).
Proof.
  split.
  - intros code Hc. unfold read_error. assert (Hv : Forall valid_field [("error", SString code)]) by (by repeat constructor).
    cbn [body_text]. rewrite read_object_Encode by done. cbn [mbind option_bind]. by apply (string_member_ok _ Hv).
  - intros r Hr%api_fields_valid. unfold read_api. cbn [body_text]. rewrite read_object_Encode by done.
    cbn [mbind option_bind]. unfold api_fields in *. read_members Hr. by destruct r.
Qed.
