(* ===== verification/GatewayHttpProps.v ===== *)
(** * Properties of the gateway's HTTP handlers

    Nothing is done for a caller before its token was validated, and then only
    with the caller's own Workspace; the login flow is bound to the browser
    that started it; every request is answered exactly once. *)
From S2P Require Import Prelude GoStrings GoTime Api K8s K8sClient Resources Auth Lifecycle LifecycleProps.
From S2P Require Import Proxy SessionRecording Observability AuditLog GatewayHttp.
From Stdlib Require Import ZArith Lia.
#[local] Open Scope Z_scope.

Section guard.
Context `{UnicodeTables} `{K8sLib} `{!tokenValidator}.
Context (cfg : LifecycleConfig) (namespace : string).
Abbreviation history := (list (call gwE)).

(** ** What a history shows *)

(** The request's own token was validated, with these claims. *)
Definition authenticated (r : HttpRequest) (h : history) (claims : Claims) : Prop :=
  ∃ tok h1 trv h2, extractToken r = Ok tok ∧ h = h1 ++ trv ++ h2 ∧
    exec (Validator_Validate tok) trv (Ok claims).

Lemma authenticated_app r h t claims : authenticated r h claims → authenticated r (h ++ t) claims.
Proof.
  intros (tok & h1 & trv & h2 & E & -> & Hv). exists tok, h1, trv, (h2 ++ t).
  split_and!; [done| |done]. by rewrite !app_assoc.
Qed.

(** Workspaces the API server answered with. *)
Definition call_workspaces (c : call gwE) : list Workspace :=
  match c with
  | Call e x =>
    match e in gwE Y return Y → list Workspace with
    | ApiReq a =>
      match a in apiE Z return Z → list Workspace with
      | GetWorkspace _ => λ x, match x with Ok ws => [ws] | Err _ => [] end
      | CreateWorkspace _ => λ x, match x with Ok ws => [ws] | Err _ => [] end
      | PatchStatus _ _ => λ x, match x with Ok ws => [ws] | Err _ => [] end
      | _ => λ _, []
      end
    | _ => λ _, []
    end x
  end.
Definition workspaces (h : history) : list Workspace := concat (map call_workspaces h).

Lemma workspaces_app h t : workspaces (h ++ t) = workspaces h ++ workspaces t.
Proof. unfold workspaces. by rewrite map_app, concat_app. Qed.

(** Such a Workspace, perhaps with a newer time of last access. *)
Definition obtained (h : history) (ws : Workspace) : Prop :=
  ∃ ws0, ws0 ∈ workspaces h ∧ (ws = ws0 ∨ ∃ t, ws = set_LastAccessed t ws0).

Lemma obtained_app h t ws : obtained h ws → obtained (h ++ t) ws.
Proof.
  intros (ws0 & Hin & He). exists ws0. split; [|done]. rewrite workspaces_app. apply elem_of_app. by left.
Qed.

(** The rate limiter admitted the caller to the endpoint. *)
Definition admitted (endpoint : string) (claims : Claims) (h : history) : Prop :=
  ∃ scope, Call (AllowReq endpoint (Claims_Sub claims)) (true, scope) ∈ h.

Lemma admitted_app endpoint claims h t : admitted endpoint claims h → admitted endpoint claims (h ++ t).
Proof. intros [s Hs]. exists s. by apply in_app_l. Qed.

(** A request to the API server that only concerns the caller's Workspace. *)
Definition own_request (claims : Claims) (h : history) {X} (a : apiE X) : Prop :=
  match a with
  | GetWorkspace k => k = claims_key namespace claims
  | CreateWorkspace ws => ws = new_workspace cfg namespace claims
  | PatchStatus base new => obtained h base ∧ (new = clear_phase base ∨ ∃ t, new = set_LastAccessed t base)
  | Now => True
  | WaitOrDone d => d = workspaceReadyPoll
  | _ => False
  end.

(** A side effect of a handler is for the authenticated caller: [endpoint] names
    the rate limit it is subject to, if any. *)
Definition guarded (endpoint : option string) (r : HttpRequest) (h : history) (c : call gwE) : Prop :=
  let caller (P : Claims → Prop) := ∃ claims, authenticated r h claims ∧ P claims in
  let let_in claims := match endpoint with Some ep => admitted ep claims h | None => True end in
  match c with
  | Call e _ =>
    match e with
    | ApiReq a => caller (λ claims, let_in claims ∧ own_request claims h a)
    | AllowReq ep sub => caller (λ claims, Some ep = endpoint ∧ sub = Claims_Sub claims)
    | DialTimeout _ addr _ =>
      caller (λ claims, let_in claims ∧
        ∃ ws, obtained h ws ∧ addr = probe_addr (Status_ServiceEndpoint (WS_Status ws)))
    | RecReq _ => caller let_in
    | WsReq (Dial url _ _) =>
      caller (λ claims, let_in claims ∧
        ∃ ws, obtained h ws ∧ url = BackendURL (Status_ServiceEndpoint (WS_Status ws)))
    | RunTunnel url _ ws =>
      caller (λ claims, let_in claims ∧
        obtained h ws ∧ url = BackendURL (Status_ServiceEndpoint (WS_Status ws)))
    | WsReq _ => caller let_in
    | RoundTrip url =>
      caller (λ claims, let_in claims ∧ ∃ ws, obtained h ws ∧ phase ws = WorkspacePhaseRunning ∧
        url = BackendHTTPURL (Status_ServiceEndpoint (WS_Status ws)))
    | Exchange _ => False
    | _ => True
    end
  end.

(** ** The lifecycle within a handler *)

Abbreviation api_calls := (map (embed_call (@ApiReq _))).

Lemma obtained_answer (t : list (call apiE)) X (a : apiE X) (x : X) ws :
  Call a x ∈ t → ws ∈ call_workspaces (Call (ApiReq a) x) → ws ∈ workspaces (api_calls t).
Proof.
  intros Hin Hw. unfold workspaces. rewrite <- flat_map_concat_map.
  apply list_elem_of_In, in_flat_map. exists (Call (ApiReq a) x).
  split; [|by apply list_elem_of_In]. apply (in_map (embed_call (@ApiReq _)) t (Call a x)).
  by apply list_elem_of_In.
Qed.

Lemma seen_obtained h t claims ws :
  seen namespace claims t ws → obtained (h ++ api_calls t) ws.
Proof.
  intros Hs. exists ws. split; [|by left]. rewrite workspaces_app. apply elem_of_app. right.
  eapply obtained_answer; [exact Hs|left].
Qed.

(** Lifecycle code run for an authenticated, admitted caller is guarded. *)
Lemma lifecycle_guarded {A} endpoint r h claims (p : prog apiE A) :
  authenticated r h claims → (∀ ep, endpoint = Some ep → admitted ep claims h) →
  safe (gw_justified cfg namespace claims) [] p → safe (guarded endpoint r) h (lift_api p).
Proof.
  intros Ha Hadm Hs. unfold lift_api. eapply safe_embed; [exact Hs|]. intros t [X a x] Hj. cbn in Hj.
  exists claims. split; [by apply authenticated_app|]. split.
  - destruct endpoint as [ep|]; [|done]. by apply admitted_app, Hadm.
  - destruct a; cbn in *; try done.
    + by destruct Hj.
    + destruct Hj as [Hseen Hn]. split; [by eapply seen_obtained|].
      destruct Hn as [[_ ->]|(_ & now & _ & ->)]; [by left|right; by exists now].
Qed.

Lemma EnsureExists_obtains claims :
  post (EnsureExists cfg namespace claims) (λ t w, ∀ ws d, w = (Ok ws, d) → ws ∈ workspaces (api_calls t)).
Proof.
  unfold EnsureExists. apply post_bind, post_request. intros [ws|e].
  - case_bool_decide; [|intros ? ? [= <- _]; left].
    apply post_bind, post_request. intros [ws'|e]; intros ? ? [= <- _]. right. left.
  - destruct (negb (IsNotFound e)); [intros ? ? [=]|].
    apply post_bind, post_request. intros [ws'|e']; intros ? ? [= <- _]. left.
Qed.

Lemma stamped_obtained claims t ws : stamped namespace claims t ws → obtained (api_calls t) ws.
Proof.
  intros (ws0 & now & [ws'|e] & Hseen & _ & _ & Hp & ->).
  - exists ws'. split; [|by left]. eapply obtained_answer; [exact Hp|left].
  - exists ws0. split; [|right; by exists now]. eapply obtained_answer; [exact Hseen|left].
Qed.

(** ** Requests that need no caller *)

Definition is_free (c : call gwE) : bool :=
  match c with
  | Call e _ =>
    match e with
    | ApiReq _ | AllowReq _ _ | DialTimeout _ _ _ | RecReq _ | WsReq _ | RunTunnel _ _ _ | RoundTrip _
    | Exchange _ => false
    | _ => true
    end
  end.

Definition free {A} (p : prog gwE A) : Prop := ∀ h, safe (λ _ c, is_free c = true) h p.

Lemma free_guarded {A} endpoint r h (p : prog gwE A) : free p → safe (guarded endpoint r) h p.
Proof. intros Hp. eapply safe_mono; [apply Hp|]. intros h' [X e x]. by destruct e. Qed.

Lemma free_bind_guarded {A B} endpoint r h (p : prog gwE A) (f : A → prog gwE B) :
  free p → (∀ t a, exec p t a → safe (guarded endpoint r) (h ++ t) (f a)) →
  safe (guarded endpoint r) h (p ≫= f).
Proof. intros Hp Hf. apply safe_bind; [by apply free_guarded|done]. Qed.

Lemma free_RequestID r : free (RequestID r).
Proof. intros h. unfold RequestID. by destruct (bool_decide _). Qed.
Lemma free_WriteJSONError st code : free (WriteJSONError st code).
Proof. by intros h. Qed.
Lemma free_serveLoadingPage n ph : free (serveLoadingPage n ph).
Proof. by intros h. Qed.
Lemma free_missing_token r reqID : free (missing_token r reqID).
Proof. by intros h. Qed.
Lemma free_invalid_token r reqID err : free (invalid_token r reqID err).
Proof. intros h. unfold invalid_token. by destruct (AuthErrorResponse (Some err)). Qed.
Lemma free_rate_limited reqID ep scope claims : free (rate_limited reqID ep scope claims).
Proof. by intros h. Qed.
Lemma free_request {X} (e : gwE X) : (∀ x, is_free (Call e x) = true) → free (request e).
Proof. intros He h x. split; [apply He|done]. Qed.
Lemma free_audit l : free (audit l).
Proof. by apply free_request. Qed.

(** The first thing a handler does with a token. *)
Lemma validated {A} endpoint r h tok (f : result Claims → prog gwE A) :
  extractToken r = Ok tok →
  (∀ h' err, safe (guarded endpoint r) h' (f (Err err))) →
  (∀ h' claims, authenticated r h' claims → safe (guarded endpoint r) h' (f (Ok claims))) →
  safe (guarded endpoint r) h (Validator_Validate tok ≫= f).
Proof.
  intros Ht He Hok. apply safe_bind.
  - eapply safe_mono; [apply Validator_confined|]. intros h' [X e x]. by destruct e.
  - intros t [claims|err] Hv; [|apply He]. apply Hok. exists tok, h, t, []. by rewrite app_nil_r.
Qed.

(** Then the rate limit. *)
Lemma rate_checked {A} ep r h claims (f : bool * string → prog gwE A) :
  authenticated r h claims →
  (∀ h' scope, safe (guarded (Some ep) r) h' (f (false, scope))) →
  (∀ h' scope, authenticated r h' claims → admitted ep claims h' →
     safe (guarded (Some ep) r) h' (f (true, scope))) →
  safe (guarded (Some ep) r) h (request (AllowReq ep (Claims_Sub claims)) ≫= f).
Proof.
  intros Ha Hno Hyes. apply safe_request.
  - intros x. by exists claims.
  - intros [[|] scope]; [|apply Hno]. apply Hyes; [by apply authenticated_app|].
    exists scope. apply in_snoc.
Qed.

Lemma workspace_ensured_guarded ep r h reqID claims :
  authenticated r h claims → admitted ep claims h →
  safe (guarded (Some ep) r) h (workspace_ensured cfg namespace reqID claims).
Proof.
  intros Ha Hadm. unfold workspace_ensured. apply safe_bind.
  { eapply lifecycle_guarded; [exact Ha|by intros ? [= <-]|apply EnsureExists_safe]. }
  intros t [[ws|err] d] (t0 & -> & Hex)%exec_embed; [|apply free_guarded, free_WriteJSONError].
  pose proof (exec_post _ _ _ _ Hex (EnsureExists_obtains claims) ws d eq_refl) as Hws.
  apply free_bind_guarded; [apply free_audit|]. intros t1 ? _.
  apply safe_bind; [|intros; by apply free_guarded].
  destruct (_ && _); [|done]. intros x. split; [|by destruct x]. exists claims.
  split; [by do 2 apply authenticated_app|]. split; [by do 2 apply admitted_app|].
  exists ws. split; [|done]. apply obtained_app. exists ws. split; [|by left].
  rewrite workspaces_app. apply elem_of_app. by right.
Qed.

Lemma handleWorkspaceAPI_guarded r secure h :
  safe (guarded (Some "lifecycle") r) h (handleWorkspaceAPI cfg namespace r secure).
Proof.
  unfold handleWorkspaceAPI. destruct (_ && _); [by apply free_guarded|].
  apply free_bind_guarded; [apply free_RequestID|]. intros t0 reqID _.
  destruct (extractToken r) as [tok|e] eqn:Et; [|apply free_guarded, free_missing_token].
  apply validated; [done| |].
  - intros h' err. apply free_bind_guarded; [by apply free_request|]. intros.
    apply free_guarded, free_invalid_token.
  - intros h' claims Ha. apply rate_checked; [done|intros; apply free_guarded, free_rate_limited|].
    intros h'' scope Ha' Hadm. by apply workspace_ensured_guarded.
Qed.

Lemma proxy_to_guarded r h claims name ws :
  authenticated r h claims → obtained h ws → phase ws = WorkspacePhaseRunning →
  safe (guarded None r) h (proxy_to name ws).
Proof.
  intros Ha Ho Hp. unfold proxy_to. apply safe_request; [done|].
  intros [e|]; [by apply free_guarded, free_request|]. apply safe_request.
  - intros x. exists claims. split; [by apply authenticated_app|]. split; [done|]. exists ws. split; [|done].
    destruct Ho as (w & Hw & Hd). exists w. split; [|done]. rewrite workspaces_app. apply elem_of_app. by left.
  - intros [resp|e]; [|apply free_guarded, free_serveLoadingPage].
    destruct (injectFullWidthTerminalCSS resp); apply free_guarded;
      [by apply free_request|apply free_serveLoadingPage].
Qed.

Lemma handleProxy_guarded r secure h :
  safe (guarded None r) h (handleProxy cfg namespace r secure).
Proof.
  unfold handleProxy.
  destruct (extractToken r) as [tok|e] eqn:Et; [|by apply free_guarded, free_request].
  apply validated; [done|intros; by apply free_guarded|]. intros h' claims Ha. apply safe_bind.
  { eapply lifecycle_guarded; [exact Ha|done|apply EnsureExists_safe]. }
  intros t [[ws|err] d] (t0 & -> & Hex)%exec_embed; cbn [fst]; [|by apply free_guarded, free_request].
  pose proof (exec_post _ _ _ _ Hex (EnsureExists_obtains claims) ws d eq_refl) as Hws.
  destruct (bool_decide (phase ws = _)) eqn:Hp; cbn [negb orb];
    [|apply free_guarded, free_serveLoadingPage].
  destruct (bool_decide (Status_ServiceEndpoint _ = "")); [apply free_guarded, free_serveLoadingPage|].
  apply bool_decide_eq_true in Hp. eapply proxy_to_guarded; [by apply authenticated_app| |done].
  exists ws. split; [|by left]. rewrite workspaces_app. apply elem_of_app. by right.
Qed.

(** ** The WebSocket session *)

Section session.
Context (r : HttpRequest) (claims : Claims) (ep : string).

(** What holds of the history once the session may start. *)
Definition cleared (h : history) : Prop := authenticated r h claims ∧ admitted ep claims h.

Lemma cleared_app h t : cleared h → cleared (h ++ t).
Proof. intros [? ?]. split; [by apply authenticated_app|by apply admitted_app]. Qed.

Lemma recording_guarded {A} h (p : prog recE A) : cleared h → safe (guarded (Some ep) r) h (lift_rec p).
Proof.
  intros Hc. eapply (safe_embed _ (λ _ _, True) _ []); [apply safe_true|]. intros t [X e x] _.
  destruct (cleared_app h (map (embed_call (@RecReq _)) t) Hc). by exists claims.
Qed.

Lemma ws_guarded h {X} (e : wsE X) x :
  cleared h → match e with Dial _ _ _ => False | _ => True end →
  guarded (Some ep) r h (Call (WsReq e) x).
Proof. intros [? ?] He. by destruct e; try done; exists claims. Qed.

Lemma ServeWS_open_guarded h ws :
  cleared h → obtained h ws →
  safe (guarded (Some ep) r) h (lift_ws (ServeWS_open (BackendURL (Status_ServiceEndpoint (WS_Status ws))))).
Proof.
  intros Hc Ho u. split; [by apply ws_guarded|]. destruct u as [sp|err]; [|done]. intros d. split.
  - destruct (cleared_app h [Call (WsReq Upgrade) (Ok sp)] Hc). exists claims. split; [done|].
    split; [done|]. exists ws. split; [by apply obtained_app|done].
  - destruct d as [err|].
    + intros x. split; [apply ws_guarded; [by do 2 apply cleared_app|done]|done].
    + intros x. split; [apply ws_guarded; [by do 2 apply cleared_app|done]|]. intros y.
      split; [apply ws_guarded; [by do 3 apply cleared_app|done]|done].
Qed.

Lemma ServeWS_guarded h ws rec :
  cleared h → obtained h ws →
  safe (guarded (Some ep) r) h (ServeWS (BackendURL (Status_ServiceEndpoint (WS_Status ws))) rec ws).
Proof.
  intros Hc Ho. unfold ServeWS. apply safe_bind; [by apply ServeWS_open_guarded|].
  intros t [err|] _; [done|]. apply safe_request.
  { intros rec'. destruct (cleared_app h t Hc). exists claims. split; [done|]. split; [done|].
    split; [by apply obtained_app|done]. }
  intros rec'. apply safe_request; [intros; apply ws_guarded; [by do 2 apply cleared_app|done]|].
  intros x. apply safe_request; [|done]. intros y. apply ws_guarded; [by do 3 apply cleared_app|done].
Qed.

Lemma ws_session_guarded h reqID recording ws :
  cleared h → obtained h ws →
  safe (guarded (Some ep) r) h (ws_session namespace r reqID recording claims ws).
Proof.
  intros Hc Ho. unfold ws_session. apply safe_bind; [by apply recording_guarded|]. intros t1 rec _.
  apply free_bind_guarded; [apply free_audit|]. intros t2 ? _. apply safe_bind.
  { apply ServeWS_guarded; [by do 2 apply cleared_app|by do 2 apply obtained_app]. }
  intros t3 [[err|] rec'] _; (apply safe_bind; [by apply recording_guarded; do 3 apply cleared_app|]).
  - intros. apply free_guarded, free_audit.
  - done.
Qed.
End session.

Lemma free_then {A} endpoint r h (p : prog gwE A) (b : option unit) :
  free p → safe (guarded endpoint r) h (_ ← p; mret b).
Proof. intros Hp. by apply free_bind_guarded. Qed.

Lemma handleWS_guarded fuel getenv r h :
  safe (guarded (Some "websocket") r) h (handleWS cfg namespace fuel getenv r).
Proof.
  unfold handleWS. apply free_bind_guarded; [apply free_RequestID|]. intros t0 reqID _.
  destruct (extractToken r) as [tok|e] eqn:Et; [|apply free_then, free_missing_token].
  apply validated; [done|intros; apply free_then, free_invalid_token|].
  intros h' claims Ha. apply rate_checked; [done|intros; apply free_then, free_rate_limited|].
  intros h'' scope Ha' Hadm. cbn [fst negb]. apply safe_bind.
  { eapply lifecycle_guarded; [exact Ha'|by intros ? [= <-]|apply EnsureWorkspace_safe]. }
  intros t [[[ws|err] d]|] (t1 & -> & Hex)%exec_embed; [|apply free_then, free_WriteJSONError|done].
  apply EnsureWorkspace_outcome in Hex as (Hst & _ & _). apply stamped_obtained in Hst.
  set (h3 := h'' ++ _).
  assert (Ho : obtained h3 ws).
  { destruct Hst as (ws0 & Hin & He). exists ws0. split; [|done]. unfold h3. rewrite workspaces_app.
    apply elem_of_app. by right. }
  assert (Hc : cleared r claims "websocket" h3) by (by apply cleared_app).
  clearbody h3. apply free_bind_guarded; [apply free_audit|]. intros t2 ? _.
  unfold BackendReady. apply safe_request.
  { intros x. destruct (cleared_app _ _ _ h3 t2 Hc). exists claims. split; [done|]. split; [done|].
    exists ws. split; [by apply obtained_app|done]. }
  intros [err|]; cbn [negb]; [apply free_then, free_WriteJSONError|].
  apply safe_bind; [|done]. apply ws_session_guarded; [by do 2 apply cleared_app|by do 2 apply obtained_app].
Qed.

End guard.

(** ** The login flow *)

Section login.
Context `{UnicodeTables} `{K8sLib} `{!tokenValidator}.

(** The session cookie for an ID token. *)
Definition session_cookie (raw : string) (expiry : Time) (secure : bool) : Cookie :=
  MkCookie "devplane_token" raw "/" 0 (Some expiry) true secure SameSiteLaxMode.

(** What the callback may do: clear the state cookie and exchange the code when
    the state matches, and set the session cookie for an ID token that came
    from that exchange and was validated. *)
Definition callback_allowed (r : HttpRequest) (secure : bool) (h : list (call gwE)) (c : call gwE) : Prop :=
  match c with
  | Call e _ =>
    match e with
    | Exchange code =>
      code = Query_Get r "code" ∧ Cookie_Get r "devplane_state" = Some (Query_Get r "state") ∧
      Call (SetCookie (expired_cookie "devplane_state" secure)) () ∈ h
    | SetCookie ck =>
      (ck = expired_cookie "devplane_state" secure ∧ Cookie_Get r "devplane_state" = Some (Query_Get r "state")) ∨
      ∃ token raw claims expiry h1 trv h2,
        Call (Exchange (Query_Get r "code")) (Ok token) ∈ h ∧
        id_token token = Some raw ∧ raw ≠ "" ∧
        h = h1 ++ trv ++ h2 ∧ exec (Validator_Validate raw) trv (Ok claims) ∧
        ck = session_cookie raw expiry secure ∧ (IsZero (Expiry token) = false → expiry = Expiry token)
    | AuthReq _ | AuditReq _ | UUID | SetHeader _ _ | HttpError _ _ | Redirect _ _ => True
    | ApiReq a => match a with Now => True | _ => False end
    | _ => False
    end
  end.

Lemma callback_failed_allowed r secure h reqID reason msg st :
  safe (callback_allowed r secure) h (callback_failed reqID reason msg st).
Proof. done. Qed.

Lemma callback_token_allowed r secure h reqID token :
  Call (Exchange (Query_Get r "code")) (Ok token) ∈ h →
  safe (callback_allowed r secure) h (callback_token reqID secure token).
Proof.
  intros Hex. unfold callback_token. destruct (id_token token) as [raw|] eqn:Eid; cbn [default]; [|done].
  case_bool_decide as Hraw; [done|]. apply safe_bind.
  { eapply safe_mono; [apply Validator_confined|]. intros h' [X e x]. by destruct e. }
  intros trv [claims|err] Hv; [|done].
  assert (Hset : ∀ t expiry, (IsZero (Expiry token) = false → expiry = Expiry token) →
    safe (callback_allowed r secure) ((h ++ trv) ++ t) (_ ← request (SetCookie (session_cookie raw expiry secure));
      _ ← audit (LogOIDCCallbackSuccess reqID claims); request (Redirect "/" StatusFound))).
  { intros t expiry He. apply safe_request; [|done]. intros ?. right.
    exists token, raw, claims, expiry, h, trv, t. rewrite <- app_assoc. split_and!; try done. by apply in_app_l. }
  apply safe_bind; [by destruct (IsZero (Expiry token))|].
  intros t expiry He. apply Hset. intros Hz. rewrite Hz in He. by destruct He.
Qed.

Lemma handleCallback_allowed r secure h : safe (callback_allowed r secure) h (handleCallback r secure).
Proof.
  unfold handleCallback. apply safe_bind.
  { unfold RequestID. by destruct (bool_decide _). }
  intros t reqID _. destruct (Cookie_Get r "devplane_state") as [ck|] eqn:Ec; [|done].
  case_bool_decide as Es; cbn [negb]; [|done]. apply safe_request.
  { intros ?. left. split; [done|]. by rewrite Ec, Es. }
  intros []. apply safe_request.
  { intros ?. split; [done|]. split; [by rewrite Ec, Es|]. apply in_snoc. }
  intros [token|err]; [|done]. apply callback_token_allowed, in_snoc.
Qed.

(** C8. The OAuth callback is bound to the browser that started the login, and a
      session is only issued for a validated token.  Whatever the environment
      answers, the callback exchanges the request's code only when the state
      parameter equals the state cookie, and after that cookie was cleared; it
      sets a session cookie only for a non-empty ID token that came from that
      exchange and that the validator accepted, HttpOnly, SameSite=Lax, with
      the token's own expiry when it has one; and it does nothing else of
      effect. *)
Theorem callback_bound r secure h c :
  asks (handleCallback r secure) h c → callback_allowed r secure h c.
Proof. intros Ha. exact (safe_asks _ _ _ _ (handleCallback_allowed r secure []) Ha). Qed.

(** The two halves of the login fit: every run of the login handler sets an
      HttpOnly, SameSite=Lax cookie with a fresh state, valid for ten minutes,
      and redirects to the provider's URL for that state; and a callback that
      carries the cookie and the state back always gets as far as exchanging
      its code. *)
Theorem login_roundtrip r secure tr :
  exec (handleLogin r secure) tr () →
  ∃ state url,
    Call (SetCookie (MkCookie "devplane_state" state "/" 600 None true secure SameSiteLaxMode)) () ∈ tr ∧
    Call UUID state ∈ tr ∧ Call (AuthCodeURL state) url ∈ tr ∧ last tr = Some (Call (Redirect url StatusFound) ()) ∧
    ∀ r' secure' tr' a, Cookie_Get r' "devplane_state" = Some state → Query_Get r' "state" = state →
      exec (handleCallback r' secure') tr' a → ∃ x, Call (Exchange (Query_Get r' "code")) x ∈ tr'.
Proof.
  intros (t0 & reqID & t1 & -> & _ & Hex)%exec_bind.
  destruct Hex as (state & ? & -> & [] & ? & -> & [] & ? & -> & url & ? & -> & [] & ? & -> & -> & _).
  exists state, url. split_and!.
  - apply elem_of_app. right. right. left.
  - apply elem_of_app. right. left.
  - apply elem_of_app. right. do 3 right. left.
  - by rewrite last_app.
  - intros r' secure' tr' a Hc Hq (t2 & id & t3 & -> & _ & Hcb)%exec_bind. rewrite Hc in Hcb.
    rewrite bool_decide_eq_true_2 in Hcb by done. destruct Hcb as ([] & ? & -> & x & ? & -> & _).
    exists x. apply elem_of_app. right. right. left.
Qed.
End login.
