(* ===== verification/GatewayAnswers.v ===== *)
(** * Answers, the injected page and the audit trail

    Every request is answered exactly once; the style sheet is inserted before the first closing
    head tag and nothing else changes. *)
From S2P Require Import Prelude GoStrings GoTime Api K8s K8sClient Resources Auth Lifecycle LifecycleProps.
From S2P Require Import Proxy SessionRecording Observability AuditLog GatewayHttp.
From Stdlib Require Import ZArith Lia.
#[local] Open Scope Z_scope.

Section answers.
Context `{UnicodeTables} `{K8sLib} `{!tokenValidator}.

(** Calls that send a status line; [Upgrade] answers with 101, or with an error
    of its own. *)
Definition call_answers (c : call gwE) : nat :=
  match c with
  | Call e _ =>
    match e with
    | WriteHeader _ | HttpError _ _ | Redirect _ _ | CopyResponse _ => 1
    | WsReq Upgrade => 1
    | _ => 0
    end
  end.
Definition answers (tr : list (call gwE)) : nat := list_sum (map call_answers tr).

Lemma answers_cons c t : answers (c :: t) = (call_answers c + answers t)%nat.
Proof. done. Qed.
Lemma answers_app t1 t2 : answers (t1 ++ t2) = (answers t1 + answers t2)%nat.
Proof. unfold answers. by rewrite map_app, list_sum_app. Qed.

Definition call_panics (c : call gwE) : nat :=
  match c with Call e _ => match e with Panic _ => 1 | _ => 0 end end.
Definition panics (tr : list (call gwE)) : nat := list_sum (map call_panics tr).

Lemma panics_cons c t : panics (c :: t) = (call_panics c + panics t)%nat.
Proof. done. Qed.
Lemma panics_app t1 t2 : panics (t1 ++ t2) = (panics t1 + panics t2)%nat.
Proof. unfold panics. by rewrite map_app, list_sum_app. Qed.

(** [gives n p]: every complete run of [p] sends [n] status lines and does not panic. *)
Definition gives {A} (n : nat) (p : prog gwE A) : Prop := post p (λ tr _, answers tr = n ∧ panics tr = 0%nat).

Lemma gives_bind {A B} n m (p : prog gwE A) (f : A → prog gwE B) :
  gives n p → (∀ a, gives m (f a)) → gives (n + m) (p ≫= f).
Proof.
  unfold gives. intros Hp Hf. apply post_bind. eapply post_mono; [exact Hp|]. intros t a Ht.
  eapply post_mono; [apply Hf|]. intros t' b Ht'. cbn beta in *. rewrite answers_app, panics_app. lia.
Qed.

Lemma gives_silent {A B} m (p : prog gwE A) (f : A → prog gwE B) :
  gives 0 p → (∀ a, gives m (f a)) → gives m (p ≫= f).
Proof. apply (gives_bind 0 m). Qed.
Lemma gives_last {A B} m (p : prog gwE A) (f : A → prog gwE B) :
  gives m p → (∀ a, gives 0 (f a)) → gives m (p ≫= f).
Proof. intros. rewrite <- (Nat.add_0_r m). by apply gives_bind. Qed.
Lemma gives_return {A} (a : A) : gives 0 (mret a : prog gwE A).
Proof. done. Qed.
Lemma gives_request {X} (e : gwE X) n :
  (∀ x, call_answers (Call e x) = n ∧ call_panics (Call e x) = 0%nat) → gives n (request e).
Proof. intros He x. destruct (He x) as [E1 E2]. unfold answers, panics. cbn -[call_answers call_panics]. rewrite E1, E2. lia. Qed.

(** Parts that never answer. *)
Lemma gives_embed {E A} (emb : ∀ X, E X → gwE X) (p : prog E A) :
  (∀ X e (x : X), call_answers (Call (emb X e) x) = 0%nat ∧ call_panics (Call (emb X e) x) = 0%nat) →
  gives 0 (embed emb p).
Proof.
  intros He. unfold gives. apply post_exec. intros t a (t0 & -> & _)%exec_embed.
  induction t0 as [|[X e x] t0 [IH1 IH2]]; [done|]. cbn [map embed_call]. destruct (He X e x) as [E1 E2].
  by rewrite answers_cons, panics_cons, E1, E2, IH1, IH2.
Qed.

Lemma gives_validate tok : gives 0 (Validator_Validate tok).
Proof.
  unfold gives. apply post_exec. intros t a Hex.
  assert (Hall : Forall (λ c, is_auth c = true) t).
  { apply Forall_forall. intros c (t1 & t2 & ->)%list_elem_of_split.
    by apply (safe_elim _ [] _ _ _ t1 c t2 (Validator_confined [] tok) Hex). }
  clear Hex. induction Hall as [|[X e x] t Hc _ [IH1 IH2]]; [done|].
  rewrite answers_cons, panics_cons, IH1, IH2. by destruct e.
Qed.

Lemma gives_api {A} (p : prog apiE A) : gives 0 (lift_api p).
Proof. by apply gives_embed. Qed.
Lemma gives_rec {A} (p : prog recE A) : gives 0 (lift_rec p).
Proof. by apply gives_embed. Qed.
Lemma gives_audit l : gives 0 (audit l).
Proof. by apply gives_request. Qed.

(** Parts that answer once. *)
Lemma gives_WriteJSONError st code : gives 1 (WriteJSONError st code).
Proof. by intros ? ? ? ?. Qed.
Lemma gives_serveLoadingPage n ph : gives 1 (serveLoadingPage n ph).
Proof. by intros ? ? ?. Qed.

Create HintDb answers.
#[local] Hint Resolve gives_return gives_validate gives_api gives_rec gives_audit
  gives_WriteJSONError gives_serveLoadingPage : answers.
#[local] Hint Extern 1 (gives _ (request _)) => (by apply gives_request) : answers.

Lemma gives_RequestID r : gives 0 (RequestID r).
Proof. unfold RequestID. by destruct (bool_decide _). Qed.
Lemma gives_missing_token r reqID : gives 1 (missing_token r reqID).
Proof. apply gives_silent; eauto with answers. Qed.
Lemma gives_invalid_token r reqID err : gives 1 (invalid_token r reqID err).
Proof. unfold invalid_token. destruct (AuthErrorResponse _). apply gives_silent; eauto with answers. Qed.
Lemma gives_rate_limited reqID ep scope claims : gives 1 (rate_limited reqID ep scope claims).
Proof. apply gives_silent; [eauto with answers|]. intros. apply gives_silent; eauto with answers. Qed.
Lemma gives_callback_failed reqID reason msg st : gives 1 (callback_failed reqID reason msg st).
Proof. apply gives_silent; eauto with answers. Qed.
Lemma gives_BackendReady ep : gives 0 (BackendReady ep).
Proof. by intros [err|]. Qed.
#[local] Hint Resolve gives_BackendReady gives_RequestID gives_missing_token gives_invalid_token gives_rate_limited
  gives_callback_failed : answers.

Tactic Notation "silent" ident(x) := apply gives_silent; [by eauto with answers|intros x].

Lemma gives_workspace_ensured cfg namespace reqID claims :
  gives 1 (workspace_ensured cfg namespace reqID claims).
Proof.
  unfold workspace_ensured. silent e. destruct e as [[ws|e] d]; [|eauto with answers]. silent u.
  apply gives_silent; [destruct (_ && _); eauto with answers|]. intros ready. silent v.
  apply gives_last; eauto with answers.
Qed.
#[local] Hint Resolve gives_workspace_ensured : answers.

Lemma gives_handleWorkspaceAPI cfg namespace r secure : gives 1 (handleWorkspaceAPI cfg namespace r secure).
Proof.
  unfold handleWorkspaceAPI. destruct (_ && _); [eauto with answers|]. silent reqID.
  destruct (extractToken r) as [tok|e]; [|eauto with answers]. silent v.
  destruct v as [claims|e]; [|silent u; eauto with answers]. silent a.
  destruct a as [[|] scope]; cbn [fst negb]; eauto with answers.
Qed.

(** One answer; or a panic instead of it, after the backend's URL was refused. *)
Definition ends_once (tr : list (call gwE)) : Prop :=
  answers tr = 1%nat ∧ panics tr = 0%nat ∨
  answers tr = 0%nat ∧ panics tr = 1%nat ∧
    ∃ ep e, Call (ParseURL (BackendHTTPURL ep)) (Some e) ∈ tr.

Lemma ends_once_silent {A B} (p : prog gwE A) (f : A → prog gwE B) :
  gives 0 p → (∀ a, post (f a) (λ tr _, ends_once tr)) → post (p ≫= f) (λ tr _, ends_once tr).
Proof.
  intros Hp Hf. apply post_bind. eapply post_mono; [exact Hp|]. intros t a [Ht Hu].
  eapply post_mono; [apply Hf|]. intros t' b Hb. cbn beta in *. unfold ends_once. rewrite answers_app, panics_app, Ht, Hu.
  destruct Hb as [?|(? & ? & ep & e & Hin)]; [by left|right]. split_and!; [done|done|].
  exists ep, e. apply elem_of_app. by right.
Qed.

Lemma ends_once_gives {A} (p : prog gwE A) : gives 1 p → post p (λ tr _, ends_once tr).
Proof. intros Hp. eapply post_mono; [exact Hp|]. intros tr a Ht. by left. Qed.

Lemma gives_proxy_through name ws url : gives 1 (proxy_through name ws url).
Proof.
  unfold proxy_through. silent t. destruct t as [resp|e]; [|eauto with answers].
  destruct (injectFullWidthTerminalCSS resp); eauto with answers.
Qed.

Lemma handleProxy_ends cfg namespace r secure : post (handleProxy cfg namespace r secure) (λ tr _, ends_once tr).
Proof.
  unfold handleProxy. destruct (extractToken r) as [tok|e]; [|apply ends_once_gives; eauto with answers].
  apply ends_once_silent; [eauto with answers|]. intros v.
  destruct v as [claims|e]; [|apply ends_once_gives; silent u; eauto with answers].
  apply ends_once_silent; [eauto with answers|]. intros e.
  destruct e as [[ws|e] d]; cbn [fst]; [|apply ends_once_gives; eauto with answers].
  destruct (negb _ || _); [apply ends_once_gives; eauto with answers|]. unfold proxy_to.
  rewrite post_bind, post_request. intros [e|].
  - intros []. right. split_and!; [done|done|]. eexists _, e. left.
  - eapply post_mono; [apply gives_proxy_through|]. intros t a Ht. left. exact Ht.
Qed.

Lemma gives_handleLogin r secure : gives 1 (handleLogin r secure).
Proof. unfold handleLogin. silent reqID. silent state. silent u. silent v. silent url. eauto with answers. Qed.

Lemma gives_callback_token reqID secure token : gives 1 (callback_token reqID secure token).
Proof.
  unfold callback_token. destruct (bool_decide _); [eauto with answers|]. silent v.
  destruct v as [claims|e]; [|eauto with answers].
  apply gives_silent; [destruct (IsZero (Expiry token)); [silent now; eauto with answers|eauto with answers]|].
  intros expiry. silent u. silent w. eauto with answers.
Qed.
#[local] Hint Resolve gives_callback_token : answers.

Lemma gives_handleCallback r secure : gives 1 (handleCallback r secure).
Proof.
  unfold handleCallback. silent reqID. destruct (Cookie_Get r "devplane_state"); [|eauto with answers].
  destruct (negb _); [eauto with answers|]. silent u. silent t. destruct t; eauto with answers.
Qed.

Lemma gives_ServeWS url rec ws : gives 1 (ServeWS url rec ws).
Proof.
  unfold ServeWS. apply gives_last.
  - unfold lift_ws, ServeWS_open. intros u. destruct u as [sp|err]; [|done]. cbn. by intros [err|].
  - intros [err|]; [done|]. silent rec'. silent u. silent v. eauto with answers.
Qed.

Lemma gives_ws_session namespace r reqID recording claims ws :
  gives 1 (ws_session namespace r reqID recording claims ws).
Proof.
  unfold ws_session. silent rec. silent u. apply gives_last; [apply gives_ServeWS|].
  intros [[err|] rec']; silent v; eauto with answers.
Qed.

Lemma handleWS_answers cfg namespace fuel getenv r :
  post (handleWS cfg namespace fuel getenv r) (λ tr a, a = Some () → answers tr = 1%nat ∧ panics tr = 0%nat).
Proof.
  assert (Hone : ∀ p : prog gwE unit, gives 1 p →
    post (_ ← p; mret (Some ())) (λ tr (a : option unit), a = Some () → answers tr = 1%nat ∧ panics tr = 0%nat)).
  { intros p Hp. eapply post_mono; [apply (gives_last (B := option unit) 1 p (λ _, mret (Some ())));
      [exact Hp|done]|]. by intros. }
  assert (Hsil : ∀ A (p : prog gwE A) (f : A → prog gwE (option unit)), gives 0 p →
    (∀ x, post (f x) (λ tr a, a = Some () → answers tr = 1%nat ∧ panics tr = 0%nat)) →
    post (p ≫= f) (λ tr a, a = Some () → answers tr = 1%nat ∧ panics tr = 0%nat)).
  { intros A p f Hp Hf. apply post_bind. eapply post_mono; [exact Hp|]. intros t a Ht.
    eapply post_mono; [apply Hf|]. intros t' b Hb E. cbn beta in *. destruct Ht as [Ht Hu]. rewrite answers_app, panics_app, Ht, Hu. by apply Hb. }
  unfold handleWS. apply Hsil; [eauto with answers|]. intros reqID.
  destruct (extractToken r) as [tok|e]; [|apply Hone; eauto with answers].
  apply Hsil; [eauto with answers|]. intros [claims|e]; [|apply Hone; eauto with answers].
  apply Hsil; [eauto with answers|]. intros [[|] scope]; cbn [fst negb]; [|apply Hone; eauto with answers].
  apply Hsil; [eauto with answers|]. intros [[[ws|e] d]|]; [|apply Hone; eauto with answers|done].
  apply Hsil; [eauto with answers|]. intros _. apply Hsil; [eauto with answers|].
  intros [|]; cbn [negb]; apply Hone; [apply gives_ws_session|eauto with answers].
Qed.

(** The requests to the API server and the clock. *)
Definition call_api (c : call gwE) : list (call apiE) :=
  match c with
  | Call e x => match e in gwE Y return Y → list (call apiE) with ApiReq a => λ x, [Call a x] | _ => λ _, [] end x
  end.
Definition api_part (tr : list (call gwE)) : list (call apiE) := concat (map call_api tr).

Lemma api_part_app t1 t2 : api_part (t1 ++ t2) = api_part t1 ++ api_part t2.
Proof. unfold api_part. by rewrite map_app, concat_app. Qed.
Lemma api_part_embed t : api_part (map (embed_call (@ApiReq _)) t) = t.
Proof. unfold api_part. induction t as [|[X e x] t IH]; [done|]. cbn in *. by rewrite IH. Qed.

Lemma api_part_validate tok tr a : exec (Validator_Validate tok) tr a → api_part tr = [].
Proof.
  intros Hex.
  assert (Hall : Forall (λ c, is_auth c = true) tr).
  { apply Forall_forall. intros c (t1 & t2 & ->)%list_elem_of_split.
    by apply (safe_elim _ [] _ _ _ t1 c t2 (Validator_confined [] tok) Hex). }
  clear Hex. induction Hall as [|[X e x] t Hc _ IH]; [done|].
  unfold api_part in *. cbn [map concat]. rewrite IH, app_nil_r. by destruct e.
Qed.

Lemma api_part_RequestID r tr a : exec (RequestID r) tr a → api_part tr = [].
Proof.
  unfold RequestID. destruct (bool_decide _).
  - by intros (id & ? & -> & ? & ? & -> & -> & _).
  - by intros (? & ? & -> & -> & _).
Qed.

(** The wait of the WebSocket handler ends within its fuel. *)
Lemma handleWS_returns cfg namespace getenv r tr a lo :
  exec (handleWS cfg namespace 31 getenv r) tr a → clocked lo (api_part tr) → a = Some ().
Proof.
  assert (Hret : ∀ A (p : prog gwE A) t b, exec (_ ← p; mret (Some ())) t b → b = Some ()).
  { by intros A p t b (? & ? & ? & _ & _ & _ & ->)%exec_bind. }
  intros (t0 & reqID & t1 & -> & HQ & Hex)%exec_bind Hcl.
  rewrite api_part_app, (api_part_RequestID _ _ _ HQ) in Hcl. cbn [app] in Hcl.
  destruct (extractToken r) as [tok|e]; [|by eapply Hret].
  apply exec_bind in Hex as (t2 & v & t3 & -> & H2 & Hex).
  rewrite api_part_app, (api_part_validate _ _ _ H2) in Hcl. cbn [app] in Hcl.
  destruct v as [claims|e]; [|by eapply Hret].
  rewrite exec_request in Hex. destruct Hex as ([[|] scope] & t4 & -> & Hex); cbn [fst negb] in Hex;
    [|by eapply Hret].
  apply exec_bind in Hex as (t5 & w & t6 & -> & (t7 & -> & H5)%exec_embed & Hex).
  change (api_part (Call ?e ?x :: ?t)) with (api_part t) in Hcl.
  rewrite api_part_app, api_part_embed in Hcl. apply clocked_app in Hcl.
  destruct (EnsureWorkspace_ends _ _ _ _ _ _ H5 Hcl) as [[[ws|e] d] ->]; [|by eapply Hret].
  rewrite exec_bind in Hex. destruct Hex as (t8 & ? & t9 & -> & _ & Hex).
  rewrite exec_bind in Hex. destruct Hex as (t10 & [|] & t11 & -> & _ & Hex); cbn [negb] in Hex;
    exact (Hret _ _ _ _ Hex).
Qed.

End answers.

(** ** The injected style sheet *)

Lemma prefix_app p s : bytes_prefix p s = true ↔ s = p ++ drop (length p) s.
Proof.
  revert s. induction p as [|a p IH]; intros s; [by cbn; rewrite drop_0|].
  destruct s as [|b s]; [by cbn; split|]. cbn. rewrite andb_true_iff, Ascii.eqb_eq, IH.
  split; [intros [-> <-]; done|]. by intros [= <- <-].
Qed.

(** The first occurrence is replaced, what is before and after is kept. *)
Lemma replace_first_spec old new s :
  bytes_contains s old = true →
  ∃ before after, s = before ++ old ++ after ∧ replace_first old new s = before ++ new ++ after ∧
    (old ≠ [] → ∀ b a, s = b ++ old ++ a → (length before <= length b)%nat).
Proof.
  induction s as [|c s IH]; cbn; intros Hs.
  - rewrite orb_false_r in Hs. rewrite Hs. exists [], []. destruct old; [|done].
    cbn. split_and!; [done|by rewrite !app_nil_r|done].
  - destruct (bytes_prefix old (c :: s)) eqn:Ep.
    + apply prefix_app in Ep. exists [], (drop (length old) (c :: s)).
      split_and!; [exact Ep|done|cbn; lia].
    + destruct (IH Hs) as (before & after & E & Er & Hmin). exists (c :: before), after.
      split_and!; [by rewrite E at 1|by rewrite Er|].
      intros Hold [|d b] a Eb.
      * exfalso. assert (bytes_prefix old (c :: s) = true); [|congruence].
        apply prefix_app. cbn [app] in Eb. rewrite Eb. by rewrite drop_app_length.
      * injection Eb as -> Eb. cbn. specialize (Hmin Hold b a Eb). lia.
Qed.

(** The style sheet is inserted in the page and nothing else changes: a
      response that is not a 200 of type HTML, or has no closing head tag,
      passes unchanged; otherwise the new body is the old one with the sheet
      right before its first [</head>], the Content-Length header and field
      are the new length, and the Transfer-Encoding header is gone; the only
      error is that the body could not be read. *)
Theorem inject_exact resp :
  let html := (Resp_Status resp =? StatusOK) && Contains (default "" (Resp_Header resp !! "Content-Type")) "text/html" in
  match injectFullWidthTerminalCSS resp with
  | Err err => html = true ∧ Resp_Body resp = Err err
  | Ok resp' =>
    resp' = resp ∧ (html = false ∨ ∃ b, Resp_Body resp = Ok b ∧ bytes_contains b headClose = false) ∨
    ∃ before after,
      html = true ∧
      Resp_Body resp = Ok (before ++ headClose ++ after) ∧
      (∀ b a, before ++ headClose ++ after = b ++ headClose ++ a → (length before <= length b)%nat) ∧
      Resp_Body resp' = Ok (before ++ fullWidthTerminalCSS ++ headClose ++ after) ∧
      ContentLength resp' = Z.of_nat (length (before ++ fullWidthTerminalCSS ++ headClose ++ after)) ∧
      Resp_Header resp' !! "Content-Length" = Some (pretty (ContentLength resp')) ∧
      Resp_Header resp' !! "Transfer-Encoding" = None ∧ Resp_Status resp' = Resp_Status resp
  end.
Proof.
  cbn zeta. unfold injectFullWidthTerminalCSS.
  destruct (Resp_Status resp =? StatusOK) eqn:Es; cbn [negb andb]; [|by auto].
  destruct (Contains _ _); cbn [negb]; [|by auto]. destruct (Resp_Body resp) as [b|e] eqn:Eb; [|done].
  destruct (bytes_contains b headClose) eqn:Ec; cbn [negb]; [|by left; eauto 10].
  right. destruct (replace_first_spec headClose (fullWidthTerminalCSS ++ headClose) b Ec)
    as (before & after & -> & Er & Hmin).
  exists before, after. rewrite Er, <- app_assoc. split; [done|]. split; [done|]. split; [by apply Hmin|].
  cbn [Resp_Body ContentLength Resp_Header Resp_Status]. split; [done|]. split; [done|]. split.
  - rewrite lookup_delete_ne by done. by rewrite lookup_insert_eq.
  - by rewrite lookup_delete_eq.
Qed.

(** ** The audit trail of a session *)

Section audit_trail.
Context `{UnicodeTables} `{K8sLib}.

Definition call_event (c : call gwE) : list string :=
  match c with
  | Call e _ =>
    match e with
    | AuditReq l => match line_event l with Some (LStr ev) => [ev] | _ => [] end
    | _ => []
    end
  end.
Definition audit_events (tr : list (call gwE)) : list string := concat (map call_event tr).

Definition is_tunnel (c : call gwE) : bool := match c with Call e _ => match e with RunTunnel _ _ _ => true | _ => false end end.
Definition tunnel_opened (tr : list (call gwE)) : bool := existsb is_tunnel tr.

Lemma audit_events_app t1 t2 : audit_events (t1 ++ t2) = audit_events t1 ++ audit_events t2.
Proof. unfold audit_events. by rewrite map_app, concat_app. Qed.
Lemma tunnel_opened_app t1 t2 : tunnel_opened (t1 ++ t2) = tunnel_opened t1 || tunnel_opened t2.
Proof. apply existsb_app. Qed.

(** [trail p ev b]: every run of [p] leaves the audit events [ev], and opens a
    tunnel or not. *)
Definition trail {A} (p : prog gwE A) (ev : list string) (b : bool) : Prop :=
  post p (λ tr _, audit_events tr = ev ∧ tunnel_opened tr = b).

Lemma trail_embed {E A} (emb : ∀ X, E X → gwE X) (p : prog E A) :
  (∀ X e (x : X), call_event (Call (emb X e) x) = [] ∧ is_tunnel (Call (emb X e) x) = false) →
  trail (embed emb p) [] false.
Proof.
  intros He. apply post_exec. intros t a (t0 & -> & _)%exec_embed.
  induction t0 as [|[X e x] t0 [IH1 IH2]]; [done|]. destruct (He X e x) as [H1 H2].
  unfold audit_events, tunnel_opened in *. cbn [map embed_call concat existsb]. by rewrite H1, H2, IH1, IH2.
Qed.

Lemma trail_bind {A B} (p : prog gwE A) (f : A → prog gwE B) ev ev' b b' :
  trail p ev b → (∀ a, trail (f a) ev' b') → trail (p ≫= f) (ev ++ ev') (b || b').
Proof.
  intros Hp Hf. apply post_bind. eapply post_mono; [exact Hp|]. intros t a [E1 E2].
  eapply post_mono; [apply Hf|]. intros t' c [E3 E4]. cbn beta.
  by rewrite audit_events_app, tunnel_opened_app, E1, E2, E3, E4.
Qed.

Lemma ServeWS_trail url rec ws :
  post (ServeWS url rec ws) (λ tr o, audit_events tr = [] ∧
    tunnel_opened tr = match o.1 with Some _ => false | None => true end).
Proof.
  unfold ServeWS. apply post_bind. eapply post_mono; [by apply (trail_embed (@WsReq _))|].
  intros t1 [err|] [E1 E2].
  - cbn. by rewrite app_nil_r, E1, E2.
  - intros rec' x y. cbn [post prog_mbind prog_bind mret prog_mret fst].
    by rewrite audit_events_app, tunnel_opened_app, E1, E2.
Qed.

(** The end of a WebSocket session is audited only when there was none: a run
      of the session part of the WebSocket handler logs the start event, and
      the end event if and only if the tunnel was not opened (the upgrade or
      the dial failed).  A session that carried traffic leaves no end event. *)
Theorem session_end_audited_only_on_failure namespace r reqID recording claims ws tr :
  exec (ws_session namespace r reqID recording claims ws) tr () →
  audit_events tr =
    EventAuditWSSessionStart :: if tunnel_opened tr then [] else [EventAuditWSSessionEnd].
Proof.
  assert (Hrec : ∀ A (p : prog recE A), trail (lift_rec p) [] false) by (intros; by apply trail_embed).
  assert (Hlog : ∀ msg ev kvs, call_event (Call (AuditReq (LogAudit msg reqID ev kvs)) ()) = [ev]).
  { intros. cbn. done. }
  intros (t1 & rec & t2 & -> & R1 & Hex)%exec_bind.
  destruct (exec_post _ _ _ _ R1 (Hrec _ _)) as [A1 B1].
  unfold audit in Hex. rewrite exec_request in Hex. destruct Hex as ([] & t3 & -> & Hex).
  apply exec_bind in Hex as (t4 & o & t5 & -> & R4 & Hex).
  destruct (exec_post _ _ _ _ R4 (ServeWS_trail _ _ _)) as [A4 B4].
  rewrite !audit_events_app, !tunnel_opened_app, A1, B1. cbn [app orb].
  change (audit_events (Call ?e ?x :: ?t)) with (call_event (Call e x) ++ audit_events t).
  change (tunnel_opened (Call ?e ?x :: ?t)) with (is_tunnel (Call e x) || tunnel_opened t).
  rewrite Hlog, audit_events_app, tunnel_opened_app, A4, B4. cbn [app].
  destruct o as [[err|] rec']; cbn [fst is_tunnel orb]; apply exec_bind in Hex as (t6 & x & t7 & -> & R6 & Hex);
    destruct (exec_post _ _ _ _ R6 (Hrec _ _)) as [A6 B6]; rewrite audit_events_app, A6.
  - destruct Hex as ([] & t8 & -> & -> & _). rewrite tunnel_opened_app, B6. cbn [app].
    change (audit_events [Call ?e ?x]) with (call_event (Call e x) ++ []). by rewrite Hlog.
  - by destruct Hex as [-> _].
Qed.
End audit_trail.
