(* ===== verification/GatewayWitnesses.v ===== *)
(** * Concrete runs of the gateway's handlers

    An environment for a browser of the user alice in front of the fault-free
    cluster, in which the theorems about the handlers are instantiated. *)
From S2P Require Import Prelude GoStrings GoTime Api K8s K8sClient Cluster Resources Auth Lifecycle.
From S2P Require Import LifecycleProps Fixtures Proxy ProxyProps SessionRecording AuditLog GatewayHttp.
From S2P Require Import GatewayHttpProps GatewayAnswers.
From Stdlib Require Import ZArith Lia.
#[local] Open Scope Z_scope.

#[local] Existing Instance ascii_tables.
#[local] Existing Instance RefLib.
#[local] Existing Instance oidc_validator.

Definition gw_auth (X : Type) (e : authE X) : X :=
  match e in authE Y return Y with
  | CacheLookup _ => None
  | VerifyToken _ => Ok (MkIDToken "alice" (Ok "alice@example.com"))
  | CacheInsert _ _ => ()
  end.

Definition gw_rec (X : Type) (e : recE X) : X :=
  match e in recE Y return Y with
  | Timestamp => "2025-01-01T00:00:00Z"
  | NewUUID => "id"
  | MkdirAll _ => None
  | OpenFile _ _ => None
  | WriteRecord _ => None
  | CloseRecordFile => ()
  | WriteManifest _ => None
  end.

(** Everything succeeds; the tunnel carries nothing. *)
Definition gw_serve (X : Type) (e : gwE X) (c : cluster) : X * cluster :=
  match e in gwE Y return Y * cluster with
  | AuthReq a => (gw_auth _ a, c)
  | ApiReq a => Cluster.serve _ a c
  | RecReq a => (gw_rec _ a, c)
  | WsReq a => match a in wsE Z return Z * cluster with Upgrade => (Ok "tty", c) | a' => (some_answer a', c) end
  | AllowReq _ _ => ((true, ""), c)
  | DialTimeout _ _ _ => (None, c)
  | RunTunnel _ rec _ => (rec, c)
  | ParseURL _ => (None, c)
  | Panic _ => ((), c)
  | RoundTrip _ => (Ok (MkHttpResponse 200 ∅ (Ok []) 0), c)
  | CopyResponse _ => ((), c)
  | AuthCodeURL state => ("https://idp/auth?state=" +:+ state, c)
  | Exchange _ => (Ok (MkOAuthToken (Some "jwt") zeroTime), c)
  | UUID => ("uuid-1", c)
  | AuditReq _ => ((), c)
  | RecordRateLimitHit _ _ => ((), c)
  | RecordJSONAPIError _ _ => ((), c)
  | SetHeader _ _ => ((), c)
  | SetCookie _ => ((), c)
  | WriteHeader _ => ((), c)
  | WriteBody _ => ((), c)
  | HttpError _ _ => ((), c)
  | Redirect _ _ => ((), c)
  end.

(** A browser with a session cookie, and one that comes back from the provider. *)
Definition browser : HttpRequest :=
  MkHttpRequest "GET" (λ _, "") (λ n, if bool_decide (n = "devplane_token") then Some "jwt" else None) (λ _, "") "10.0.0.1".
Definition returning : HttpRequest :=
  MkHttpRequest "GET" (λ _, "") (λ n, if bool_decide (n = "devplane_state") then Some "uuid-1" else None)
    (λ n, if bool_decide (n = "state") then "uuid-1" else if bool_decide (n = "code") then "c" else "") "10.0.0.1".
Definition no_env : string → string := λ _, "".

Abbreviation proxy_run := (handleProxy demo_cfg "workspaces" browser true).
Definition proxy_trace : list (call gwE) := run_trace gw_serve proxy_run running_cluster.

(** The session cookie at the end of a login. *)
Lemma callback_bound_witness :
  ∃ h x, callback_allowed returning true h (Call (SetCookie (session_cookie "jwt" (demo_now + Hour) true)) x).
Proof.
  assert (Ha : ∃ h x, asks (handleCallback returning true) h
    (Call (SetCookie (session_cookie "jwt" (demo_now + Hour) true)) x)).
  { eexists _, _. apply (run_asks gw_serve _ new_cluster 8). vm_compute. reflexivity. }
  destruct Ha as (h & x & Ha). exists h, x. exact (callback_bound returning true h _ Ha).
Defined.

Lemma login_roundtrip_witness :
  ∃ state, Call UUID state ∈ run_trace gw_serve (handleLogin browser true) new_cluster ∧
    ∀ r' secure' tr' a, Cookie_Get r' "devplane_state" = Some state → Query_Get r' "state" = state →
      exec (handleCallback r' secure') tr' a → ∃ x, Call (Exchange (Query_Get r' "code")) x ∈ tr'.
Proof.
  destruct (login_roundtrip browser true (run_trace gw_serve (handleLogin browser true) new_cluster))
    as (state & url & _ & Hu & _ & _ & Hcb).
  - exact (run_exec gw_serve (handleLogin browser true) new_cluster).
  - exists state. split; [exact Hu|exact Hcb].
Defined.

Abbreviation ws_run := (handleWS demo_cfg "workspaces" 31 no_env browser).
Definition ws_trace : list (call gwE) := run_trace gw_serve ws_run running_cluster.

(** A page from the backend; the same request when the endpoint's URL is refused. *)
Definition refuse_url (X : Type) (e : gwE X) (c : cluster) : X * cluster :=
  match e in gwE Y return Y * cluster with
  | ParseURL _ => (Some (errors_new "invalid URL escape"), c)
  | e' => gw_serve _ e' c
  end.
Definition refused_trace : list (call gwE) := run_trace refuse_url proxy_run running_cluster.


Lemma session_end_audited_only_on_failure_witness :
  audit_events (run_trace gw_serve (ws_session "workspaces" browser "req-1"
    (MkRecordingConfig false SessionRecordingOff "") demo_claims (demo_ws [] "Running" 1)) new_cluster) =
  [EventAuditWSSessionStart].
Proof.
  rewrite (session_end_audited_only_on_failure "workspaces" browser "req-1"
    (MkRecordingConfig false SessionRecordingOff "") demo_claims (demo_ws [] "Running" 1)).
  - vm_compute. reflexivity.
  - pose proof (run_exec gw_serve (ws_session "workspaces" browser "req-1"
      (MkRecordingConfig false SessionRecordingOff "") demo_claims (demo_ws [] "Running" 1)) new_cluster) as Hex.
    destruct (run gw_serve _ new_cluster).1. exact Hex.
Defined.
