(* ===== verification/FirstTerminal.v ===== *)
(** * From the browser's first WebSocket request to the open terminal

    The WebSocket handler over the cluster of [FirstLogin], everything else it asks
    being answered by an arbitrary world: when that world accepts the token, lets the
    user in and opens the connections, a user who has nothing yet gets a terminal in
    the workspace the request created. *)
From S2P Require Import Prelude GoStrings GoTime Api K8s K8sClient Cluster StatusSummary Resources.
From S2P Require Import Auth Lifecycle LifecycleProps Controller ControllerSpec Fixtures ControllerProps FirstLogin.
From S2P Require Import Proxy ProxyProps SessionRecording AuditLog GatewayHttp GatewayHttpProps GatewayAnswers GatewayWitnesses.
From Stdlib Require Import ZArith Lia.
#[local] Open Scope Z_scope.

Section terminal.
Context `{UnicodeTables} `{K8sLib} {laws : K8sLaws} `{!tokenValidator}.
Variable r : WorkspaceReconciler.
Variable cfg : LifecycleConfig.
Variable namespace : string.
Variable claims : Claims.

(** What answers everything but the API server: cache and verifier, rate limiter,
    probe, disk, the two WebSocket connections, the response. *)
Variable w : ∀ X, gwE X → X.

(** The cluster with its schedule, and the tunnels opened: to which URL, for which
    Workspace. *)
Record front := MkFront {
  fr_api : cluster * list (list action);
  fr_tunnels : list (string * Workspace);
}.

Definition serve_front (X : Type) (e : gwE X) (s : front) : X * front :=
  match e in gwE Y return Y * front with
  | ApiReq a => let '(x, api) := live r namespace claims _ a (fr_api s) in (x, MkFront api (fr_tunnels s))
  | RunTunnel url rec ws => (w _ (RunTunnel url rec ws), MkFront (fr_api s) (fr_tunnels s ++ [(url, ws)]))
  | e' => (w _ e', s)
  end.

(** ** Parts of the handler *)

Lemma run_lift_api {A} (p : prog apiE A) s a api :
  run (live r namespace claims) p (fr_api s) = (a, api) →
  run serve_front (lift_api p) s = (a, MkFront api (fr_tunnels s)).
Proof.
  revert s. induction p as [b|X e k IH]; intros s; cbn; [intros [= -> <-]; by destruct s|].
  destruct (live r namespace claims X e (fr_api s)) as [x api1] eqn:E. apply (IH x (MkFront api1 (fr_tunnels s))).
Qed.

Lemma run_lift_rec {A} (p : prog recE A) s : ∃ a, run serve_front (lift_rec p) s = (a, s).
Proof. revert s. induction p as [b|X e k IH]; intros s; cbn; [by exists b|]. apply IH. Qed.

Lemma run_RequestID req s : ∃ id, run serve_front (RequestID req) s = (id, s).
Proof. unfold RequestID. case_bool_decide; cbn; eauto. Qed.

(** The endpoint of the user's workspace, once it has one. *)
Abbreviation our_endpoint := (endpoint_of (claims_key namespace claims) (new_workspace cfg namespace claims)).

(** The rate limiter lets the user in, ttyd answers the probe, the browser's upgrade
    and the dial to ttyd succeed. *)
Hypothesis Hallow : (w _ (AllowReq "websocket" (Claims_Sub claims))).1 = true.
Hypothesis Hprobe : w _ (DialTimeout "tcp" (probe_addr our_endpoint) backendReadyTimeout) = None.
Hypothesis Hupgrade : ∃ sp, w _ (WsReq Upgrade) = Ok sp.
Hypothesis Hdial : ∀ t l, w _ (WsReq (Dial (BackendURL our_endpoint) t l)) = None.

Lemma run_ServeWS rec ws s :
  ∃ o, run serve_front (ServeWS (BackendURL our_endpoint) rec ws) s =
    (o, MkFront (fr_api s) (fr_tunnels s ++ [(BackendURL our_endpoint, ws)])) ∧ o.1 = None.
Proof using Hupgrade Hdial.
  destruct Hupgrade as [sp Hsp].
  assert (Ho : run serve_front (lift_ws (ServeWS_open (BackendURL our_endpoint))) s = (None, s)).
  { cbn -[BackendURL]. rewrite Hsp. cbn -[BackendURL]. by rewrite Hdial. }
  unfold ServeWS. rewrite run_bind, Ho. cbn -[BackendURL]. eauto.
Qed.

Lemma run_session req reqID recording ws s :
  Status_ServiceEndpoint (WS_Status ws) = our_endpoint →
  run serve_front (ws_session namespace req reqID recording claims ws) s =
    ((), MkFront (fr_api s) (fr_tunnels s ++ [(BackendURL our_endpoint, ws)])).
Proof using Hupgrade Hdial.
  intros Hep. unfold ws_session. rewrite run_bind, Hep.
  destruct (run_lift_rec (NewSessionRecorder recording (session_meta reqID claims namespace ws (RemoteAddr req))) s) as [rec ->].
  cbv beta iota. unfold audit. rewrite (run_next serve_front _ _ _ (w _ (AuditReq _)) s) by done. rewrite run_bind.
  destruct (run_ServeWS rec ws s) as ([o rec'] & -> & Eo). cbn in Eo. subst o. rewrite run_bind.
  by destruct (run_lift_rec (Close rec' None) (MkFront (fr_api s)
    (fr_tunnels s ++ [(BackendURL our_endpoint, ws)]))) as [? ->].
Qed.

(** C7. A first terminal.  A user who has nothing yet is given exactly one tunnel,
      to the ttyd of the Workspace that the WebSocket request created and that is
      running by then, provided: the request carries a token the validator accepts
      and the rate limiter admits its subject; the Workspace made from its claims
      passes [ValidateSpec] (an empty email would not); the idle timeout is
      disabled or at least a minute and a second; four runs of the operator, each
      seeing the cluster as it is, with a report of the kubelet before the last,
      fall anywhere between the gateway's requests within the minute it polls; and
      ttyd answers the probe, the upgrade and the dial. *)
Theorem first_terminal t0 k fuel sched getenv req tok :
  ValidateSpec (Some (new_workspace cfg namespace claims)) = None →
  (idle_of r (new_workspace cfg namespace claims) <= 0 ∨
   workspaceReadyTimeout + Second <= idle_of r (new_workspace cfg namespace claims)) →
  Z.of_nat k * workspaceReadyPoll < workspaceReadyTimeout → (k < fuel)%nat →
  enough `sublist_of` concat (take (3 * k + 3) (drop 2 sched)) →
  extractToken req = Ok tok → (∀ s, run serve_front (Validator_Validate tok) s = (Ok claims, s)) →
  ∃ ws c' sched',
    run serve_front (handleWS cfg namespace fuel getenv req) (MkFront (MkCluster None None None t0, sched) []) =
      (Some (), MkFront (c', sched') [(BackendURL our_endpoint, ws)]) ∧
    cl_ws c' = Some ws ∧ phase ws = WorkspacePhaseRunning ∧
    t0 <= cl_now c' <= t0 + Z.of_nat k * workspaceReadyPoll.
Proof using laws Hallow Hprobe Hupgrade Hdial.
  intros Hv Hi Hk Hf Hen Htok Hval.
  destruct (first_login r cfg namespace claims t0 Hv Hi k fuel sched Hk Hf Hen)
    as (ws & c' & sched' & E & Hws & Hph & Hep & Hnow).
  exists ws, c', sched'. split; [|done]. unfold handleWS.
  set (s0 := MkFront (MkCluster None None None t0, sched) []).
  rewrite run_bind. destruct (run_RequestID req s0) as [id ->]. cbv beta iota. rewrite Htok, run_bind, Hval. cbv beta iota.
  rewrite (run_next serve_front (AllowReq _ _) _ _ (w _ (AllowReq "websocket" (Claims_Sub claims))) s0) by done.
  rewrite Hallow. cbn [negb].
  rewrite run_bind, (run_lift_api _ s0 _ _ E). cbv beta iota. unfold audit.
  rewrite (run_next serve_front (AuditReq _) _ _ (w _ (AuditReq _)) (MkFront (c', sched') [])) by done.
  rewrite run_bind. unfold BackendReady. rewrite Hep.
  rewrite (run_next serve_front (DialTimeout _ _ _) _ _ None (MkFront (c', sched') [])) by (cbn -[probe_addr]; by rewrite Hprobe).
  cbn [run mret prog_mret negb]. by rewrite run_bind, run_session.
Qed.
End terminal.

(** ** Witness: alice's browser, a run of the operator and a report during every wait *)
#[local] Existing Instance ascii_tables.
#[local] Existing Instance RefLib.
#[local] Existing Instance oidc_validator.

(** Everything answers as in [gw_serve]. *)
Definition open_world (X : Type) (e : gwE X) : X := (gw_serve X e new_cluster).1.

Abbreviation demo_front := (serve_front demo_r "workspaces" demo_claims open_world).

Lemma demo_validated s : run demo_front (Validator_Validate "jwt") s = (Ok demo_claims, s).
Proof. destruct s. vm_compute. reflexivity. Qed.

Lemma first_terminal_witness :
  ∃ ws c' sched' url,
    run demo_front (handleWS demo_cfg "workspaces" 31 no_env browser) (MkFront (MkCluster None None None demo_now, demo_sched) []) =
      (Some (), MkFront (c', sched') [(url, ws)]) ∧
    url = "ws://" +:+ ServiceName (Claims_UserID demo_claims) +:+ ".workspaces.svc.cluster.local:7681" ∧
    phase ws = WorkspacePhaseRunning ∧ cl_now c' <= demo_now + 8 * Second.
Proof.
  destruct (@first_terminal _ _ RefLib_laws _ demo_r demo_cfg "workspaces" demo_claims open_world)
    with (t0 := demo_now) (k := 4%nat) (fuel := 31%nat) (sched := demo_sched) (getenv := no_env) (req := browser) (tok := "jwt")
    as (ws & c' & sched' & E & _ & Hp & Hn).
  - reflexivity.
  - reflexivity.
  - by exists "tty".
  - done.
  - vm_compute. reflexivity.
  - right. rewrite demo_idle. discriminate.
  - reflexivity.
  - repeat constructor.
  - exact demo_enough.
  - reflexivity.
  - exact demo_validated.
  - eexists ws, c', sched', _. split; [exact E|]. refine (conj _ (conj Hp (proj2 Hn))). vm_compute. reflexivity.
Defined.
