(* ===== verification/Metrics.v ===== *)
(** * Metrics ([pkg/gateway/metrics.go], [pkg/observability/metrics.go])

    Counter vectors, what the operator and the gateway count, and that the
    counters agree with what happened: phase changes and failed status patches
    of the operator, JSON error answers and rate-limit rejections of the
    gateway. *)
From S2P Require Import Prelude GoStrings GoTime Api K8s K8sClient Cluster Diagnostics StatusSummary Resources.
From S2P Require Import Rbac NetPol Observability Controller Fixtures Auth Lifecycle Proxy SessionRecording.
From S2P Require Import AuditLog GatewayHttp LifecycleProps GatewayWitnesses.
From Stdlib Require Import ZArith Lia.
#[local] Open Scope Z_scope.

Create HintDb metrics.

(** ** Counters *)

(** [prometheus.CounterVec]: a count per tuple of label values, absent ones zero. *)
Abbreviation CounterVec := (gmap (list string) Z).
Definition ToFloat64 (m : CounterVec) (labels : list string) : Z := default 0 (m !! labels).
Definition Inc (labels : list string) (m : CounterVec) : CounterVec :=
  <[labels := ToFloat64 m labels + 1]> m.
Definition Inc_all (ls : list (list string)) (m : CounterVec) : CounterVec := foldl (λ m l, Inc l m) m ls.

Definition occurrences (l : list string) (ls : list (list string)) : Z :=
  Z.of_nat (length (filter (λ x, x = l) ls)).

(** [RateLimitHitsTotal(endpoint, scope)]. *)
Definition RateLimitHitsTotal (endpoint scope : string) (m : CounterVec) : Z := ToFloat64 m [endpoint; scope].

Lemma Inc_count x l m : ToFloat64 (Inc x m) l = ToFloat64 m l + if decide (x = l) then 1 else 0.
Proof.
  unfold ToFloat64, Inc. case_decide as Hx.
  - subst x. by rewrite lookup_insert_eq.
  - rewrite lookup_insert_ne by done. lia.
Qed.

Lemma Inc_all_count l ls m : ToFloat64 (Inc_all ls m) l = ToFloat64 m l + occurrences l ls.
Proof.
  revert m. induction ls as [|x ls IH]; intros m; [unfold occurrences; cbn; lia|].
  change (Inc_all (x :: ls) m) with (Inc_all ls (Inc x m)). rewrite IH, Inc_count. unfold occurrences.
  rewrite filter_cons. case_decide; cbn [length]; lia.
Qed.

(** ** The operator *)

Section operator.
Context `{UnicodeTables} `{K8sLib}.

(** What a run counts, and what it did. *)
Definition call_transition (c : call apiE) : list (list string) :=
  match c with Call e _ => match e with IncPhaseTransitions a b => [[a; b]] | _ => [] end end.
Definition call_change (c : call apiE) : list (list string) :=
  match c with
  | Call e x =>
    match e in apiE Y return Y → list (list string) with
    | PatchStatus base new => λ x,
      match x with
      | Ok _ => if bool_decide (phase base = phase new) then []
                else [[PhaseLabel (phase base); PhaseLabel (phase new)]]
      | Err _ => []
      end
    | _ => λ _, []
    end x
  end.
Definition call_inc_failure (c : call apiE) : nat :=
  match c with Call e _ => match e with IncStatusPatchFailures => 1 | _ => 0 end end.
Definition call_patch_failure (c : call apiE) : nat :=
  match c with
  | Call e x =>
    match e in apiE Y return Y → nat with
    | PatchStatus _ _ => λ x, match x with Ok _ => 0%nat | Err _ => 1%nat end
    | _ => λ _, 0%nat
    end x
  end.

Definition transitions (tr : list (call apiE)) : list (list string) := concat (map call_transition tr).
Definition changes (tr : list (call apiE)) : list (list string) := concat (map call_change tr).
Definition failures_counted (tr : list (call apiE)) : nat := list_sum (map call_inc_failure tr).
Definition failures (tr : list (call apiE)) : nat := list_sum (map call_patch_failure tr).

(** Everything counted but [n] failed patches. *)
Definition balanced (n : nat) (tr : list (call apiE)) : Prop :=
  transitions tr = changes tr ∧ failures tr = (failures_counted tr + n)%nat.

Lemma balanced_app n m t1 t2 : balanced n t1 → balanced m t2 → balanced (n + m) (t1 ++ t2).
Proof.
  unfold balanced, transitions, changes, failures, failures_counted. rewrite !map_app, !concat_app, !list_sum_app.
  intros [-> ?] [-> ?]. split; [done|lia].
Qed.

Definition seed_failed (o : outcome) : Prop := ∃ e, o.2 = Some (errorf_w "seed lastAccessed: " e).

(** A part that ends the run, and a part that changes no status. *)
Definition counted (p : prog apiE outcome) : Prop :=
  post p (λ tr o, balanced 0 tr ∨ balanced 1 tr ∧ seed_failed o).
Definition even {A} (p : prog apiE A) : Prop := post p (λ tr _, balanced 0 tr).

Lemma counted_after t p :
  balanced 0 t → counted p → post p (λ tr o, balanced 0 (t ++ tr) ∨ balanced 1 (t ++ tr) ∧ seed_failed o).
Proof.
  intros Ht Hp. eapply post_mono; [exact Hp|]. intros t' o [Hb|[Hb Hs]];
    [left; by apply (balanced_app 0 0)|right]. split; [by apply (balanced_app 0 1)|done].
Qed.
Lemma counted_bind {A} (p : prog apiE A) f : even p → (∀ a, counted (f a)) → counted (p ≫= f).
Proof.
  intros Hp Hf. apply post_bind. eapply post_mono; [exact Hp|]. intros t a Ht. by apply counted_after.
Qed.
Lemma even_bind {A B} (p : prog apiE A) (f : A → prog apiE B) :
  even p → (∀ a, even (f a)) → even (p ≫= f).
Proof.
  intros Hp Hf. apply post_bind. eapply post_mono; [exact Hp|]. intros t a Ht.
  eapply post_mono; [apply Hf|]. intros t' o Hb. by apply (balanced_app 0 0).
Qed.
Lemma counted_even p : even p → counted p.
Proof. intros Hp. eapply post_mono; [exact Hp|]. by left. Qed.
Lemma even_return {A} (a : A) : even (mret a).
Proof. by split. Qed.
Lemma even_request {X} (e : apiE X) : (∀ x, balanced 0 [Call e x]) → even (request e).
Proof. intros He x. apply He. Qed.

(** An accepted patch: the phase change it made, by the phase asked for. *)
Lemma changes_patch now base sum ws' t :
  changes (Call Now now :: Call (PatchStatus base (ApplyStatusSummary now base sum)) (Ok ws') :: t) =
  (if bool_decide (phase base ≠ Sum_Phase sum) then [[PhaseLabel (phase base); PhaseLabel (Sum_Phase sum)]] else []) ++
  changes t.
Proof.
  assert (Hp : phase (ApplyStatusSummary now base sum) = Sum_Phase sum) by done.
  unfold changes. cbn [map concat call_change app]. rewrite Hp.
  by destruct (decide (phase base = Sum_Phase sum)); repeat case_bool_decide.
Qed.

Lemma updateStatus_even r ws sum : even (updateStatus r ws sum).
Proof.
  unfold updateStatus. intros now [ws'|e]; [|by intros []].
  destruct (bool_decide (phase ws ≠ Sum_Phase sum)) eqn:Hc.
  - intros [] []. rewrite andb_true_r.
    destruct (HasRecorder r && _); [intros []|]; (split; [|done]); by rewrite changes_patch, Hc.
  - rewrite andb_false_r. split; [|done]. by rewrite changes_patch, Hc.
Qed.

#[local] Hint Resolve even_return counted_even updateStatus_even : metrics.
#[local] Hint Extern 1 (even (request _)) => (by apply even_request) : metrics.

Lemma report_counted r ws sum g o : counted (report r ws sum g o).
Proof. apply counted_even, even_bind; [eauto with metrics|]. intros [e|]; eauto with metrics. Qed.
#[local] Hint Resolve report_counted : metrics.

(** The next request, or the end. *)
Ltac count :=
  repeat first
    [ by eauto with metrics
    | apply counted_bind; [by eauto with metrics|intros ?]
    | apply even_bind; [by eauto with metrics|intros ?]
    | case_match ].

Lemma ensureRBAC_even ws : even (ensureRBAC ws).
Proof. unfold ensureRBAC. count. Qed.
Lemma ensure_policy_even ws what d : even (ensure_policy ws what d).
Proof. unfold ensure_policy. count. Qed.
#[local] Hint Resolve ensureRBAC_even ensure_policy_even : metrics.
Lemma ensureNetworkPolicies_even r ws : even (ensureNetworkPolicies r ws).
Proof. unfold ensureNetworkPolicies. count. Qed.
#[local] Hint Resolve ensureNetworkPolicies_even : metrics.

Lemma reconcilePodStatus_counted r ws pn pod ep idle : counted (reconcilePodStatus r ws pn pod ep idle).
Proof. unfold reconcilePodStatus, reconcilePodWaiting. count. Qed.
Lemma stopIdle_counted r ws pod : counted (stopIdle r ws pod).
Proof. unfold stopIdle. count. Qed.
#[local] Hint Resolve reconcilePodStatus_counted stopIdle_counted : metrics.

(** The seed is the one patch whose failure is not counted. *)
Lemma seedLastAccessed_balance ws :
  post (seedLastAccessed ws) (λ tr x, match x with Ok _ => balanced 0 tr | Err _ => balanced 1 tr end).
Proof.
  unfold seedLastAccessed. destruct (IsZero (lastAccessed ws)); [|by split].
  intros now [ws'|e]; [|by split]. split; [|done]. unfold changes. cbn [map concat call_change app].
  by rewrite bool_decide_true.
Qed.

Lemma reconcileIdle_counted r ws pn pod ep : counted (reconcileIdle r ws pn pod ep).
Proof.
  unfold reconcileIdle. destruct (_ && _); [|count].
  apply post_bind. eapply post_mono; [apply seedLastAccessed_balance|]. intros t [ws'|e] Ht; cbn beta in Ht.
  - apply counted_after; [done|count].
  - right. rewrite app_nil_r. split; [done|]. by exists e.
Qed.
#[local] Hint Resolve reconcileIdle_counted : metrics.

Lemma reconcilePod_counted r nn ws : counted (reconcilePod r nn ws).
Proof. unfold reconcilePod, createPod, reconcileService. count. Qed.
#[local] Hint Resolve reconcilePod_counted : metrics.
Lemma reconcilePVC_counted r nn ws : counted (reconcilePVC r nn ws).
Proof. unfold reconcilePVC, createPVC. count. Qed.
#[local] Hint Resolve reconcilePVC_counted : metrics.
Lemma Reconcile_counted r req : counted (Reconcile r req).
Proof. unfold Reconcile, reconcileChildren, reconcileDelete. count. Qed.

(** C29. The operator's metrics are truthful: after any run, whatever the API server
      answered, [devplane_workspace_phase_transitions_total] has grown, for
      every pair of labels, by the number of accepted status patches of the run
      that changed the phase from the one to the other, and
      [devplane_workspace_status_patch_failures_total] by the number of refused
      ones, except that a refused patch seeding the last access, with whose
      error the run then ends, is not counted. *)
Theorem operator_metrics_truthful r req tr o :
  exec (Reconcile r req) tr o →
  (∀ from to m, ToFloat64 (Inc_all (transitions tr) m) [from; to] =
    ToFloat64 m [from; to] + occurrences [from; to] (changes tr)) ∧
  (failures_counted tr = failures tr ∨ failures tr = S (failures_counted tr) ∧ seed_failed o).
Proof.
  intros Hex. destruct (exec_post _ _ _ _ Hex (Reconcile_counted r req)) as [[Ht Hf]|[[Ht Hf] Hs]];
    (split; [intros from to m; by rewrite Inc_all_count, Ht|]); [left; lia|right; split; [lia|done]].
Qed.
End operator.

(** ** The gateway *)

Section gateway.
Context `{UnicodeTables} `{K8sLib} `{!tokenValidator}.

(** What is counted, and what happened: JSON errors by status and code, requests
    the limiter refused by endpoint and scope. *)
Definition call_recorded (c : call gwE) : list (Z * string) :=
  match c with Call e _ => match e with RecordJSONAPIError st code => [(st, code)] | _ => [] end end.
Definition call_hit (c : call gwE) : list (string * string) :=
  match c with Call e _ => match e with RecordRateLimitHit ep scope => [(ep, scope)] | _ => [] end end.
Definition call_refused (c : call gwE) : list (string * string) :=
  match c with
  | Call e x =>
    match e in gwE Y return Y → list (string * string) with
    | AllowReq ep _ => λ a, if a.1 then [] else [(ep, a.2)]
    | _ => λ _, []
    end x
  end.
Definition call_status (st : Z) (c : call gwE) : Z :=
  match c with Call e _ => match e with WriteHeader st' => st' | _ => st end end.
Definition call_error (st : Z) (c : call gwE) : list (Z * string) :=
  match c with Call e _ => match e with WriteBody (JSONError code) => [(st, code)] | _ => [] end end.

Definition recorded_errors (tr : list (call gwE)) : list (Z * string) := concat (map call_recorded tr).
Definition hits (tr : list (call gwE)) : list (string * string) := concat (map call_hit tr).
Definition refusals (tr : list (call gwE)) : list (string * string) := concat (map call_refused tr).
(** The JSON errors sent, each with the status line written last. *)
Fixpoint sent_errors (st : Z) (tr : list (call gwE)) : list (Z * string) :=
  match tr with
  | [] => []
  | c :: tr' => call_error st c ++ sent_errors (call_status st c) tr'
  end.

Lemma sent_errors_app st t1 t2 :
  sent_errors st (t1 ++ t2) = sent_errors st t1 ++ sent_errors (foldl call_status st t1) t2.
Proof. revert st. induction t1 as [|c t1 IH]; intros st; [done|]. cbn. by rewrite IH, app_assoc. Qed.

Record truthful (tr : list (call gwE)) : Prop := {
  tr_errors st : sent_errors st tr = recorded_errors tr;
  tr_hits : hits tr = refusals tr;
  tr_limited : length (hits tr) = length (filter (λ x, x.1 = StatusTooManyRequests) (recorded_errors tr));
}.

Lemma truthful_app t1 t2 : truthful t1 → truthful t2 → truthful (t1 ++ t2).
Proof.
  intros [E1 E2 E3] [I1 I2 I3].
  assert (Er : recorded_errors (t1 ++ t2) = recorded_errors t1 ++ recorded_errors t2)
    by (unfold recorded_errors; by rewrite map_app, concat_app).
  assert (Eh : hits (t1 ++ t2) = hits t1 ++ hits t2) by (unfold hits; by rewrite map_app, concat_app).
  constructor.
  - intros st. by rewrite sent_errors_app, E1, I1.
  - rewrite Eh, E2, I2. unfold refusals. by rewrite map_app, concat_app.
  - rewrite Eh, Er, filter_app, !length_app. lia.
Qed.

Definition honest {A} (p : prog gwE A) : Prop := post p (λ tr _, truthful tr).

Lemma honest_bind {A B} (p : prog gwE A) (f : A → prog gwE B) :
  honest p → (∀ a, honest (f a)) → honest (p ≫= f).
Proof.
  intros Hp Hf. apply post_bind. eapply post_mono; [exact Hp|]. intros t a Ht.
  eapply post_mono; [apply Hf|]. intros t' b Hb. by apply truthful_app.
Qed.
Lemma honest_return {A} (a : A) : honest (mret a).
Proof. by constructor. Qed.

(** Calls that neither count nor are counted. *)
Definition unmetered (c : call gwE) : Prop :=
  match c with
  | Call e _ =>
    match e with
    | RecordJSONAPIError _ _ | RecordRateLimitHit _ _ | AllowReq _ _ | WriteBody (JSONError _) => False
    | _ => True
    end
  end.

Lemma unmetered_truthful tr : Forall unmetered tr → truthful tr.
Proof.
  induction 1 as [|c tr Hc _ IH]; [by constructor|]. apply (truthful_app [c]); [|done].
  destruct c as [X e x], e; try done; try (by constructor). destruct b; by constructor.
Qed.

Lemma honest_request {X} (e : gwE X) : (∀ x, unmetered (Call e x)) → honest (request e).
Proof. intros He x. apply unmetered_truthful. by constructor. Qed.

Lemma honest_embed {E A} (emb : ∀ X, E X → gwE X) (p : prog E A) :
  (∀ X e (x : X), unmetered (Call (emb X e) x)) → honest (embed emb p).
Proof.
  intros He. apply post_exec. intros t a (t0 & -> & _)%exec_embed. apply unmetered_truthful.
  apply Forall_fmap, Forall_forall. intros [X e x] _. apply He.
Qed.

Lemma honest_validate tok : honest (Validator_Validate tok).
Proof.
  apply post_exec. intros t a Hex. apply unmetered_truthful, Forall_forall.
  intros c (t1 & t2 & ->)%list_elem_of_split.
  assert (Hc : is_auth c = true)
    by (by apply (safe_elim _ [] _ _ _ t1 c t2 (Validator_confined [] tok) Hex)).
  destruct c as [X e x]. by destruct e.
Qed.

Lemma honest_WriteJSONError st code : st ≠ StatusTooManyRequests → honest (WriteJSONError st code).
Proof.
  intros Hst ? ? ? ?. constructor; [done|done|].
  unfold recorded_errors. cbn [map concat call_recorded app]. by rewrite filter_cons_False.
Qed.

(** A refusal is counted and answered with 429. *)
Lemma honest_limited {A} ep sub (f : bool * string → prog gwE A) :
  (∀ scope, post (f (false, scope)) (λ tr _, truthful (Call (AllowReq ep sub) (false, scope) :: tr))) →
  (∀ scope, honest (f (true, scope))) → honest (request (AllowReq ep sub) ≫= f).
Proof.
  intros Hf Ht [[|] scope]; [|apply Hf].
  eapply post_mono; [apply Ht|]. intros t a Hok. apply (truthful_app [_]); [by constructor|done].
Qed.

#[local] Hint Resolve honest_return honest_validate : metrics.
#[local] Hint Extern 1 (honest (request _)) => (by apply honest_request) : metrics.
#[local] Hint Extern 1 (honest (audit _)) => (by apply honest_request) : metrics.
#[local] Hint Extern 1 (honest (lift_api _)) => (by apply honest_embed) : metrics.
#[local] Hint Extern 1 (honest (lift_rec _)) => (by apply honest_embed) : metrics.
#[local] Hint Extern 1 (honest (lift_ws _)) => (by apply honest_embed) : metrics.
#[local] Hint Extern 1 (honest (WriteJSONError _ _)) => (by apply honest_WriteJSONError) : metrics.
#[local] Hint Extern 1 (honest (WriteJSONAuthError _ _)) => (by apply honest_WriteJSONError) : metrics.

Ltac meter :=
  repeat first
    [ by eauto with metrics
    | apply honest_bind; [by eauto with metrics|intros ?]
    | case_match ].

Lemma honest_BackendReady ep : honest (BackendReady ep).
Proof. unfold BackendReady. meter. Qed.
#[local] Hint Resolve honest_BackendReady : metrics.
Lemma honest_RequestID r : honest (RequestID r).
Proof. unfold RequestID. meter. Qed.
Lemma honest_missing_token r reqID : honest (missing_token r reqID).
Proof. unfold missing_token. meter. Qed.
Lemma honest_invalid_token r reqID err : honest (invalid_token r reqID err).
Proof.
  unfold invalid_token, AuthErrorResponse. destruct (err_has _ _); [meter|]. destruct (err_has _ _); meter.
Qed.
Lemma honest_serveLoadingPage n ph : honest (serveLoadingPage n ph).
Proof. unfold serveLoadingPage. meter. Qed.
#[local] Hint Resolve honest_RequestID honest_missing_token honest_invalid_token honest_serveLoadingPage : metrics.

Lemma honest_workspace_ensured cfg namespace reqID claims : honest (workspace_ensured cfg namespace reqID claims).
Proof.
  unfold workspace_ensured. apply honest_bind; [by eauto with metrics|]. intros [[ws|e] d]; [|meter].
  apply honest_bind; [by eauto with metrics|]. intros _. apply honest_bind; [destruct (_ && _); meter|]. meter.
Qed.
Lemma honest_ServeWS url rec ws : honest (ServeWS url rec ws).
Proof. unfold ServeWS. meter. Qed.
#[local] Hint Resolve honest_workspace_ensured honest_ServeWS : metrics.
Lemma honest_ws_session namespace r reqID recording claims ws :
  honest (ws_session namespace r reqID recording claims ws).
Proof. unfold ws_session. meter. Qed.
#[local] Hint Resolve honest_ws_session : metrics.

Lemma honest_handleWorkspaceAPI cfg namespace r secure : honest (handleWorkspaceAPI cfg namespace r secure).
Proof.
  unfold handleWorkspaceAPI. destruct (_ && _); [meter|]. apply honest_bind; [by eauto with metrics|].
  intros reqID. destruct (extractToken r) as [tok|e]; [|meter]. apply honest_bind; [by eauto with metrics|].
  intros [claims|e]; [|meter]. apply honest_limited; [|intros scope; cbn [fst negb]; meter].
  intros scope [] [] [] [] [] []. by constructor.
Qed.

Lemma honest_handleWS cfg namespace fuel getenv r : honest (handleWS cfg namespace fuel getenv r).
Proof.
  unfold handleWS. apply honest_bind; [by eauto with metrics|].
  intros reqID. destruct (extractToken r) as [tok|e]; [|meter]. apply honest_bind; [by eauto with metrics|].
  intros [claims|e]; [|meter]. apply honest_limited; [|intros scope; cbn [fst negb]; meter].
  intros scope [] [] [] [] [] []. by constructor.
Qed.

Lemma honest_handleProxy cfg namespace r secure : honest (handleProxy cfg namespace r secure).
Proof. unfold handleProxy, proxy_to, proxy_through. meter. Qed.
Lemma honest_handleLogin r secure : honest (handleLogin r secure).
Proof. unfold handleLogin. meter. Qed.
Lemma honest_handleCallback r secure : honest (handleCallback r secure).
Proof. unfold handleCallback, callback_token, callback_failed. meter. Qed.

Definition json_labels (x : Z * string) : list string := [pretty x.1; x.2].
Definition hit_labels (x : string * string) : list string := [x.1; x.2].

(** C33. The gateway's metrics are truthful: after any call of a handler, whatever
      the environment does, [devplane_gateway_json_api_errors_total] has grown,
      for every status and code, by the number of JSON error answers the handler
      sent with them, and [devplane_gateway_rate_limit_hits_total], for every
      endpoint and scope, by the number of requests the limiter of that endpoint
      refused with that scope; and exactly those are answered with status
      429. *)
Theorem gateway_metrics_truthful cfg namespace r secure fuel getenv tr :
  exec (handleWorkspaceAPI cfg namespace r secure) tr () ∨
  (∃ a, exec (handleWS cfg namespace fuel getenv r) tr a) ∨
  exec (handleProxy cfg namespace r secure) tr () ∨
  exec (handleLogin r secure) tr () ∨ exec (handleCallback r secure) tr () →
  (∀ m labels, ToFloat64 (Inc_all (map json_labels (recorded_errors tr)) m) labels =
     ToFloat64 m labels + occurrences labels (map json_labels (sent_errors StatusOK tr))) ∧
  (∀ m labels, ToFloat64 (Inc_all (map hit_labels (hits tr)) m) labels =
     ToFloat64 m labels + occurrences labels (map hit_labels (refusals tr))) ∧
  length (refusals tr) = length (filter (λ x, x.1 = StatusTooManyRequests) (sent_errors StatusOK tr)).
Proof.
  intros Hex. assert (Ht : truthful tr).
  { destruct Hex as [Hex|[[a Hex]|[Hex|[Hex|Hex]]]].
    - exact (exec_post _ _ _ _ Hex (honest_handleWorkspaceAPI cfg namespace r secure)).
    - exact (exec_post _ _ _ _ Hex (honest_handleWS cfg namespace fuel getenv r)).
    - exact (exec_post _ _ _ _ Hex (honest_handleProxy cfg namespace r secure)).
    - exact (exec_post _ _ _ _ Hex (honest_handleLogin r secure)).
    - exact (exec_post _ _ _ _ Hex (honest_handleCallback r secure)). }
  destruct Ht as [He Hh Hl]. rewrite (He StatusOK), <- Hh. split_and!; [..|done]; intros; apply Inc_all_count.
Qed.
End gateway.

(** ** Witnesses *)

#[local] Existing Instance ascii_tables.
#[local] Existing Instance RefLib.
#[local] Existing Instance oidc_validator.

(** The run that reports the workspace as running. *)
Lemma operator_metrics_truthful_witness :
  ToFloat64 (Inc_all (transitions (trace ready_cluster)) ∅) ["Creating"; "Running"] = 1.
Proof.
  destruct (operator_metrics_truthful demo_r demo_req (trace ready_cluster) (outcome_of ready_cluster)) as [Ht _].
  - apply run_exec.
  - rewrite Ht. vm_compute. reflexivity.
Defined.

(** A gateway whose limiter refuses everyone. *)
Definition refuse_serve (X : Type) (e : gwE X) (c : cluster) : X * cluster :=
  match e in gwE Y return Y * cluster with
  | AllowReq _ _ => ((false, "user"), c)
  | e' => gw_serve _ e' c
  end.
Definition refused_trace : list (call gwE) :=
  run_trace refuse_serve (handleWorkspaceAPI demo_cfg "workspaces" browser true) no_workspace.

Lemma gateway_metrics_truthful_witness :
  RateLimitHitsTotal "lifecycle" "user" (Inc_all (map hit_labels (hits refused_trace)) ∅) = 1.
Proof.
  unfold RateLimitHitsTotal.
  destruct (gateway_metrics_truthful demo_cfg "workspaces" browser true 31 (λ _, "") refused_trace) as (_ & Hh & _).
  - left. assert (Hu : ∀ u : unit, u = ()) by (by intros []).
    rewrite <- (Hu (run refuse_serve (handleWorkspaceAPI demo_cfg "workspaces" browser true) no_workspace).1).
    apply run_exec.
  - rewrite Hh. vm_compute. reflexivity.
Defined.
