(* ===== verification/GatewayMain.v ===== *)
(** * The gateway as one server ([main] of [cmd/gateway/main.go])

    The routes of the [http.ServeMux], the handler each request reaches, and
    how the process ends. *)
From S2P Require Import Prelude GoStrings GoTime Api K8s K8sClient Cluster Resources Auth Lifecycle LifecycleProps.
From S2P Require Import Fixtures Proxy SessionRecording AuditLog GatewayHttp GatewayConfig GatewayHttpProps.
From S2P Require Import GatewayWitnesses.
From Stdlib Require Import ZArith Lia.
#[local] Open Scope Z_scope.

(** ** [http.ServeMux] *)

(** [path.Clean] of a rooted path: its elements without empty ones and dots, with
    [..] taken back. *)
Definition clean_element (acc : list bytes) (s : bytes) : list bytes :=
  if bool_decide (s = []) || bool_decide (s = bytes_of ".") then acc
  else if bool_decide (s = bytes_of "..") then removelast acc
  else acc ++ [s].
Definition path_elements (p : string) : list bytes :=
  foldl clean_element [] (bytes_split "/" (bytes_of p)).
Definition path_Clean (p : string) : string :=
  "/" +:+ of_bytes (bytes_join "/" (path_elements p)).

(** [cleanPath]: also rooted, and with the trailing slash kept. *)
Definition cleanPath (p : string) : string :=
  if bool_decide (p = "") then "/"
  else
    let p := if HasPrefix p "/" then p else "/" +:+ p in
    let np := path_Clean p in
    if bool_decide (last (bytes_of p) = Some "/"%char) && negb (bool_decide (np = "/")) then np +:+ "/"
    else np.

(** [%XX] in an element. *)
Definition hex_value (c : ascii) : option Z :=
  if is_digit c then Some (bval c - 48)
  else if in_range 97 102 c then Some (bval c - 87)
  else if in_range 65 70 c then Some (bval c - 55)
  else None.
Fixpoint unescape (s : bytes) : bytes :=
  match s with
  | c :: s1 =>
    match s1 with
    | a :: b :: s2 =>
      if Ascii.eqb c "%" then
        match hex_value a, hex_value b with
        | Some x, Some y => byte_of (16 * x + y) :: unescape s2
        | _, _ => c :: unescape s1
        end
      else c :: unescape s1
    | _ => c :: unescape s1
    end
  | [] => []
  end.

Inductive route :=
  | RouteMetrics | RouteHealth | RouteWorkspaceAPI | RouteWS | RouteLogin | RouteCallback | RouteProxy
  (** to the cleaned path *)
  | RouteRedirect (to : string)
  | RouteBadRequest.

(** The handler of a path as it is on the wire.  Only the path of a CONNECT request
    is not cleaned.  The patterns without a trailing slash match one path each,
    [/] the rest. *)
Definition mux (connect : bool) (escapedPath : string) : route :=
  let path := if connect then escapedPath else cleanPath escapedPath in
  if bool_decide (escapedPath = "*") then RouteBadRequest
  else if negb (bool_decide (path = escapedPath)) then RouteRedirect path
  else
    let elements := map (λ e, of_bytes (unescape e)) (bytes_split "/" (drop 1 (bytes_of path))) in
    if bool_decide (elements = ["metrics"]) then RouteMetrics
    else if bool_decide (elements = ["health"]) then RouteHealth
    else if bool_decide (elements = ["api"; "workspace"]) then RouteWorkspaceAPI
    else if bool_decide (elements = ["ws"]) then RouteWS
    else if bool_decide (elements = ["login"]) then RouteLogin
    else if bool_decide (elements = ["callback"]) then RouteCallback
    else RouteProxy.

Example mux_examples :
  map (mux false) ["/ws"; "/ws/"; "/%77s"; "//ws"; "/a/../ws"; "/api/workspace"; "/api"; "/"; "/token"; ""; "*"] =
    [RouteWS; RouteProxy; RouteWS; RouteRedirect "/ws"; RouteRedirect "/ws"; RouteWorkspaceAPI; RouteProxy;
     RouteProxy; RouteProxy; RouteRedirect "/"; RouteBadRequest].
Proof. vm_compute. reflexivity. Qed.

(** ** Serving a request *)

Definition StatusMovedPermanently : Z := 301.

Section server.
Context `{UnicodeTables} `{K8sLib} `{!tokenValidator}.
(** The handler of the metrics library. *)
Context (promhttp : prog gwE unit).
Context (fuel : nat) (getenv : string → string) (cfg : gateway_config).

(** [None]: the fuel of the wait ran out. *)
Definition ServeHTTP (path : string) (r : HttpRequest) : prog gwE (option unit) :=
  let done (p : prog gwE unit) : prog gwE (option unit) := (_ ← p; mret (Some ())) in
  let lc := gc_lifecycle cfg in
  let ns := gc_namespace cfg in
  let secure := gc_cookieSecure cfg in
  match mux (bool_decide (Method r = "CONNECT")) path with
  | RouteMetrics => done promhttp
  | RouteHealth => done handleHealth
  | RouteWorkspaceAPI => done (handleWorkspaceAPI lc ns r secure)
  | RouteWS => handleWS lc ns fuel getenv r
  | RouteLogin => done (handleLogin r secure)
  | RouteCallback => done (handleCallback r secure)
  | RouteProxy => done (handleProxy lc ns r secure)
  | RouteRedirect to => done (request (Redirect to StatusMovedPermanently))
  | RouteBadRequest => done (request (WriteHeader StatusBadRequest))
  end.

(** Writing the response. *)
Definition answer_only (c : call gwE) : Prop :=
  match c with
  | Call e _ =>
    match e with SetHeader _ _ | WriteHeader _ | WriteBody _ | Redirect _ _ => True | _ => False end
  end.

(** What the login redirect does. *)
Definition login_allowed (secure : bool) (c : call gwE) : Prop :=
  match c with
  | Call e _ =>
    match e with
    | UUID | SetHeader _ _ | AuditReq _ | AuthCodeURL _ | Redirect _ _ => True
    | SetCookie ck => ∃ state, ck = MkCookie "devplane_state" state "/" 600 None true secure SameSiteLaxMode
    | _ => False
    end
  end.

(** What may be done for a request on a route, and after what. *)
Definition route_allowed (rt : route) (r : HttpRequest) (h : list (call gwE)) (c : call gwE) : Prop :=
  let lc := gc_lifecycle cfg in
  let ns := gc_namespace cfg in
  match rt with
  | RouteWorkspaceAPI => guarded lc ns (Some "lifecycle") r h c
  | RouteWS => guarded lc ns (Some "websocket") r h c
  | RouteProxy => guarded lc ns None r h c
  | RouteCallback => callback_allowed r (gc_cookieSecure cfg) h c
  | RouteLogin => login_allowed (gc_cookieSecure cfg) c
  | _ => answer_only c
  end.

Hypothesis promhttp_answers : ∀ h, safe (λ _ c, answer_only c) h promhttp.

Lemma safe_done (P : list (call gwE) → call gwE → Prop) h (p : prog gwE unit) :
  safe P h p → safe P h (_ ← p; mret (Some ())).
Proof. intros Hp. by apply safe_bind. Qed.

Lemma handleLogin_allowed r secure h : safe (λ _ c, login_allowed secure c) h (handleLogin r secure).
Proof.
  unfold handleLogin. apply safe_bind; [unfold RequestID; by destruct (bool_decide _)|].
  intros t reqID _ state. split; [done|]. intros u. split; [by exists state|]. by repeat (intros ?; split; [done|]).
Qed.

Lemma ServeHTTP_allowed path r h :
  safe (route_allowed (mux (bool_decide (Method r = "CONNECT")) path) r) h (ServeHTTP path r).
Proof using promhttp_answers.
  unfold ServeHTTP. destruct (mux _ path); try apply safe_done.
  - apply promhttp_answers.
  - done.
  - apply handleWorkspaceAPI_guarded.
  - apply handleWS_guarded.
  - apply handleLogin_allowed.
  - apply handleCallback_allowed.
  - apply handleProxy_guarded.
  - done.
  - done.
Qed.
End server.

Section guarded.
Context `{UnicodeTables} `{K8sLib}.

(** What a validator other than the development one has to show for its claims: an
    ID token its verifier accepted, or an entry of the cache for the hash of the
    token. *)
Definition vouched (r : HttpRequest) (h : list (call gwE)) (claims : Claims) : Prop :=
  ∃ tok, extractToken r = Ok tok ∧
    (Call (AuthReq (CacheLookup (hashToken tok))) (Some claims) ∈ h ∨
     ∃ t email, Call (AuthReq (VerifyToken tok)) (Ok t) ∈ h ∧ email_claim t = Ok email ∧ claims = claims_of t email).

Lemma Validate_vouches tok tr claims :
  exec (Validate tok) tr (Ok claims) →
  Call (CacheLookup (hashToken tok)) (Some claims) ∈ tr ∨
  ∃ t email, Call (VerifyToken tok) (Ok t) ∈ tr ∧ email_claim t = Ok email ∧ claims = claims_of t email.
Proof.
  intros (hit & tr1 & -> & Hex). destruct hit as [c|].
  { destruct Hex as [-> [= ->]]. left. left. }
  right. destruct Hex as ([t|err] & tr2 & -> & Hex).
  2: { cbn -[classifyOIDCVerifyError] in Hex. by destruct (classifyOIDCVerifyError (Some err)); destruct Hex as [_ ?]. }
  cbn -[claims_of] in Hex. destruct (email_claim t) as [email|err] eqn:Ee; [|by destruct Hex].
  destruct Hex as (u & tr3 & -> & _ & [= ->]). exists t, email. split_and!; [right; left|done|done].
Qed.

Lemma oidc_vouches r h claims : @authenticated _ oidc_validator r h claims → vouched r h claims.
Proof.
  intros (tok & h1 & trv & h2 & Et & -> & (tr & -> & Hv)%exec_embed). exists tok. split; [done|].
  assert (Hmap : ∀ X (e : authE X) (x : X), Call e x ∈ tr →
    Call (AuthReq e) x ∈ h1 ++ map (embed_call (@AuthReq _)) tr ++ h2).
  { intros X e x Hin. apply elem_of_app. right. apply elem_of_app. left.
    exact (list_elem_of_fmap_2 (embed_call (@AuthReq _)) _ _ Hin). }
  apply Validate_vouches in Hv as [Hv|(t & email & Hv & Hrest)]; [left|right; exists t, email]; auto.
Qed.

Lemma main_start_oidc getenv discover oauth kube cfg v :
  main_start getenv discover oauth kube = Ok (cfg, v) →
  getenv "GATEWAY_DEV_INSECURE_FIXED_IDENTITY" ≠ "1" → v = oidc_validator.
Proof.
  intros Hs Hdev. unfold main_start in Hs.
  apply result_bind_ok in Hs as (c & _ & Hs). apply result_bind_ok in Hs as (v0 & Hv & Hs).
  apply result_bind_ok in Hs as (_ & _ & Hs). apply result_bind_ok in Hs as (_ & _ & [= _ <-]).
  unfold main_validator in Hv. rewrite bool_decide_eq_false_2 in Hv by done.
  apply result_bind_ok in Hv as (skew & _ & Hv). by apply result_bind_ok in Hv as (vc & _ & [= <-]).
Qed.

(** C4. Nothing is done for a caller who is not authenticated, and then only with
      the caller's own Workspace.  Once [main] has started, whatever path and
      request arrive and whatever the environment answers, every call the
      handler reached through the mux makes is allowed on that route: on the
      REST, WebSocket and proxy routes it comes after the request's own token
      was validated and, on the two limited endpoints, after the limiter
      admitted that subject; an API request reads the Workspace named after
      those claims, creates it, or patches the status of a Workspace the server
      had answered with; the backend that is probed, dialled or proxied to is
      the endpoint of such a Workspace (for the reverse proxy, of a Running
      one).  The login and callback routes only set their cookies and talk to
      the identity provider, the others only answer.  And unless the
      development flag is set, validated claims are those of a token the
      verifier accepted or of a cache entry under the token's hash. *)
Theorem gateway_guarded getenv discover oauth kube cfg v promhttp fuel path r h c :
  main_start getenv discover oauth kube = Ok (cfg, v) →
  (∀ h0, safe (λ _ c, answer_only c) h0 promhttp) →
  asks (@ServeHTTP _ _ v promhttp fuel getenv cfg path r) h c →
  @route_allowed _ v cfg (mux (bool_decide (Method r = "CONNECT")) path) r h c ∧
  (getenv "GATEWAY_DEV_INSECURE_FIXED_IDENTITY" ≠ "1" →
   ∀ claims, @authenticated _ v r h claims → vouched r h claims).
Proof.
  intros Hs Hp Ha. split.
  - exact (safe_asks _ _ _ _ (@ServeHTTP_allowed _ _ v promhttp fuel getenv cfg Hp path r []) Ha).
  - intros Hdev claims. rewrite (main_start_oidc _ _ _ _ _ _ Hs Hdev). apply oidc_vouches.
Qed.
End guarded.

#[local] Existing Instance ascii_tables.
#[local] Existing Instance RefLib.

Definition gw_env (key : string) : string :=
  if bool_decide (key ∈ ["OIDC_ISSUER_URL"; "OIDC_CLIENT_ID"; "OIDC_CLIENT_SECRET"; "OIDC_REDIRECT_URL"])
  then "https://idp" else if bool_decide (key = "NAMESPACE") then "workspaces" else "".

Definition gw_config : gateway_config :=
  MkGatewayConfig "https://idp" "https://idp" "https://idp" "https://idp" "workspaces" "8080"
    (main_lifecycle_config gw_env
       [MkAIProvider "local" "http://vllm.ai-system.svc:8000" ["deepseek-coder-33b-instruct"]]) true.

Lemma gw_started : main_start gw_env (λ _, None) None None = Ok (gw_config, oidc_validator).
Proof.
  assert (Ec : main_config gw_env = Ok gw_config) by (vm_compute; reflexivity).
  assert (Ev : ∃ vc, main_validator gw_env (λ _, None) "https://idp" "https://idp" = Ok (inr vc))
    by (eexists; reflexivity).
  destruct Ev as [vc Ev]. unfold main_start. rewrite Ec. cbn -[main_validator installed]. by rewrite Ev.
Qed.

Abbreviation page_run := (@ServeHTTP _ _ oidc_validator handleHealth 31 gw_env gw_config "/" browser).
Abbreviation page_url := "http://alice-workspace-svc.workspaces.svc.cluster.local:7681".

(** The browser's page comes from the endpoint the operator has published. *)
Lemma gateway_guarded_witness :
  ∃ h x, @guarded _ oidc_validator (gc_lifecycle gw_config) (gc_namespace gw_config) None browser h
      (Call (RoundTrip page_url) x) ∧
    ∀ claims, @authenticated _ oidc_validator browser h claims → vouched browser h claims.
Proof.
  assert (Ha : ∃ h x, asks page_run h (Call (RoundTrip page_url) x)).
  { eexists _, _. apply (run_asks gw_serve page_run running_cluster 5). vm_compute. reflexivity. }
  destruct Ha as (h & x & Ha). exists h, x.
  destruct (gateway_guarded gw_env (λ _, None) None None gw_config oidc_validator handleHealth 31 "/" browser h
    (Call (RoundTrip page_url) x) gw_started) as [Hg Hv]; [done|exact Ha|].
  split; [exact Hg|]. apply Hv. vm_compute. discriminate.
Defined.
