(* ===== verification/GatewayProcess.v ===== *)
(** * How the gateway process ends ([main] of [cmd/gateway/main.go])

    From line 191 on: the goroutine that serves, the channel of its error, the
    [select] of [main] and the requests and sessions in flight, as one step relation
    with one clock; before it, the start-up, which ends the process or lets it
    serve. *)
From S2P Require Import Prelude GoStrings GoTime Sha256 Api K8s Fixtures Proxy SessionRecording.
From S2P Require Import SessionRecordingProps Session SessionProps SessionRecords SessionWitnesses.
From S2P Require Import K8sClient GatewayHttp GatewayConfig GatewayMain.
From Stdlib Require Import ZArith Lia.
#[local] Open Scope Z_scope.

(** ** State *)

(** What [srv.ListenAndServe] returns; it never returns [nil]. *)
Inductive serve_end := ErrServerClosed | ServeError (e : error).

(** The goroutine: in [ListenAndServe], after it, after the send on [srvErr],
    after the [close]. *)
Inductive listener := Listening | Returned (r : serve_end) | Reported (r : serve_end) | Gone (r : serve_end).

(** A request that a handler is busy with; a WebSocket session, whose connection
    was taken over from the server. *)
Inductive connection := ConnHttp | ConnTunnel (s : session).

Inductive main_phase := Selecting | ShuttingDown | Exited (code : Z).

Record gateway := MkGateway {
  gp_main : main_phase;
  gp_listener : listener;
  (** the buffer of [srvErr] *)
  gp_srvErr : option error;
  gp_conns : list connection;
  gp_signals : nat;
  (** when [main] took up the signal, and the deadline of [shutdownCtx] *)
  gp_began : option Time;
  gp_deadline : option Time;
  gp_now : Time;
}.

(** Line 191: the start-up is over. *)
Definition gateway_start (now : Time) : gateway := MkGateway Selecting Listening None [] 0 None None now.

Definition with_conns (cs : list connection) (p : gateway) : gateway :=
  MkGateway (gp_main p) (gp_listener p) (gp_srvErr p) cs (gp_signals p) (gp_began p) (gp_deadline p) (gp_now p).
Definition with_listener (l : listener) (ch : option error) (p : gateway) : gateway :=
  MkGateway (gp_main p) l ch (gp_conns p) (gp_signals p) (gp_began p) (gp_deadline p) (gp_now p).
Definition exited (code : Z) (p : gateway) : gateway :=
  MkGateway (Exited code) (gp_listener p) (gp_srvErr p) (gp_conns p) (gp_signals p) (gp_began p) (gp_deadline p) (gp_now p).
Definition shutting_down (p : gateway) : gateway :=
  MkGateway ShuttingDown (gp_listener p) (gp_srvErr p) (gp_conns p) (gp_signals p)
    (Some (gp_now p)) (Some (gp_now p + 30 * Second)) (gp_now p).
Definition signalled (p : gateway) : gateway :=
  MkGateway (gp_main p) (gp_listener p) (gp_srvErr p) (gp_conns p) 1 (gp_began p) (gp_deadline p) (gp_now p).
Definition signalled_again (p : gateway) : gateway :=
  MkGateway (Exited 1) (gp_listener p) (gp_srvErr p) (gp_conns p) 2 (gp_began p) (gp_deadline p) (gp_now p).

(** The sessions see the same clock. *)
Definition conn_time (t : Time) (c : connection) : connection :=
  match c with ConnHttp => ConnHttp | ConnTunnel s => ConnTunnel (at_time t s) end.
Definition clock (t : Time) (p : gateway) : gateway :=
  MkGateway (gp_main p) (gp_listener p) (gp_srvErr p) (map (conn_time t) (gp_conns p)) (gp_signals p)
    (gp_began p) (gp_deadline p) t.

(** ** Steps *)

(** Steps of a running process. *)
Inductive live_step (p : gateway) : gateway → Prop :=
  (** a request comes in, is answered, becomes a session; a session goes on, ends *)
  | P_accept :
      gp_listener p = Listening → gp_main p = Selecting → live_step p (with_conns (gp_conns p ++ [ConnHttp]) p)
  | P_answered cs1 cs2 :
      gp_conns p = cs1 ++ ConnHttp :: cs2 → live_step p (with_conns (cs1 ++ cs2) p)
  | P_hijacked cs1 cs2 r ws :
      gp_conns p = cs1 ++ ConnHttp :: cs2 →
      live_step p (with_conns (cs1 ++ ConnTunnel (session_start (gp_now p) r ws) :: cs2) p)
  | P_session cs1 cs2 s s' :
      gp_conns p = cs1 ++ ConnTunnel s :: cs2 → session_step s s' → se_now s' = se_now s →
      live_step p (with_conns (cs1 ++ ConnTunnel s' :: cs2) p)
  | P_left cs1 cs2 s :
      gp_conns p = cs1 ++ ConnTunnel s :: cs2 → se_handler s = Closed → live_step p (with_conns (cs1 ++ cs2) p)
  (** SIGTERM or SIGINT; the second one ends the process at once, as the library
      that installs the handler documents *)
  | P_signal : gp_signals p = 0%nat → live_step p (signalled p)
  | P_signal_again : gp_signals p = 1%nat →
      live_step p (signalled_again p)
  (** [ListenAndServe] fails, or returns because [Shutdown] was called *)
  | P_failed e :
      gp_listener p = Listening → live_step p (with_listener (Returned (ServeError e)) (gp_srvErr p) p)
  | P_closed :
      gp_listener p = Listening → gp_main p = ShuttingDown →
      live_step p (with_listener (Returned ErrServerClosed) (gp_srvErr p) p)
  (** [srvErr <- err] when there is room, then [close(srvErr)] *)
  | P_report e :
      gp_listener p = Returned (ServeError e) → gp_srvErr p = None →
      live_step p (with_listener (Reported (ServeError e)) (Some e) p)
  | P_close r :
      gp_listener p = Reported r ∨ gp_listener p = Returned r ∧ r = ErrServerClosed →
      live_step p (with_listener (Gone r) (gp_srvErr p) p)
  (** [case <-ctx.Done()] *)
  | P_ctx_done :
      gp_main p = Selecting → (0 < gp_signals p)%nat → live_step p (shutting_down p)
  (** [Shutdown] returns when no request is in flight, whatever the sessions do,
      or with the error of its context *)
  | P_drained : gp_main p = ShuttingDown → ConnHttp ∉ gp_conns p → live_step p (exited 0 p)
  | P_expired d :
      gp_main p = ShuttingDown → gp_deadline p = Some d → d <= gp_now p → live_step p (exited 0 p)
  (** [case err := <-srvErr]: an error, or [nil] from the closed channel *)
  | P_srvErr e : gp_main p = Selecting → gp_srvErr p = Some e → live_step p (exited 1 p)
  | P_srvErr_nil r :
      gp_main p = Selecting → gp_srvErr p = None → gp_listener p = Gone r → live_step p (exited 0 p)
  | P_tick t : gp_now p <= t → live_step p (clock t p).

Definition running_process (p : gateway) : Prop := ∀ code, gp_main p ≠ Exited code.
Definition gateway_step (p q : gateway) : Prop := running_process p ∧ live_step p q.
Definition gateway_runs : gateway → gateway → Prop := rtc gateway_step.

(** Lines 70-190: the process ends with status 1 when the logger cannot be made or
    the rest of the start-up fails, and serves otherwise. *)
Definition gateway_launch {A} (logger : option error) (started : result A) (now : Time) : gateway :=
  match logger, started with
  | None, Ok _ => gateway_start now
  | _, _ => exited 1 (gateway_start now)
  end.

(** ** The invariant *)

Definition served (l : listener) : option serve_end :=
  match l with Listening => None | Returned r | Reported r | Gone r => Some r end.

Record process_ok (p : gateway) : Prop := {
  ok_selecting : gp_main p = Selecting → gp_deadline p = None;
  ok_shutting : gp_main p = ShuttingDown → is_Some (gp_deadline p);
  ok_deadline d : gp_deadline p = Some d → (0 < gp_signals p)%nat ∧ ∃ b, gp_began p = Some b ∧ d = b + 30 * Second ∧ b <= gp_now p;
  ok_closed : served (gp_listener p) = Some ErrServerClosed → is_Some (gp_deadline p);
  ok_quiet : gp_listener p = Listening ∨ (∃ r, gp_listener p = Returned r) → gp_srvErr p = None;
  ok_sent e : gp_listener p = Reported (ServeError e) ∨ gp_listener p = Gone (ServeError e) → gp_srvErr p = Some e;
  ok_failed e : gp_srvErr p = Some e → served (gp_listener p) = Some (ServeError e);
  ok_reported r : gp_listener p = Reported r → r ≠ ErrServerClosed;
  ok_exit1 : gp_main p = Exited 1 → gp_signals p = 2%nat ∨ ∃ e, served (gp_listener p) = Some (ServeError e);
  ok_exit0 : gp_main p = Exited 0 → ∃ d, gp_deadline p = Some d ∧ (ConnHttp ∉ gp_conns p ∨ d <= gp_now p);
  ok_codes code : gp_main p = Exited code → code = 0 ∨ code = 1;
}.

Lemma process_ok_start now : process_ok (gateway_start now).
Proof. split; cbn; naive_solver. Qed.

(** A field that the step does not concern, or that it contradicts. *)
Ltac untouched :=
  intros; repeat match goal with
  | H : _ ∨ _ |- _ => destruct H
  | H : ∃ _, _ |- _ => destruct H
  | H : _ ∧ _ |- _ => destruct H
  end; simplify_eq/=; eauto; try (exfalso; eauto; fail).

Lemma process_ok_step p q : process_ok p → gateway_step p q → process_ok q.
Proof.
  intros [Hsel Hshut Hdl Hcl Hq Hsent Hf Hrep He1 He0 Hc] [Hrun Hs].
  destruct p as [m l ch cs n b d t]. unfold running_process in Hrun. cbn in *.
  destruct Hs; cbn in *; subst; split; cbn in *; try (by untouched).
  all: try (intros E; by destruct (Hrun _ E)).
  all: try (intros d0 E; destruct (Hdl d0 E) as (? & b0 & ? & ? & ?); split; [lia|exists b0; split_and!; (done || lia)]).
  all: try (intros e0 E; rewrite Hq in E by eauto; done).
  - intros d0 [= <-]. split; [done|]. eexists. split_and!; [done|done|lia].
  - destruct (Hshut eq_refl) as [d0 ->]. eauto.
  - destruct r as [|e]; [destruct (Hcl eq_refl) as [? E]; by rewrite Hsel in E|].
    specialize (Hsent e (or_intror eq_refl)). congruence.
Qed.

Lemma process_reachable now p : gateway_runs (gateway_start now) p → process_ok p.
Proof. apply (rtc_ind_r process_ok (gateway_start now)); eauto using process_ok_start, process_ok_step. Qed.

(** ** Ending *)

Lemma step_runs p q q' : running_process p → live_step p q → gateway_runs q q' → gateway_runs p q'.
Proof. intros. eapply rtc_l; [split; eassumption|done]. Qed.

(** [Shutdown] does not outlast its context, whatever is in flight. *)
Lemma shutdown_ends p :
  process_ok p → gp_main p = ShuttingDown →
  ∃ q, gateway_runs p q ∧ gp_main q = Exited 0 ∧ gp_now q <= gp_now p + 30 * Second ∧
    gp_conns q = map (conn_time (gp_now q)) (gp_conns p).
Proof.
  intros Hok E. destruct (ok_shutting p Hok E) as [d Hd]. destruct (ok_deadline p Hok d Hd) as (_ & b & _ & Eb & Hle).
  exists (exited 0 (clock (Z.max d (gp_now p)) p)). split; [|split; [done|split; [cbn; assert (0 < Second) by reflexivity; lia|done]]].
  eapply step_runs; [intros code; by rewrite E|apply (P_tick p (Z.max d (gp_now p))); lia|].
  apply rtc_once. split; [intros code; cbn; by rewrite E|]. eapply P_expired; [done|exact Hd|cbn; lia].
Qed.

Lemma signalled_ends p :
  process_ok p → running_process p → (0 < gp_signals p)%nat →
  ∃ q, gateway_runs p q ∧ gp_main q = Exited 0 ∧ gp_now q <= gp_now p + 30 * Second ∧
    gp_conns q = map (conn_time (gp_now q)) (gp_conns p).
Proof.
  intros Hok Hrun Hn. destruct (gp_main p) as [| |code] eqn:E; [|by apply shutdown_ends|by destruct (Hrun code)].
  pose proof (P_ctx_done p E Hn) as Hs.
  destruct (shutdown_ends (shutting_down p)) as (q & Hr & He & Ht); [by eapply process_ok_step|done|].
  exists q. split; [by eapply step_runs|done].
Qed.

Lemma failed_ends p e :
  process_ok p → gp_main p = Selecting → served (gp_listener p) = Some (ServeError e) →
  ∃ q, gateway_runs p q ∧ gp_main q = Exited 1 ∧ gp_now q = gp_now p.
Proof.
  intros Hok E Hl. assert (Hrun : running_process p) by (intros code; by rewrite E).
  assert (Hch : gp_listener p = Returned (ServeError e) ∧ gp_srvErr p = None ∨ gp_srvErr p = Some e).
  { destruct (gp_listener p) as [|r|r|r] eqn:El; simplify_eq/=; [left|right..].
    - split; [done|]. apply (ok_quiet p Hok). eauto.
    - apply (ok_sent p Hok). by left.
    - apply (ok_sent p Hok). by right. }
  destruct Hch as [[El Hn]|Hs].
  - exists (exited 1 (with_listener (Reported (ServeError e)) (Some e) p)). split; [|done].
    eapply step_runs; [done|by apply P_report|]. apply rtc_once. split; [done|]. by eapply P_srvErr.
  - exists (exited 1 p). split; [|done]. apply rtc_once. split; [done|]. by eapply P_srvErr.
Qed.

(** An ended process stays as it is. *)
Lemma exited_stays p q code : gp_main p = Exited code → gateway_runs p q → q = p.
Proof. intros E Hr. inversion Hr as [|? ? ? [Hrun _] _]; [done|]. by destruct (Hrun code). Qed.

Lemma launched_runs {A} logger (started : result A) now p :
  gateway_runs (gateway_launch logger started now) p →
  (logger ≠ None ∨ is_ok started = false) ∧ p = exited 1 (gateway_start now) ∨
  (logger = None ∧ is_ok started = true) ∧ gateway_runs (gateway_start now) p.
Proof.
  unfold gateway_launch. destruct logger, started; cbn [is_ok]; intros Hr; try by right.
  all: left; split; [auto|by eapply exited_stays].
Qed.

Section exit.
Context `{UnicodeTables} `{K8sLib}.

(** C39. How the gateway process ends, under every interleaving of signals, the
      serving goroutine, requests and sessions.  It exits with status 1 only when
      the start-up failed, [ListenAndServe] failed or a second signal came, with
      status 0 only after a signal, and then with a request in flight only
      when 30 seconds have passed since [main] took the signal up, and with no other
      status; the [nil] of the closed channel never ends it.  When the start-up
      fails the process has ended.  The serving goroutine always has room to
      report its error; after a signal the process can always end with status 0
      within 30 seconds although no request in flight is ever answered, and after a
      failure of the server with status 1 at once. *)
Theorem gateway_exit getenv discover logger oauth kube now p :
  let started := main_start getenv discover oauth kube in
  gateway_runs (gateway_launch logger started now) p →
  (∀ code, gp_main p = Exited code →
    code = 1 ∧ (logger ≠ None ∨ is_ok started = false ∨ gp_signals p = 2%nat ∨
      ∃ e, served (gp_listener p) = Some (ServeError e)) ∨
    code = 0 ∧ (0 < gp_signals p)%nat ∧
      ∃ b, gp_began p = Some b ∧ (ConnHttp ∈ gp_conns p → b + 30 * Second <= gp_now p)) ∧
  (logger ≠ None ∨ is_ok started = false → gp_main p = Exited 1 ∧ gp_conns p = [] ∧ gp_now p = now) ∧
  (∀ e, gp_listener p = Returned (ServeError e) → gp_srvErr p = None) ∧
  (running_process p → (0 < gp_signals p)%nat →
    ∃ q, gateway_runs p q ∧ gp_main q = Exited 0 ∧ gp_now q <= gp_now p + 30 * Second ∧
      gp_conns q = map (conn_time (gp_now q)) (gp_conns p)) ∧
  (∀ e, gp_main p = Selecting → served (gp_listener p) = Some (ServeError e) →
    ∃ q, gateway_runs p q ∧ gp_main q = Exited 1 ∧ gp_now q = gp_now p).
Proof.
  intros started Hr. apply launched_runs in Hr as [[Hfail ->]|([-> Hst] & Hok%process_reachable)].
  { split_and!; try done; [|by intros Hrun; destruct (Hrun 1)]. intros code [= <-]. left. split; [done|]. tauto. }
  split_and!.
  - intros code E. destruct (ok_codes p Hok code E) as [->| ->].
    + right. destruct (ok_exit0 p Hok E) as (d & Hd & Hc). destruct (ok_deadline p Hok d Hd) as (Hn & b & Hb & -> & _).
      split; [done|]. split; [done|]. exists b. split; [done|]. by destruct Hc.
    + left. split; [done|]. right. right. by apply (ok_exit1 p Hok).
  - intros [?|?]; [done|congruence].
  - intros e El. apply (ok_quiet p Hok). eauto.
  - by apply signalled_ends.
  - intros e. by apply failed_ends.
Qed.
End exit.

(** ** Sessions at the end *)

(** A step of a session takes no time, or is the passing of time. *)
Lemma session_step_time s s' :
  session_step s s' → se_now s' = se_now s ∨ ∃ t, se_now s <= t ∧ s' = at_time t s.
Proof. destruct 1 as [| | | | | |? ? ? [] ?| | | | | |]; try (by left). right. eauto. Qed.

(** The process with a session alone, at the time of the session. *)
Definition alone (s : session) : gateway := with_conns [ConnTunnel s] (gateway_start (se_now s)).

Lemma session_in_process s s' : session_runs s s' → gateway_runs (alone s) (alone s').
Proof.
  revert s'. apply rtc_ind_r; [apply rtc_refl|]. intros s1 s2 _ Hs IH. eapply rtc_r; [exact IH|]. split; [done|].
  destruct (session_step_time _ _ Hs) as [E|(t & Ht & ->)]; [|exact (P_tick (alone s1) t Ht)].
  unfold alone at 2. rewrite E. exact (P_session (alone s1) [] [] s1 s2 eq_refl Hs E).
Qed.

(** The gateway with one session, in any state it can reach, right after the end
    of a shutdown that began at the time of that state. *)
Definition cut (s : session) : gateway := exited 0 (shutting_down (signalled (alone s))).

Lemma cut_reachable now r ws s :
  session_runs (session_start now r ws) s → gateway_runs (gateway_start now) (cut s).
Proof.
  intros Hs. set (p0 := gateway_start now).
  apply (step_runs _ (with_conns [ConnHttp] p0)); [done|by apply P_accept|].
  apply (step_runs _ (alone (session_start now r ws))); [done|exact (P_hijacked (with_conns [ConnHttp] p0) [] [] r ws eq_refl)|].
  transitivity (alone s); [by apply session_in_process|].
  apply (step_runs _ (signalled (alone s))); [done|by apply P_signal|].
  apply (step_runs _ (shutting_down (signalled (alone s)))); [done|apply P_ctx_done; cbn; [done|lia]|].
  apply rtc_once. split; [done|]. apply P_drained; [done|]. cbn. intros Hin. by apply list_elem_of_singleton in Hin.
Qed.

(** C40. WebSocket sessions do not drain: in whatever state a session is when the
      signal comes, the process can end with status 0 at that very moment, its
      30 seconds unused; and when the session's handler has not closed the
      recorder by then, the recording is left without its manifest, so its
      end is not protected. *)
Theorem shutdown_cuts_sessions cfg meta tr0 r0 now ws s :
  exec (NewSessionRecorder cfg meta) tr0 r0 → session_runs (session_start now r0 ws) s → se_handler s ≠ Closed →
  session_manifests tr0 s = [] ∧
  ∃ p, gateway_runs (gateway_start now) p ∧ gp_main p = Exited 0 ∧ gp_conns p = [ConnTunnel s] ∧
    gp_now p = se_now s ∧ gp_began p = Some (se_now s) ∧ gp_deadline p = Some (se_now s + 30 * Second) ∧
    gp_signals p = 1%nat.
Proof.
  intros Hnew Hs Hh. split.
  - exact (session_unsealed cfg meta tr0 r0 now ws s Hnew Hs Hh).
  - exists (cut s). split; [by eapply cut_reachable|done].
Qed.

(** A recorded session in the middle of which the pod is replaced. *)
Definition typed_session : session :=
  play (times 10 (Go Pump2 (typing open_ws))) (session_start demo_now new_recorder open_ws).

Lemma typed_session_runs : session_runs (session_start demo_now new_recorder open_ws) typed_session.
Proof. apply play_runs, rtc_refl. Qed.

Lemma shutdown_cuts_sessions_witness :
  length (session_records new_trace typed_session) = 1%nat ∧ session_manifests new_trace typed_session = [].
Proof.
  split; [vm_compute; reflexivity|].
  apply (shutdown_cuts_sessions full_cfg some_meta new_trace new_recorder demo_now open_ws typed_session
    new_recorder_exec typed_session_runs). discriminate.
Defined.

#[local] Existing Instance ascii_tables.
#[local] Existing Instance RefLib.

(** The process that was cut, after a start-up that went well; and one whose
    environment is empty. *)
Lemma gateway_exit_witness :
  (0 < gp_signals (cut typed_session))%nat ∧
  gp_main (gateway_launch None (main_start (λ _, "") (λ _, None) None None) demo_now) = Exited 1.
Proof.
  split.
  - destruct (gateway_exit gw_env (λ _, None) None None None demo_now (cut typed_session)) as (Hx & _).
    + rewrite gw_started. exact (cut_reachable demo_now new_recorder open_ws typed_session typed_session_runs).
    + destruct (Hx 0 eq_refl) as [[E _]|(_ & Hn & _)]; [discriminate E|exact Hn].
  - apply (gateway_exit (λ _, "") (λ _, None) None None None demo_now
      (gateway_launch None (main_start (λ _, "") (λ _, None) None None) demo_now)); [apply rtc_refl|].
    right. reflexivity.
Defined.
