(* ===== verification/OperatorMain.v ===== *)
(** * The operator's configuration ([main.go])

    The reconciler [main] builds from the environment, and the calls it makes of
    the manager. *)
From S2P Require Import Prelude GoStrings GoTime Controller.
From Stdlib Require Import ZArith Lia.
#[local] Open Scope Z_scope.

(** [LLM_NAMESPACES]. *)
Definition parse_namespaces (raw : string) : list string :=
  if bool_decide (raw = "") then []
  else List.filter (λ ns, negb (bool_decide (ns = ""))) (map TrimSpace (Split raw ",")).

(** One entry of [EGRESS_PORTS]; an invalid one is ignored. *)
Definition parse_port (raw : string) : option Z :=
  let raw := TrimSpace raw in
  if bool_decide (raw = "") then None
  else match ParseInt raw 32 with
       | Some p => if (p <? 1) || (65535 <? p) then None else Some p
       | None => None
       end.
Definition parse_ports (raw : string) : list Z :=
  if bool_decide (raw = "") then [] else omap parse_port (Split raw ",").

(** [IDLE_TIMEOUT]. *)
Definition parse_idle (raw : string) : Duration :=
  if bool_decide (raw = "") then 0
  else match ParseDuration raw with Ok d => d | Err _ => 0 end.

Definition main_reconciler (getenv : string → string) : WorkspaceReconciler :=
  let image := getenv "WORKSPACE_IMAGE" in
  MkReconciler (if bool_decide (image = "") then "workspace:latest" else image)
    (parse_namespaces (getenv "LLM_NAMESPACES"))
    (parse_ports (getenv "EGRESS_PORTS"))
    (parse_idle (getenv "IDLE_TIMEOUT"))
    (getenv "GATEWAY_NAMESPACE")
    (getenv "DEFAULT_CA_BUNDLE_CONFIGMAP")
    (getenv "PIP_INDEX_URL") (getenv "PIP_TRUSTED_HOST") (getenv "NPM_REGISTRY") true.

(** ** Starting the manager *)

Record flags := MkFlags { metricsAddr : string; probeAddr : string; enableLeaderElection : bool }.
(** Without arguments. *)
Definition default_flags : flags := MkFlags ":8080" ":8081" false.

(** Calls of the manager; [Some] is the error returned. *)
Inductive mgrE : Type → Type :=
  | NewManager (metricsBindAddress healthProbeBindAddress : string) (leaderElection : bool)
      (leaderElectionID : string) : mgrE (option error)
  | SetupController (r : WorkspaceReconciler) : mgrE (option error)
  | AddHealthzCheck (name : string) : mgrE (option error)
  | AddReadyzCheck (name : string) : mgrE (option error)
  | StartManager : mgrE (option error).

(** [os.Exit(1)] after an error. *)
Definition or_exit (e : mgrE (option error)) (next : prog mgrE Z) : prog mgrE Z :=
  err ← request e;
  match err with
  | Some _ => mret 1
  | None => next
  end.

(** The exit status. *)
Definition operator_main (f : flags) (getenv : string → string) : prog mgrE Z :=
  or_exit (NewManager (metricsAddr f) (probeAddr f) (enableLeaderElection f) "workspace.devplane.io")
  (or_exit (SetupController (main_reconciler getenv))
  (or_exit (AddHealthzCheck "healthz")
  (or_exit (AddReadyzCheck "readyz")
  (or_exit StartManager (mret 0))))).

(** ** Properties *)

(** One step of [main]: the call fails and the status is 1, or it goes on. *)
Lemma or_exit_exec e next tr code :
  exec (or_exit e next) tr code ↔
  (∃ err, tr = [Call e (Some err)] ∧ code = 1) ∨ ∃ t, tr = Call e None :: t ∧ exec next t code.
Proof.
  unfold or_exit. rewrite exec_request. split.
  - intros ([err|] & t & -> & Hex); [left|right; eauto]. destruct Hex as [-> ->]. eauto.
  - intros [(err & -> & ->)|(t & -> & Hex)]; [exists (Some err), []|exists None, t]; done.
Qed.

(** Calls made one after the other until one fails. *)
Definition calls_made (calls : list (mgrE (option error))) (tr : list (call mgrE)) (code : Z) : Prop :=
  code = 0 ∧ tr = map (λ e, Call e None) calls ∨
  code = 1 ∧ ∃ pre e post err, calls = pre ++ e :: post ∧ tr = map (λ e, Call e None) pre ++ [Call e (Some err)].

Lemma calls_exec calls tr code : exec (foldr or_exit (mret 0) calls) tr code → calls_made calls tr code.
Proof.
  revert tr. induction calls as [|e calls IH]; intros tr.
  - intros [-> ->]. by left.
  - intros [(err & -> & ->)|(t & -> & Hex)]%or_exit_exec.
    + right. split; [done|]. by exists [], e, calls, err.
    + destruct (IH t Hex) as [[-> ->]|(-> & pre & e' & post & err & -> & ->)]; [by left|right].
      split; [done|]. by exists (e :: pre), e', post, err.
Qed.

(** [main] makes its five calls in order, the start of the manager last, once the
    controller with this configuration and both checks are registered; it ends
    with status 1 at the first that fails, and with 0 when none does. *)
Theorem operator_main_ordered f getenv tr code :
  exec (operator_main f getenv) tr code →
  calls_made [NewManager (metricsAddr f) (probeAddr f) (enableLeaderElection f) "workspace.devplane.io";
    SetupController (main_reconciler getenv); AddHealthzCheck "healthz"; AddReadyzCheck "readyz"; StartManager] tr code.
Proof. apply (calls_exec [_; _; _; _; _]). Qed.

Lemma parse_port_range raw p : parse_port raw = Some p → 1 <= p <= 65535.
Proof. unfold parse_port. repeat case_match; intros [= <-]. lia. Qed.

Lemma parse_ports_range raw : Forall (λ p, 1 <= p <= 65535) (parse_ports raw).
Proof.
  unfold parse_ports. case_bool_decide; [constructor|]. apply Forall_forall. intros p Hp.
  apply list_elem_of_omap in Hp as (s & _ & Hs). by eapply parse_port_range.
Qed.

Lemma parse_namespaces_nonempty raw : Forall (λ ns, ns ≠ "") (parse_namespaces raw).
Proof.
  unfold parse_namespaces. case_bool_decide; [constructor|]. apply Forall_forall. intros ns Hns.
  apply list_elem_of_In, filter_In in Hns as [_ Hns]. by case_bool_decide.
Qed.

(** ** Decimal numbers read back *)

Lemma decode_digits s : Forall (λ c, is_digit c = true) s → decode_runes s = map (λ c, (bval c, [c])) s.
Proof.
  induction 1 as [|c s Hc _ IH]; [done|]. cbn [decode_runes map].
  assert (is_ascii c = true) as -> by (unfold is_ascii, is_digit, in_range in *; lia).
  by rewrite IH.
Qed.

Lemma drop_while_none {A} (P : A → bool) l : Forall (λ x, P x = false) l → drop_while P l = l.
Proof. destruct 1 as [|x l Hx _]; [done|]. cbn. by rewrite Hx. Qed.

Lemma TrimSpace_digits s : Forall (λ c, is_digit c = true) (bytes_of s) → TrimSpace s = s.
Proof.
  intros Hs. unfold TrimSpace. rewrite decode_digits by done.
  assert (Hn : Forall (λ p : Z * bytes, is_space p.1 = false) (map (λ c, (bval c, [c])) (bytes_of s))).
  { apply Forall_fmap. eapply Forall_impl; [exact Hs|]. intros c Hc. cbn.
    destruct c as [[] [] [] [] [] [] [] []]; done. }
  rewrite (drop_while_none _ _ Hn). unfold drop_while_end.
  rewrite drop_while_none by (by apply Forall_reverse). rewrite reverse_involutive.
  rewrite <- (decode_digits _ Hs), decode_runes_concat. apply of_bytes_of.
Qed.

Lemma leadingInt_digits_val s x n :
  Forall (λ c, is_digit c = true) s → leadingInt x s = Some (n, []) → digits_val x s = Some n.
Proof.
  intros Hs. revert x. induction Hs as [|c s Hc _ IH]; intros x; cbn; [by intros [= ->]|].
  rewrite Hc. repeat case_match; try done. apply IH.
Qed.

Lemma ParseInt_pretty (n : N) bits :
  Z.of_N n < 2 ^ (bits - 1) → Z.of_N n <= max_int64 → ParseInt (pretty n) bits = Some (Z.of_N n).
Proof.
  intros Hb Hm. destruct (pretty_digits n) as [Hd Hne]. unfold ParseInt.
  assert (Hl : leadingInt 0 (bytes_of (pretty n) ++ []) = Some (Z.of_N n, [])).
  { apply pretty_leadingInt; [unfold max_int64, two63 in *; lia|done]. }
  rewrite app_nil_r in Hl. apply leadingInt_digits_val in Hl; [|done].
  destruct (bytes_of (pretty n)) as [|c l] eqn:Ec; [done|].
  assert (Hc : is_digit c = true) by (by inversion Hd).
  assert (Ascii.eqb c "-" = false ∧ Ascii.eqb c "+" = false) as [-> ->]
    by (split; apply Ascii.eqb_neq; by intros ->).
  rewrite Hl. assert (0 < 2 ^ (bits - 1)) by lia.
  assert ((- 2 ^ (bits - 1) <=? Z.of_N n) && (Z.of_N n <? 2 ^ (bits - 1)) = true) as ->; [|done].
  apply andb_true_iff. split; [apply Z.leb_le|apply Z.ltb_lt]; lia.
Qed.

Lemma port_reads_back p :
  1 <= p <= 65535 → parse_port (pretty p) = Some p ∧ Forall (λ c, c ≠ ","%char) (bytes_of (pretty p)).
Proof.
  intros Hp. destruct p as [|q|q]; [lia| |lia]. change (pretty (Zpos q)) with (pretty (Npos q)).
  destruct (pretty_digits (Npos q)) as [Hd Hne]. split.
  - unfold parse_port. rewrite TrimSpace_digits by done. rewrite bool_decide_eq_false_2 by (by rewrite <- bytes_of_nil).
    rewrite ParseInt_pretty by (unfold max_int64; cbn; lia). cbn [Z.of_N].
    assert ((Zpos q <? 1) || (65535 <? Zpos q) = false) as ->; [|done].
    apply orb_false_iff. split; apply Z.ltb_ge; lia.
  - eapply Forall_impl; [exact Hd|]. by intros c Hc ->.
Qed.

(** The documented way to write the list: decimal numbers between commas. *)
Definition print_ports (ps : list Z) : string := of_bytes (bytes_join "," (map (λ p, bytes_of (pretty p)) ps)).

(** C35. The operator's configuration is well formed whatever the environment
      holds: the image name and every LLM namespace are not empty, every
      egress port is between 1 and 65535; and a comma-separated list of such
      ports is read back exactly. *)
Theorem main_reconciler_wellformed getenv :
  WorkspaceImage (main_reconciler getenv) ≠ "" ∧
  Forall (λ ns, ns ≠ "") (LLMNamespaces (main_reconciler getenv)) ∧
  Forall (λ p, 1 <= p <= 65535) (EgressPorts (main_reconciler getenv)) ∧
  ∀ ps, Forall (λ p, 1 <= p <= 65535) ps → getenv "EGRESS_PORTS" = print_ports ps →
    EgressPorts (main_reconciler getenv) = ps.
Proof.
  split_and!.
  - cbn. by case_bool_decide.
  - apply parse_namespaces_nonempty.
  - apply parse_ports_range.
  - intros ps Hps E. cbn. rewrite E. destruct ps as [|p ps]; [done|].
    unfold parse_ports. case_bool_decide as Hne.
    { exfalso. apply (f_equal bytes_of) in Hne. unfold print_ports in Hne. rewrite bytes_of_of in Hne.
      apply Forall_cons in Hps as [Hp _]. destruct (port_reads_back p Hp) as [Hr _].
      assert (bytes_of (pretty p) = []) as Ec
        by (destruct ps; cbn [map bytes_join] in Hne; [done|by apply app_eq_nil in Hne as [? _]]).
      apply (f_equal of_bytes) in Ec. rewrite of_bytes_of in Ec. rewrite Ec in Hr. done. }
    unfold Split, print_ports. rewrite bytes_of_of, split_join; [|done|].
    2: { apply Forall_fmap. eapply Forall_impl; [exact Hps|]. intros q Hq. apply (port_reads_back q Hq). }
    clear Hne E. revert Hps. generalize (p :: ps). intros l.
    induction 1 as [|q qs Hq _ IH]; [done|]. cbn. rewrite of_bytes_of, (proj1 (port_reads_back q Hq)).
    f_equal. exact IH.
Qed.

Definition ports_env : string → string := λ k, if bool_decide (k = "EGRESS_PORTS") then "22,443" else "".

Lemma main_reconciler_wellformed_witness : EgressPorts (main_reconciler ports_env) = [22; 443].
Proof. apply (main_reconciler_wellformed ports_env); [repeat constructor; lia|vm_compute; reflexivity]. Defined.
